(** * Crew rostering: exact constraint model and genetic search

    A shallow embedding of the roster-assignment core:
    - [Models]      : core/models.py      (role normalisation, night window, rules)
    - [Loader]      : core/loader.py      (the data bundle, its lookup maps and
                                            [load_data] on the parsed tables)
    - [Eligibility] : core/eligibility.py (role slots and the eligible relation)
    - [Genetic]     : genetic_optimizer.py (repair, fitness, stability, operators,
                                            the generation loop)
    - [CpModel]     : the part of the CP-SAT modelling interface that is used
    - [Constraints] : core/constraints.py (the model handed to the solver)
    - [Objective]   : core/objective.py   (the objective and the extraction of
                                            the roster from a solution)
    - [App]         : api/app.py          (the comparison of two rosters)
    - [CpLogic]     : a program logic for the model builder
    - [Spec]        : the notions the properties are stated with
    - [Examples]    : small rosters

    Conventions.  A Python [str] is a [string] whose characters are code
    points below 256.  A naive [datetime] is an integer number of seconds
    since 1970-01-01 00:00:00 (whole-second resolution, no time zone), so
    that [dt.timestamp()] is the number itself, [dt.date()] is the quotient
    by 86400 and [dt.time()] the remainder.  A [dict] is a [gmap] when only
    lookups matter and an insertion-ordered association list when the code
    iterates over it.  Python floats are idealised as rationals ([Q]) or,
    where a square root is taken, as real numbers ([R]). *)

From Stdlib Require Import ZArith List String Ascii Lia Bool QArith Reals Lra.
From Stdlib Require Import Sorted Permutation.
From stdpp Require Import base gmap sets list strings.

Local Open Scope string_scope.
Local Open Scope Z_scope.

(** ** Python built-ins used by the sources *)

Module Py.

Definition datetime := Z.

Definition date_of (dt : datetime) : Z := dt / 86400.
Definition time_of (dt : datetime) : Z := dt mod 86400.
Definition timestamp (dt : datetime) : Z := dt.

(** [(a - b).total_seconds()] *)
Definition total_seconds (a b : datetime) : Z := a - b.

(** Proleptic Gregorian (year, month, day) of a day number counted from
    1970-01-01, as [datetime.date] keeps it. *)
Definition civil_of_days (days : Z) : Z * Z * Z :=
  let z := days + 719468 in
  let era := z / 146097 in
  let doe := z - era * 146097 in
  let yoe := (doe - doe / 1460 + doe / 36524 - doe / 146096) / 365 in
  let doy := doe - (365 * yoe + yoe / 4 - yoe / 100) in
  let mp := (5 * doy + 2) / 153 in
  let d := doy - (153 * mp + 2) / 5 + 1 in
  let m := if mp <? 10 then mp + 3 else mp - 9 in
  let y := yoe + era * 400 + (if m <=? 2 then 1 else 0) in
  (y, m, d).

Definition digit (n : Z) : ascii := ascii_of_nat (48 + Z.to_nat (n mod 10)).

Definition pad2 (n : Z) : string :=
  String (digit (n / 10)) (String (digit n) EmptyString).

Definition pad4 (n : Z) : string :=
  String (digit (n / 1000)) (String (digit (n / 100)) (pad2 n)).

(** [d.isoformat()] for a [date]: "YYYY-MM-DD". *)
Definition isoformat_date (days : Z) : string :=
  let '(y, m, d) := civil_of_days days in
  pad4 y ++ "-" ++ pad2 m ++ "-" ++ pad2 d.

(** [str.isspace] on code points below 256. *)
Definition isspace (a : ascii) : bool :=
  let n := nat_of_ascii a in
  ((9 <=? n) && (n <=? 13) || (28 <=? n) && (n <=? 32)
   || (n =? 133) || (n =? 160))%nat.

Fixpoint lstrip (s : list ascii) : list ascii :=
  match s with
  | a :: s' => if isspace a then lstrip s' else s
  | [] => []
  end.

(** [s.strip()] *)
Definition strip (s : string) : string :=
  string_of_list_ascii
    (rev (lstrip (rev (lstrip (list_ascii_of_string s))))).

(** [s.split(sep)] for a one-character separator; the accumulator holds
    the current field, reversed. *)
Fixpoint split_go (sep : ascii) (acc : list ascii) (s : list ascii)
  : list string :=
  match s with
  | [] => [string_of_list_ascii (rev acc)]
  | a :: s' =>
      if Ascii.eqb a sep
      then string_of_list_ascii (rev acc) :: split_go sep [] s'
      else split_go sep (a :: acc) s'
  end.

Definition split (sep : ascii) (s : string) : list string :=
  split_go sep [] (list_ascii_of_string s).

(** [x in xs] for a tuple or list of strings. *)
Definition str_in (x : string) (xs : list string) : bool :=
  existsb (String.eqb x) xs.

(** Truthiness of a string: [not s] holds for the empty string. *)
Definition truthy (s : string) : bool := negb (String.eqb s "").

(** Stable sort by an integer key, as [sorted] and [list.sort] are:
    elements with equal keys keep their relative order. *)
Fixpoint insert_by {A} (key : A -> Z) (x : A) (l : list A) : list A :=
  match l with
  | [] => [x]
  | y :: l' => if key x <=? key y then x :: l else y :: insert_by key x l'
  end.

Definition sort_by {A} (key : A -> Z) (l : list A) : list A :=
  foldr (insert_by key) [] l.

(** The order the sort establishes. *)
Definition key_le {A} (key : A -> Z) (x y : A) : Prop := key x <= key y.

(** [sum] of a list of integers. *)
Definition zsum (l : list Z) : Z := foldr Z.add 0 l.

(** [d[k].append(v)] on a [defaultdict(list)] (or
    [d.setdefault(k, []).append(v)]), keeping insertion order of the keys. *)
Fixpoint dict_append {K V} `{EqDecision K}
    (d : list (K * list V)) (k : K) (v : V) : list (K * list V) :=
  match d with
  | [] => [(k, [v])]
  | (k', vs) :: d' =>
      if decide (k = k') then (k', (vs ++ [v])%list) :: d'
      else (k', vs) :: dict_append d' k v
  end.

(** [for a in l: d[key(a)].append(a)] *)
Definition group_by {A K} `{EqDecision K} (key : A -> K) (l : list A)
  : list (K * list A) :=
  foldl (fun d a => dict_append d (key a) a) [] l.

(** [d[k] = v] on an insertion-ordered dictionary: an existing key keeps
    its position. *)
Fixpoint dict_set {K V} `{EqDecision K}
    (d : list (K * V)) (k : K) (v : V) : list (K * V) :=
  match d with
  | [] => [(k, v)]
  | (k', v') :: d' =>
      if decide (k = k') then (k', v) :: d'
      else (k', v') :: dict_set d' k v
  end.

(** The keys of a list in order of first appearance: the key order of a
    dictionary filled from the list. *)
Fixpoint first_keys {K} `{EqDecision K} (l : list K) : list K :=
  match l with
  | [] => []
  | k :: l' =>
      k :: List.filter (fun k' => negb (bool_decide (k' = k))) (first_keys l')
  end.

(** [d.get(k, [])] *)
Fixpoint dict_get {K V} `{EqDecision K} (d : list (K * list V)) (k : K)
  : list V :=
  match d with
  | [] => []
  | (k', vs) :: d' => if decide (k = k') then vs else dict_get d' k
  end.

(** [(l[i], l[i + 1]) for i in range(len(l) - 1)] *)
Fixpoint adjacent {A} (l : list A) : list (A * A) :=
  match l with
  | a :: (b :: _) as rest => (a, b) :: adjacent rest
  | _ => []
  end.

(** The elements of a [set] built from a list.  Python leaves the
    iteration order of a set unspecified; this is one such order. *)
Definition set_of {A} `{EqDecision A} (l : list A) : list A := remove_dups l.

(** [l[:n]] *)
Definition slice_to {A} (n : Z) (l : list A) : list A :=
  if 0 <=? n then take (Z.to_nat n) l
  else take (Z.to_nat (Z.of_nat (length l) + n)) l.

(** [c in s] for a one-character string [c]. *)
Definition char_in (c : ascii) (s : string) : bool :=
  existsb (Ascii.eqb c) (list_ascii_of_string s).

(** [s.lower()] on code points below 256. *)
Definition lower_ascii (a : ascii) : ascii :=
  let n := nat_of_ascii a in
  if ((65 <=? n) && (n <=? 90)
      || (192 <=? n) && (n <=? 222) && negb (n =? 215))%nat
  then ascii_of_nat (n + 32) else a.

Definition lower (s : string) : string :=
  string_of_list_ascii (map lower_ascii (list_ascii_of_string s)).

(** [sorted(l)] for a list of strings, by code points. *)
Fixpoint insert_str (x : string) (l : list string) : list string :=
  match l with
  | [] => [x]
  | y :: l' => if String.leb x y then x :: l else y :: insert_str x l'
  end.

Definition sort_strings (l : list string) : list string :=
  foldr insert_str [] l.

End Py.

(** ** core/models.py *)

Module Models.
Import Py.

Definition role_key (raw : string) : string :=
  let r := strip raw in
  if str_in r ["FO"; "First Officer"] then "FO"
  else if str_in r ["Senior Crew"; "Senior Cabin Crew"; "SC"] then "SC"
  else if str_in r ["Junior Cabin Crew"; "Cabin Crew"; "CC"] then "CC"
  else "Captain".

Definition has_qual (qualified_types ac_type : string) : bool :=
  if negb (truthy qualified_types) then false
  else str_in ac_type (split "|" qualified_types).

Definition overlaps_with_turnaround
    (a_start a_end b_start b_end : datetime) (turnaround_minutes : Z) : bool :=
  let a_end_pad := timestamp a_end + turnaround_minutes * 60 in
  let b_end_pad := timestamp b_end + turnaround_minutes * 60 in
  negb ((a_end_pad <=? timestamp b_start) || (b_end_pad <=? timestamp a_start)).

(** [start_local] and [end_local] are [time] values: seconds after
    midnight. *)
Definition in_window (wraps : bool) (start_local end_local t : Z) : bool :=
  if wraps then (start_local <=? t) || (t <? end_local)
  else (start_local <=? t) && (t <? end_local).

Definition in_night_window (dep arr : datetime) (start_local end_local : Z)
  : bool :=
  let dep_t := time_of dep in
  let arr_t := time_of arr in
  let wraps := end_local <? start_local in
  in_window wraps start_local end_local dep_t
  || in_window wraps start_local end_local arr_t
  || (wraps && negb (date_of dep =? date_of arr)).

Record Flight := {
  flight_id : string;
  dep_airport : string;
  arr_airport : string;
  dep_dt : datetime;
  arr_dt : datetime;
  aircraft_type : string;
  needed_captains : Z;
  needed_fo : Z;
  needed_sc : Z;
  needed_cc : Z
}.

Definition duration_minutes (f : Flight) : Z :=
  total_seconds (arr_dt f) (dep_dt f) / 60.

Definition sector (f : Flight) : string :=
  dep_airport f ++ "-" ++ arr_airport f.

Record Crew := {
  crew_id : string;
  name : string;
  role : string;
  base : string;
  qualified_types : string;
  weekly_max_duty_hrs : option Z;
  leave_status : string;
  sccm_certified : bool;
  experience_months : Z
}.

Definition role_norm (c : Crew) : string := role_key (role c).

(** The fields of [Rules] that the model builder reads.  The nested
    [composition] and [flight_time_limits] dictionaries are kept as the
    optional entries the builder looks up with [.get]. *)
Record Rules := {
  daily_max_duty_hrs : gmap string Z;
  weekly_max_duty_hrs_default : Z;
  min_rest_hours_between_duties : Z;
  max_overnight_duties_per_week : Z;
  turnaround_minutes : Z;
  night_duty_window : Z * Z;
  max_consecutive_night_duties : Z;
  wocl_window : Z * Z;
  sccm_experience_min_months : option Z;
  sccm_min_sccm_ulh : option Z;
  ft_hours_7_days : option Z;
  ulh_ft_threshold_hours : Q
}.

(** [time(hour=m // 60, minute=m % 60)] as seconds after midnight. *)
Definition time_of_minutes (m : Z) : Z := (m / 60) * 3600 + (m mod 60) * 60.

Definition night_window_times (r : Rules) : Z * Z :=
  let '(start_min, end_min) := night_duty_window r in
  (time_of_minutes start_min, time_of_minutes end_min).

Definition wocl_window_times (r : Rules) : Z * Z :=
  let '(start_min, end_min) := wocl_window r in
  (time_of_minutes start_min, time_of_minutes end_min).

Definition daily_cap_for_role (r : Rules) (role_norm : string) : Z :=
  let d := daily_max_duty_hrs r in
  if String.eqb role_norm "CC" then default 11 (d !! "Cabin")
  else if String.eqb role_norm "SC"
       then default (default 12 (d !! "Cabin")) (d !! "Senior Cabin")
  else if String.eqb role_norm "FO" then default 10 (d !! "First Officer")
  else default 10 (d !! "Captain").

Record Disruption := {
  d_flight_id : string;
  disruption_type : string;
  delay_minutes : Z
}.

End Models.

(** ** core/loader.py: the container handed to the solver *)

Module Loader.
Import Py.

Record CrewPreference := {
  requested_days_off : gset string;
  preferred_sectors : gset string
}.

Record DataBundle := {
  flights : list Models.Flight;
  crew : list Models.Crew;
  prefs : gmap string CrewPreference;
  rules : Models.Rules;
  flights_by_id : gmap string Models.Flight;
  crew_by_id : gmap string Models.Crew;
  sickness_days : gmap string (gset string);
  operating_days : list string
}.

(** A dictionary filled in list order, [{key(x): val(x) for x in l}]: a
    later element replaces an earlier one with the same key. *)
Definition index_by {A V} (key : A -> string) (val : A -> V) (l : list A)
  : gmap string V :=
  foldl (fun m x => <[key x := val x]> m) ∅ l.

(** The two indexes [load_data] stores next to the lists. *)
Definition indexed (b : DataBundle) : Prop :=
  flights_by_id b = index_by Models.flight_id (fun f => f) (flights b)
  /\ crew_by_id b = index_by Models.crew_id (fun c => c) (crew b).

(** *** [load_data]

    The function is modelled from the parsed tables on: the rows of the
    flights and crew files are given as records (identifiers as strings,
    times already parsed), the disruptions and the sickness rows as
    [_read_disruptions] and the sickness file list them, and the
    preferences and the rules as they were read.  [start_date] and
    [end_date] are the parsed dates, [None] when the argument is absent
    or empty. *)

(** [fdf[fdf["dep_dt"].dt.date >= sd]] and the same for [end_date]. *)
Definition date_filter (start_date end_date : option Z)
    (rows : list Models.Flight) : list Models.Flight :=
  let rows :=
    match start_date with
    | Some sd => List.filter (fun f => sd <=? date_of (Models.dep_dt f)) rows
    | None => rows
    end in
  match end_date with
  | Some ed => List.filter (fun f => date_of (Models.dep_dt f) <=? ed) rows
  | None => rows
  end.

Definition is_cancellation (d : Models.Disruption) : bool :=
  String.eqb (lower (Models.disruption_type d)) "cancellation".

Definition is_delay (d : Models.Disruption) : bool :=
  String.eqb (lower (Models.disruption_type d)) "delay".

(** [{d.flight_id for d in disruptions if ... == "cancellation"}] *)
Definition cancels (disruptions : list Models.Disruption) : list string :=
  set_of (map Models.d_flight_id (List.filter is_cancellation disruptions)).

(** [{d.flight_id: d.delay_minutes for d in disruptions if ... == "delay"}] *)
Definition delays (disruptions : list Models.Disruption) : gmap string Z :=
  index_by Models.d_flight_id Models.delay_minutes
    (List.filter is_delay disruptions).

(** Both times of the row moved by [minutes]. *)
Definition shift (minutes : Z) (f : Models.Flight) : Models.Flight :=
  {| Models.flight_id := Models.flight_id f;
     Models.dep_airport := Models.dep_airport f;
     Models.arr_airport := Models.arr_airport f;
     Models.dep_dt := Models.dep_dt f + minutes * 60;
     Models.arr_dt := Models.arr_dt f + minutes * 60;
     Models.aircraft_type := Models.aircraft_type f;
     Models.needed_captains := Models.needed_captains f;
     Models.needed_fo := Models.needed_fo f;
     Models.needed_sc := Models.needed_sc f;
     Models.needed_cc := Models.needed_cc f |}.

Definition apply_disruptions (disruptions : list Models.Disruption)
    (rows : list Models.Flight) : list Models.Flight :=
  match disruptions with
  | [] => rows
  | _ :: _ =>
      let cancels := cancels disruptions in
      let delays := delays disruptions in
      let rows :=
        match cancels with
        | [] => rows
        | _ :: _ =>
            List.filter (fun f => negb (str_in (Models.flight_id f) cancels))
                        rows
        end in
      if bool_decide (delays = ∅) then rows
      else map (fun f => shift (default 0 (delays !! Models.flight_id f)) f)
               rows
  end.

(** [cdf[~cdf["leave_status"].isin(["On Leave", "Sick", "Training"])]] *)
Definition available_rows (rows : list Models.Crew) : list Models.Crew :=
  List.filter
    (fun c => negb (str_in (Models.leave_status c)
                           ["On Leave"; "Sick"; "Training"]))
    rows.

(** [_read_sickness] on the rows (crew_id, sick_date) of the file. *)
Definition _read_sickness (rows : list (string * string))
  : gmap string (gset string) :=
  foldl (fun sick_map '(cid, day) =>
           <[cid := default ∅ (sick_map !! cid) ∪ {[ day ]}]> sick_map)
        ∅ rows.

Definition load_data (flight_rows : list Models.Flight)
    (crew_rows : list Models.Crew) (rules : Models.Rules)
    (prefs : gmap string CrewPreference)
    (disruptions : list Models.Disruption)
    (sickness_rows : list (string * string))
    (start_date end_date : option Z) : DataBundle :=
  let flights :=
    apply_disruptions disruptions
      (date_filter start_date end_date flight_rows) in
  let crew_list := available_rows crew_rows in
  {| flights := flights;
     crew := crew_list;
     prefs := prefs;
     rules := rules;
     flights_by_id := index_by Models.flight_id (fun f => f) flights;
     crew_by_id := index_by Models.crew_id (fun c => c) crew_list;
     sickness_days := _read_sickness sickness_rows;
     operating_days :=
       sort_strings
         (set_of (map (fun f => isoformat_date (date_of (Models.dep_dt f)))
                      flights)) |}.

End Loader.

(** ** core/eligibility.py *)

Module Eligibility.
Import Py.
Import Loader.

Record RoleSlot := {
  flight_id : string;
  role : string;
  slot_index : nat
}.

Definition eligible_tuple : Type := string * string * string * nat.

Record EligibilityBundle := {
  role_slots : list RoleSlot;
  eligible : list eligible_tuple;
  minutes_by_flight : gmap string Z;
  day_by_flight : gmap string string;
  sector_by_flight : gmap string string;
  aircraft_by_flight : gmap string string
}.

Definition _flight_day_str (dt : datetime) : string :=
  isoformat_date (date_of dt).

(** [for i in range(int(n))] *)
Definition range (n : Z) : list nat := seq 0 (Z.to_nat n).

Definition slots_of_flight (f : Models.Flight) : list RoleSlot :=
  map (fun i => Build_RoleSlot (Models.flight_id f) "Captain" i)
      (range (Models.needed_captains f))
  ++ map (fun i => Build_RoleSlot (Models.flight_id f) "FO" i)
      (range (Models.needed_fo f))
  ++ map (fun i => Build_RoleSlot (Models.flight_id f) "SC" i)
      (range (Models.needed_sc f))
  ++ map (fun i => Build_RoleSlot (Models.flight_id f) "CC" i)
      (range (Models.needed_cc f)).

Definition build_role_slots (bundle : DataBundle) : list RoleSlot :=
  concat (map slots_of_flight (flights bundle)).

Definition _crew_can_work_that_day
    (crew_id day_str : string) (bundle : DataBundle) : bool :=
  let sick_days := default ∅ (sickness_days bundle !! crew_id) in
  negb (bool_decide (day_str ∈ sick_days)).

Definition _crew_role_matches (slot_role crew_role_raw : string) : bool :=
  String.eqb (Models.role_key crew_role_raw) slot_role.

Definition _crew_qualified_for (ac_type qualified_types : string) : bool :=
  str_in ac_type (split "|" qualified_types).

(** The inner loop of [build_eligibility] for one slot. *)
Definition eligible_for_slot
    (bundle : DataBundle) (slot : RoleSlot) (day_str ac_type : string)
  : list eligible_tuple :=
  map (fun c => (Models.crew_id c, flight_id slot, role slot, slot_index slot))
    (List.filter
       (fun c =>
          _crew_role_matches (role slot) (Models.role c)
          && _crew_qualified_for ac_type (Models.qualified_types c)
          && _crew_can_work_that_day (Models.crew_id c) day_str bundle)
       (crew bundle)).

(** [None] stands for the [KeyError] of a failed dictionary subscript. *)
Definition build_eligibility (bundle : DataBundle) : option EligibilityBundle :=
  let role_slots := build_role_slots bundle in
  let minutes_by_flight :=
    index_by Models.flight_id
      (fun f => Z.max 1 (total_seconds (Models.arr_dt f) (Models.dep_dt f) / 60))
      (flights bundle) in
  let day_by_flight :=
    index_by Models.flight_id (fun f => _flight_day_str (Models.dep_dt f))
      (flights bundle) in
  let sector_by_flight :=
    index_by Models.flight_id
      (fun f => Models.dep_airport f ++ "-" ++ Models.arr_airport f)
      (flights bundle) in
  let aircraft_by_flight :=
    index_by Models.flight_id Models.aircraft_type (flights bundle) in
  per_slot ← mapM (fun slot =>
      f ← flights_by_id bundle !! flight_id slot;
      day_str ← day_by_flight !! flight_id slot;
      Some (eligible_for_slot bundle slot day_str (Models.aircraft_type f)))
    role_slots;
  Some {| role_slots := role_slots;
          eligible := concat per_slot;
          minutes_by_flight := minutes_by_flight;
          day_by_flight := day_by_flight;
          sector_by_flight := sector_by_flight;
          aircraft_by_flight := aircraft_by_flight |}.

End Eligibility.

(** ** genetic_optimizer.py *)

Module Genetic.
Import Py.

Record GAConfig := {
  population_size : nat;
  generations : nat;
  mutation_rate : Q;
  crossover_rate : Q;
  elite_size : nat;
  tournament_size : nat;
  max_time_seconds : Z;
  cfg_w_stability : Z
}.

Record Flight := {
  flight_id : string;
  dep_dt : datetime;
  arr_dt : datetime;
  dep_airport : string;
  arr_airport : string;
  aircraft_type : string;
  needed_captains : Z;
  needed_fo : Z;
  needed_sc : Z;
  needed_cc : Z
}.

Record Crew := {
  crew_id : string;
  name : string;
  role : string;
  base : string;
  qualified_types : list string;
  weekly_max_duty_hrs : Z;
  available : bool;
  sccm_certified : bool;
  experience_months : Z
}.

Record Assignment := {
  a_crew_id : string;
  a_flight_id : string;
  a_role : string
}.

#[global] Instance Assignment_eq_dec : EqDecision Assignment.
Proof. solve_decision. Defined.

Definition triple : Type := string * string * string.

(** The attributes of a [GeneticOptimizer] that the modelled methods read
    or write.  The objective weights are Python floats. *)
Record GeneticOptimizer := {
  config : GAConfig;
  flights : list Flight;
  crew : list Crew;
  flights_by_id : gmap string Flight;
  crew_by_id : gmap string Crew;
  w_stability : Z;
  baseline_pairs : gset triple;
  exclude_crew : gset string;
  exclude_flights : gset string;
  w_ot : R;
  w_fair : R;
  w_pref : R;
  w_base : R;
  w_continuity : R
}.

(** [__init__] followed by the part of [load_data] that stores the two
    lists and builds the lookup maps. *)
Definition load_data (cfg : GAConfig) (fs : list Flight) (cs : list Crew)
  : GeneticOptimizer :=
  {| config := cfg;
     flights := fs;
     crew := cs;
     flights_by_id := Loader.index_by flight_id (fun f => f) fs;
     crew_by_id := Loader.index_by crew_id (fun c => c) cs;
     w_stability := cfg_w_stability cfg;
     baseline_pairs := ∅;
     exclude_crew := ∅;
     exclude_flights := ∅;
     w_ot := 100%R;
     w_fair := 10%R;
     w_pref := 1%R;
     w_base := 50%R;
     w_continuity := 75%R |}.

(** The lookup maps are the ones [load_data] builds from the lists. *)
Definition loaded (self : GeneticOptimizer) : Prop :=
  flights_by_id self = Loader.index_by flight_id (fun f => f) (flights self)
  /\ crew_by_id self = Loader.index_by crew_id (fun c => c) (crew self).

(** *** Qualification strings

    [None] is a missing cell ([pd.isna]); any other cell is taken as the
    string [str] gives for it. *)
Definition _parse_qualified_types (qualified_types_str : option string)
  : list string :=
  match qualified_types_str with
  | None => []
  | Some s =>
      let qualified_str := strip s in
      if negb (truthy qualified_str) then []
      else
        let sep := if char_in "|" qualified_str then "|"%char else ","%char in
        map strip (List.filter (fun t => truthy (strip t))
                               (split sep qualified_str))
  end.

(** *** Baseline and stability *)

(** [a.get(k)] followed by the truthiness test [not v]: a missing key and
    an empty string are both skipped. *)
Definition get_truthy (a : gmap string string) (k : string) : option string :=
  match a !! k with
  | Some v => if truthy v then Some v else None
  | None => None
  end.

(** One iteration of the loop of [set_baseline]. *)
Definition baseline_step (ex_crew ex_flights : gset string)
    (pairs : gset triple) (a : gmap string string) : gset triple :=
  match get_truthy a "crew_id", get_truthy a "flight_id", get_truthy a "role" with
  | Some c_id, Some f_id, Some role =>
      if bool_decide (c_id ∈ ex_crew) || bool_decide (f_id ∈ ex_flights)
      then pairs
      else pairs ∪ {[ (c_id, f_id, role) ]}
  | _, _, _ => pairs
  end.

Definition set_baseline (self : GeneticOptimizer)
    (baseline_assignments : list (gmap string string))
    (exclude_crew exclude_flights : gset string) : GeneticOptimizer :=
  let pairs :=
    foldl (baseline_step exclude_crew exclude_flights) ∅ baseline_assignments in
  {| config := config self;
     flights := flights self;
     crew := crew self;
     flights_by_id := flights_by_id self;
     crew_by_id := crew_by_id self;
     w_stability := w_stability self;
     baseline_pairs := pairs;
     exclude_crew := exclude_crew;
     exclude_flights := exclude_flights;
     w_ot := w_ot self;
     w_fair := w_fair self;
     w_pref := w_pref self;
     w_base := w_base self;
     w_continuity := w_continuity self |}.

Definition triple_of (a : Assignment) : triple :=
  (a_crew_id a, a_flight_id a, a_role a).

Definition sol_pairs (solution : list Assignment) : gset triple :=
  list_to_set (map triple_of solution).

(** [kept / max(1, len(self.baseline_pairs))], as an exact fraction. *)
Definition _calculate_stability_bonus
    (self : GeneticOptimizer) (solution : list Assignment) : Q :=
  if bool_decide (baseline_pairs self = ∅) then 0%Q
  else
    let kept := size (sol_pairs solution ∩ baseline_pairs self) in
    (inject_Z (Z.of_nat kept)
     / inject_Z (Z.max 1 (Z.of_nat (size (baseline_pairs self)))))%Q.

(** *** Continuity repair *)

Definition cf_key (a : Assignment) : string * string :=
  (a_crew_id a, a_flight_id a).

Definition group_by_cf (solution : list Assignment)
  : list ((string * string) * list Assignment) :=
  group_by cf_key solution.

(** The second loop of the repair: per crew, the flights of its distinct
    (crew, flight) pairs, in order of first appearance. *)
Definition flights_step (fbi : gmap string Flight)
    (st : list (string * list Flight) * gset (string * string))
    (a : Assignment) : list (string * list Flight) * gset (string * string) :=
  let '(ffc, seen) := st in
  if bool_decide (cf_key a ∈ seen) then st
  else
    let seen := seen ∪ {[ cf_key a ]} in
    match fbi !! a_flight_id a with
    | Some f => (dict_append ffc (a_crew_id a) f, seen)
    | None => (ffc, seen)
    end.

Definition flights_for_crew (fbi : gmap string Flight)
    (solution : list Assignment) : list (string * list Flight) :=
  fst (foldl (flights_step fbi) ([], ∅) solution).

(** The chain walk over one crew's time-ordered flights. *)
Fixpoint keep_chain (last_arr : option string) (flist : list Flight)
  : list Flight :=
  match flist with
  | [] => []
  | f :: rest =>
      match last_arr with
      | None => f :: keep_chain (Some (arr_airport f)) rest
      | Some la =>
          if String.eqb (dep_airport f) la
          then f :: keep_chain (Some (arr_airport f)) rest
          else keep_chain last_arr rest
      end
  end.

Definition kept_pairs_of (ffc : list (string * list Flight))
  : gset (string * string) :=
  foldl (fun kept '(crew_id, flist) =>
           foldl (fun kept f => kept ∪ {[ (crew_id, flight_id f) ]}) kept
                 (keep_chain None (sort_by dep_dt flist)))
        ∅ ffc.

Definition _repair_solution_continuity
    (self : GeneticOptimizer) (solution : list Assignment) : list Assignment :=
  match solution with
  | [] => solution
  | _ =>
      let by_cf := group_by_cf solution in
      let kept_pairs :=
        kept_pairs_of (flights_for_crew (flights_by_id self) solution) in
      concat (map snd (List.filter
                         (fun '(k, _) => bool_decide (k ∈ kept_pairs)) by_cf))
  end.

(** *** Random choices

    The generator is a script of the outcomes still to be drawn; an
    exhausted script keeps answering 0. *)

Definition rng : Type := list N.

Definition draw (g : rng) : N * rng :=
  match g with
  | [] => (0%N, [])
  | n :: g' => (n, g')
  end.

(** [random.choice(seq)]; [None] is the [IndexError] on an empty sequence. *)
Definition choice {A} (seq : list A) (g : rng) : option A * rng :=
  let '(n, g') := draw g in
  (seq !! N.to_nat (n mod N.of_nat (length seq)), g').

(** [random.random()]: a multiple of 2^-53 in [0, 1). *)
Definition random (g : rng) : Q * rng :=
  let '(n, g') := draw g in
  (Qmake (Z.of_N (n mod 2 ^ 53)) (2 ^ 53), g').

(** [random.randint(a, b)], both ends included. *)
Definition randint (a b : Z) (g : rng) : Z * rng :=
  let '(n, g') := draw g in
  (a + Z.of_N n mod (b - a + 1), g').

(** *** Random construction *)

(** [for _ in range(n): if eligible: ... solution.append(...)] *)
Fixpoint seat_loop (n : nat) (eligible : list Crew) (f_id role_name : string)
    (st : list Assignment * rng) : list Assignment * rng :=
  match n with
  | O => st
  | S n' =>
      match eligible with
      | [] => seat_loop n' eligible f_id role_name st
      | _ :: _ =>
          let '(solution, g) := st in
          let '(picked, g') := choice eligible g in
          match picked with
          | Some c =>
              seat_loop n' eligible f_id role_name
                ((solution ++ [Build_Assignment (crew_id c) f_id role_name])%list, g')
          | None => seat_loop n' eligible f_id role_name (solution, g')
          end
      end
  end.

Definition qualified_pool (pool : list Crew) (flight : Flight) : list Crew :=
  List.filter (fun c => str_in (aircraft_type flight) (qualified_types c)) pool.

Definition role_pool (self : GeneticOptimizer) (names : list string) : list Crew :=
  List.filter (fun c => str_in (role c) names && available c) (crew self).

(** The body of the loop over flights in [create_random_solution]. *)
Definition assign_flight (captains first_officers senior_crew cabin_crew : list Crew)
    (st : list Assignment * rng) (flight : Flight) : list Assignment * rng :=
  let st := seat_loop (Z.to_nat (needed_captains flight))
              (qualified_pool captains flight) (flight_id flight) "Captain" st in
  let st := seat_loop (Z.to_nat (needed_fo flight))
              (qualified_pool first_officers flight) (flight_id flight)
              "First Officer" st in
  let st := seat_loop (Z.to_nat (needed_sc flight))
              (qualified_pool senior_crew flight) (flight_id flight)
              "Senior Crew" st in
  seat_loop (Z.to_nat (needed_cc flight))
    (qualified_pool cabin_crew flight) (flight_id flight) "Cabin Crew" st.

(** The assignments drawn before the final repair. *)
Definition random_assignments (self : GeneticOptimizer) (g : rng)
  : list Assignment * rng :=
  let captains := role_pool self ["Captain"; "CPT"] in
  let first_officers := role_pool self ["First Officer"; "FO"] in
  let senior_crew := role_pool self ["Senior Crew"; "Senior Cabin"; "SC"] in
  let cabin_crew := role_pool self ["Cabin Crew"; "CC"] in
  foldl (assign_flight captains first_officers senior_crew cabin_crew)
        ([], g) (flights self).

Definition create_random_solution (self : GeneticOptimizer) (g : rng)
  : list Assignment * rng :=
  let '(solution, g') := random_assignments self g in
  (_repair_solution_continuity self solution, g').

Definition _check_basic_constraints (c : Crew) (flight : Flight) : bool :=
  str_in (aircraft_type flight) (qualified_types c).

(** One iteration of [_build_seed_from_baseline]. *)
Definition seed_step (self : GeneticOptimizer)
    (st : list Assignment * gset string) (p : triple)
  : list Assignment * gset string :=
  let '(seed, used_crew) := st in
  let '(c_id, f_id, role_name) := p in
  if bool_decide (c_id ∈ used_crew) then st
  else
    match crew_by_id self !! c_id, flights_by_id self !! f_id with
    | Some c, Some flight =>
        if available c
           && String.eqb role_name (role c)
           && str_in (aircraft_type flight) (qualified_types c)
           && _check_basic_constraints c flight
        then ((seed ++ [Build_Assignment c_id f_id role_name])%list,
              used_crew ∪ {[ c_id ]})
        else st
    | _, _ => st
    end.

(** The baseline is a set; its iteration order is the one [elements]
    fixes. *)
Definition _build_seed_from_baseline (self : GeneticOptimizer)
  : list Assignment :=
  fst (foldl (seed_step self) ([], ∅) (elements (baseline_pairs self))).

(** [while len(population) < population_size: ...] *)
Fixpoint fill_population (self : GeneticOptimizer) (n : nat)
    (population : list (list Assignment)) (g : rng)
  : list (list Assignment) * rng :=
  match n with
  | O => (population, g)
  | S n' =>
      let '(solution, g') := create_random_solution self g in
      fill_population self n' (population ++ [solution])%list g'
  end.

Definition create_initial_population (self : GeneticOptimizer) (g : rng)
  : list (list Assignment) * rng :=
  let population :=
    if bool_decide (baseline_pairs self = ∅) then []
    else [_repair_solution_continuity self (_build_seed_from_baseline self)] in
  fill_population self (population_size (config self) - length population)%nat
    population g.

(** *** Crossover and mutation *)

Definition crossover (self : GeneticOptimizer)
    (parent1 parent2 : list Assignment) (g : rng)
  : (list Assignment * list Assignment) * rng :=
  let '(u, g1) := random g in
  if Qlt_le_dec (crossover_rate (config self)) u then ((parent1, parent2), g1)
  else if (1 <? length parent1)%nat && (1 <? length parent2)%nat then
    let '(point, g2) :=
      randint 1 (Z.of_nat (Nat.min (length parent1) (length parent2)) - 1) g1 in
    let point := Z.to_nat point in
    (((take point parent1 ++ drop point parent2)%list,
      (take point parent2 ++ drop point parent1)%list), g2)
  else ((parent1, parent2), g1).

(** The loop body of [mutate] at one position; [None] is the
    [StopIteration] of [next] when the flight is unknown. *)
Definition mutate_gene (self : GeneticOptimizer) (assignment : Assignment)
    (g : rng) : option (Assignment * rng) :=
  let '(u, g1) := random g in
  if Qlt_le_dec u (mutation_rate (config self)) then
    flight ← List.find (fun f => String.eqb (flight_id f) (a_flight_id assignment))
                       (flights self);
    let available_crew :=
      List.filter (fun c =>
          String.eqb (role c) (a_role assignment)
          && available c
          && str_in (aircraft_type flight) (qualified_types c)
          && negb (String.eqb (crew_id c) (a_crew_id assignment)))
        (crew self) in
    match available_crew with
    | [] => Some (assignment, g1)
    | _ :: _ =>
        let '(picked, g2) := choice available_crew g1 in
        match picked with
        | Some new_crew =>
            Some (Build_Assignment (crew_id new_crew) (a_flight_id assignment)
                    (a_role assignment), g2)
        | None => Some (assignment, g2)
        end
    end
  else Some (assignment, g1).

Fixpoint mutate_genes (self : GeneticOptimizer) (solution : list Assignment)
    (g : rng) : option (list Assignment * rng) :=
  match solution with
  | [] => Some ([], g)
  | a :: rest =>
      '(a', g1) ← mutate_gene self a g;
      '(rest', g2) ← mutate_genes self rest g1;
      Some (a' :: rest', g2)
  end.

Definition mutate (self : GeneticOptimizer) (solution : list Assignment)
    (g : rng) : option (list Assignment * rng) :=
  '(mutated, g') ← mutate_genes self solution g;
  Some (_repair_solution_continuity self mutated, g').

(** *** Fitness

    Floats are real numbers here; [-inf] is a separate value.  A helper
    returns [None] where the Python code raises ([ZeroDivisionError], or
    [StopIteration] from [next] on an unknown crew or flight), which
    [evaluate_fitness] catches. *)

Inductive fitness :=
| NegInf
| Fin (r : R).

Definition required_positions (f : Flight) : Z :=
  needed_captains f + needed_fo f + needed_sc f + needed_cc f.

Definition _calculate_coverage_score
    (self : GeneticOptimizer) (solution : list Assignment) : option R :=
  let total_required_positions := zsum (map required_positions (flights self)) in
  let covered_positions := Z.of_nat (length solution) in
  if total_required_positions =? 0 then None
  else Some (Rmin 1 (IZR covered_positions / IZR total_required_positions))%R.

Definition find_crew (self : GeneticOptimizer) (c_id : string) : option Crew :=
  List.find (fun c => String.eqb (crew_id c) c_id) (crew self).

Definition find_flight (self : GeneticOptimizer) (f_id : string) : option Flight :=
  List.find (fun f => String.eqb (flight_id f) f_id) (flights self).

Definition flight_hours (f : Flight) : R :=
  (IZR (total_seconds (arr_dt f) (dep_dt f)) / 3600)%R.

(** [d[k] = d.get(k, 0) + h] on an insertion-ordered dictionary. *)
Fixpoint hours_add (d : list (string * R)) (k : string) (h : R)
  : list (string * R) :=
  match d with
  | [] => [(k, (0 + h)%R)]
  | (k', v) :: d' =>
      if String.eqb k k' then (k', (v + h)%R) :: d'
      else (k', v) :: hours_add d' k h
  end.

Definition crew_hours_of (self : GeneticOptimizer) (solution : list Assignment)
  : option (list (string * R)) :=
  foldl (fun acc a =>
           d ← acc;
           _ ← find_crew self (a_crew_id a);
           f ← find_flight self (a_flight_id a);
           Some (hours_add d (a_crew_id a) (flight_hours f)))
        (Some []) solution.

Definition _calculate_overtime_penalty
    (self : GeneticOptimizer) (solution : list Assignment) : option R :=
  crew_hours ← crew_hours_of self solution;
  foldl (fun acc '(c_id, hours) =>
           overtime ← acc;
           c ← find_crew self c_id;
           if Rlt_dec (IZR (weekly_max_duty_hrs c)) hours
           then Some (overtime + (hours - IZR (weekly_max_duty_hrs c)))%R
           else Some overtime)
        (Some 0%R) crew_hours.

Definition rsum (l : list R) : R := foldl Rplus 0%R l.

(** [np.mean] and [np.std] (population standard deviation). *)
Definition np_mean (l : list R) : R := (rsum l / INR (length l))%R.

Definition np_std (l : list R) : R :=
  sqrt (np_mean (map (fun x => (x - np_mean l) * (x - np_mean l))%R l)).

Definition _calculate_fairness_score
    (self : GeneticOptimizer) (solution : list Assignment) : option R :=
  crew_hours ← crew_hours_of self solution;
  match crew_hours with
  | [] => Some 0%R
  | _ :: _ =>
      let hours_list := map snd crew_hours in
      let mean_hours := np_mean hours_list in
      let std_hours := np_std hours_list in
      if Req_dec_T mean_hours 0 then Some 1%R
      else Some (Rmax 0 (1 - std_hours / mean_hours))%R
  end.

(** [crew_schedules.setdefault(crew_id, []).append(flight)] for every
    assignment whose flight is known, then a sort of each list. *)
Definition crew_schedules (self : GeneticOptimizer) (solution : list Assignment)
  : list (string * list Flight) :=
  let unsorted :=
    foldl (fun d a =>
             match flights_by_id self !! a_flight_id a with
             | Some f => dict_append d (a_crew_id a) f
             | None => d
             end) [] solution in
  map (fun '(c_id, fl) => (c_id, sort_by dep_dt fl)) unsorted.

(** The number of adjacent pairs whose airports do not match. *)
Fixpoint continuity_breaks (fl : list Flight) : Z :=
  match fl with
  | f1 :: (f2 :: _) as rest =>
      (if String.eqb (arr_airport f1) (dep_airport f2) then 0 else 1)
      + continuity_breaks rest
  | _ => 0
  end.

(** [max(day_flights, key=lambda f: f.arr_dt)]: the first of the latest. *)
Fixpoint max_by_arr (best : Flight) (fl : list Flight) : Flight :=
  match fl with
  | [] => best
  | f :: rest => max_by_arr (if arr_dt best <? arr_dt f then f else best) rest
  end.

Definition daily_groups (fl : list Flight) : list (string * list Flight) :=
  foldl (fun d f =>
           dict_append d (Eligibility._flight_day_str (dep_dt f)) f) [] fl.

Definition base_breaks (crew_base : string) (fl : list Flight) : Z :=
  zsum (map (fun '(_, day_flights) =>
               match day_flights with
               | [] => 0
               | f :: rest =>
                   if String.eqb (arr_airport (max_by_arr f rest)) crew_base
                   then 0 else 1
               end) (daily_groups fl)).

Definition _calculate_continuity_and_base_penalties
    (self : GeneticOptimizer) (solution : list Assignment) : Z * Z :=
  let schedules := crew_schedules self solution in
  let continuity_penalty :=
    zsum (map (fun '(_, fl) => 100 * continuity_breaks fl) schedules) in
  let base_return_penalty :=
    zsum (map (fun '(c_id, fl) =>
                 match crew_by_id self !! c_id with
                 | Some c => base_breaks (base c) fl
                 | None => 0
                 end) schedules) in
  (continuity_penalty, base_return_penalty).

Definition weighted_fitness (self : GeneticOptimizer)
    (coverage_score overtime_penalty fairness_score : R)
    (continuity_penalty base_return_penalty : Z) (stability_bonus : Q) : R :=
  (1000 * coverage_score
   - 0.1 * w_ot self * overtime_penalty
   + 0.1 * w_fair self * fairness_score
   - 0.01 * w_continuity self * IZR continuity_penalty
   - 0.01 * w_base self * IZR base_return_penalty
   + IZR (w_stability self) * Q2R stability_bonus)%R.

Definition evaluate_fitness
    (self : GeneticOptimizer) (solution : list Assignment) : fitness :=
  match solution with
  | [] => NegInf
  | _ :: _ =>
      match _calculate_coverage_score self solution with
      | None => NegInf
      | Some coverage_score =>
          if Rle_dec coverage_score 0 then NegInf
          else
            match _calculate_overtime_penalty self solution,
                  _calculate_fairness_score self solution with
            | Some overtime_penalty, Some fairness_score =>
                let '(continuity_penalty, base_return_penalty) :=
                  _calculate_continuity_and_base_penalties self solution in
                let stability_bonus := _calculate_stability_bonus self solution in
                Fin (Rmax (weighted_fitness self coverage_score overtime_penalty
                             fairness_score continuity_penalty
                             base_return_penalty stability_bonus) 0.1)
            | _, _ => NegInf
            end
      end
  end.

(** *** Selection and the generation loop *)

(** [a < b] on fitness values; [-inf] is below every number. *)
Definition fitness_ltb (a b : fitness) : bool :=
  match a, b with
  | _, NegInf => false
  | NegInf, Fin _ => true
  | Fin x, Fin y => if Rlt_dec x y then true else false
  end.

(** [max(selected, key=lambda x: x[1])]: the first of the largest. *)
Fixpoint max_by_score (best : list Assignment * fitness)
    (selected : list (list Assignment * fitness))
  : list Assignment * fitness :=
  match selected with
  | [] => best
  | x :: rest =>
      max_by_score (if fitness_ltb (snd best) (snd x) then x else best) rest
  end.

(** The draws of one tournament.  [None] is the error raised on an empty
    population. *)
Fixpoint tournament_draws (n : nat) (population : list (list Assignment))
    (fitness_scores : list fitness)
    (selected : list (list Assignment * fitness)) (g : rng)
  : option (list (list Assignment * fitness) * rng) :=
  match n with
  | O => Some (selected, g)
  | S n' =>
      let '(idx, g') := randint 0 (Z.of_nat (length population) - 1) g in
      sol ← population !! Z.to_nat idx;
      score ← fitness_scores !! Z.to_nat idx;
      tournament_draws n' population fitness_scores
        (selected ++ [(sol, score)])%list g'
  end.

(** [None] also stands for the [ValueError] of [max] on an empty
    tournament. *)
Definition tournament_selection (self : GeneticOptimizer)
    (population : list (list Assignment)) (fitness_scores : list fitness)
    (g : rng) : option (list Assignment * rng) :=
  '(selected, g') ← tournament_draws (tournament_size (config self))
                      population fitness_scores [] g;
  match selected with
  | [] => None
  | x :: rest => Some (fst (max_by_score x rest), g')
  end.

(** [np.argmax]: the first index of the largest score. *)
Fixpoint argmax_from (best_idx : nat) (best : fitness) (i : nat)
    (scores : list fitness) : nat :=
  match scores with
  | [] => best_idx
  | s :: rest =>
      if fitness_ltb best s then argmax_from i s (S i) rest
      else argmax_from best_idx best (S i) rest
  end.

Definition argmax (scores : list fitness) : option nat :=
  match scores with
  | [] => None
  | s :: rest => Some (argmax_from 0 s 1 rest)
  end.

(** [l[-k:]]; with [k = 0] this is the whole list. *)
Definition slice_last {A} (k : nat) (l : list A) : list A :=
  match k with
  | O => l
  | S _ => drop (length l - k) l
  end.

(** One pass of the inner [while] loop: two tournaments, crossover and
    the two mutations. *)
Definition breed (self : GeneticOptimizer)
    (population : list (list Assignment)) (fitness_scores : list fitness)
    (g : rng) : option (list (list Assignment) * rng) :=
  '(parent1, g1) ← tournament_selection self population fitness_scores g;
  '(parent2, g2) ← tournament_selection self population fitness_scores g1;
  let '((child1, child2), g3) := crossover self parent1 parent2 g2 in
  '(child1, g4) ← mutate self child1 g3;
  '(child2, g5) ← mutate self child2 g4;
  Some ([child1; child2], g5).

(** [while len(new_population) < population_size]: every pass appends two
    children, so the loop makes [passes] of them, computed below from the
    number of seats left after the elites. *)
Fixpoint breed_loop (self : GeneticOptimizer)
    (population : list (list Assignment)) (fitness_scores : list fitness)
    (passes : nat) (new_population : list (list Assignment)) (g : rng)
  : option (list (list Assignment) * rng) :=
  match passes with
  | O => Some (new_population, g)
  | S passes' =>
      '(children, g') ← breed self population fitness_scores g;
      breed_loop self population fitness_scores passes'
        (new_population ++ children)%list g'
  end.

(** One generation.  [argsort] is [np.argsort]: the order it gives to
    equal scores is left to the library, so it is an argument here. *)
Definition next_population (self : GeneticOptimizer)
    (argsort : list fitness -> list nat)
    (population : list (list Assignment)) (fitness_scores : list fitness)
    (g : rng) : option (list (list Assignment) * rng) :=
  let elite_indices :=
    slice_last (elite_size (config self)) (argsort fitness_scores) in
  new_population ← mapM (fun idx => population !! idx) elite_indices;
  let passes :=
    Nat.div2 (S (population_size (config self) - length new_population)) in
  '(new_population, g') ← breed_loop self population fitness_scores passes
                            new_population g;
  Some (take (population_size (config self)) new_population, g').

(** The generations that are run, with the best individual so far. *)
Fixpoint generations_loop (self : GeneticOptimizer)
    (argsort : list fitness -> list nat) (n : nat)
    (population : list (list Assignment)) (fitness_scores : list fitness)
    (best_solution : list Assignment) (best_fitness : fitness) (g : rng)
  : option (list Assignment) :=
  match n with
  | O => Some best_solution
  | S n' =>
      '(population', g') ← next_population self argsort population
                             fitness_scores g;
      let fitness_scores' := map (evaluate_fitness self) population' in
      current_best_idx ← argmax fitness_scores';
      current_best_fitness ← fitness_scores' !! current_best_idx;
      current ← population' !! current_best_idx;
      if fitness_ltb best_fitness current_best_fitness
      then generations_loop self argsort n' population' fitness_scores'
             current current_best_fitness g'
      else generations_loop self argsort n' population' fitness_scores'
             best_solution best_fitness g'
  end.

Inductive outcome :=
| Returned (best_solution : list Assignment)
| Failure
| Raised.

(** [optimize].  [clock] is the number of generations that the time limit
    lets through.  On success the result lists the assignments of
    [best_solution] in order. *)
Definition optimize (self : GeneticOptimizer)
    (argsort : list fitness -> list nat) (clock : nat) (g : rng) : outcome :=
  let '(population, g0) := create_initial_population self g in
  if forallb (fun sol => bool_decide (sol = [])) population then Failure
  else
    let fitness_scores := map (evaluate_fitness self) population in
    if forallb (fun f => negb (fitness_ltb NegInf f)) fitness_scores
    then Failure
    else
      match argmax fitness_scores with
      | None => Raised
      | Some best_idx =>
          match population !! best_idx, fitness_scores !! best_idx with
          | Some best_solution, Some best_fitness =>
              match generations_loop self argsort
                      (Nat.min (generations (config self)) clock)
                      population fitness_scores best_solution best_fitness g0
              with
              | None => Raised
              | Some [] => Failure
              | Some (a :: rest) => Returned (a :: rest)
              end
          | _, _ => Raised
          end
      end.

End Genetic.

(** ** The solver's modelling interface

    The part of the CP-SAT modelling API that the encoder calls: integer
    variables with a domain, linear constraints with an optional
    enforcement literal, optional intervals and the no-overlap constraint
    over them, and the product equality used by the objective.  A solution
    is a value for every variable; the solver only ever returns feasible
    ones. *)

Module CpModel.

Definition var : Type := nat.

Inductive expr :=
| EInt (k : Z)
| EVar (v : var)
| EAdd (a b : expr)
| ESub (a b : expr)
| EMul (a : expr) (k : Z).

(** [sum(es)]: Python starts from 0 and adds from the left. *)
Definition esum (es : list expr) : expr := foldl EAdd (EInt 0) es.

Inductive cmp := Le | Ge | Eq.

(** A literal: a Boolean variable or its negation [v.Not()]. *)
Record literal := { lit_var : var; lit_positive : bool }.

Record interval := {
  iv_start : Z;
  iv_size : Z;
  iv_end : Z;
  iv_present : var
}.

Inductive constraint :=
| Linear (lhs : expr) (op : cmp) (rhs : expr) (enforce : option literal)
| NoOverlap (ivs : list interval)
| MultiplicationEquality (target : expr) (factors : list expr).

Record model := {
  domains : list (Z * Z);
  intervals : list interval;
  constraints : list constraint;
  objective : option expr
}.

Definition empty_model : model :=
  {| domains := []; intervals := []; constraints := []; objective := None |}.

(** *** Solutions *)

Definition valuation : Type := var -> Z.

Fixpoint eval (val : valuation) (e : expr) : Z :=
  match e with
  | EInt k => k
  | EVar v => val v
  | EAdd a b => eval val a + eval val b
  | ESub a b => eval val a - eval val b
  | EMul a k => eval val a * k
  end.

Definition holds_cmp (op : cmp) (a b : Z) : bool :=
  match op with
  | Le => a <=? b
  | Ge => b <=? a
  | Eq => a =? b
  end.

Definition lit_true (val : valuation) (l : literal) : bool :=
  if lit_positive l then val (lit_var l) =? 1 else val (lit_var l) =? 0.

Definition present (val : valuation) (iv : interval) : bool :=
  val (iv_present iv) =? 1.

(** Two intervals that are both present must not intersect. *)
Definition disjoint (val : valuation) (a b : interval) : bool :=
  negb (present val a && present val b)
  || (iv_end a <=? iv_start b) || (iv_end b <=? iv_start a).

Fixpoint pairwise_disjoint (val : valuation) (ivs : list interval) : bool :=
  match ivs with
  | [] => true
  | a :: rest =>
      forallb (disjoint val a) rest && pairwise_disjoint val rest
  end.

Definition sat (val : valuation) (c : constraint) : bool :=
  match c with
  | Linear lhs op rhs None => holds_cmp op (eval val lhs) (eval val rhs)
  | Linear lhs op rhs (Some l) =>
      negb (lit_true val l) || holds_cmp op (eval val lhs) (eval val rhs)
  | NoOverlap ivs => pairwise_disjoint val ivs
  | MultiplicationEquality target factors =>
      eval val target =? foldr (fun e acc => eval val e * acc) 1 factors
  end.

(** A present interval has a non-negative size and ends at start + size. *)
Definition interval_ok (val : valuation) (iv : interval) : bool :=
  negb (present val iv)
  || ((0 <=? iv_size iv) && (iv_start iv + iv_size iv =? iv_end iv)).

Definition in_domain (val : valuation) (v : var) (d : Z * Z) : bool :=
  (fst d <=? val v) && (val v <=? snd d).

Definition domains_ok (val : valuation) (ds : list (Z * Z)) : bool :=
  forallb (fun '(v, d) => in_domain val v d) (combine (seq 0 (length ds)) ds).

Definition feasible (m : model) (val : valuation) : bool :=
  domains_ok val (domains m)
  && forallb (interval_ok val) (intervals m)
  && forallb (sat val) (constraints m).

(** *** Building a model

    The encoder threads the model through its calls and may fail with a
    [KeyError] or [IndexError]; [None] is that failure. *)

Definition M (A : Type) : Type := model -> option (A * model).

Definition ret {A} (a : A) : M A := fun m => Some (a, m).

Definition bind {A B} (c : M A) (k : A -> M B) : M B :=
  fun m => match c m with
           | Some (a, m') => k a m'
           | None => None
           end.

(** A dictionary subscript or list index that may raise. *)
Definition lift {A} (o : option A) : M A :=
  fun m => match o with
           | Some a => Some (a, m)
           | None => None
           end.

Definition NewIntVar (lb ub : Z) : M var :=
  fun m => Some (length (domains m),
                 {| domains := (domains m ++ [(lb, ub)])%list;
                    intervals := intervals m;
                    constraints := constraints m;
                    objective := objective m |}).

Definition NewBoolVar : M var := NewIntVar 0 1.

Definition NewOptionalIntervalVar (start size end_ : Z) (is_present : var)
  : M interval :=
  fun m =>
    let iv := {| iv_start := start; iv_size := size; iv_end := end_;
                 iv_present := is_present |} in
    Some (iv, {| domains := domains m;
                 intervals := (intervals m ++ [iv])%list;
                 constraints := constraints m;
                 objective := objective m |}).

Definition AddConstraint (c : constraint) : M unit :=
  fun m => Some (tt, {| domains := domains m;
                        intervals := intervals m;
                        constraints := (constraints m ++ [c])%list;
                        objective := objective m |}).

(** [model.Add(lhs op rhs)] *)
Definition Add (lhs : expr) (op : cmp) (rhs : expr) : M unit :=
  AddConstraint (Linear lhs op rhs None).

(** [model.Add(lhs op rhs).OnlyEnforceIf(l)] *)
Definition AddIf (lhs : expr) (op : cmp) (rhs : expr) (l : literal) : M unit :=
  AddConstraint (Linear lhs op rhs (Some l)).

Definition AddNoOverlap (ivs : list interval) : M unit :=
  AddConstraint (NoOverlap ivs).

Definition AddMultiplicationEquality (target : expr) (factors : list expr)
  : M unit :=
  AddConstraint (MultiplicationEquality target factors).

Definition Minimize (e : expr) : M unit :=
  fun m => Some (tt, {| domains := domains m;
                        intervals := intervals m;
                        constraints := constraints m;
                        objective := Some e |}).

(** [for a in l: body(a)] *)
Fixpoint for_each {A} (l : list A) (body : A -> M unit) : M unit :=
  match l with
  | [] => ret tt
  | a :: rest => bind (body a) (fun _ => for_each rest body)
  end.

(** A loop that updates local state [s]. *)
Fixpoint fold_each {A S} (l : list A) (s : S) (body : S -> A -> M S) : M S :=
  match l with
  | [] => ret s
  | a :: rest => bind (body s a) (fun s' => fold_each rest s' body)
  end.

Definition when (b : bool) (c : M unit) : M unit := if b then c else ret tt.

End CpModel.

(** ** core/constraints.py *)

Module Constraints.
Import Py.
Import Loader.
Import CpModel.

Notation "'let*' x ':=' c 'in' k" := (bind c (fun x => k))
  (at level 10, x name, c at level 100, k at level 200).
Notation "c ';;;' k" := (bind c (fun _ => k))
  (at level 100, k at level 200, right associativity).

Definition key : Type := Eligibility.eligible_tuple.

(** The dictionary [x] of decision variables, in insertion order. *)
Definition xdict : Type := list (key * var).

Definition key_crew (k : key) : string := let '(c, _, _, _) := k in c.
Definition key_flight (k : key) : string := let '(_, f, _, _) := k in f.
Definition key_role (k : key) : string := let '(_, _, r, _) := k in r.
Definition key_slot (k : key) : nat := let '(_, _, _, s) := k in s.

Record ModelArtifacts := {
  x : xdict;
  intervals_by_crew : list (string * list interval);
  minutes_total_by_crew : list (string * var);
  minutes_by_crew_day : list ((string * string) * var);
  overtime_by_crew : list (string * var);
  base_penalty_vars : list (string * var);
  role_slots : list Eligibility.RoleSlot
}.

Definition to_ts (dt : datetime) : Z := timestamp dt.

(** The variables of the entries of [x] whose key passes [p]. *)
Definition vars_where (x : xdict) (p : key -> bool) : list var :=
  map snd (List.filter (fun e => p (fst e)) x).

Definition crew_flight_vars (x : xdict) (c_id f_id : string) : list var :=
  vars_where x (fun k => String.eqb (key_crew k) c_id
                         && String.eqb (key_flight k) f_id).

(** *** Decision variables and optional intervals *)

Definition decision_vars (bundle : DataBundle) (elig : Eligibility.EligibilityBundle)
  : M (xdict * list (string * list interval)) :=
  fold_each (Eligibility.eligible elig) ([], [])
    (fun st k =>
       let '(x, intervals_by_crew) := st in
       let* f := lift (flights_by_id bundle !! key_flight k) in
       let* v := NewBoolVar in
       let x := dict_set x k v in
       let start := to_ts (Models.dep_dt f) in
       let end_ := to_ts (Models.arr_dt f) in
       let size_sec :=
         (end_ - start) + Models.turnaround_minutes (rules bundle) * 60 in
       let* iv := NewOptionalIntervalVar start size_sec (start + size_sec) v in
       ret (x, dict_append intervals_by_crew (key_crew k) iv)).

(** *** Coverage *)

Definition slot_vars (x : xdict) (rs : Eligibility.RoleSlot) : list var :=
  vars_where x (fun k =>
    String.eqb (key_flight k) (Eligibility.flight_id rs)
    && String.eqb (key_role k) (Eligibility.role rs)
    && Nat.eqb (key_slot k) (Eligibility.slot_index rs)).

Definition coverage (elig : Eligibility.EligibilityBundle) (x : xdict) : M unit :=
  for_each (Eligibility.role_slots elig)
    (fun rs => Add (esum (map EVar (slot_vars x rs))) Eq (EInt 1)).

(** *** At most one slot per (crew, flight) *)

Definition crew_id_set (bundle : DataBundle) : list string :=
  set_of (map Models.crew_id (crew bundle)).

Definition at_most_one_seat (bundle : DataBundle) (x : xdict) : M unit :=
  for_each (crew_id_set bundle)
    (fun c_id =>
       let f_ids_for_c :=
         set_of (map (fun e => key_flight (fst e))
                     (List.filter (fun e => String.eqb (key_crew (fst e)) c_id) x)) in
       for_each f_ids_for_c
         (fun f_id =>
            Add (esum (map EVar (crew_flight_vars x c_id f_id))) Le (EInt 1))).

(** *** Composition: SCCM presence *)

(** The comprehension for SCCM-certified cabin crew; the crew record is
    only looked up for the entries of this flight with role "CC". *)
Fixpoint sccm_cc_vars (bundle : DataBundle) (f_id : string) (exp_min : Z)
    (x : xdict) : option (list var) :=
  match x with
  | [] => Some []
  | (k, v) :: rest =>
      if String.eqb (key_flight k) f_id && String.eqb (key_role k) "CC" then
        c ← crew_by_id bundle !! key_crew k;
        vs ← sccm_cc_vars bundle f_id exp_min rest;
        Some (if Models.sccm_certified c
                 && (exp_min <=? Models.experience_months c)
              then v :: vs else vs)
      else sccm_cc_vars bundle f_id exp_min rest
  end.

Definition composition (bundle : DataBundle) (x : xdict) : M unit :=
  let rules := rules bundle in
  let exp_min := default 12 (Models.sccm_experience_min_months rules) in
  let min_sccm_ulh := default 2 (Models.sccm_min_sccm_ulh rules) in
  let ulh_thr := Models.ulh_ft_threshold_hours rules in
  for_each (flights bundle)
    (fun f =>
       let total_cabin_crew := Models.needed_cc f + Models.needed_sc f in
       if 1 <? total_cabin_crew then
         let sc_vars :=
           vars_where x (fun k => String.eqb (key_flight k) (Models.flight_id f)
                                  && String.eqb (key_role k) "SC") in
         let* cc_vars :=
           lift (sccm_cc_vars bundle (Models.flight_id f) exp_min x) in
         let sccm_vars := (sc_vars ++ cc_vars)%list in
         match sccm_vars with
         | [] => ret tt
         | _ :: _ =>
             let req :=
               if Qlt_le_dec ulh_thr
                    (inject_Z (Models.duration_minutes f) / 60)%Q
               then Z.max 1 min_sccm_ulh else 1 in
             Add (esum (map EVar sccm_vars)) Ge (EInt req)
         end
       else ret tt).

(** *** No overlap per crew *)

Definition no_overlap (intervals_by_crew : list (string * list interval))
  : M unit :=
  for_each intervals_by_crew
    (fun '(_, iv_list) =>
       match iv_list with
       | [] => ret tt
       | _ :: _ => AddNoOverlap iv_list
       end).

(** *** Rest and continuity between adjacent potential flights *)

(** The distinct flights of a crew's entries in [x], in order of first
    appearance. *)
Fixpoint crew_flights (bundle : DataBundle) (c_id : string)
    (seen : list string) (x : xdict) : option (list (string * Models.Flight)) :=
  match x with
  | [] => Some []
  | (k, _) :: rest =>
      if String.eqb (key_crew k) c_id then
        f ← flights_by_id bundle !! key_flight k;
        if str_in (key_flight k) seen then crew_flights bundle c_id seen rest
        else
          fs ← crew_flights bundle c_id (key_flight k :: seen) rest;
          Some ((key_flight k, f) :: fs)
      else crew_flights bundle c_id seen rest
  end.

Definition sort_by_dep (l : list (string * Models.Flight))
  : list (string * Models.Flight) :=
  sort_by (fun it => Models.dep_dt (snd it)) l.

(** [for v1 in f1_vars: for v2 in f2_vars: model.Add(v1 + v2 <= 1)] *)
Definition exclude_pair (x : xdict) (c_id f1_id f2_id : string) : M unit :=
  for_each (crew_flight_vars x c_id f1_id)
    (fun var1 =>
       for_each (crew_flight_vars x c_id f2_id)
         (fun var2 => Add (EAdd (EVar var1) (EVar var2)) Le (EInt 1))).

Definition min_rest (bundle : DataBundle) (x : xdict)
    (intervals_by_crew : list (string * list interval)) : M unit :=
  let min_rest_seconds :=
    Models.min_rest_hours_between_duties (rules bundle) * 3600 in
  for_each (map fst intervals_by_crew)
    (fun c_id =>
       let* unique_flights := lift (crew_flights bundle c_id [] x) in
       let sorted_flights := sort_by_dep unique_flights in
       for_each (adjacent sorted_flights)
         (fun '((f1_id, f1), (f2_id, f2)) =>
            let rest_time_available :=
              timestamp (Models.dep_dt f2) - timestamp (Models.arr_dt f1) in
            if rest_time_available <? min_rest_seconds
            then exclude_pair x c_id f1_id f2_id
            else ret tt)).

Definition _add_pilot_continuity_constraints (bundle : DataBundle) (x : xdict)
  : M unit :=
  for_each (crew_id_set bundle)
    (fun c_id =>
       let* crew_fids := lift (crew_flights bundle c_id [] x) in
       if (length crew_fids <? 2)%nat then ret tt
       else
         for_each (adjacent (sort_by_dep crew_fids))
           (fun '((f1_id, f1), (f2_id, f2)) =>
              if negb (String.eqb (Models.arr_airport f1) (Models.dep_airport f2))
              then exclude_pair x c_id f1_id f2_id
              else ret tt)).

(** *** Night duties *)

(** A crew's entries of [x] whose flight touches the night window. *)
Fixpoint night_assignments_of (bundle : DataBundle) (c_id : string)
    (night_start_time night_end_time : Z) (x : xdict)
  : option (list (string * Models.Flight * var)) :=
  match x with
  | [] => Some []
  | (k, v) :: rest =>
      if String.eqb (key_crew k) c_id then
        f ← flights_by_id bundle !! key_flight k;
        na ← night_assignments_of bundle c_id night_start_time night_end_time rest;
        Some (if Models.in_night_window (Models.dep_dt f) (Models.arr_dt f)
                   night_start_time night_end_time
              then (key_flight k, f, v) :: na else na)
      else night_assignments_of bundle c_id night_start_time night_end_time rest
  end.

(** The inner loop over [j]: variables on consecutive dates, stopping at
    the first gap. *)
Fixpoint consecutive_run (current_date : Z)
    (l : list (string * Models.Flight * var)) : list var :=
  match l with
  | [] => []
  | (_, f, v) :: rest =>
      let flight_date := date_of (Models.dep_dt f) in
      if flight_date =? current_date
      then v :: consecutive_run (flight_date + 1) rest
      else []
  end.

Definition night_limits (bundle : DataBundle) (x : xdict) : M unit :=
  let rules := rules bundle in
  let '(night_start_time, night_end_time) := Models.night_window_times rules in
  let max_consecutive := Models.max_consecutive_night_duties rules in
  for_each (crew_id_set bundle)
    (fun c_id =>
       let* night_assignments :=
         lift (night_assignments_of bundle c_id night_start_time night_end_time x) in
       let night_duty_vars := map snd night_assignments in
       let n := Z.of_nat (length night_assignments) in
       when (negb (Nat.eqb (length night_duty_vars) 0))
         (Add (esum (map EVar night_duty_vars)) Le
              (EInt (Models.max_overnight_duties_per_week rules))) ;;;
       when (max_consecutive <=? n)
         (let sorted :=
            sort_by (fun it => Models.dep_dt (snd (fst it))) night_assignments in
          for_each (seq 0 (Z.to_nat (n - max_consecutive + 1)))
            (fun i =>
               let* first := lift (sorted !! i) in
               let current_date := date_of (Models.dep_dt (snd (fst first))) in
               let stop := Z.min (Z.of_nat i + max_consecutive + 1) n in
               let consecutive_vars :=
                 consecutive_run current_date
                   (take (Z.to_nat (stop - Z.of_nat i)) (drop i sorted)) in
               when (max_consecutive <=? Z.of_nat (length consecutive_vars))
                 (Add (esum (map EVar (slice_to (max_consecutive + 1)
                                                consecutive_vars)))
                      Le (EInt max_consecutive))))).

(** *** Daily caps, FDP brackets, WOCL reduction, weekly overtime *)

Definition wocl_len_minutes (rules : Models.Rules) : Z :=
  let '(_w_s, _w_e) := Models.wocl_window rules in
  if _w_s <=? _w_e then _w_e - _w_s else 24 * 60 - (_w_s - _w_e).

(** [int(max(1, elig.minutes_by_flight[f_id]))] *)
Definition assignment_minutes (elig : Eligibility.EligibilityBundle)
    (f_id : string) : option Z :=
  m ← Eligibility.minutes_by_flight elig !! f_id;
  Some (Z.max 1 m).

(** [total_terms]: a (minutes, variable) pair per entry of the crew. *)
Fixpoint total_terms (elig : Eligibility.EligibilityBundle) (c_id : string)
    (x : xdict) : option (list (Z * var)) :=
  match x with
  | [] => Some []
  | (k, v) :: rest =>
      if String.eqb (key_crew k) c_id then
        mins ← assignment_minutes elig (key_flight k);
        ts ← total_terms elig c_id rest;
        Some ((mins, v) :: ts)
      else total_terms elig c_id rest
  end.

(** The entries of the crew on day [d], with their minutes and flight. *)
Fixpoint day_entries (bundle : DataBundle) (elig : Eligibility.EligibilityBundle)
    (c_id d : string) (x : xdict) : option (list (Z * var * Models.Flight)) :=
  match x with
  | [] => Some []
  | (k, v) :: rest =>
      if String.eqb (key_crew k) c_id then
        day ← Eligibility.day_by_flight elig !! key_flight k;
        if String.eqb day d then
          mins ← assignment_minutes elig (key_flight k);
          f ← flights_by_id bundle !! key_flight k;
          es ← day_entries bundle elig c_id d rest;
          Some ((mins, v, f) :: es)
        else day_entries bundle elig c_id d rest
      else day_entries bundle elig c_id d rest
  end.

(** The term [m * v] of a minutes sum. *)
Definition term_expr (t : Z * var) : expr := EMul (EVar (snd t)) (fst t).

(** [model.Add(target == sum(...))], or [== 0] when there is no term. *)
Definition bind_sum (target : var) (terms : list expr) : M unit :=
  match terms with
  | [] => Add (EVar target) Eq (EInt 0)
  | _ :: _ => Add (EVar target) Eq (esum terms)
  end.

Definition dep_in_wocl (wocl_start_time wocl_end_time dep_t : Z) : bool :=
  ((wocl_start_time <=? wocl_end_time)
   && ((wocl_start_time <=? dep_t) && (dep_t <? wocl_end_time)))
  || ((wocl_end_time <? wocl_start_time)
      && ((wocl_start_time <=? dep_t) || (dep_t <? wocl_end_time))).

Definition pos (v : var) : literal := {| lit_var := v; lit_positive := true |}.
Definition neg (v : var) : literal := {| lit_var := v; lit_positive := false |}.

(** The body of [for d in days] for one crew; returns the day variable. *)
Definition day_caps (bundle : DataBundle) (elig : Eligibility.EligibilityBundle)
    (x : xdict) (c_id : string) (daily_cap_minutes : Z) (d : string) : M var :=
  let rules := rules bundle in
  let '(wocl_start_time, wocl_end_time) := Models.wocl_window_times rules in
  let* dvar := NewIntVar 0 1000000 in
  let* fcnt := NewIntVar 0 1000000 in
  let* start_wocl_count := NewIntVar 0 1000000 in
  let* overlap_wocl_count := NewIntVar 0 1000000 in
  let* entries := lift (day_entries bundle elig c_id d x) in
  let d_terms := map (fun e => fst e) entries in
  let f_terms := map (fun e => snd (fst e)) entries in
  let start_wocl_terms :=
    map (fun e => snd (fst e))
      (List.filter (fun e => dep_in_wocl wocl_start_time wocl_end_time
                               (time_of (Models.dep_dt (snd e)))) entries) in
  let overlap_wocl_terms :=
    map (fun e => snd (fst e))
      (List.filter (fun e => Models.in_night_window (Models.dep_dt (snd e))
                               (Models.arr_dt (snd e))
                               wocl_start_time wocl_end_time) entries) in
  bind_sum dvar (map term_expr d_terms) ;;;
  bind_sum fcnt (map EVar f_terms) ;;;
  bind_sum start_wocl_count (map EVar start_wocl_terms) ;;;
  bind_sum overlap_wocl_count (map EVar overlap_wocl_terms) ;;;
  Add (EVar dvar) Le (EInt daily_cap_minutes) ;;;
  Add (EVar fcnt) Le (EInt 6) ;;;
  let* b_le_8 := NewBoolVar in
  let* b_8_11 := NewBoolVar in
  let* b_gt_11 := NewBoolVar in
  Add (EAdd (EAdd (EVar b_le_8) (EVar b_8_11)) (EVar b_gt_11)) Eq (EInt 1) ;;;
  let th1 := 8 * 60 in
  let th2 := 11 * 60 in
  AddIf (EVar dvar) Le (EInt th1) (pos b_le_8) ;;;
  AddIf (EVar dvar) Ge (EInt (th1 + 1)) (neg b_le_8) ;;;
  AddIf (EVar dvar) Ge (EInt (th1 + 1)) (pos b_8_11) ;;;
  AddIf (EVar dvar) Le (EInt th2) (pos b_8_11) ;;;
  AddIf (EVar dvar) Le (EInt th2) (neg b_gt_11) ;;;
  AddIf (EVar dvar) Ge (EInt (th2 + 1)) (pos b_gt_11) ;;;
  AddIf (EVar fcnt) Le (EInt 6) (pos b_le_8) ;;;
  AddIf (EVar fcnt) Le (EInt 3) (pos b_8_11) ;;;
  AddIf (EVar fcnt) Le (EInt 1) (pos b_gt_11) ;;;
  let* ind_start_wocl := NewBoolVar in
  let* ind_ovlp_wocl := NewBoolVar in
  AddIf (EVar start_wocl_count) Ge (EInt 1) (pos ind_start_wocl) ;;;
  AddIf (EVar start_wocl_count) Eq (EInt 0) (neg ind_start_wocl) ;;;
  AddIf (EVar overlap_wocl_count) Ge (EInt 1) (pos ind_ovlp_wocl) ;;;
  AddIf (EVar overlap_wocl_count) Eq (EInt 0) (neg ind_ovlp_wocl) ;;;
  let red_full := Z.min daily_cap_minutes (wocl_len_minutes rules) in
  let red_half := Z.min daily_cap_minutes (wocl_len_minutes rules / 2) in
  AddIf (EVar dvar) Le (EInt (daily_cap_minutes - red_full)) (pos ind_start_wocl) ;;;
  AddIf (EVar dvar) Le (EInt (daily_cap_minutes - red_half)) (pos ind_ovlp_wocl) ;;;
  ret dvar.

Definition caps_state : Type :=
  list (string * var) * list ((string * string) * var) * list (string * var).

(** The body of [for c in bundle.crew] in the caps section. *)
Definition crew_caps (bundle : DataBundle) (elig : Eligibility.EligibilityBundle)
    (x : xdict) (st : caps_state) (c : Models.Crew) : M caps_state :=
  let '(minutes_total_by_crew, minutes_by_crew_day, overtime_by_crew) := st in
  let rules := rules bundle in
  let c_id := Models.crew_id c in
  let* tot := NewIntVar 0 10000000 in
  let* terms := lift (total_terms elig c_id x) in
  bind_sum tot (map term_expr terms) ;;;
  let minutes_total_by_crew := dict_set minutes_total_by_crew c_id tot in
  let daily_cap_hours :=
    Models.daily_cap_for_role rules (Models.role_key (Models.role c)) in
  let daily_cap_minutes := daily_cap_hours * 60 in
  let* minutes_by_crew_day :=
    fold_each (operating_days bundle) minutes_by_crew_day
      (fun by_day d =>
         let* dvar := day_caps bundle elig x c_id daily_cap_minutes d in
         ret (dict_set by_day (c_id, d) dvar)) in
  let wk_cap :=
    default (Models.weekly_max_duty_hrs_default rules)
            (Models.weekly_max_duty_hrs c) in
  let wk_cap_minutes := wk_cap * 60 in
  let* ot := NewIntVar 0 10000000 in
  Add (EVar ot) Ge (ESub (EVar tot) (EInt wk_cap_minutes)) ;;;
  let overtime_by_crew := dict_set overtime_by_crew c_id ot in
  let ft7_cap_minutes := default 40 (Models.ft_hours_7_days rules) * 60 in
  Add (EVar tot) Le (EInt ft7_cap_minutes) ;;;
  ret (minutes_total_by_crew, minutes_by_crew_day, overtime_by_crew).

Definition daily_and_weekly_caps (bundle : DataBundle)
    (elig : Eligibility.EligibilityBundle) (x : xdict) : M caps_state :=
  fold_each (crew bundle) ([], [], []) (crew_caps bundle elig x).

(** *** Base return *)

Definition pilot_roles : list string := ["Captain"; "FO"].

Fixpoint pilot_day_flights (bundle : DataBundle)
    (elig : Eligibility.EligibilityBundle) (c_id day_str : string) (x : xdict)
  : option (list (Models.Flight * var)) :=
  match x with
  | [] => Some []
  | (k, v) :: rest =>
      if String.eqb (key_crew k) c_id then
        day ← Eligibility.day_by_flight elig !! key_flight k;
        if String.eqb day day_str && str_in (key_role k) pilot_roles then
          f ← flights_by_id bundle !! key_flight k;
          fs ← pilot_day_flights bundle elig c_id day_str rest;
          Some ((f, v) :: fs)
        else pilot_day_flights bundle elig c_id day_str rest
      else pilot_day_flights bundle elig c_id day_str rest
  end.

Definition _add_base_return_constraints (bundle : DataBundle)
    (elig : Eligibility.EligibilityBundle) (x : xdict)
  : M (list (string * var)) :=
  fold_each (crew bundle) []
    (fun base_penalty_vars c =>
       if negb (str_in (Models.role_norm c) pilot_roles)
       then ret base_penalty_vars
       else
         let c_id := Models.crew_id c in
         fold_each (operating_days bundle) base_penalty_vars
           (fun base_penalty_vars day_str =>
              let* day_flights :=
                lift (pilot_day_flights bundle elig c_id day_str x) in
              let sorted := sort_by (fun it => Models.dep_dt (fst it)) day_flights in
              match last sorted with
              | None => ret base_penalty_vars
              | Some (last_flight, last_var) =>
                  let* away_from_base_penalty := NewIntVar 0 1000 in
                  (if negb (String.eqb (Models.arr_airport last_flight)
                                       (Models.base c))
                   then Add (EVar away_from_base_penalty) Ge
                            (EMul (EVar last_var) 100)
                   else Add (EVar away_from_base_penalty) Eq (EInt 0)) ;;;
                  ret (dict_set base_penalty_vars (c_id ++ "_" ++ day_str)
                                away_from_base_penalty)
              end)).

(** *** The builder *)

Definition build_model_with_constraints (bundle : DataBundle)
    (elig : Eligibility.EligibilityBundle) : M ModelArtifacts :=
  let* dv := decision_vars bundle elig in
  let '(x, intervals_by_crew) := dv in
  coverage elig x ;;;
  at_most_one_seat bundle x ;;;
  composition bundle x ;;;
  no_overlap intervals_by_crew ;;;
  min_rest bundle x intervals_by_crew ;;;
  night_limits bundle x ;;;
  let* caps := daily_and_weekly_caps bundle elig x in
  let '(minutes_total_by_crew, minutes_by_crew_day, overtime_by_crew) := caps in
  _add_pilot_continuity_constraints bundle x ;;;
  let* base_penalty_vars := _add_base_return_constraints bundle elig x in
  ret {| x := x;
         intervals_by_crew := intervals_by_crew;
         minutes_total_by_crew := minutes_total_by_crew;
         minutes_by_crew_day := minutes_by_crew_day;
         overtime_by_crew := overtime_by_crew;
         base_penalty_vars := base_penalty_vars;
         role_slots := Eligibility.role_slots elig |}.

End Constraints.

(** ** core/objective.py and the exact solving path of api/app.py *)

Module Objective.
Import Py.
Import Loader.
Import CpModel.
Import Constraints.

Record Weights := {
  w_ot : Z;
  w_fair : Z;
  w_pref : Z;
  w_base : Z;
  w_continuity : Z
}.

Definition default_weights : Weights :=
  {| w_ot := 100; w_fair := 10; w_pref := 1; w_base := 50; w_continuity := 75 |}.

(** The body of the loop over [x.items()] that creates the preference
    penalties. *)
Definition preference_penalty (bundle : DataBundle)
    (elig : Eligibility.EligibilityBundle)
    (pref_pen_terms : list var) (e : key * var) : M (list var) :=
  let '(k, v) := e in
  let c_id := key_crew k in
  let* day_str := lift (Eligibility.day_by_flight elig !! key_flight k) in
  let* sector := lift (Eligibility.sector_by_flight elig !! key_flight k) in
  let* pref_pen_terms :=
    match prefs bundle !! c_id with
    | Some p =>
        if bool_decide (day_str ∈ requested_days_off p) then
          let* pen := NewIntVar 0 1000000 in
          Add (EVar pen) Eq (EMul (EVar v) 1000) ;;;
          ret (pref_pen_terms ++ [pen])%list
        else ret pref_pen_terms
    | None => ret pref_pen_terms
    end in
  match prefs bundle !! c_id with
  | Some p =>
      if negb (bool_decide (preferred_sectors p = ∅))
         && negb (bool_decide (sector ∈ preferred_sectors p)) then
        let* pen2 := NewIntVar 0 1000000 in
        Add (EVar pen2) Eq (EMul (EVar v) 1) ;;;
        ret (pref_pen_terms ++ [pen2])%list
      else ret pref_pen_terms
  | None => ret pref_pen_terms
  end.

Definition add_objective (bundle : DataBundle)
    (elig : Eligibility.EligibilityBundle) (art : ModelArtifacts)
    (weights : Weights) : M unit :=
  let overtime_sum := esum (map (fun e => EVar (snd e)) (overtime_by_crew art)) in
  let* sum_totals := NewIntVar 0 1000000000 in
  Add (EVar sum_totals) Eq
      (esum (map (fun e => EVar (snd e)) (minutes_total_by_crew art))) ;;;
  let n := Z.max 1 (Z.of_nat (length (minutes_total_by_crew art))) in
  let* avg_minutes := NewIntVar 0 1000000000 in
  AddMultiplicationEquality (EVar sum_totals) [EVar avg_minutes; EInt n] ;;;
  let* devs :=
    fold_each (minutes_total_by_crew art) ([], [])
      (fun st e =>
         let '(dev_pos, dev_neg) := st in
         let '(c_id, tot) := e in
         let* dpos := NewIntVar 0 1000000000 in
         let* dneg := NewIntVar 0 1000000000 in
         Add (ESub (EVar tot) (EVar avg_minutes)) Eq
             (ESub (EVar dpos) (EVar dneg)) ;;;
         ret (dict_set dev_pos c_id dpos, dict_set dev_neg c_id dneg)) in
  let '(dev_pos, dev_neg) := devs in
  let fairness_sum :=
    EAdd (esum (map (fun e => EVar (snd e)) dev_pos))
         (esum (map (fun e => EVar (snd e)) dev_neg)) in
  let* pref_pen_terms := fold_each (x art) [] (preference_penalty bundle elig) in
  let pref_sum :=
    match pref_pen_terms with
    | [] => EInt 0
    | _ :: _ => esum (map EVar pref_pen_terms)
    end in
  let base_return_sum :=
    match base_penalty_vars art with
    | [] => EInt 0
    | _ :: _ => esum (map (fun e => EVar (snd e)) (base_penalty_vars art))
    end in
  Minimize (EAdd (EAdd (EAdd (EMul overtime_sum (w_ot weights))
                             (EMul fairness_sum (w_fair weights)))
                       (EMul pref_sum (w_pref weights)))
                 (EMul base_return_sum (w_base weights))).

(** An assignment as the exact path reports it. *)
Record Assignment := {
  a_crew_id : string;
  a_role : string;
  a_flight_id : string
}.

(** The model the exact path hands to the solver: eligibility, the
    constraints, then the objective. *)
Definition exact_model (bundle : DataBundle) (weights : Weights)
  : option (ModelArtifacts * model) :=
  elig ← Eligibility.build_eligibility bundle;
  '(art, m) ← build_model_with_constraints bundle elig empty_model;
  '(_, m') ← add_objective bundle elig art weights m;
  Some (art, m').

(** [for key, var in x.items(): if solver.Value(var) == 1: ...] *)
Definition extract_assignments (x : xdict) (val : valuation) : list Assignment :=
  map (fun e => {| a_crew_id := key_crew (fst e);
                   a_role := key_role (fst e);
                   a_flight_id := key_flight (fst e) |})
      (List.filter (fun e => val (snd e) =? 1) x).

(** [assignments] is the read-out of some solution of the model of the
    exact path: the roster that the exact path returns when the solver
    reports a solution.  The run in which it reports none is covered by
    [read_out] below. *)
Definition exact_solution (bundle : DataBundle) (weights : Weights)
    (assignments : list Assignment) : Prop :=
  exists art m val,
    exact_model bundle weights = Some (art, m)
    /\ feasible m val = true
    /\ assignments = extract_assignments (x art) val.

(** What [solver.Solve] leaves for the read-out: the solution it found
    (status OPTIMAL or FEASIBLE), or none (INFEASIBLE, or no solution
    within the time limit). *)
Inductive solve_result :=
| Solution (val : valuation)
| NoSolution.

(** A solution that the solver reports satisfies the model. *)
Definition solved_by (m : model) (res : solve_result) : Prop :=
  match res with
  | Solution val => feasible m val = true
  | NoSolution => True
  end.

(** [solver.Value(var)]; without a solution every variable reads 0. *)
Definition Value (res : solve_result) : valuation :=
  match res with
  | Solution val => val
  | NoSolution => fun _ => 0
  end.

(** The assignments that [_run_ortools_optimization] returns: the loop
    over [x] is run whatever the status of the solver is. *)
Definition read_out (art : ModelArtifacts) (res : solve_result)
  : list Assignment :=
  extract_assignments (x art) (Value res).

End Objective.

(** ** api/app.py: the comparison of two rosters *)

Module App.
Import Py.

(** An assignment of a roster as the API passes it around: a JSON object
    whose values are taken as strings. *)
Definition assignment : Type := gmap string string.

(** The parts of a roster dictionary that [calculate_roster_changes]
    reads: [d.get("assignments")] ([None] when the key is missing or
    null) and [d.get("kpis", {}).get("coverage_pct", 0)] ([None] when it
    falls back to the default). *)
Record Roster := {
  assignments : option (list assignment);
  coverage_pct : option Q
}.

Record Change := {
  ch_type : string;
  ch_crew_id : string;
  ch_flight_id : string;
  ch_role : string;
  ch_flight_details : string
}.

Record Summary := {
  total_changes : nat;
  assignments_removed : nat;
  assignments_added : nat;
  coverage_before : Q;
  coverage_after : Q
}.

(** The returned dictionary; [summary] is [None] for the empty
    dictionary of the early return. *)
Record Changes := {
  crew_changes : list Change;
  flight_changes : list Change;
  summary : option Summary
}.

(** [(a["crew_id"], a["flight_id"])]; [None] is the [KeyError]. *)
Definition key_of (a : assignment) : option (string * string) :=
  c ← a !! "crew_id";
  f ← a !! "flight_id";
  Some (c, f).

(** [{(a["crew_id"], a["flight_id"]): a for a in l}] *)
Definition index_assignments (l : list assignment)
  : option (list ((string * string) * assignment)) :=
  foldl (fun acc a =>
           d ← acc;
           k ← key_of a;
           Some (dict_set d k a))
        (Some []) l.

(** The dictionary appended to [crew_changes] for one assignment. *)
Definition change_of (type : string) (a : assignment) : option Change :=
  c ← a !! "crew_id";
  f ← a !! "flight_id";
  r ← a !! "role";
  dep ← a !! "dep_airport";
  arr ← a !! "arr_airport";
  dt ← a !! "dep_dt";
  Some {| ch_type := type;
          ch_crew_id := c;
          ch_flight_id := f;
          ch_role := r;
          ch_flight_details := dep ++ "-" ++ arr ++ " " ++ dt |}.

(** [for key, assignment in src.items(): if key not in other: ...] *)
Definition changes_between (type : string)
    (src other : list ((string * string) * assignment))
  : option (list Change) :=
  mapM (fun e => change_of type (snd e))
       (List.filter (fun e => negb (bool_decide (fst e ∈ map fst other))) src).

Definition calculate_roster_changes (before after : Roster)
  : option Changes :=
  match assignments before, assignments after with
  | Some (b0 :: b), Some (a0 :: a) =>
      before_assignments ← index_assignments (b0 :: b);
      after_assignments ← index_assignments (a0 :: a);
      removed ← changes_between "removed" before_assignments after_assignments;
      added ← changes_between "added" after_assignments before_assignments;
      let crew_changes := (removed ++ added)%list in
      Some {| crew_changes := crew_changes;
              flight_changes := [];
              summary :=
                Some {| total_changes := length crew_changes;
                        assignments_removed :=
                          length (List.filter
                                    (fun c => String.eqb (ch_type c) "removed")
                                    crew_changes);
                        assignments_added :=
                          length (List.filter
                                    (fun c => String.eqb (ch_type c) "added")
                                    crew_changes);
                        coverage_before := default 0%Q (coverage_pct before);
                        coverage_after := default 0%Q (coverage_pct after) |} |}
  | _, _ => Some {| crew_changes := []; flight_changes := []; summary := None |}
  end.

End App.

(** ** Reasoning about the builder

    A model only ever grows: variables, intervals and constraints are
    appended.  [grows c] says that a building step [c] respects this, and
    [posts c ct] that every successful run of [c] leaves the constraint
    [ct] in the model. *)

Module CpLogic.
Import CpModel.

Definition extends (m m' : model) : Prop :=
  (exists ds, domains m' = (domains m ++ ds)%list)
  /\ (exists ivs, intervals m' = (intervals m ++ ivs)%list)
  /\ (exists cs, constraints m' = (constraints m ++ cs)%list).

Definition grows {A} (c : M A) : Prop :=
  forall m a m', c m = Some (a, m') -> extends m m'.

Definition posts {A} (c : M A) (ct : constraint) : Prop :=
  forall m a m', c m = Some (a, m') -> ct ∈ constraints m'.

(** Every successful run of [c] leaves in the model a constraint with
    property [P]; used where the constraint mentions a variable created
    during the run. *)
Definition ensures {A} (c : M A) (P : constraint -> Prop) : Prop :=
  forall m a m', c m = Some (a, m') -> exists ct, P ct /\ ct ∈ constraints m'.

(** The constraint posted by [bind_sum]: [target == sum(terms)], or
    [target == 0] when there is no term. *)
Definition sum_constraint (target : var) (terms : list expr) : constraint :=
  Linear (EVar target) Eq
    (match terms with
     | [] => EInt 0
     | _ :: _ => esum terms
     end) None.

(** All variables of the list take the value 0 or 1. *)
Definition boolean_on (val : valuation) (vs : list var) : Prop :=
  Forall (fun v => val v = 0 \/ val v = 1) vs.

(** The number of variables of the list that are set. *)
Definition count_set (val : valuation) (vs : list var) : nat :=
  length (List.filter (fun v => val v =? 1) vs).


(** Every constraint that a run of [c] adds to the model has property
    [Q]. *)
Definition keeps {A} (Q : constraint -> Prop) (c : M A) : Prop :=
  forall m a m', c m = Some (a, m') ->
    Forall Q (constraints m) -> Forall Q (constraints m').

End CpLogic.

(** ** Notions taken from the specification's wording *)

Module Spec.
Import Py.

(** The spellings that the specification calls recognised for first
    officers, senior crew and cabin crew. *)
Definition recognized_spellings : list string :=
  ["FO"; "First Officer";
   "Senior Crew"; "Senior Cabin Crew"; "SC";
   "Junior Cabin Crew"; "Cabin Crew"; "CC"].

Definition normalized_roles : list string := ["Captain"; "FO"; "SC"; "CC"].

(** A local time [t] (seconds after midnight) lies in the window
    [start_local, end_local), which wraps midnight when its end precedes
    its start. *)
Definition time_in_window (start_local end_local t : Z) : Prop :=
  if end_local <? start_local
  then start_local <= t \/ t < end_local
  else start_local <= t < end_local.

(** Some instant of [dep, arr] lies inside the window. *)
Definition portion_in_window (dep arr : datetime) (start_local end_local : Z)
  : Prop :=
  exists t : datetime,
    dep <= t <= arr /\ time_in_window start_local end_local (time_of t).

(** A baseline record [a] yields the triple [t]: its three fields are
    present and non-empty, its crew is not excluded and its flight is not
    excluded. *)
Definition retained (exclude_crew exclude_flights : gset string)
    (a : gmap string string) (t : string * string * string) : Prop :=
  let '(c_id, f_id, role) := t in
  a !! "crew_id" = Some c_id /\ c_id <> ""
  /\ a !! "flight_id" = Some f_id /\ f_id <> ""
  /\ a !! "role" = Some role /\ role <> ""
  /\ (c_id ∉ exclude_crew) /\ (f_id ∉ exclude_flights).

(** The flights that a roster gives to one crew member, ordered by
    departure. *)
Definition crew_duties (b : Loader.DataBundle)
    (assignments : list Objective.Assignment) (c : string)
  : list Models.Flight :=
  sort_by Models.dep_dt
    (omap (fun a =>
             if String.eqb (Objective.a_crew_id a) c
             then Loader.flights_by_id b !! Objective.a_flight_id a
             else None)
          assignments).

(** Rest floor: any two assignments of one crew member that are
    consecutive by departure time are separated by at least the minimum
    rest. *)
Definition rest_respected (b : Loader.DataBundle)
    (assignments : list Objective.Assignment) : Prop :=
  forall c f1 f2,
    (f1, f2) ∈ adjacent (crew_duties b assignments c) ->
    Models.min_rest_hours_between_duties (Loader.rules b) * 3600
    <= timestamp (Models.dep_dt f2) - timestamp (Models.arr_dt f1).

(** The number of assignments of crew [c] to flight [f] in a roster of
    the exact path, and in an individual of the genetic path. *)
Definition seats_held (assignments : list Objective.Assignment)
    (c f : string) : nat :=
  length (List.filter
            (fun a => String.eqb (Objective.a_crew_id a) c
                      && String.eqb (Objective.a_flight_id a) f)
            assignments).

Definition ga_seats_held (solution : list Genetic.Assignment)
    (c f : string) : nat :=
  length (List.filter
            (fun a => String.eqb (Genetic.a_crew_id a) c
                      && String.eqb (Genetic.a_flight_id a) f)
            solution).



(** *** Continuity of an individual of the genetic engine *)

(** The known flights of the distinct (crew, flight) pairs of crew [c] in
    an individual, in order of first appearance. *)
Definition distinct_flights (self : Genetic.GeneticOptimizer)
    (solution : list Genetic.Assignment) (c : string) : list Genetic.Flight :=
  omap (fun k : string * string =>
          if decide (fst k = c) then Genetic.flights_by_id self !! snd k
          else None)
       (first_keys (map Genetic.cf_key solution)).

(** The distinct flights of crew [c] in an individual, ordered by
    departure time: the list the repair walks along. *)
Definition crew_schedule (self : Genetic.GeneticOptimizer)
    (solution : list Genetic.Assignment) (c : string) : list Genetic.Flight :=
  sort_by Genetic.dep_dt
    (dict_get (Genetic.flights_for_crew (Genetic.flights_by_id self) solution) c).

(** Each flight after the first departs from the arrival airport of the
    flight before it. *)
Definition chained (l : list Genetic.Flight) : Prop :=
  forall f1 f2, (f1, f2) ∈ adjacent l ->
    Genetic.dep_airport f2 = Genetic.arr_airport f1.

(** The individual satisfies the continuity chain for every crew. *)
Definition continuous (self : Genetic.GeneticOptimizer)
    (solution : list Genetic.Assignment) : Prop :=
  forall c, chained (crew_schedule self solution c).

(** The assignment's flight is known and survives the chain walk over its
    crew's schedule. *)
Definition on_chain (self : Genetic.GeneticOptimizer)
    (solution : list Genetic.Assignment) (a : Genetic.Assignment) : bool :=
  bool_decide
    (Genetic.a_flight_id a
     ∈ map Genetic.flight_id
         (Genetic.keep_chain None
            (crew_schedule self solution (Genetic.a_crew_id a)))).

(** *** Fitness of an individual *)

(** Every assignment names a crew member and a flight of the roster. *)
Definition known (self : Genetic.GeneticOptimizer)
    (solution : list Genetic.Assignment) : bool :=
  forallb (fun a =>
             bool_decide (is_Some (Genetic.find_crew self (Genetic.a_crew_id a)))
             && bool_decide
                  (is_Some (Genetic.find_flight self (Genetic.a_flight_id a))))
          solution.

(** The formula as the specification words it: every term but coverage
    and stability is subtracted, with weights [k1] to [k4]. *)
Definition spec_fitness (k1 k2 k3 k4 w_stab : R)
    (coverage overtime fairness_bonus continuity_violations base_violations
     stability_fraction : R) : R :=
  Rmax (1000 * coverage - k1 * overtime - k2 * fairness_bonus
        - k3 * continuity_violations - k4 * base_violations
        + w_stab * stability_fraction)%R 0.1%R.

(** The worded formula over the components that the engine computes for
    an individual; where a component is undefined the value is the one
    the engine gives. *)
Definition worded_fitness (k1 k2 k3 k4 : R) (self : Genetic.GeneticOptimizer)
    (solution : list Genetic.Assignment) : Genetic.fitness :=
  match solution with
  | [] => Genetic.NegInf
  | _ :: _ =>
      match Genetic._calculate_coverage_score self solution,
            Genetic._calculate_overtime_penalty self solution,
            Genetic._calculate_fairness_score self solution with
      | Some coverage, Some overtime, Some fairness =>
          let '(continuity, base) :=
            Genetic._calculate_continuity_and_base_penalties self solution in
          Genetic.Fin
            (spec_fitness k1 k2 k3 k4 (IZR (Genetic.w_stability self))
               coverage overtime fairness (IZR continuity) (IZR base)
               (Q2R (Genetic._calculate_stability_bonus self solution)))
      | _, _, _ => Genetic.NegInf
      end
  end.

(** The same bundle with nobody reported sick. *)
Definition without_sickness (b : Loader.DataBundle) : Loader.DataBundle :=
  {| Loader.flights := Loader.flights b;
     Loader.crew := Loader.crew b;
     Loader.prefs := Loader.prefs b;
     Loader.rules := Loader.rules b;
     Loader.flights_by_id := Loader.flights_by_id b;
     Loader.crew_by_id := Loader.crew_by_id b;
     Loader.sickness_days := ∅;
     Loader.operating_days := Loader.operating_days b |}.

(** The sickness dates recorded for a crew member. *)
Definition sick_dates (b : Loader.DataBundle) (crew_id : string) : gset string :=
  default ∅ (Loader.sickness_days b !! crew_id).

(** The seats that a flight requires for a normalised role. *)
Definition seats_needed (f : Models.Flight) (role : string) : Z :=
  if String.eqb role "Captain" then Models.needed_captains f
  else if String.eqb role "FO" then Models.needed_fo f
  else if String.eqb role "SC" then Models.needed_sc f
  else if String.eqb role "CC" then Models.needed_cc f
  else 0.


(** The optional interval that the encoder creates for a decision
    variable [v] of flight [f]: from departure to arrival plus
    turnaround. *)
Definition duty_interval (b : Loader.DataBundle) (f : Models.Flight)
    (v : CpModel.var) : CpModel.interval :=
  let start := Constraints.to_ts (Models.dep_dt f) in
  let size_sec :=
    (Constraints.to_ts (Models.arr_dt f) - start)
    + Models.turnaround_minutes (Loader.rules b) * 60 in
  {| CpModel.iv_start := start;
     CpModel.iv_size := size_sec;
     CpModel.iv_end := start + size_sec;
     CpModel.iv_present := v |}.

(** The minutes that a valuation assigns to crew [c_id]: the sum, over
    the crew's decision variables, of the variable's value times the
    minutes of its flight. *)
Definition assigned_minutes (elig : Eligibility.EligibilityBundle)
    (x : Constraints.xdict) (val : CpModel.valuation) (c_id : string) : Z :=
  match Constraints.total_terms elig c_id x with
  | Some terms => zsum (map (fun t => val (snd t) * fst t) terms)
  | None => 0
  end.


(** The minutes and the number of flights that a valuation gives a crew
    member on one day, over the day's entries (minutes, variable,
    flight). *)
Definition day_minutes (val : CpModel.valuation)
    (entries : list (Z * CpModel.var * Models.Flight)) : Z :=
  zsum (map (fun e => val (snd (fst e)) * fst (fst e)) entries).

Definition day_landings (val : CpModel.valuation)
    (entries : list (Z * CpModel.var * Models.Flight)) : Z :=
  zsum (map (fun e => val (snd (fst e))) entries).

End Spec.

(** ** Sample data for the worked examples *)

Module Examples.
Import Py.

(** 2025-09-08 00:00:00 *)
Definition day0 : datetime := 20339 * 86400.

Definition hm (h m : Z) : datetime := day0 + h * 3600 + m * 60.

Definition rules0 : Models.Rules :=
  {| Models.daily_max_duty_hrs :=
       {[ "Captain" := 10; "First Officer" := 10; "Cabin" := 11 ]};
     Models.weekly_max_duty_hrs_default := 45;
     Models.min_rest_hours_between_duties := 12;
     Models.max_overnight_duties_per_week := 4;
     Models.turnaround_minutes := 45;
     Models.night_duty_window := (22 * 60, 5 * 60);
     Models.max_consecutive_night_duties := 3;
     Models.wocl_window := (2 * 60, 6 * 60);
     Models.sccm_experience_min_months := Some 12;
     Models.sccm_min_sccm_ulh := Some 2;
     Models.ft_hours_7_days := Some 40;
     Models.ulh_ft_threshold_hours := 11 |}.

Definition captain_flight (id dep arr : string) (dep_dt arr_dt : datetime)
  : Models.Flight :=
  {| Models.flight_id := id;
     Models.dep_airport := dep;
     Models.arr_airport := arr;
     Models.dep_dt := dep_dt;
     Models.arr_dt := arr_dt;
     Models.aircraft_type := "A320";
     Models.needed_captains := 1;
     Models.needed_fo := 0;
     Models.needed_sc := 0;
     Models.needed_cc := 0 |}.

Definition captain (id : string) : Models.Crew :=
  {| Models.crew_id := id;
     Models.name := id;
     Models.role := "Captain";
     Models.base := "DEL";
     Models.qualified_types := "A320|A321";
     Models.weekly_max_duty_hrs := Some 40;
     Models.leave_status := "Available";
     Models.sccm_certified := false;
     Models.experience_months := 0 |}.

(** What [load_data] returns for the given flights, crew and sickness
    map; the operating days are passed as the loader sorted them. *)
Definition bundle_of (fs : list Models.Flight) (cs : list Models.Crew)
    (sick : gmap string (gset string)) (days : list string)
  : Loader.DataBundle :=
  {| Loader.flights := fs;
     Loader.crew := cs;
     Loader.prefs := ∅;
     Loader.rules := rules0;
     Loader.flights_by_id := Loader.index_by Models.flight_id (fun f => f) fs;
     Loader.crew_by_id := Loader.index_by Models.crew_id (fun c => c) cs;
     Loader.sickness_days := sick;
     Loader.operating_days := days |}.

(** One morning flight, two captains, one of them sick that day. *)
Definition sick_bundle : Loader.DataBundle :=
  bundle_of [captain_flight "F1" "DEL" "BOM" (hm 8 0) (hm 9 0)]
            [captain "A"; captain "B"]
            {[ "A" := {[ "2025-09-08" ]} ]}
            ["2025-09-08"].


(** Three one-hour flights on one day, each needing a captain, and two
    captains.  The first and the third are four hours apart. *)
Definition rest_bundle : Loader.DataBundle :=
  bundle_of [captain_flight "F1" "DEL" "BOM" (hm 8 0) (hm 9 0);
             captain_flight "F2" "BOM" "DEL" (hm 10 0) (hm 11 0);
             captain_flight "F3" "BOM" "DEL" (hm 13 0) (hm 14 0)]
            [captain "A"; captain "B"] ∅ ["2025-09-08"].

(** Captain A flies F1 and F3, captain B flies F2; the remaining values
    are the totals, counters and indicators these choices determine. *)
Definition rest_solution : CpModel.valuation :=
  fun v =>
    nth v [1; 0; 0; 1; 1; 0;
           120; 120; 2; 0; 0; 1; 0; 0; 0; 0; 0;
           60; 60; 1; 0; 0; 1; 0; 0; 0; 0; 0;
           0; 0;
           180; 90; 30; 0; 0; 30] 0.

(** *** Genetic engine *)

Definition ga_config : Genetic.GAConfig :=
  {| Genetic.population_size := 4;
     Genetic.generations := 3;
     Genetic.mutation_rate := 1 # 10;
     Genetic.crossover_rate := 8 # 10;
     Genetic.elite_size := 1;
     Genetic.tournament_size := 2;
     Genetic.max_time_seconds := 300;
     Genetic.cfg_w_stability := 300 |}.

Definition ga_flight (id dep arr : string) (dep_dt arr_dt : datetime)
    (cc : Z) : Genetic.Flight :=
  {| Genetic.flight_id := id;
     Genetic.dep_dt := dep_dt;
     Genetic.arr_dt := arr_dt;
     Genetic.dep_airport := dep;
     Genetic.arr_airport := arr;
     Genetic.aircraft_type := "A320";
     Genetic.needed_captains := 1;
     Genetic.needed_fo := 1;
     Genetic.needed_sc := 0;
     Genetic.needed_cc := cc |}.

Definition ga_crew (id role base : string) : Genetic.Crew :=
  {| Genetic.crew_id := id;
     Genetic.name := id;
     Genetic.role := role;
     Genetic.base := base;
     Genetic.qualified_types := ["A320"];
     Genetic.weekly_max_duty_hrs := 40;
     Genetic.available := true;
     Genetic.sccm_certified := false;
     Genetic.experience_months := 24 |}.

(** One flight DEL-BOM with two cabin seats; the roster has one captain,
    one first officer and a single cabin crew member. *)
Definition small_roster : Genetic.GeneticOptimizer :=
  Genetic.load_data ga_config
    [ga_flight "F1" "DEL" "BOM" (hm 8 0) (hm 10 0) 2]
    [ga_crew "C1" "Captain" "BOM";
     ga_crew "FO1" "First Officer" "BOM";
     ga_crew "CC1" "Cabin Crew" "BOM"].

(** Two flights that both leave from DEL, and one crew of each role. *)
Definition chain_roster : Genetic.GeneticOptimizer :=
  Genetic.load_data ga_config
    [ga_flight "F1" "DEL" "BOM" (hm 8 0) (hm 10 0) 1;
     ga_flight "F2" "DEL" "GOI" (hm 10 30) (hm 12 0) 1]
    [ga_crew "C1" "Captain" "DEL";
     ga_crew "FO1" "First Officer" "DEL";
     ga_crew "CC1" "Cabin Crew" "DEL"].

(** The captain is given both flights, the first officer only the
    second. *)
Definition broken_individual : list Genetic.Assignment :=
  [Genetic.Build_Assignment "C1" "F2" "Captain";
   Genetic.Build_Assignment "FO1" "F2" "First Officer";
   Genetic.Build_Assignment "C1" "F1" "Captain"].

(** The individual that the random construction builds on
    [small_roster]: the single cabin crew member fills both cabin seats. *)
Definition crowded_individual : list Genetic.Assignment :=
  [Genetic.Build_Assignment "C1" "F1" "Captain";
   Genetic.Build_Assignment "FO1" "F1" "First Officer";
   Genetic.Build_Assignment "CC1" "F1" "Cabin Crew";
   Genetic.Build_Assignment "CC1" "F1" "Cabin Crew"].

(** The captain alone on the single flight of [small_roster]. *)
Definition lone_captain : list Genetic.Assignment :=
  [Genetic.Build_Assignment "C1" "F1" "Captain"].

Definition baseline_record (c f r : string) : gmap string string :=
  {[ "crew_id" := c; "flight_id" := f; "role" := r ]}.

(** A prior roster of three assignments, one of them without a role. *)
Definition prior_roster : list (gmap string string) :=
  [baseline_record "C1" "F1" "Captain";
   baseline_record "FO1" "F1" "First Officer";
   baseline_record "CC1" "F1" "";
   baseline_record "C9" "F9" "Captain"].


(** The roster read off [rest_solution]. *)
Definition rest_roster : list Objective.Assignment :=
  [ Objective.Build_Assignment "A" "Captain" "F1";
    Objective.Build_Assignment "B" "Captain" "F2";
    Objective.Build_Assignment "A" "Captain" "F3" ].


(** One flight that leaves at 03:00, inside the WOCL window, and one
    captain. *)
Definition wocl_bundle : Loader.DataBundle :=
  bundle_of [captain_flight "F1" "DEL" "BOM" (hm 3 0) (hm 4 0)]
            [captain "A"] ∅ ["2025-09-08"].

(** The captain flies the flight; the remaining values are the totals,
    counters and indicators this choice determines. *)
Definition wocl_solution : CpModel.valuation :=
  fun v => nth v [1; 60; 60; 1; 1; 1; 1; 0; 0; 1; 1; 0; 100; 60; 60; 0; 0] 0.


(** One morning flight that needs a senior and a cabin seat, and one
    crew member of each kind. *)
Definition cabin_flight : Models.Flight :=
  {| Models.flight_id := "F1";
     Models.dep_airport := "DEL";
     Models.arr_airport := "BOM";
     Models.dep_dt := hm 8 0;
     Models.arr_dt := hm 9 0;
     Models.aircraft_type := "A320";
     Models.needed_captains := 0;
     Models.needed_fo := 0;
     Models.needed_sc := 1;
     Models.needed_cc := 1 |}.

Definition cabin_member (id role : string) : Models.Crew :=
  {| Models.crew_id := id;
     Models.name := id;
     Models.role := role;
     Models.base := "DEL";
     Models.qualified_types := "A320";
     Models.weekly_max_duty_hrs := Some 40;
     Models.leave_status := "Available";
     Models.sccm_certified := false;
     Models.experience_months := 0 |}.

Definition cabin_bundle : Loader.DataBundle :=
  bundle_of [cabin_flight]
            [cabin_member "S" "Senior Crew"; cabin_member "C" "Cabin Crew"]
            ∅ ["2025-09-08"].

(** Both crew members fly the flight. *)
Definition cabin_solution : CpModel.valuation :=
  fun v =>
    nth v [1; 1;
           60; 60; 1; 0; 0; 1; 0; 0; 0; 0; 0;
           60; 60; 1; 0; 0; 1; 0; 0; 0; 0; 0;
           120; 60; 0; 0; 0; 0] 0.

(** The rules of [rest_bundle] with the limit of consecutive night
    duties set to zero. *)
Definition zero_nights_bundle : Loader.DataBundle :=
  {| Loader.flights := Loader.flights rest_bundle;
     Loader.crew := Loader.crew rest_bundle;
     Loader.prefs := Loader.prefs rest_bundle;
     Loader.rules :=
       {| Models.daily_max_duty_hrs := Models.daily_max_duty_hrs rules0;
          Models.weekly_max_duty_hrs_default :=
            Models.weekly_max_duty_hrs_default rules0;
          Models.min_rest_hours_between_duties :=
            Models.min_rest_hours_between_duties rules0;
          Models.max_overnight_duties_per_week :=
            Models.max_overnight_duties_per_week rules0;
          Models.turnaround_minutes := Models.turnaround_minutes rules0;
          Models.night_duty_window := Models.night_duty_window rules0;
          Models.max_consecutive_night_duties := 0;
          Models.wocl_window := Models.wocl_window rules0;
          Models.sccm_experience_min_months :=
            Models.sccm_experience_min_months rules0;
          Models.sccm_min_sccm_ulh := Models.sccm_min_sccm_ulh rules0;
          Models.ft_hours_7_days := Models.ft_hours_7_days rules0;
          Models.ulh_ft_threshold_hours :=
            Models.ulh_ft_threshold_hours rules0 |};
     Loader.flights_by_id := Loader.flights_by_id rest_bundle;
     Loader.crew_by_id := Loader.crew_by_id rest_bundle;
     Loader.sickness_days := Loader.sickness_days rest_bundle;
     Loader.operating_days := Loader.operating_days rest_bundle |}.


(** *** Rosters of the API *)

Definition roster_entry (c f r : string) : App.assignment :=
  {[ "crew_id" := c; "flight_id" := f; "role" := r;
     "dep_airport" := "DEL"; "arr_airport" := "BOM";
     "dep_dt" := "2025-09-08T08:00:00" ]}.

(** Two rosters that differ only in the role of the single assignment. *)
Definition roster_before : App.Roster :=
  {| App.assignments := Some [roster_entry "C1" "F1" "Captain"];
     App.coverage_pct := Some 100%Q |}.

Definition roster_after : App.Roster :=
  {| App.assignments := Some [roster_entry "C1" "F1" "FO"];
     App.coverage_pct := None |}.


(** Two flights that share the identifier F1, on consecutive days, and
    two captains, one of them sick on the day of the first flight. *)
Definition repeated_id_bundle : Loader.DataBundle :=
  bundle_of [captain_flight "F1" "DEL" "BOM" (hm 8 0) (hm 9 0);
             captain_flight "F1" "DEL" "BOM" (hm 32 0) (hm 33 0)]
            [captain "A"; captain "B"]
            {[ "A" := {[ "2025-09-08" ]} ]}
            ["2025-09-08"; "2025-09-09"].


(** One morning flight that needs two cabin seats and no senior seat,
    and two cabin crew members without SCCM certificate. *)
Definition plain_cabin_flight : Models.Flight :=
  {| Models.flight_id := "F1";
     Models.dep_airport := "DEL";
     Models.arr_airport := "BOM";
     Models.dep_dt := hm 8 0;
     Models.arr_dt := hm 9 0;
     Models.aircraft_type := "A320";
     Models.needed_captains := 0;
     Models.needed_fo := 0;
     Models.needed_sc := 0;
     Models.needed_cc := 2 |}.

Definition plain_cabin_bundle : Loader.DataBundle :=
  bundle_of [plain_cabin_flight]
            [cabin_member "C" "Cabin Crew"; cabin_member "D" "Cabin Crew"]
            ∅ ["2025-09-08"].

End Examples.

(** * Properties *)

Local Open Scope string_scope.
Local Open Scope Z_scope.
Local Open Scope list_scope.

(** ** Sanity checks of the Python built-ins *)

Example isoformat_date_2025_09_08 : Py.isoformat_date 20339 = "2025-09-08".
Proof. reflexivity. Qed.

Example isoformat_date_2024_02_29 : Py.isoformat_date 19782 = "2024-02-29".
Proof. reflexivity. Qed.

Example split_pipe : Py.split "|" "A320|A321" = ["A320"; "A321"].
Proof. reflexivity. Qed.

Example split_empty : Py.split "|" "" = [""].
Proof. reflexivity. Qed.

Example lower_cancellation : Py.lower "Cancellation" = "cancellation".
Proof. reflexivity. Qed.

(** ** Python helpers *)

Lemma str_in_In (x : string) (xs : list string) :
  Py.str_in x xs = true <-> In x xs.
Proof.
  unfold Py.str_in. rewrite existsb_exists. split.
  - intros (y & Hy & Heq). apply String.eqb_eq in Heq. now subst.
  - intros Hx. exists x. split; [assumption | apply String.eqb_refl].
Qed.

Lemma str_in_false (x : string) (xs : list string) :
  ~ In x xs -> Py.str_in x xs = false.
Proof.
  intros Hn. destruct (Py.str_in x xs) eqn:E; [|reflexivity].
  apply str_in_In in E. contradiction.
Qed.

(** ** Role normalisation (models.py) *)

Lemma role_key_cases (raw : string) :
  In (Models.role_key raw) Spec.normalized_roles.
Proof.
  unfold Models.role_key, Spec.normalized_roles.
  repeat match goal with
         | |- context [if ?b then _ else _] => destruct b
         end; simpl; auto.
Qed.

Lemma role_key_unrecognized (raw : string) :
  ~ In (Py.strip raw) Spec.recognized_spellings ->
  Models.role_key raw = "Captain".
Proof.
  intros Hn. unfold Models.role_key.
  rewrite !str_in_false; [reflexivity | | |];
    intros Hin; apply Hn; unfold Spec.recognized_spellings;
    simpl in *; intuition.
Qed.

(** C9, as stated: every string outside the recognised spellings would be
    normalised to "Captain".  The code strips surrounding whitespace before
    comparing, so a padded first-officer spelling, which is not itself in
    the list, is normalised to "FO". *)
Lemma role_key_padded_spelling_not_captain :
  ~ (forall raw : string,
       ~ In raw Spec.recognized_spellings -> Models.role_key raw = "Captain").
Proof.
  intros H. specialize (H " FO ").
  assert (Hn : ~ In " FO " Spec.recognized_spellings).
  { unfold Spec.recognized_spellings. simpl. intuition discriminate. }
  specialize (H Hn). vm_compute in H. discriminate.
Qed.

(** C9, amended: role normalisation is total, with values among "Captain",
    "FO", "SC" and "CC"; every string whose whitespace-stripped form is not
    a recognised first-officer, senior-crew or cabin-crew spelling, the
    empty string included, is mapped to "Captain". *)
Theorem role_key_total_defaults_to_captain :
  forall raw : string,
    In (Models.role_key raw) Spec.normalized_roles
    /\ (~ In (Py.strip raw) Spec.recognized_spellings ->
        Models.role_key raw = "Captain")
    /\ Models.role_key "" = "Captain".
Proof.
  intros raw. split; [apply role_key_cases | split].
  - apply role_key_unrecognized.
  - reflexivity.
Qed.

Lemma role_key_total_defaults_to_captain_witness :
  ~ In (Py.strip "Purser") Spec.recognized_spellings
  /\ Models.role_key "Purser" = "Captain".
Proof.
  assert (Hn : ~ In (Py.strip "Purser") Spec.recognized_spellings).
  { vm_compute. intuition discriminate. }
  split; [exact Hn |].
  exact (proj1 (proj2 (role_key_total_defaults_to_captain "Purser")) Hn).
Defined.

(** ** The night-window test (models.py) *)

Lemma in_window_spec (start_local end_local t : Z) :
  Models.in_window (end_local <? start_local) start_local end_local t = true
  <-> Spec.time_in_window start_local end_local t.
Proof.
  unfold Models.in_window, Spec.time_in_window.
  destruct (end_local <? start_local).
  - rewrite orb_true_iff, Z.leb_le, Z.ltb_lt. reflexivity.
  - rewrite andb_true_iff, Z.leb_le, Z.ltb_lt. reflexivity.
Qed.

(** The test never answers true without reason: when it holds for a
    forward interval and a window given by two times of day, some instant
    of the interval lies in the window. *)
Lemma in_night_window_sound (dep arr start_local end_local : Z) :
  dep <= arr ->
  0 <= end_local < 86400 -> 0 <= start_local < 86400 ->
  Models.in_night_window dep arr start_local end_local = true ->
  Spec.portion_in_window dep arr start_local end_local.
Proof.
  intros Hle He Hs H. unfold Models.in_night_window in H.
  apply orb_true_iff in H as [H | H]; [apply orb_true_iff in H as [H | H] |].
  - exists dep. split; [lia | now apply in_window_spec].
  - exists arr. split; [lia | now apply in_window_spec].
  - apply andb_true_iff in H as [Hw Hd].
    apply Z.ltb_lt in Hw. apply negb_true_iff, Z.eqb_neq in Hd.
    unfold Py.date_of in Hd.
    assert (Hlt : dep / 86400 < arr / 86400).
    { assert (dep / 86400 <= arr / 86400) by (apply Z.div_le_mono; lia). lia. }
    assert (Hm : dep < 86400 * (arr / 86400) <= arr).
    { split.
      - pose proof (Z.mul_succ_div_gt dep 86400 ltac:(lia)). nia.
      - apply Z.mul_div_le. lia. }
    unfold Spec.portion_in_window, Spec.time_in_window, Py.time_of.
    apply Z.ltb_lt in Hw as Hw'. rewrite Hw'.
    destruct (Z.eq_dec end_local 0) as [-> | Hne].
    + exists (86400 * (arr / 86400) - 1). split; [lia |]. left.
      replace (86400 * (arr / 86400) - 1)
        with (86399 + (arr / 86400 - 1) * 86400) by lia.
      rewrite Z.mod_add by lia. rewrite Z.mod_small by lia. lia.
    + exists (86400 * (arr / 86400)). split; [lia |]. right.
      rewrite Z.mul_comm, Z.mod_mul by lia. lia.
Qed.

(** C8: the interval 01:00 to 07:00 of 2025-09-08 contains the whole
    window 02:00 to 06:00, so a portion of it lies inside the window, yet
    the test answers false: it only looks at the two end points. *)
Theorem in_night_window_misses_contained_window :
  let dep := 20339 * 86400 + 1 * 3600 in
  let arr := 20339 * 86400 + 7 * 3600 in
  Spec.portion_in_window dep arr (2 * 3600) (6 * 3600)
  /\ Models.in_night_window dep arr (2 * 3600) (6 * 3600) = false.
Proof.
  split; [| reflexivity].
  exists (20339 * 86400 + 3 * 3600). split; [lia |].
  unfold Spec.time_in_window. vm_compute. split; [discriminate | reflexivity].
Qed.

(** ** Dictionaries filled in list order *)

Section IndexBy.
Context {A V : Type} (key : A -> string) (val : A -> V).

Lemma index_by_snoc (l : list A) (a : A) :
  Loader.index_by key val (l ++ [a])
  = <[key a := val a]> (Loader.index_by key val l).
Proof. unfold Loader.index_by. now rewrite foldl_app. Qed.

Lemma index_by_lookup_Some (l : list A) (k : string) (v : V) :
  Loader.index_by key val l !! k = Some v ->
  exists a, a ∈ l /\ key a = k /\ val a = v.
Proof.
  induction l as [| a l IH] using rev_ind.
  - unfold Loader.index_by. simpl. rewrite lookup_empty. discriminate.
  - rewrite index_by_snoc. destruct (decide (key a = k)) as [<- | Hne].
    + rewrite lookup_insert_eq. intros [= <-]. exists a.
      split; [apply elem_of_app; right; apply list_elem_of_singleton |]; auto.
    + rewrite lookup_insert_ne by assumption. intros H.
      destruct (IH H) as (b & Hb & Hk & Hv). exists b.
      split; [apply elem_of_app; now left | auto].
Qed.

Lemma index_by_lookup_elem (l : list A) (a : A) :
  a ∈ l -> is_Some (Loader.index_by key val l !! key a).
Proof.
  induction l as [| b l IH] using rev_ind.
  - intros H. inversion H.
  - rewrite index_by_snoc. intros H. apply elem_of_app in H as [H | H].
    + destruct (decide (key b = key a)) as [-> | Hne].
      * rewrite lookup_insert_eq. eauto.
      * rewrite lookup_insert_ne by assumption. auto.
    + apply list_elem_of_singleton in H as ->. rewrite lookup_insert_eq. eauto.
Qed.

End IndexBy.

(** Two dictionaries filled from the same list agree on which element
    each key stands for. *)
Lemma index_by_fmap {A V : Type} (key : A -> string) (val : A -> V)
    (l : list A) (k : string) :
  Loader.index_by key val l !! k
  = val <$> Loader.index_by key (fun a => a) l !! k.
Proof.
  induction l as [| a l IH] using rev_ind.
  - unfold Loader.index_by. simpl. now rewrite !lookup_empty.
  - rewrite !index_by_snoc. destruct (decide (key a = k)) as [<- | Hne].
    + now rewrite !lookup_insert_eq.
    + now rewrite !lookup_insert_ne by assumption.
Qed.

Lemma index_by_key {A : Type} (key : A -> string) (l : list A)
    (k : string) (a : A) :
  Loader.index_by key (fun a => a) l !! k = Some a -> key a = k /\ a ∈ l.
Proof.
  intros H. apply index_by_lookup_Some in H as (b & Hb & Hk & ->). auto.
Qed.

Lemma index_by_NoDup {A V : Type} (key : A -> string) (val : A -> V)
    (l : list A) (a : A) :
  NoDup (map key l) -> a ∈ l ->
  Loader.index_by key val l !! key a = Some (val a).
Proof.
  induction l as [| b l IH] using rev_ind; intros Hnd Hin.
  - inversion Hin.
  - rewrite index_by_snoc. rewrite map_app in Hnd.
    apply NoDup_app in Hnd as (Hl & Hdisj & _).
    apply elem_of_app in Hin as [Hin | Hin].
    + assert (key b <> key a).
      { intros Heq. apply (Hdisj (key a)).
        - apply list_elem_of_fmap. eauto.
        - simpl. rewrite Heq. apply list_elem_of_singleton. reflexivity. }
      rewrite lookup_insert_ne by assumption. auto.
    + apply list_elem_of_singleton in Hin as ->. apply lookup_insert_eq.
Qed.

(** ** Eligibility (eligibility.py) *)

Section EligibilityFacts.
Import Loader Eligibility.

Lemma elem_of_build_role_slots (b : DataBundle) (slot : RoleSlot) :
  slot ∈ build_role_slots b ->
  exists f, f ∈ flights b /\ flight_id slot = Models.flight_id f.
Proof.
  unfold build_role_slots. rewrite list_elem_of_In, in_concat.
  intros (l & Hl & Hin). apply in_map_iff in Hl as (f & <- & Hf).
  exists f. split; [now apply list_elem_of_In |].
  unfold slots_of_flight in Hin.
  repeat (apply in_app_or in Hin as [Hin | Hin]);
    apply in_map_iff in Hin as (i & <- & _); reflexivity.
Qed.

Lemma elem_of_eligible_for_slot (b : DataBundle) (slot : RoleSlot)
    (day_str ac_type : string) (t : eligible_tuple) :
  t ∈ eligible_for_slot b slot day_str ac_type <->
  exists cr, cr ∈ crew b
    /\ t = (Models.crew_id cr, flight_id slot, role slot, slot_index slot)
    /\ _crew_role_matches (role slot) (Models.role cr) = true
    /\ _crew_qualified_for ac_type (Models.qualified_types cr) = true
    /\ _crew_can_work_that_day (Models.crew_id cr) day_str b = true.
Proof.
  unfold eligible_for_slot. rewrite list_elem_of_In, in_map_iff. split.
  - intros (cr & <- & Hin). apply filter_In in Hin as (Hin & Hp).
    apply andb_true_iff in Hp as (Hp & H3).
    apply andb_true_iff in Hp as (H1 & H2).
    exists cr. rewrite list_elem_of_In. auto.
  - intros (cr & Hin & -> & H1 & H2 & H3). exists cr. split; [reflexivity |].
    apply filter_In. split; [now apply list_elem_of_In |].
    now rewrite H1, H2, H3.
Qed.

(** The eligible list, read off the three nested loops. *)
Lemma elem_of_eligible (b : DataBundle) (eb : EligibilityBundle)
    (t : eligible_tuple) :
  build_eligibility b = Some eb ->
  (t ∈ eligible eb <->
   exists slot fl day_str,
     slot ∈ build_role_slots b
     /\ flights_by_id b !! flight_id slot = Some fl
     /\ day_by_flight eb !! flight_id slot = Some day_str
     /\ t ∈ eligible_for_slot b slot day_str (Models.aircraft_type fl)).
Proof.
  unfold build_eligibility. intros H.
  destruct (mapM _ (build_role_slots b)) as [per_slot |] eqn:Hm;
    [| discriminate].
  simpl in H. injection H as <-. simpl.
  apply mapM_Some in Hm. rewrite list_elem_of_In, in_concat. split.
  - intros (l & Hl & Hin). apply list_elem_of_In in Hl.
    apply list_elem_of_lookup in Hl as (i & Hi).
    destruct (Forall2_lookup_r _ _ _ _ _ Hm Hi) as (slot & Hs & Hf).
    destruct (flights_by_id b !! flight_id slot) as [fl |] eqn:Hfl;
      [| discriminate].
    simpl in Hf.
    destruct (index_by Models.flight_id _ (flights b) !! flight_id slot)
      as [day_str |] eqn:Hd; [| discriminate].
    simpl in Hf. injection Hf as <-.
    exists slot, fl, day_str. repeat split; auto.
    + eapply list_elem_of_lookup_2; eauto.
    + now apply list_elem_of_In.
  - intros (slot & fl & day_str & Hs & Hfl & Hd & Hin).
    apply list_elem_of_lookup in Hs as (i & Hi).
    destruct (Forall2_lookup_l _ _ _ _ _ Hm Hi) as (l & Hl & Hf).
    rewrite Hfl in Hf. simpl in Hf. rewrite Hd in Hf. simpl in Hf.
    injection Hf as <-. eexists. split.
    + apply list_elem_of_In. eapply list_elem_of_lookup_2; eauto.
    + now apply list_elem_of_In.
Qed.

(** With the indexes that [load_data] builds, no subscript fails. *)
Lemma build_eligibility_total (b : DataBundle) :
  indexed b -> is_Some (build_eligibility b).
Proof.
  intros [Hf _]. unfold build_eligibility.
  destruct (mapM _ (build_role_slots b)) as [per_slot |] eqn:Hm; [eauto |].
  exfalso. assert (Hs : is_Some (mapM
    (fun slot =>
       f ← flights_by_id b !! flight_id slot;
       day_str ← index_by Models.flight_id
                   (fun f => _flight_day_str (Models.dep_dt f)) (flights b)
                   !! flight_id slot;
       Some (eligible_for_slot b slot day_str (Models.aircraft_type f)))
    (build_role_slots b))).
  { apply mapM_is_Some. apply Forall_forall. intros slot Hs.
    apply elem_of_build_role_slots in Hs as (f & Hin & Heq).
    unfold compose. rewrite Heq, Hf.
    destruct (index_by_lookup_elem Models.flight_id (fun f => f) _ _ Hin)
      as (fl & ->).
    destruct (index_by_lookup_elem Models.flight_id
                (fun f => _flight_day_str (Models.dep_dt f)) _ _ Hin)
      as (d & ->).
    simpl. eauto. }
  rewrite Hm in Hs. destruct Hs as (? & ?). discriminate.
Qed.

Lemma build_eligibility_maps (b : DataBundle) (eb : EligibilityBundle) :
  build_eligibility b = Some eb ->
  role_slots eb = build_role_slots b
  /\ minutes_by_flight eb
     = index_by Models.flight_id
         (fun f => Z.max 1 (Py.total_seconds (Models.arr_dt f) (Models.dep_dt f) / 60))
         (flights b)
  /\ day_by_flight eb
     = index_by Models.flight_id (fun f => _flight_day_str (Models.dep_dt f))
         (flights b).
Proof.
  unfold build_eligibility. intros H.
  destruct (mapM _ (build_role_slots b)); [| discriminate].
  simpl in H. injection H as <-. auto.
Qed.

End EligibilityFacts.

Section EligibilityClaims.
Import Loader Eligibility.

Lemma can_work_iff (b : DataBundle) (c day_str : string) :
  _crew_can_work_that_day c day_str b = true
  <-> day_str ∉ Spec.sick_dates b c.
Proof.
  unfold _crew_can_work_that_day, Spec.sick_dates.
  rewrite negb_true_iff, bool_decide_eq_false. reflexivity.
Qed.

Lemma can_work_without_sickness (b : DataBundle) (c day_str : string) :
  _crew_can_work_that_day c day_str (Spec.without_sickness b) = true.
Proof.
  unfold _crew_can_work_that_day. simpl. rewrite lookup_empty. simpl.
  apply negb_true_iff, bool_decide_eq_false. set_solver.
Qed.

Lemma day_by_flight_lookup (b : DataBundle) (eb : EligibilityBundle)
    (f_id : string) (fl : Models.Flight) :
  indexed b -> build_eligibility b = Some eb ->
  flights_by_id b !! f_id = Some fl ->
  day_by_flight eb !! f_id = Some (_flight_day_str (Models.dep_dt fl)).
Proof.
  intros [Hf _] Hb Hfl. apply build_eligibility_maps in Hb as (_ & _ & ->).
  rewrite index_by_fmap, <- Hf, Hfl. reflexivity.
Qed.

(** The sickness test as [build_eligibility] applies it: to the flight
    that the lookup map holds for an identifier. *)
Lemma sick_crew_by_lookup (b : DataBundle) :
  indexed b ->
  exists eb eb0,
    build_eligibility b = Some eb
    /\ build_eligibility (Spec.without_sickness b) = Some eb0
    /\ (forall c f r s fl,
          flights_by_id b !! f = Some fl ->
          _flight_day_str (Models.dep_dt fl) ∈ Spec.sick_dates b c ->
          (c, f, r, s) ∉ eligible eb)
    /\ (forall c f r s fl,
          flights_by_id b !! f = Some fl ->
          _flight_day_str (Models.dep_dt fl) ∉ Spec.sick_dates b c ->
          ((c, f, r, s) ∈ eligible eb <-> (c, f, r, s) ∈ eligible eb0)).
Proof.
  intros Hidx.
  assert (Hidx0 : indexed (Spec.without_sickness b)) by exact Hidx.
  destruct (build_eligibility_total b Hidx) as (eb & Heb).
  destruct (build_eligibility_total _ Hidx0) as (eb0 & Heb0).
  exists eb, eb0. split; [assumption | split; [assumption | split]].
  - intros c f r s fl Hfl Hsick Hin.
    apply (elem_of_eligible b eb _ Heb) in Hin
      as (slot & fl' & day_str & _ & Hfl' & Hd & Hin).
    apply elem_of_eligible_for_slot in Hin
      as (cr & _ & [= -> -> -> ->] & _ & _ & Hw).
    rewrite (day_by_flight_lookup b eb _ _ Hidx Heb Hfl') in Hd.
    injection Hd as <-. apply can_work_iff in Hw.
    rewrite Hfl in Hfl'. injection Hfl' as <-. contradiction.
  - intros c f r s fl Hfl Hsick.
    rewrite (elem_of_eligible b eb _ Heb),
            (elem_of_eligible _ eb0 _ Heb0).
    split; intros (slot & fl' & day_str & Hs & Hfl' & Hd & Hin).
    + exists slot, fl', day_str. split; [exact Hs | split; [exact Hfl' |]].
      split.
      * rewrite (day_by_flight_lookup _ eb0 _ _ Hidx0 Heb0 Hfl').
        rewrite (day_by_flight_lookup b eb _ _ Hidx Heb Hfl') in Hd.
        exact Hd.
      * apply elem_of_eligible_for_slot in Hin
          as (cr & Hcr & Ht & H1 & H2 & _).
        apply elem_of_eligible_for_slot. exists cr.
        repeat split; auto; apply can_work_without_sickness.
    + exists slot, fl', day_str. split; [exact Hs | split; [exact Hfl' |]].
      split.
      * rewrite (day_by_flight_lookup b eb _ _ Hidx Heb Hfl').
        rewrite (day_by_flight_lookup _ eb0 _ _ Hidx0 Heb0 Hfl') in Hd.
        exact Hd.
      * apply elem_of_eligible_for_slot in Hin
          as (cr & Hcr & Ht & H1 & H2 & _).
        apply elem_of_eligible_for_slot. exists cr.
        repeat split; auto; []. apply can_work_iff.
        rewrite (day_by_flight_lookup _ eb0 _ _ Hidx0 Heb0 Hfl') in Hd.
        injection Hd as <-. injection Ht as -> -> -> ->.
        simpl in Hfl'. rewrite Hfl in Hfl'. injection Hfl' as <-.
        exact Hsick.
Qed.

(** C6 as worded fails when two flights share an identifier: the day
    that [build_eligibility] records for the identifier is the day of the
    last flight carrying it, so a crew member who is sick on the day of
    an earlier flight with that identifier is still paired with its
    slots.  In [Examples.repeated_id_bundle] captain A is sick on
    2025-09-08, the day of the first flight F1, and is eligible for the
    captain seat of F1. *)
Lemma sick_crew_eligible_when_flight_id_repeats :
  ~ (forall (b : DataBundle) (eb : EligibilityBundle) (c r : string)
            (s : nat) (fl : Models.Flight),
       indexed b -> build_eligibility b = Some eb ->
       fl ∈ flights b ->
       _flight_day_str (Models.dep_dt fl) ∈ Spec.sick_dates b c ->
       (c, Models.flight_id fl, r, s) ∉ eligible eb).
Proof.
  intros H.
  destruct (build_eligibility Examples.repeated_id_bundle) as [eb |] eqn:Heb;
    [| vm_compute in Heb; discriminate].
  apply (H Examples.repeated_id_bundle eb "A" "Captain" 0%nat
           (Examples.captain_flight "F1" "DEL" "BOM"
              (Examples.hm 8 0) (Examples.hm 9 0))).
  - split; reflexivity.
  - exact Heb.
  - left.
  - apply (bool_decide_unpack _). vm_compute. exact I.
  - vm_compute in Heb. injection Heb as <-. simpl.
    apply list_elem_of_In. simpl. auto.
Qed.

(** C6, amended: when the flights of the bundle have distinct
    identifiers, a crew member whose sickness dates contain the departure
    date of a flight of the bundle appears in no eligible tuple of that
    flight, whatever the role, qualification and slot; and for a flight
    on a date outside the crew member's sickness dates, the eligible
    tuples are those obtained with no sickness recorded at all. *)
Theorem sick_crew_not_eligible_that_day :
  forall b : DataBundle,
    indexed b ->
    NoDup (map Models.flight_id (flights b)) ->
    exists eb eb0,
      build_eligibility b = Some eb
      /\ build_eligibility (Spec.without_sickness b) = Some eb0
      /\ (forall c r s fl,
            fl ∈ flights b ->
            _flight_day_str (Models.dep_dt fl) ∈ Spec.sick_dates b c ->
            (c, Models.flight_id fl, r, s) ∉ eligible eb)
      /\ (forall c r s fl,
            fl ∈ flights b ->
            _flight_day_str (Models.dep_dt fl) ∉ Spec.sick_dates b c ->
            ((c, Models.flight_id fl, r, s) ∈ eligible eb
             <-> (c, Models.flight_id fl, r, s) ∈ eligible eb0)).
Proof.
  intros b Hidx Hnd.
  destruct (sick_crew_by_lookup b Hidx) as (eb & eb0 & Heb & Heb0 & H1 & H2).
  assert (Hlook : forall fl, fl ∈ flights b ->
            flights_by_id b !! Models.flight_id fl = Some fl).
  { intros fl Hfl. destruct Hidx as [-> _].
    exact (index_by_NoDup Models.flight_id (fun f => f) _ fl Hnd Hfl). }
  exists eb, eb0. split; [exact Heb |]. split; [exact Heb0 |]. split.
  - intros c r s fl Hfl. apply H1. now apply Hlook.
  - intros c r s fl Hfl. apply H2. now apply Hlook.
Qed.

Lemma sick_crew_not_eligible_that_day_witness :
  indexed Examples.sick_bundle
  /\ NoDup (map Models.flight_id (flights Examples.sick_bundle))
  /\ (exists eb,
        build_eligibility Examples.sick_bundle = Some eb
        /\ (("A", "F1", "Captain", 0%nat) ∉ eligible eb)
        /\ (("B", "F1", "Captain", 0%nat) ∈ eligible eb)).
Proof.
  assert (Hidx : indexed Examples.sick_bundle) by (split; reflexivity).
  assert (Hnd : NoDup (map Models.flight_id (flights Examples.sick_bundle))).
  { simpl. apply NoDup_singleton. }
  split; [exact Hidx |]. split; [exact Hnd |].
  destruct (sick_crew_not_eligible_that_day Examples.sick_bundle Hidx Hnd)
    as (eb & eb0 & Heb & Heb0 & Hsick & Hwell).
  exists eb. split; [exact Heb | split].
  - apply (Hsick "A" "Captain" 0%nat
             (Examples.captain_flight "F1" "DEL" "BOM"
                (Examples.hm 8 0) (Examples.hm 9 0))).
    + left.
    + apply (bool_decide_unpack _). vm_compute. exact I.
  - apply (Hwell "B" "Captain" 0%nat
             (Examples.captain_flight "F1" "DEL" "BOM"
                (Examples.hm 8 0) (Examples.hm 9 0))).
    + left.
    + apply (bool_decide_unpack _). vm_compute. exact I.
    + vm_compute in Heb0. injection Heb0 as <-. simpl.
      apply list_elem_of_In. simpl. auto.
Defined.

End EligibilityClaims.

(** ** Baseline and stability fraction (genetic_optimizer.py) *)

Section Baseline.
Import Genetic.

Lemma get_truthy_Some (a : gmap string string) (k v : string) :
  get_truthy a k = Some v <-> a !! k = Some v /\ v <> "".
Proof.
  unfold get_truthy, Py.truthy. destruct (a !! k) as [w |]; [| easy].
  destruct (String.eqb_spec w ""); simpl; split.
  - discriminate.
  - intros [[= ->] Hne]. contradiction.
  - intros [= ->]. auto.
  - intros [[= ->] _]. reflexivity.
Qed.

Lemma baseline_step_elem (ec ef : gset string) (pairs : gset triple)
    (a : gmap string string) (t : triple) :
  t ∈ baseline_step ec ef pairs a <-> t ∈ pairs \/ Spec.retained ec ef a t.
Proof.
  destruct t as [[c f] r]. unfold baseline_step, Spec.retained.
  destruct (get_truthy a "crew_id") as [c' |] eqn:Hc;
    [destruct (get_truthy a "flight_id") as [f' |] eqn:Hf;
     [destruct (get_truthy a "role") as [r' |] eqn:Hr |] |].
  - apply get_truthy_Some in Hc as [Hc Hc'], Hf as [Hf Hf'], Hr as [Hr Hr'].
    rewrite Hc, Hf, Hr.
    destruct (bool_decide (c' ∈ ec)) eqn:Ec;
      [| destruct (bool_decide (f' ∈ ef)) eqn:Ef]; simpl.
    + apply bool_decide_eq_true in Ec. split; [auto |].
      intros [H | ([= ->] & _ & _ & _ & _ & _ & Hn & _)]; [auto | contradiction].
    + apply bool_decide_eq_true in Ef. split; [auto |].
      intros [H | (_ & _ & [= ->] & _ & _ & _ & _ & Hn)]; [auto | contradiction].
    + apply bool_decide_eq_false in Ec, Ef.
      rewrite elem_of_union, elem_of_singleton. split.
      * intros [H | [= -> -> ->]]; [auto |]. right. repeat split; auto.
      * intros [H | ([= ->] & _ & [= ->] & _ & [= ->] & _)]; auto.
  - split; [auto |]. intros [H | (_ & _ & _ & _ & Hr' & Hne & _)]; [auto |].
    assert (get_truthy a "role" = Some r) by (apply get_truthy_Some; auto).
    congruence.
  - split; [auto |]. intros [H | (_ & _ & Hf' & Hne & _)]; [auto |].
    assert (get_truthy a "flight_id" = Some f) by (apply get_truthy_Some; auto).
    congruence.
  - split; [auto |]. intros [H | (Hc' & Hne & _)]; [auto |].
    assert (get_truthy a "crew_id" = Some c) by (apply get_truthy_Some; auto).
    congruence.
Qed.

Lemma baseline_fold_elem (ec ef : gset string)
    (bl : list (gmap string string)) (pairs : gset triple) (t : triple) :
  t ∈ foldl (baseline_step ec ef) pairs bl
  <-> t ∈ pairs \/ exists a, a ∈ bl /\ Spec.retained ec ef a t.
Proof.
  revert pairs. induction bl as [| a bl IH]; intros pairs; simpl.
  - split; [auto |]. intros [H | (a & Ha & _)]; [auto | inversion Ha].
  - rewrite IH, baseline_step_elem. split.
    + intros [[H | H] | (a' & Ha' & H)]; auto.
      * right. exists a. split; [left | assumption].
      * right. exists a'. split; [now right | assumption].
    + intros [H | (a' & Ha' & H)]; auto.
      apply elem_of_cons in Ha' as [-> | Ha']; eauto.
Qed.

(** C7: after [set_baseline], the retained set consists exactly of the
    triples of the baseline records that have all three fields, a crew
    outside the excluded crew and a flight outside the excluded flights;
    and for every optimizer state and candidate solution the stability
    fraction is the number of solution triples that are retained baseline
    triples divided by the number of retained baseline triples, or 0 when
    no baseline triple is retained. *)
Theorem baseline_retention_and_stability_fraction :
  forall (self : GeneticOptimizer) (bl : list (gmap string string))
         (ec ef : gset string),
    (forall t : triple,
       t ∈ baseline_pairs (set_baseline self bl ec ef)
       <-> exists a, a ∈ bl /\ Spec.retained ec ef a t)
    /\ (forall (solution : list Assignment) (t : triple),
          t ∈ sol_pairs solution
          <-> exists a, a ∈ solution
                /\ t = (a_crew_id a, a_flight_id a, a_role a))
    /\ (forall solution : list Assignment,
          baseline_pairs self <> ∅ ->
          _calculate_stability_bonus self solution
          = (inject_Z (Z.of_nat (size (sol_pairs solution ∩ baseline_pairs self)))
             / inject_Z (Z.of_nat (size (baseline_pairs self))))%Q)
    /\ (forall solution : list Assignment,
          baseline_pairs self = ∅ ->
          _calculate_stability_bonus self solution = 0%Q).
Proof.
  intros self bl ec ef. split; [| split; [| split]].
  - intros t. simpl. rewrite baseline_fold_elem. split; [| now right].
    intros [H | H]; [set_solver | exact H].
  - intros solution t. unfold sol_pairs.
    rewrite elem_of_list_to_set, list_elem_of_fmap. split.
    + intros (a & -> & Ha). eauto.
    + intros (a & Ha & ->). eauto.
  - intros solution Hne. unfold _calculate_stability_bonus.
    rewrite bool_decide_eq_false_2 by assumption.
    assert (size (baseline_pairs self) <> 0%nat).
    { intros Hz. apply size_empty_inv in Hz. apply Hne.
      apply leibniz_equiv. exact Hz. }
    rewrite Z.max_r by lia. reflexivity.
  - intros solution He. unfold _calculate_stability_bonus.
    rewrite bool_decide_eq_true_2 by assumption. reflexivity.
Qed.

Lemma baseline_retention_and_stability_fraction_witness :
  let self :=
    set_baseline Examples.small_roster Examples.prior_roster {[ "C9" ]} ∅ in
  baseline_pairs self <> ∅
  /\ _calculate_stability_bonus self
       [Build_Assignment "C1" "F1" "Captain";
        Build_Assignment "FO2" "F1" "First Officer"]
     = (inject_Z 1 / inject_Z 2)%Q.
Proof.
  intros self.
  assert (Hne : baseline_pairs self <> ∅).
  { intros He. assert (H : ("C1", "F1", "Captain") ∈ baseline_pairs self).
    { apply (bool_decide_unpack _). vm_compute. exact I. }
    rewrite He in H. set_solver. }
  split; [exact Hne |].
  destruct (baseline_retention_and_stability_fraction
              self Examples.prior_roster {[ "C9" ]} ∅) as (_ & _ & Hfrac & _).
  rewrite (Hfrac _ Hne). vm_compute. reflexivity.
Defined.

End Baseline.

(** ** A small logic for the model builder *)

Section BuilderLogic.
Import CpModel CpLogic.

Lemma extends_refl (m : model) : extends m m.
Proof. repeat split; exists []; now rewrite app_nil_r. Qed.

Lemma extends_trans (m1 m2 m3 : model) :
  extends m1 m2 -> extends m2 m3 -> extends m1 m3.
Proof.
  intros ((d1 & Hd1) & (i1 & Hi1) & (c1 & Hc1))
         ((d2 & Hd2) & (i2 & Hi2) & (c2 & Hc2)).
  repeat split.
  - exists (d1 ++ d2)%list. now rewrite Hd2, Hd1, app_assoc.
  - exists (i1 ++ i2)%list. now rewrite Hi2, Hi1, app_assoc.
  - exists (c1 ++ c2)%list. now rewrite Hc2, Hc1, app_assoc.
Qed.

Lemma extends_constraint (m m' : model) (ct : constraint) :
  extends m m' -> ct ∈ constraints m -> ct ∈ constraints m'.
Proof.
  intros (_ & _ & (cs & ->)) H. apply elem_of_app. now left.
Qed.

Lemma extends_domain (m m' : model) (v : var) (d : Z * Z) :
  extends m m' -> domains m !! v = Some d -> domains m' !! v = Some d.
Proof.
  intros ((ds & ->) & _) H. now apply lookup_app_l_Some.
Qed.

Lemma bind_Some {A B} (c : M A) (k : A -> M B) (m m' : model) (b : B) :
  bind c k m = Some (b, m') ->
  exists a m1, c m = Some (a, m1) /\ k a m1 = Some (b, m').
Proof.
  unfold bind. destruct (c m) as [[a m1] |]; [eauto | discriminate].
Qed.

(** *** Growth *)

Lemma grows_ret {A} (a : A) : grows (ret a).
Proof. intros m a' m' [= _ <-]. apply extends_refl. Qed.

Lemma grows_lift {A} (o : option A) : grows (lift o).
Proof.
  intros m a m' H. unfold lift in H. destruct o; [| discriminate].
  injection H as _ <-. apply extends_refl.
Qed.

Lemma grows_bind {A B} (c : M A) (k : A -> M B) :
  grows c -> (forall a, grows (k a)) -> grows (bind c k).
Proof.
  intros Hc Hk m b m' H. apply bind_Some in H as (a & m1 & H1 & H2).
  eapply extends_trans; [eapply Hc | eapply Hk]; eauto.
Qed.

Lemma grows_NewIntVar (lb ub : Z) : grows (NewIntVar lb ub).
Proof.
  intros m a m' [= _ <-]. repeat split; simpl; eauto;
    exists []; now rewrite app_nil_r.
Qed.

Lemma grows_NewBoolVar : grows NewBoolVar.
Proof. apply grows_NewIntVar. Qed.

Lemma grows_NewOptionalIntervalVar (s z e : Z) (p : var) :
  grows (NewOptionalIntervalVar s z e p).
Proof.
  intros m a m' [= _ <-]. repeat split; simpl; eauto;
    exists []; now rewrite app_nil_r.
Qed.

Lemma grows_AddConstraint (ct : constraint) : grows (AddConstraint ct).
Proof.
  intros m a m' [= _ <-]. repeat split; simpl; eauto;
    exists []; now rewrite app_nil_r.
Qed.

Lemma grows_Minimize (e : expr) : grows (Minimize e).
Proof.
  intros m a m' [= _ <-]. repeat split; simpl;
    exists []; now rewrite app_nil_r.
Qed.

Lemma grows_for_each {A} (l : list A) (body : A -> M unit) :
  (forall a, grows (body a)) -> grows (for_each l body).
Proof.
  intros Hb. induction l as [| a l IH]; simpl.
  - apply grows_ret.
  - apply grows_bind; auto.
Qed.

Lemma grows_fold_each {A S} (l : list A) (s : S) (body : S -> A -> M S) :
  (forall s a, grows (body s a)) -> grows (fold_each l s body).
Proof.
  intros Hb. revert s. induction l as [| a l IH]; intros s; simpl.
  - apply grows_ret.
  - apply grows_bind; auto.
Qed.

Lemma grows_when (b : bool) (c : M unit) : grows c -> grows (when b c).
Proof. intros H. destruct b; [exact H | apply grows_ret]. Qed.

(** *** Posted constraints *)

Lemma posts_AddConstraint (ct : constraint) : posts (AddConstraint ct) ct.
Proof.
  intros m a m' [= _ <-]. simpl. apply elem_of_app. right.
  apply list_elem_of_singleton. reflexivity.
Qed.

Lemma posts_bind_l {A B} (c : M A) (k : A -> M B) (ct : constraint) :
  posts c ct -> (forall a, grows (k a)) -> posts (bind c k) ct.
Proof.
  intros Hc Hk m b m' H. apply bind_Some in H as (a & m1 & H1 & H2).
  eapply extends_constraint; [eapply Hk | eapply Hc]; eauto.
Qed.

Lemma posts_bind_r {A B} (c : M A) (k : A -> M B) (ct : constraint) :
  (forall a, posts (k a) ct) -> posts (bind c k) ct.
Proof.
  intros Hk m b m' H. apply bind_Some in H as (a & m1 & H1 & H2).
  eapply Hk; eauto.
Qed.

(** What a step posts given its run: used where the continuation
    depends on the value the first step returned. *)
Lemma posts_bind_run {A B} (c : M A) (k : A -> M B) (ct : constraint)
    (m m' : model) (b : B) :
  bind c k m = Some (b, m') ->
  (forall a m1, c m = Some (a, m1) -> posts (k a) ct) ->
  ct ∈ constraints m'.
Proof.
  intros H Hk. apply bind_Some in H as (a & m1 & H1 & H2).
  eapply Hk; eauto.
Qed.

Lemma posts_for_each {A} (l : list A) (body : A -> M unit)
    (a : A) (ct : constraint) :
  a ∈ l -> (forall a, grows (body a)) -> posts (body a) ct ->
  posts (for_each l body) ct.
Proof.
  intros Hin Hg Hp. induction l as [| b l IH]; [inversion Hin |].
  simpl. apply elem_of_cons in Hin as [<- | Hin].
  - apply posts_bind_l; [exact Hp |].
    intros _. now apply grows_for_each.
  - apply posts_bind_r. intros _. now apply IH.
Qed.

Lemma posts_when (c : M unit) (ct : constraint) :
  posts c ct -> posts (when true c) ct.
Proof. auto. Qed.

(** *** Feasible solutions *)

Lemma feasible_sat (m : model) (val : valuation) (ct : constraint) :
  feasible m val = true -> ct ∈ constraints m -> sat val ct = true.
Proof.
  unfold feasible. intros H Hin. apply andb_true_iff in H as [_ H].
  rewrite forallb_forall in H. apply H. now apply list_elem_of_In.
Qed.

Lemma combine_seq_lookup {A} (l : list A) (start i : nat) (a : A) :
  l !! i = Some a ->
  (start + i, a)%nat ∈ combine (seq start (length l)) l.
Proof.
  revert start i. induction l as [| b l IH]; intros start i H.
  - discriminate.
  - destruct i as [| i]; simpl in *.
    + injection H as ->. rewrite Nat.add_0_r. left.
    + right. replace (start + S i)%nat with (S start + i)%nat by lia.
      now apply IH.
Qed.

Lemma domains_ok_lookup (val : valuation) (ds : list (Z * Z))
    (v : var) (d : Z * Z) :
  domains_ok val ds = true -> ds !! v = Some d -> in_domain val v d = true.
Proof.
  unfold domains_ok. rewrite forallb_forall. intros H Hl.
  apply (H (v, d)). apply list_elem_of_In.
  now apply (combine_seq_lookup ds 0 v d).
Qed.

Lemma feasible_domain (m : model) (val : valuation) (v : var) (d : Z * Z) :
  feasible m val = true -> domains m !! v = Some d ->
  fst d <= val v <= snd d.
Proof.
  unfold feasible. intros H Hl.
  apply andb_true_iff in H as [H _]. apply andb_true_iff in H as [H _].
  pose proof (domains_ok_lookup _ _ _ _ H Hl) as Hd.
  unfold in_domain in Hd. apply andb_true_iff in Hd as [H1 H2].
  apply Z.leb_le in H1, H2. lia.
Qed.

(** *** Sums of Boolean variables *)

Lemma eval_foldl_EAdd (val : valuation) (es : list expr) (e0 : expr) :
  eval val (foldl EAdd e0 es)
  = eval val e0 + Py.zsum (map (eval val) es).
Proof.
  revert e0. induction es as [| e es IH]; intros e0; simpl.
  - lia.
  - rewrite IH. simpl. lia.
Qed.

Lemma eval_esum (val : valuation) (es : list expr) :
  eval val (esum es) = Py.zsum (map (eval val) es).
Proof. unfold esum. rewrite eval_foldl_EAdd. reflexivity. Qed.

Lemma eval_esum_vars (val : valuation) (vs : list var) :
  boolean_on val vs ->
  eval val (esum (map EVar vs)) = Z.of_nat (count_set val vs).
Proof.
  intros Hb. rewrite eval_esum. unfold count_set.
  induction Hb as [| v vs Hv _ IH]; [reflexivity |].
  cbn [map Py.zsum foldr List.filter eval]. unfold Py.zsum in IH.
  rewrite IH. destruct Hv as [-> | ->]; simpl; lia.
Qed.

End BuilderLogic.

(** ** The phases of the encoder only add to the model *)

Ltac grow_step :=
  lazymatch goal with
  | |- CpLogic.grows ?c =>
      lazymatch c with
      | CpModel.bind _ _ => apply grows_bind; [| intros ?; cbv beta]
      | CpModel.ret _ => apply grows_ret
      | CpModel.lift _ => apply grows_lift
      | CpModel.NewIntVar _ _ => apply grows_NewIntVar
      | CpModel.NewBoolVar => apply grows_NewBoolVar
      | CpModel.NewOptionalIntervalVar _ _ _ _ =>
          apply grows_NewOptionalIntervalVar
      | CpModel.AddConstraint _ => apply grows_AddConstraint
      | CpModel.Add _ _ _ => apply grows_AddConstraint
      | CpModel.AddIf _ _ _ _ => apply grows_AddConstraint
      | CpModel.AddNoOverlap _ => apply grows_AddConstraint
      | CpModel.AddMultiplicationEquality _ _ => apply grows_AddConstraint
      | CpModel.Minimize _ => apply grows_Minimize
      | CpModel.when _ _ => apply grows_when
      | CpModel.for_each _ _ => apply grows_for_each; intros ?; cbv beta
      | CpModel.fold_each _ _ _ =>
          apply grows_fold_each; intros ? ?; cbv beta
      | Constraints.bind_sum _ _ => unfold Constraints.bind_sum
      | Constraints.exclude_pair _ _ _ _ => unfold Constraints.exclude_pair
      | match ?x with _ => _ end => destruct x
      | let _ := _ in _ => cbv zeta
      end
  end.

Ltac grow := repeat grow_step.

Section EncoderGrowth.
Import CpModel CpLogic Constraints.

Lemma grows_decision_vars b elig : grows (decision_vars b elig).
Proof. unfold decision_vars. grow. Qed.

Lemma grows_coverage elig x : grows (coverage elig x).
Proof. unfold coverage. grow. Qed.

Lemma grows_at_most_one_seat b x : grows (at_most_one_seat b x).
Proof. unfold at_most_one_seat. grow. Qed.

Lemma grows_composition b x : grows (composition b x).
Proof. unfold composition. grow. Qed.

Lemma grows_no_overlap ivs : grows (no_overlap ivs).
Proof. unfold no_overlap. grow. Qed.

Lemma grows_min_rest b x ivs : grows (min_rest b x ivs).
Proof. unfold min_rest. grow. Qed.

Lemma grows_night_limits b x : grows (night_limits b x).
Proof. unfold night_limits. grow. Qed.

Lemma grows_day_caps b elig x c cap d : grows (day_caps b elig x c cap d).
Proof. unfold day_caps. grow. Qed.

Lemma grows_crew_caps b elig x st c : grows (crew_caps b elig x st c).
Proof.
  unfold crew_caps. destruct st as [[? ?] ?]. grow.
  apply grows_day_caps.
Qed.

Lemma grows_daily_and_weekly_caps b elig x :
  grows (daily_and_weekly_caps b elig x).
Proof.
  unfold daily_and_weekly_caps. apply grows_fold_each.
  intros. apply grows_crew_caps.
Qed.

Lemma grows_continuity b x : grows (_add_pilot_continuity_constraints b x).
Proof. unfold _add_pilot_continuity_constraints. grow. Qed.

Lemma grows_base_return b elig x :
  grows (_add_base_return_constraints b elig x).
Proof. unfold _add_base_return_constraints. grow. Qed.

Lemma grows_preference_penalty b elig terms e :
  grows (Objective.preference_penalty b elig terms e).
Proof. unfold Objective.preference_penalty. grow. Qed.

Lemma grows_add_objective b elig art w :
  grows (Objective.add_objective b elig art w).
Proof.
  unfold Objective.add_objective. grow.
  apply grows_preference_penalty.
Qed.

End EncoderGrowth.

(** ** The decision variables *)

Section DecisionVars.
Import CpModel CpLogic Constraints.

Lemma elem_of_dict_set {K V} `{EqDecision K} (d : list (K * V))
    (k k' : K) (v v' : V) :
  (k', v') ∈ Py.dict_set d k v -> (k', v') = (k, v) \/ (k', v') ∈ d.
Proof.
  induction d as [| [k0 v0] d IH]; simpl.
  - intros H. apply list_elem_of_singleton in H. now left.
  - destruct (decide (k = k0)) as [-> | Hne]; intros H;
      apply elem_of_cons in H as [H | H].
    + now left.
    + right. now right.
    + right. rewrite H. left.
    + destruct (IH H) as [? | ?]; [now left | right; now right].
Qed.

Lemma dict_set_keeps_keys {K V} `{EqDecision K} (d : list (K * V))
    (k k' : K) (v v' : V) :
  (k', v') ∈ d -> exists v'', (k', v'') ∈ Py.dict_set d k v.
Proof.
  induction d as [| [k0 v0] d IH]; simpl; [intros H; inversion H |].
  intros H. apply elem_of_cons in H as [[= -> ->] | H].
  - destruct (decide (k = k0)) as [-> | Hne]; eexists; left.
  - destruct (decide (k = k0)) as [-> | Hne].
    + exists v'. now right.
    + destruct (IH H) as (v'' & Hv). exists v''. now right.
Qed.

Lemma dict_set_has_key {K V} `{EqDecision K} (d : list (K * V))
    (k : K) (v : V) :
  (k, v) ∈ Py.dict_set d k v.
Proof.
  induction d as [| [k0 v0] d IH]; simpl; [left |].
  destruct (decide (k = k0)) as [-> | Hne]; [left | now right].
Qed.

(** The loop that creates the variables: every entry of [x] is a Boolean
    variable of the model for an eligible tuple, and every eligible tuple
    has an entry. *)
Lemma decision_vars_fold (b : Loader.DataBundle)
    (elig : Eligibility.EligibilityBundle) (l : list key) :
  forall x0 ivs0 m0 x ivs m1,
    fold_each l (x0, ivs0)
      (fun st k =>
         let '(x, intervals_by_crew) := st in
         let* f := lift (Loader.flights_by_id b !! key_flight k) in
         let* v := NewBoolVar in
         let x := Py.dict_set x k v in
         let start := to_ts (Models.dep_dt f) in
         let end_ := to_ts (Models.arr_dt f) in
         let size_sec :=
           (end_ - start) + Models.turnaround_minutes (Loader.rules b) * 60 in
         let* iv := NewOptionalIntervalVar start size_sec (start + size_sec) v in
         ret (x, Py.dict_append intervals_by_crew (key_crew k) iv)) m0
    = Some ((x, ivs), m1) ->
    (forall k v, (k, v) ∈ x0 -> domains m0 !! v = Some (0, 1)) ->
    (forall k v, (k, v) ∈ x -> domains m1 !! v = Some (0, 1))
    /\ (forall k v, (k, v) ∈ x -> (exists v0, (k, v0) ∈ x0) \/ k ∈ l)
    /\ (forall k, (exists v0, (k, v0) ∈ x0) \/ k ∈ l -> exists v, (k, v) ∈ x).
Proof.
  induction l as [| k l IH]; intros x0 ivs0 m0 x ivs m1 H Hdom.
  - simpl in H. injection H as <- <- <-. split; [exact Hdom | split].
    + intros k v Hin. left. eauto.
    + intros k [H | H]; [exact H | inversion H].
  - simpl in H. apply bind_Some in H as ([x' ivs'] & m' & Hstep & Hrest).
    apply bind_Some in Hstep as (f & ma & Hf & Hstep).
    apply grows_lift in Hf as Hfa.
    unfold lift in Hf. destruct (Loader.flights_by_id b !! key_flight k);
      [| discriminate]. injection Hf as -> <-.
    apply bind_Some in Hstep as (v & mb & Hv & Hstep).
    injection Hv as <- <-.
    apply bind_Some in Hstep as (iv & mc & Hiv & Hstep).
    injection Hiv as <- <-. injection Hstep as <- <- <-.
    destruct (IH _ _ _ _ _ _ Hrest) as (H1 & H2 & H3).
    { intros k' v' Hin. simpl.
      apply elem_of_dict_set in Hin as [[= -> ->] | Hin].
      - rewrite lookup_app_r by lia. now rewrite Nat.sub_diag.
      - apply lookup_app_l_Some. eauto. }
    split; [exact H1 | split].
    + intros k' v' Hin. destruct (H2 _ _ Hin) as [(v0 & Hv0) | Hl].
      * apply elem_of_dict_set in Hv0 as [[= -> ->] | Hv0];
          [right; left | left; eauto].
      * right. now right.
    + intros k' [(v0 & Hv0) | Hl]; apply H3.
      * left. eapply dict_set_keeps_keys; eauto.
      * apply elem_of_cons in Hl as [-> | Hl]; [left | now right].
        eexists. apply dict_set_has_key.
Qed.

Lemma decision_vars_spec (b : Loader.DataBundle)
    (elig : Eligibility.EligibilityBundle) x ivs m1 :
  decision_vars b elig empty_model = Some ((x, ivs), m1) ->
  (forall k v, (k, v) ∈ x -> domains m1 !! v = Some (0, 1))
  /\ (forall k, (exists v, (k, v) ∈ x) <-> k ∈ Eligibility.eligible elig).
Proof.
  intros H. unfold decision_vars in H.
  destruct (decision_vars_fold b elig _ _ _ _ _ _ _ H) as (H1 & H2 & H3).
  { intros k v Hin. inversion Hin. }
  split; [exact H1 |]. intros k. split.
  - intros (v & Hv). destruct (H2 _ _ Hv) as [(v0 & Hv0) | Hl];
      [inversion Hv0 | exact Hl].
  - intros Hl. apply H3. now right.
Qed.

(** A feasible solution gives every decision variable the value 0 or 1. *)
Lemma decision_vars_boolean (m1 m : model) (x : xdict) (val : valuation)
    (p : key -> bool) :
  (forall k v, (k, v) ∈ x -> domains m1 !! v = Some (0, 1)) ->
  extends m1 m -> feasible m val = true ->
  boolean_on val (vars_where x p).
Proof.
  intros Hdom Hext Hfeas. unfold boolean_on, vars_where.
  apply Forall_forall. intros v Hv.
  apply list_elem_of_fmap in Hv as ([k v'] & -> & Hin).
  apply list_elem_of_In, filter_In in Hin as [Hin _].
  apply list_elem_of_In in Hin.
  pose proof (feasible_domain m val v' (0, 1) Hfeas
                (extends_domain _ _ _ _ Hext (Hdom _ _ Hin))) as Hd.
  simpl in *. lia.
Qed.

End DecisionVars.

(** ** The model of the exact path, phase by phase *)

Section ExactModel.
Import CpModel CpLogic Constraints.

(** Whatever a phase of the encoder posts is part of the model that the
    exact path hands to the solver. *)
Lemma exact_model_phases (b : Loader.DataBundle) (w : Objective.Weights)
    (art : ModelArtifacts) (m : model) :
  Objective.exact_model b w = Some (art, m) ->
  exists elig ivs m1,
    Eligibility.build_eligibility b = Some elig
    /\ decision_vars b elig empty_model = Some ((x art, ivs), m1)
    /\ role_slots art = Eligibility.role_slots elig
    /\ extends m1 m
    /\ (forall ct, posts (coverage elig (x art)) ct -> ct ∈ constraints m)
    /\ (forall ct, posts (at_most_one_seat b (x art)) ct ->
                   ct ∈ constraints m)
    /\ (forall ct, posts (min_rest b (x art) ivs) ct -> ct ∈ constraints m)
    /\ (forall P, ensures (daily_and_weekly_caps b elig (x art)) P ->
                  exists ct, P ct /\ ct ∈ constraints m)
    /\ (forall ct, posts (_add_pilot_continuity_constraints b (x art)) ct ->
                   ct ∈ constraints m).
Proof.
  unfold Objective.exact_model. intros H.
  destruct (Eligibility.build_eligibility b) as [elig |]; [| discriminate].
  simpl in H.
  destruct (build_model_with_constraints b elig empty_model)
    as [[art' m2] |] eqn:Hb; [| discriminate].
  simpl in H.
  destruct (Objective.add_objective b elig art' w m2)
    as [[[] m3] |] eqn:Ho; [| discriminate].
  simpl in H. injection H as -> ->.
  apply grows_add_objective in Ho as Hext_o.
  unfold build_model_with_constraints in Hb.
  apply bind_Some in Hb as ([x0 ivs] & m1 & Hdv & Hb).
  apply bind_Some in Hb as ([] & mc & Hcov & Hb).
  apply bind_Some in Hb as ([] & ma & Hamo & Hb).
  apply bind_Some in Hb as ([] & mp & Hcomp & Hb).
  apply bind_Some in Hb as ([] & mn & Hno & Hb).
  apply bind_Some in Hb as ([] & mr & Hrest & Hb).
  apply bind_Some in Hb as ([] & mg & Hnight & Hb).
  apply bind_Some in Hb as ([[mt md] ot] & mk & Hcaps & Hb).
  apply bind_Some in Hb as ([] & ml & Hcont & Hb).
  apply bind_Some in Hb as (bp & mb & Hbase & Hb).
  injection Hb as <- <-. simpl.
  pose proof (grows_coverage _ _ _ _ _ Hcov) as E1.
  pose proof (grows_at_most_one_seat _ _ _ _ _ Hamo) as E2.
  pose proof (grows_composition _ _ _ _ _ Hcomp) as E3.
  pose proof (grows_no_overlap _ _ _ _ Hno) as E4.
  pose proof (grows_min_rest _ _ _ _ _ _ Hrest) as E5.
  pose proof (grows_night_limits _ _ _ _ _ Hnight) as E6.
  pose proof (grows_daily_and_weekly_caps _ _ _ _ _ _ Hcaps) as E7.
  pose proof (grows_continuity _ _ _ _ _ Hcont) as E8.
  pose proof (grows_base_return _ _ _ _ _ _ Hbase) as E9.
  assert (X9 : extends ml m) by eauto using extends_trans.
  assert (X8 : extends mk m) by eauto using extends_trans.
  assert (X7 : extends mg m) by eauto using extends_trans.
  assert (X6 : extends mr m) by eauto using extends_trans.
  assert (X5 : extends mn m) by eauto using extends_trans.
  assert (X4 : extends mp m) by eauto using extends_trans.
  assert (X3 : extends ma m) by eauto using extends_trans.
  assert (X2 : extends mc m) by eauto using extends_trans.
  assert (X1 : extends m1 m) by eauto using extends_trans.
  exists elig, ivs, m1.
  split; [reflexivity |]. split; [exact Hdv |]. split; [reflexivity |].
  split; [exact X1 |].
  split; [| split; [| split; [| split]]].
  - intros ct Hp. eapply extends_constraint; [exact X2 | eapply Hp; eauto].
  - intros ct Hp. eapply extends_constraint; [exact X3 | eapply Hp; eauto].
  - intros ct Hp. eapply extends_constraint; [exact X6 | eapply Hp; eauto].
  - intros P Hp. destruct (Hp _ _ _ Hcaps) as (ct & HP & Hin).
    exists ct. split; [exact HP |].
    eapply extends_constraint; [exact X8 | exact Hin].
  - intros ct Hp. eapply extends_constraint; [exact X9 | eapply Hp; eauto].
Qed.

Lemma elem_of_vars_where (x : xdict) (p : key -> bool) (v : var) :
  v ∈ vars_where x p <-> exists k, (k, v) ∈ x /\ p k = true.
Proof.
  unfold vars_where. rewrite list_elem_of_fmap. split.
  - intros ([k v'] & -> & Hin).
    apply list_elem_of_In, filter_In in Hin as [Hin Hp].
    exists k. split; [now apply list_elem_of_In | exact Hp].
  - intros (k & Hin & Hp). exists (k, v). split; [reflexivity |].
    apply list_elem_of_In, filter_In. split; [now apply list_elem_of_In | exact Hp].
Qed.

End ExactModel.

(** ** Coverage in the exact model *)

Section Coverage.
Import CpModel CpLogic Constraints.

Lemma posts_coverage (elig : Eligibility.EligibilityBundle) (x : xdict)
    (rs : Eligibility.RoleSlot) :
  rs ∈ Eligibility.role_slots elig ->
  posts (coverage elig x)
        (Linear (esum (map EVar (slot_vars x rs))) Eq (EInt 1) None).
Proof.
  intros Hin. unfold coverage.
  apply (posts_for_each _ _ rs); [exact Hin | |].
  - intros a. apply grows_AddConstraint.
  - apply posts_AddConstraint.
Qed.

(** C5: the model of the exact path has one role slot per required seat;
    for each role slot it contains the unconditional constraint that the
    slot's decision variables sum to 1, so every solution sets exactly one
    of them; the variables stand for eligible tuples only, and a slot with
    no eligible crew leaves the model without any solution. *)
Theorem coverage_exactly_one_per_role_slot :
  forall (b : Loader.DataBundle) (w : Objective.Weights)
         (art : ModelArtifacts) (m : model),
    Objective.exact_model b w = Some (art, m) ->
    exists elig,
      Eligibility.build_eligibility b = Some elig
      /\ role_slots art = Eligibility.build_role_slots b
      /\ (forall k v, (k, v) ∈ x art -> k ∈ Eligibility.eligible elig)
      /\ (forall rs,
            rs ∈ role_slots art ->
            Linear (esum (map EVar (slot_vars (x art) rs))) Eq (EInt 1) None
              ∈ constraints m
            /\ (forall val,
                  feasible m val = true ->
                  count_set val (slot_vars (x art) rs) = 1%nat)
            /\ ((forall c,
                   (c, Eligibility.flight_id rs, Eligibility.role rs,
                    Eligibility.slot_index rs) ∉ Eligibility.eligible elig) ->
                forall val, feasible m val = false)).
Proof.
  intros b w art m H.
  destruct (exact_model_phases b w art m H)
    as (elig & ivs & m1 & Hel & Hdv & Hrs & Hext & Hcov & _).
  destruct (decision_vars_spec _ _ _ _ _ Hdv) as (Hdom & Hkeys).
  exists elig. split; [exact Hel | split; [| split]].
  - rewrite Hrs. now apply build_eligibility_maps in Hel as (-> & _).
  - intros k v Hin. apply Hkeys. eauto.
  - intros rs Hin. rewrite Hrs in Hin.
    pose proof (Hcov _ (posts_coverage elig (x art) rs Hin)) as Hct.
    split; [exact Hct | split].
    + intros val Hfeas.
      pose proof (feasible_sat _ _ _ Hfeas Hct) as Hsat. simpl in Hsat.
      apply Z.eqb_eq in Hsat.
      rewrite eval_esum_vars in Hsat
        by (eapply decision_vars_boolean; eauto).
      lia.
    + intros Hnone val. destruct (feasible m val) eqn:Hfeas; [| reflexivity].
      pose proof (feasible_sat _ _ _ Hfeas Hct) as Hsat.
      assert (Hempty : slot_vars (x art) rs = []).
      { destruct (slot_vars (x art) rs) as [| v vs] eqn:Hv; [reflexivity |].
        exfalso. assert (Hin' : v ∈ slot_vars (x art) rs)
          by (rewrite Hv; left).
        apply elem_of_vars_where in Hin' as ([[[c f] r] s] & Hx & Hp).
        simpl in Hp.
        apply andb_true_iff in Hp as [Hp H3].
        apply andb_true_iff in Hp as [H1 H2].
        apply String.eqb_eq in H1, H2. apply Nat.eqb_eq in H3. subst.
        apply (Hnone c). apply Hkeys. eauto. }
      rewrite Hempty in Hsat. discriminate.
Qed.

Lemma coverage_exactly_one_per_role_slot_witness :
  exists art m,
    Objective.exact_model Examples.rest_bundle Objective.default_weights
    = Some (art, m)
    /\ feasible m Examples.rest_solution = true
    /\ count_set Examples.rest_solution
         (slot_vars (x art) (Eligibility.Build_RoleSlot "F2" "Captain" 0))
       = 1%nat.
Proof.
  destruct (Objective.exact_model Examples.rest_bundle
              Objective.default_weights) as [[art m] |] eqn:Hm;
    [| vm_compute in Hm; discriminate].
  exists art, m. split; [reflexivity |].
  assert (Hfeas : feasible m Examples.rest_solution = true).
  { vm_compute in Hm. injection Hm as <- <-. vm_compute. reflexivity. }
  split; [exact Hfeas |].
  destruct (coverage_exactly_one_per_role_slot _ _ _ _ Hm)
    as (elig & _ & _ & _ & Hslots).
  apply Hslots; [| exact Hfeas].
  vm_compute in Hm. injection Hm as <- <-. simpl.
  apply list_elem_of_In. simpl. auto.
Defined.

End Coverage.

(** ** Minimum rest in the exact model *)

Section MinimumRest.
Import CpModel CpLogic Constraints.

(** C1: three flights F1 (08:00-09:00), F2 (10:00-11:00) and F3
    (13:00-14:00) and two captains, with a minimum rest of 12 hours.  The
    encoder excludes only the pairs that are adjacent among a crew's
    potential flights, (F1, F2) and (F2, F3).  The roster in which captain
    A flies F1 and F3 and captain B flies F2 satisfies every constraint of
    the model, although A's two consecutive duties are 4 hours apart. *)
Theorem min_rest_skips_non_adjacent_flights :
  let roster :=
    [ Objective.Build_Assignment "A" "Captain" "F1";
      Objective.Build_Assignment "B" "Captain" "F2";
      Objective.Build_Assignment "A" "Captain" "F3" ] in
  Objective.exact_solution Examples.rest_bundle Objective.default_weights roster
  /\ Spec.crew_duties Examples.rest_bundle roster "A"
     = [ Examples.captain_flight "F1" "DEL" "BOM" (Examples.hm 8 0) (Examples.hm 9 0);
         Examples.captain_flight "F3" "BOM" "DEL" (Examples.hm 13 0) (Examples.hm 14 0) ]
  /\ Examples.hm 13 0 - Examples.hm 9 0 = 4 * 3600
  /\ Models.min_rest_hours_between_duties (Loader.rules Examples.rest_bundle) = 12
  /\ ~ Spec.rest_respected Examples.rest_bundle roster.
Proof.
  intros roster.
  assert (Hd : Spec.crew_duties Examples.rest_bundle roster "A"
     = [ Examples.captain_flight "F1" "DEL" "BOM" (Examples.hm 8 0) (Examples.hm 9 0);
         Examples.captain_flight "F3" "BOM" "DEL" (Examples.hm 13 0) (Examples.hm 14 0) ])
    by (vm_compute; reflexivity).
  split; [| split; [exact Hd | split; [reflexivity | split; [reflexivity |]]]].
  - destruct (Objective.exact_model Examples.rest_bundle
                Objective.default_weights) as [[art m] |] eqn:Hm;
      [| vm_compute in Hm; discriminate].
    exists art, m, Examples.rest_solution. split; [exact Hm |].
    vm_compute in Hm. injection Hm as <- <-.
    split; vm_compute; reflexivity.
  - intros Hrest.
    specialize (Hrest "A"
      (Examples.captain_flight "F1" "DEL" "BOM" (Examples.hm 8 0) (Examples.hm 9 0))
      (Examples.captain_flight "F3" "BOM" "DEL" (Examples.hm 13 0) (Examples.hm 14 0))).
    rewrite Hd in Hrest. specialize (Hrest ltac:(left)).
    vm_compute in Hrest. apply Hrest. reflexivity.
Qed.

End MinimumRest.

(** ** One seat per crew member and flight *)

Section SingleSeat.
Import CpModel CpLogic Constraints.

Lemma posts_at_most_one_seat (b : Loader.DataBundle) (x : xdict)
    (c f : string) (k : key) (v : var) :
  c ∈ crew_id_set b -> (k, v) ∈ x -> key_crew k = c -> key_flight k = f ->
  posts (at_most_one_seat b x)
        (Linear (esum (map EVar (crew_flight_vars x c f))) Le (EInt 1) None).
Proof.
  intros Hc Hin Hkc Hkf. unfold at_most_one_seat.
  apply (posts_for_each _ _ c); [exact Hc | |].
  - intros a. apply grows_for_each. intros ?. apply grows_AddConstraint.
  - apply (posts_for_each _ _ f).
    + unfold Py.set_of. apply elem_of_remove_dups, list_elem_of_fmap.
      exists (k, v). split; [simpl; congruence |].
      apply list_elem_of_In, filter_In.
      split; [now apply list_elem_of_In |].
      simpl. rewrite Hkc. apply String.eqb_refl.
    + intros a. apply grows_AddConstraint.
    + apply posts_AddConstraint.
Qed.

Lemma seats_held_extract (x : xdict) (val : valuation) (c f : string) :
  Spec.seats_held (Objective.extract_assignments x val) c f
  = count_set val (crew_flight_vars x c f).
Proof.
  unfold Spec.seats_held, Objective.extract_assignments, count_set,
    crew_flight_vars, vars_where.
  induction x as [| [k v] x IH]; [reflexivity |].
  cbn [List.filter map fst snd].
  destruct (val v =? 1) eqn:Hv;
    destruct (String.eqb (key_crew k) c && String.eqb (key_flight k) f) eqn:Hk;
    cbn [List.filter map length fst snd Objective.a_crew_id
         Objective.a_flight_id];
    rewrite ?Hv, ?Hk; cbn [length]; rewrite IH; reflexivity.
Qed.

(** The exact path never seats a crew member twice on a flight. *)
Lemma exact_path_single_seat (b : Loader.DataBundle) (w : Objective.Weights)
    (assignments : list Objective.Assignment) :
  Objective.exact_solution b w assignments ->
  forall c f, (Spec.seats_held assignments c f <= 1)%nat.
Proof.
  intros (art & m & val & Hm & Hfeas & ->) c f.
  rewrite seats_held_extract.
  destruct (exact_model_phases b w art m Hm)
    as (elig & ivs & m1 & Hel & Hdv & Hrs & Hext & _ & Hamo & _).
  destruct (decision_vars_spec _ _ _ _ _ Hdv) as (Hdom & Hkeys).
  destruct (crew_flight_vars (x art) c f) as [| v0 vs] eqn:Hvs;
    [unfold count_set; simpl; lia |].
  assert (Hv0 : v0 ∈ crew_flight_vars (x art) c f) by (rewrite Hvs; left).
  apply elem_of_vars_where in Hv0 as (k & Hx & Hp).
  apply andb_true_iff in Hp as [Hc Hf].
  apply String.eqb_eq in Hc, Hf.
  assert (Hcrew : c ∈ crew_id_set b).
  { assert (Hk : k ∈ Eligibility.eligible elig) by (apply Hkeys; eauto).
    apply (elem_of_eligible b elig k Hel) in Hk
      as (slot & fl & day_str & _ & _ & _ & Hk).
    apply elem_of_eligible_for_slot in Hk as (cr & Hcr & -> & _).
    simpl in Hc. subst c. unfold crew_id_set, Py.set_of.
    apply elem_of_remove_dups, list_elem_of_fmap. eauto. }
  pose proof (Hamo _ (posts_at_most_one_seat b (x art) c f k v0
                        Hcrew Hx Hc Hf)) as Hct.
  pose proof (feasible_sat _ _ _ Hfeas Hct) as Hsat. simpl in Hsat.
  apply Z.leb_le in Hsat. rewrite <- Hvs.
  rewrite eval_esum_vars in Hsat by (eapply decision_vars_boolean; eauto).
  lia.
Qed.

End SingleSeat.

Section GeneticDoubleSeat.
Import Genetic.

(** A choice among one candidate. *)
Lemma choice_singleton {A} (a : A) (g : rng) :
  choice [a] g = (Some a, snd (draw g)).
Proof.
  unfold choice. destruct (draw g) as [n g']. simpl.
  now rewrite N.mod_1_r.
Qed.

(** One flight with two cabin seats and a roster with a single cabin crew
    member: whatever the random draws, [create_random_solution] seats that
    crew member twice on the flight. *)
Lemma small_roster_random_solution (g : rng) :
  fst (create_random_solution Examples.small_roster g)
  = Examples.crowded_individual.
Proof.
  unfold create_random_solution.
  assert (Hr : fst (random_assignments Examples.small_roster g)
               = Examples.crowded_individual).
  { unfold random_assignments.
    cbn [Examples.small_roster load_data flights foldl].
    unfold assign_flight.
    change (qualified_pool (role_pool _ ["Captain"; "CPT"]) _)
      with [Examples.ga_crew "C1" "Captain" "BOM"].
    change (qualified_pool (role_pool _ ["First Officer"; "FO"]) _)
      with [Examples.ga_crew "FO1" "First Officer" "BOM"].
    change (qualified_pool
              (role_pool _ ["Senior Crew"; "Senior Cabin"; "SC"]) _)
      with (@nil Crew).
    change (qualified_pool (role_pool _ ["Cabin Crew"; "CC"]) _)
      with [Examples.ga_crew "CC1" "Cabin Crew" "BOM"].
    change (Z.to_nat (needed_captains _)) with 1%nat.
    change (Z.to_nat (needed_fo _)) with 1%nat.
    change (Z.to_nat (needed_sc _)) with 0%nat.
    change (Z.to_nat (needed_cc _)) with 2%nat.
    change (flight_id _) with "F1".
    cbn [seat_loop]. rewrite !choice_singleton. reflexivity. }
  destruct (random_assignments Examples.small_roster g) as [sol g'].
  simpl in Hr. subst sol. simpl. vm_compute. reflexivity.
Qed.

End GeneticDoubleSeat.

(** ** Duty minutes *)

Section DutyMinutes.
Import CpModel CpLogic Constraints.







Lemma sat_sum_constraint (val : valuation) (target : var) (terms : list expr) :
  sat val (sum_constraint target terms) = true ->
  val target = Py.zsum (map (eval val) terms).
Proof.
  unfold sum_constraint. simpl. intros H. apply Z.eqb_eq in H.
  destruct terms; [exact H | now rewrite eval_esum in H].
Qed.





Lemma day_entries_facts (b : Loader.DataBundle)
    (elig : Eligibility.EligibilityBundle) (c_id d : string)
    (x : xdict) (entries : list (Z * var * Models.Flight)) :
  day_entries b elig c_id d x = Some entries ->
  Forall (fun e =>
            exists k m0, (k, snd (fst e)) ∈ x /\ key_crew k = c_id
              /\ Eligibility.day_by_flight elig !! key_flight k = Some d
              /\ Eligibility.minutes_by_flight elig !! key_flight k = Some m0
              /\ fst (fst e) = Z.max 1 m0) entries.
Proof.
  revert entries. induction x as [| [k v] x IH]; intros entries H; simpl in H.
  - injection H as <-. constructor.
  - assert (Hrest : forall es, day_entries b elig c_id d x = Some es ->
              Forall (fun e =>
                exists k0 m0, (k0, snd (fst e)) ∈ (k, v) :: x
                  /\ key_crew k0 = c_id
                  /\ Eligibility.day_by_flight elig !! key_flight k0 = Some d
                  /\ Eligibility.minutes_by_flight elig !! key_flight k0 = Some m0
                  /\ fst (fst e) = Z.max 1 m0) es).
    { intros es Hes. eapply Forall_impl; [apply IH; exact Hes |].
      intros e (k' & m' & Hin & ?). exists k', m'.
      split; [now right | assumption]. }
    destruct (String.eqb_spec (key_crew k) c_id) as [Hc | Hc]; [| auto].
    destruct (Eligibility.day_by_flight elig !! key_flight k)
      as [day |] eqn:Hday; [| discriminate].
    simpl in H. destruct (String.eqb_spec day d) as [-> | Hd]; [| auto].
    unfold assignment_minutes in H.
    destruct (Eligibility.minutes_by_flight elig !! key_flight k)
      as [m0 |] eqn:Hm; [| discriminate].
    simpl in H.
    destruct (Loader.flights_by_id b !! key_flight k); [| discriminate].
    simpl in H. destruct (day_entries b elig c_id d x) as [es |];
      [| discriminate].
    simpl in H. injection H as <-. constructor; [| auto].
    exists k, m0. simpl. repeat split; auto. left.
Qed.

End DutyMinutes.

Section DutyMinutesClaim.
Import CpModel CpLogic Constraints.


Lemma eval_term_expr (val : valuation) (t : Z * var) :
  eval val (term_expr t) = val (snd t) * fst t.
Proof. reflexivity. Qed.



End DutyMinutesClaim.

(** ** Stable sorting *)

Section StableSort.
Context {A : Type} (key : A -> Z).

Local Abbreviation key_le := (Py.key_le key).

Lemma insert_by_front (x : A) (l : list A) :
  Forall (key_le x) l -> Py.insert_by key x l = x :: l.
Proof.
  intros H. destruct l as [| y l]; [reflexivity |]. simpl.
  inversion H as [| ? ? Hy _]; subst. unfold Py.key_le in Hy.
  apply Z.leb_le in Hy. now rewrite Hy.
Qed.

Lemma insert_by_Permutation (x : A) (l : list A) :
  Py.insert_by key x l ≡ₚ x :: l.
Proof.
  induction l as [| y l IH]; simpl; [reflexivity |].
  destruct (key x <=? key y); [reflexivity |].
  rewrite IH. apply Permutation_swap.
Qed.

Lemma sort_by_Permutation (l : list A) : Py.sort_by key l ≡ₚ l.
Proof.
  induction l as [| x l IH]; simpl; [reflexivity |].
  unfold Py.sort_by in *. simpl. rewrite insert_by_Permutation.
  now rewrite IH.
Qed.

Lemma insert_by_sorted (x : A) (l : list A) :
  StronglySorted key_le l -> StronglySorted key_le (Py.insert_by key x l).
Proof.
  induction l as [| y l IH]; intros Hs; simpl.
  - repeat constructor.
  - inversion Hs as [| ? ? Hl Hy]; subst.
    destruct (key x <=? key y) eqn:E.
    + apply Z.leb_le in E. constructor; [exact Hs |].
      constructor; [exact E |].
      eapply Forall_impl; [exact Hy |]. unfold Py.key_le. intros; lia.
    + apply Z.leb_gt in E. constructor; [now apply IH |].
      rewrite insert_by_Permutation.
      constructor; [unfold Py.key_le; lia | exact Hy].
Qed.

Lemma sort_by_sorted (l : list A) : StronglySorted key_le (Py.sort_by key l).
Proof.
  induction l as [| x l IH]; [constructor |].
  unfold Py.sort_by in *. simpl. now apply insert_by_sorted.
Qed.

Lemma filter_sorted (P : A -> bool) (l : list A) :
  StronglySorted key_le l -> StronglySorted key_le (List.filter P l).
Proof.
  induction 1 as [| x l Hl IH Hx]; simpl; [constructor |].
  destruct (P x); [| exact IH]. constructor; [exact IH |].
  apply Forall_forall. intros y Hy.
  apply list_elem_of_In, filter_In in Hy as [Hy _].
  rewrite Forall_forall in Hx. apply Hx. now apply list_elem_of_In.
Qed.

(** Filtering commutes with a stable insertion into a sorted list. *)
Lemma filter_insert_by (P : A -> bool) (x : A) (l : list A) :
  StronglySorted key_le l ->
  List.filter P (Py.insert_by key x l)
  = if P x then Py.insert_by key x (List.filter P l) else List.filter P l.
Proof.
  induction l as [| y l IH]; intros Hs.
  - simpl. destruct (P x); reflexivity.
  - inversion Hs as [| ? ? Hl Hy]; subst. simpl.
    destruct (key x <=? key y) eqn:E.
    + simpl. destruct (P x) eqn:Px; [| reflexivity].
      rewrite insert_by_front; [reflexivity |].
      apply Z.leb_le in E.
      assert (Hall : Forall (key_le x) (y :: l)).
      { constructor; [exact E |]. eapply Forall_impl; [exact Hy |].
        unfold Py.key_le. intros; lia. }
      apply Forall_forall. intros z Hz. rewrite Forall_forall in Hall.
      apply Hall. apply list_elem_of_In.
      change (if P y then y :: List.filter P l else List.filter P l)
        with (List.filter P (y :: l)) in Hz.
      apply list_elem_of_In, filter_In in Hz as [Hz _]. exact Hz.
    + simpl. rewrite (IH Hl). destruct (P y) eqn:Py, (P x) eqn:Px;
        simpl; rewrite ?E; reflexivity.
Qed.

Lemma sort_by_filter (P : A -> bool) (l : list A) :
  List.filter P (Py.sort_by key l) = Py.sort_by key (List.filter P l).
Proof.
  induction l as [| x l IH]; [reflexivity |].
  unfold Py.sort_by in *. simpl.
  rewrite filter_insert_by by apply sort_by_sorted.
  destruct (P x); simpl; now rewrite IH.
Qed.

End StableSort.

(** ** Keys in order of first appearance, and grouping *)

Section FirstKeys.
Context {K : Type} `{EqDecision K}.

Local Abbreviation ne k := (fun k' : K => negb (bool_decide (k' = k))).

Lemma elem_of_first_keys (l : list K) (k : K) :
  k ∈ Py.first_keys l <-> k ∈ l.
Proof.
  induction l as [| x l IH]; simpl; [reflexivity |].
  rewrite !elem_of_cons, list_elem_of_In, filter_In, <- list_elem_of_In, IH.
  rewrite negb_true_iff, bool_decide_eq_false.
  destruct (decide (k = x)); intuition.
Qed.

Lemma NoDup_filter_bool {B} (P : B -> bool) (l : list B) :
  NoDup l -> NoDup (List.filter P l).
Proof.
  induction 1 as [| x l Hx Hl IH]; simpl; [constructor |].
  destruct (P x); [| exact IH]. constructor; [| exact IH].
  rewrite list_elem_of_In, filter_In, <- list_elem_of_In. tauto.
Qed.

Lemma NoDup_first_keys (l : list K) : NoDup (Py.first_keys l).
Proof.
  induction l as [| x l IH]; simpl; constructor.
  - rewrite list_elem_of_In, filter_In, negb_true_iff, bool_decide_eq_false.
    tauto.
  - now apply NoDup_filter_bool.
Qed.

Lemma filter_ne_notin (k : K) (l : list K) :
  k ∉ l -> List.filter (ne k) l = l.
Proof.
  induction l as [| x l IH]; intros Hn; simpl; [reflexivity |].
  rewrite not_elem_of_cons in Hn. destruct Hn as [Hx Hl].
  rewrite bool_decide_eq_false_2 by congruence. simpl. now rewrite IH.
Qed.

Lemma filter_filter_bool {B} (P : B -> bool) (l : list B) :
  List.filter P (List.filter P l) = List.filter P l.
Proof.
  induction l as [| x l IH]; simpl; [reflexivity |].
  destruct (P x) eqn:E; simpl; rewrite ?E, IH; reflexivity.
Qed.

Lemma first_keys_snoc (l : list K) (k : K) :
  Py.first_keys (l ++ [k])
  = if bool_decide (k ∈ l) then Py.first_keys l else Py.first_keys l ++ [k].
Proof.
  induction l as [| x l IH]; [reflexivity |].
  cbn [app Py.first_keys]. rewrite IH.
  destruct (decide (k = x)) as [-> | Hne].
  - rewrite (bool_decide_eq_true_2 (x ∈ x :: l)) by left.
    destruct (bool_decide (x ∈ l)); [reflexivity |].
    rewrite List.filter_app. simpl.
    rewrite bool_decide_eq_true_2 by reflexivity. simpl.
    now rewrite app_nil_r.
  - destruct (decide (k ∈ l)) as [Hin | Hnin].
    + rewrite !bool_decide_eq_true_2; [reflexivity | now right | exact Hin].
    + rewrite !bool_decide_eq_false_2;
        [| rewrite elem_of_cons; tauto | exact Hnin].
      rewrite List.filter_app. simpl.
      rewrite bool_decide_eq_false_2 by exact Hne. reflexivity.
Qed.

Lemma first_keys_replicate_app (n : nat) (k : K) (l : list K) :
  Py.first_keys (replicate (S n) k ++ l)
  = k :: List.filter (ne k) (Py.first_keys l).
Proof.
  induction n as [| n IH]; [reflexivity |].
  change (replicate (S (S n)) k ++ l) with (k :: (replicate (S n) k ++ l)).
  cbn [Py.first_keys]. rewrite IH. cbn [List.filter].
  rewrite bool_decide_eq_true_2 by reflexivity. cbn [negb].
  now rewrite filter_filter_bool.
Qed.

End FirstKeys.

Section Grouping.
Context {A K : Type} `{EqDecision K} (key : A -> K).

Local Abbreviation has k := (fun a : A => bool_decide (key a = k)).

Local Abbreviation group_by := (Py.group_by key).

Lemma dict_append_groups (ks : list K) (F : K -> list A) (k : K) (a : A) :
  NoDup ks -> (k ∉ ks -> F k = []) ->
  Py.dict_append (map (fun k' => (k', F k')) ks) k a
  = map (fun k' => (k', F k' ++ if bool_decide (k' = k) then [a] else []))
        (if bool_decide (k ∈ ks) then ks else ks ++ [k]).
Proof.
  induction ks as [| k0 ks IH]; intros Hnd Hf.
  - simpl. rewrite bool_decide_eq_true_2 by reflexivity.
    rewrite Hf by apply not_elem_of_nil. reflexivity.
  - inversion Hnd as [| ? ? Hk0 Hnd']; subst. simpl.
    destruct (decide (k = k0)) as [-> | Hne].
    + rewrite (bool_decide_eq_true_2 (k0 ∈ k0 :: ks)) by left. simpl.
      rewrite bool_decide_eq_true_2 by reflexivity. f_equal.
      apply map_ext_in. intros k' Hk'.
      rewrite bool_decide_eq_false_2; [now rewrite app_nil_r |].
      intros ->. apply Hk0. now apply list_elem_of_In.
    + rewrite IH; [| exact Hnd' |].
      * destruct (decide (k ∈ ks)) as [Hin | Hnin].
        -- rewrite !bool_decide_eq_true_2; [| now right | exact Hin].
           simpl. rewrite (bool_decide_eq_false_2 (k0 = k)) by congruence.
           now rewrite app_nil_r.
        -- rewrite !bool_decide_eq_false_2;
             [| rewrite elem_of_cons; tauto | exact Hnin].
           simpl. rewrite (bool_decide_eq_false_2 (k0 = k)) by congruence.
           now rewrite app_nil_r.
      * intros Hnin. apply Hf. rewrite elem_of_cons. tauto.
Qed.

Lemma group_by_snoc (l : list A) (a : A) :
  group_by (l ++ [a]) = Py.dict_append (group_by l) (key a) a.
Proof. unfold Py.group_by. now rewrite foldl_app. Qed.

Lemma filter_has_nil (l : list A) (k : K) :
  k ∉ map key l -> List.filter (has k) l = [].
Proof.
  induction l as [| x l IH]; intros Hn; simpl; [reflexivity |].
  simpl in Hn. rewrite not_elem_of_cons in Hn. destruct Hn as [Hx Hl].
  rewrite bool_decide_eq_false_2 by congruence. now apply IH.
Qed.

(** The groups are the keys in order of first appearance, each with its
    elements in their original order. *)
Lemma group_by_spec (l : list A) :
  group_by l
  = map (fun k => (k, List.filter (has k) l)) (Py.first_keys (map key l)).
Proof.
  induction l as [| a l IH] using rev_ind; [reflexivity |].
  rewrite group_by_snoc, IH, map_app. cbn [map]. rewrite first_keys_snoc.
  rewrite <- (bool_decide_ext _ _ (elem_of_first_keys (map key l) (key a))).
  rewrite dict_append_groups.
  - apply map_ext. intros k. rewrite List.filter_app. simpl.
    now rewrite (bool_decide_ext (key a = k) (k = key a)) by (split; congruence).
  - apply NoDup_first_keys.
  - intros Hn. apply filter_has_nil. now rewrite <- elem_of_first_keys.
Qed.

Lemma map_key_filter_has (l : list A) (k : K) :
  map key (List.filter (has k) l)
  = replicate (length (List.filter (has k) l)) k.
Proof.
  induction l as [| x l IH]; simpl; [reflexivity |].
  destruct (decide (key x = k)) as [<- | Hne].
  - rewrite bool_decide_eq_true_2 by reflexivity. simpl. now rewrite IH.
  - rewrite bool_decide_eq_false_2 by exact Hne. exact IH.
Qed.

Lemma filter_has_nonempty (l : list A) (k : K) :
  k ∈ map key l -> (0 < length (List.filter (has k) l))%nat.
Proof.
  intros Hin. apply list_elem_of_fmap in Hin as (a & -> & Ha).
  destruct (List.filter (has (key a)) l) as [| y ys] eqn:E; [| simpl; lia].
  exfalso. assert (Hin : In a (List.filter (has (key a)) l)).
  { apply filter_In. split; [now apply list_elem_of_In |].
    now apply bool_decide_eq_true_2. }
  rewrite E in Hin. inversion Hin.
Qed.

(** Concatenating the groups of some of the keys keeps the order of
    those keys. *)
Lemma first_keys_regroup (l : list A) (ks : list K) :
  NoDup ks -> (forall k, k ∈ ks -> k ∈ map key l) ->
  Py.first_keys (map key (concat (map (fun k => List.filter (has k) l) ks)))
  = ks.
Proof.
  induction ks as [| k ks IH]; intros Hnd Hin; [reflexivity |].
  inversion Hnd as [| ? ? Hk Hnd']; subst.
  simpl. rewrite map_app, map_key_filter_has.
  pose proof (filter_has_nonempty l k (Hin k ltac:(left))) as Hlen.
  destruct (length (List.filter (has k) l)) as [| n]; [lia |].
  rewrite first_keys_replicate_app, IH; [| exact Hnd' |].
  - now rewrite filter_ne_notin.
  - intros k' Hk'. apply Hin. now right.
Qed.

End Grouping.

Section GroupingPermutation.
Context {A K : Type} `{EqDecision K} (key : A -> K).

Local Abbreviation has k := (fun a : A => bool_decide (key a = k)).

Lemma filter_split_Permutation (P : A -> bool) (l : list A) :
  List.filter P l ++ List.filter (fun a => negb (P a)) l ≡ₚ l.
Proof.
  induction l as [| x l IH]; simpl; [reflexivity |].
  destruct (P x); simpl.
  - now rewrite IH.
  - rewrite <- Permutation_middle. now rewrite IH.
Qed.

Lemma filter_ext_in_bool (P Q : A -> bool) (l : list A) :
  (forall a, a ∈ l -> P a = Q a) -> List.filter P l = List.filter Q l.
Proof.
  intros H. apply List.filter_ext_in. intros a Ha. apply H.
  now apply list_elem_of_In.
Qed.

Lemma filter_and_bool (P Q : A -> bool) (l : list A) :
  List.filter P (List.filter Q l) = List.filter (fun a => Q a && P a) l.
Proof.
  induction l as [| x l IH]; simpl; [reflexivity |].
  destruct (Q x); simpl; [destruct (P x) |]; now rewrite IH.
Qed.

Lemma concat_groups_Permutation (ks : list K) (l : list A) :
  NoDup ks -> (forall a, a ∈ l -> key a ∈ ks) ->
  concat (map (fun k => List.filter (has k) l) ks) ≡ₚ l.
Proof.
  revert l. induction ks as [| k0 ks IH]; intros l Hnd Hin.
  - destruct l as [| a l]; [reflexivity |].
    specialize (Hin a ltac:(left)). inversion Hin.
  - inversion Hnd as [| ? ? Hk0 Hnd']; subst. simpl.
    etransitivity; [| apply (filter_split_Permutation (has k0) l)].
    apply Permutation_app_head.
    rewrite <- (IH (List.filter (fun a => negb (has k0 a)) l) Hnd').
    + apply Permutation_refl'. f_equal. apply map_ext_in. intros k Hk.
      rewrite filter_and_bool. apply filter_ext_in_bool. intros a Ha.
      destruct (decide (key a = k)) as [<- | Hne].
      * rewrite bool_decide_eq_true_2 by reflexivity.
        rewrite bool_decide_eq_false_2; [reflexivity |].
        intros Heq. apply Hk0. rewrite <- Heq. now apply list_elem_of_In.
      * rewrite (bool_decide_eq_false_2 (key a = k)) by exact Hne.
        now rewrite andb_false_r.
    + intros a Ha. apply list_elem_of_In, filter_In in Ha as [Ha Hn].
      apply list_elem_of_In, Hin in Ha.
      apply negb_true_iff, bool_decide_eq_false in Hn.
      apply elem_of_cons in Ha as [Ha | Ha]; [contradiction | exact Ha].
Qed.

(** The groups of the keys that pass [Q], concatenated, are the elements
    whose key passes [Q], up to order. *)
Lemma concat_kept_groups_Permutation (Q : K -> bool) (l : list A) :
  concat (map (fun k => List.filter (has k) l)
              (List.filter Q (Py.first_keys (map key l))))
  ≡ₚ List.filter (fun a => Q (key a)) l.
Proof.
  rewrite <- (concat_groups_Permutation
                (List.filter Q (Py.first_keys (map key l)))
                (List.filter (fun a => Q (key a)) l)).
  - apply Permutation_refl'. f_equal. apply map_ext_in. intros k Hk.
    apply filter_In in Hk as [_ HQ].
    rewrite filter_and_bool. apply filter_ext_in_bool. intros a Ha.
    destruct (decide (key a = k)) as [<- | Hne].
    + rewrite HQ. now rewrite bool_decide_eq_true_2.
    + rewrite (bool_decide_eq_false_2 (key a = k)) by exact Hne.
      now rewrite andb_false_r.
  - apply NoDup_filter_bool, NoDup_first_keys.
  - intros a Ha. apply list_elem_of_In, filter_In in Ha as [Ha HQ].
    apply list_elem_of_In, filter_In. split; [| exact HQ].
    apply list_elem_of_In, elem_of_first_keys, list_elem_of_fmap.
    exists a. split; [reflexivity | now apply list_elem_of_In].
Qed.

End GroupingPermutation.

(** ** Dictionaries of lists *)

Section DictOfLists.
Context {K V : Type} `{EqDecision K}.

Lemma dict_get_append (d : list (K * list V)) (k k' : K) (v : V) :
  Py.dict_get (Py.dict_append d k v) k'
  = (Py.dict_get d k' ++ if bool_decide (k' = k) then [v] else [])%list.
Proof.
  induction d as [| [k0 vs] d IH]; simpl.
  - destruct (decide (k' = k)) as [-> | Hne].
    + now rewrite bool_decide_eq_true_2.
    + now rewrite bool_decide_eq_false_2.
  - destruct (decide (k = k0)) as [-> | Hne]; simpl.
    + destruct (decide (k' = k0)) as [-> | Hne'].
      * now rewrite bool_decide_eq_true_2.
      * rewrite bool_decide_eq_false_2 by exact Hne'. now rewrite app_nil_r.
    + destruct (decide (k' = k0)) as [-> | Hne'].
      * rewrite bool_decide_eq_false_2 by congruence. now rewrite app_nil_r.
      * exact IH.
Qed.

Lemma dict_append_keys (d : list (K * list V)) (k : K) (v : V) :
  map fst (Py.dict_append d k v)
  = if bool_decide (k ∈ map fst d) then map fst d else (map fst d ++ [k])%list.
Proof.
  induction d as [| [k0 vs] d IH]; simpl; [reflexivity |].
  destruct (decide (k = k0)) as [-> | Hne]; simpl.
  - now rewrite bool_decide_eq_true_2 by left.
  - rewrite IH. destruct (decide (k ∈ map fst d)) as [Hin | Hnin].
    + rewrite !bool_decide_eq_true_2; [reflexivity | now right | exact Hin].
    + rewrite !bool_decide_eq_false_2;
        [reflexivity | rewrite elem_of_cons; tauto | exact Hnin].
Qed.

Lemma dict_append_NoDup (d : list (K * list V)) (k : K) (v : V) :
  NoDup (map fst d) -> NoDup (map fst (Py.dict_append d k v)).
Proof.
  intros Hnd. rewrite dict_append_keys.
  destruct (decide (k ∈ map fst d)) as [Hin | Hnin].
  - now rewrite bool_decide_eq_true_2.
  - rewrite bool_decide_eq_false_2 by exact Hnin.
    apply NoDup_app. split; [exact Hnd | split].
    + intros x Hx Hx'. apply list_elem_of_singleton in Hx'. now subst.
    + apply NoDup_singleton.
Qed.

Lemma dict_get_elem (d : list (K * list V)) (k : K) (vs : list V) :
  NoDup (map fst d) -> (k, vs) ∈ d -> Py.dict_get d k = vs.
Proof.
  induction d as [| [k0 vs0] d IH]; intros Hnd Hin; [inversion Hin |].
  simpl in *. inversion Hnd as [| ? ? Hk0 Hnd']; subst.
  apply elem_of_cons in Hin as [[= -> ->] | Hin].
  - now rewrite decide_True.
  - rewrite decide_False; [now apply IH |].
    intros ->. apply Hk0. apply list_elem_of_fmap. exists (k0, vs). auto.
Qed.

Lemma dict_get_nonempty (d : list (K * list V)) (k : K) :
  Py.dict_get d k <> [] -> (k, Py.dict_get d k) ∈ d.
Proof.
  induction d as [| [k0 vs0] d IH]; simpl; [congruence |].
  destruct (decide (k = k0)) as [-> | Hne]; intros H.
  - left.
  - right. now apply IH.
Qed.

End DictOfLists.

(** ** The continuity repair (genetic_optimizer.py) *)

Section RepairFacts.
Import Genetic.
Context (fbi : gmap string Flight).
Hypothesis fbi_key : forall k f, fbi !! k = Some f -> flight_id f = k.

(** The flight that a (crew, flight) pair contributes to crew [c]. *)
Local Abbreviation flight_for c :=
  (fun k : string * string => if decide (k.1 = c) then fbi !! k.2 else None).

Lemma flights_fold_spec (l : list Assignment) :
  let st := foldl (flights_step fbi) ([], ∅) l in
  (forall k, k ∈ st.2 <-> k ∈ map cf_key l)
  /\ (forall c, Py.dict_get st.1 c
                = omap (flight_for c) (Py.first_keys (map cf_key l)))
  /\ NoDup (map fst st.1).
Proof.
  induction l as [| a l IH] using rev_ind.
  - simpl. split; [| split].
    + intros k. split; intros H; [set_solver | inversion H].
    + reflexivity.
    + constructor.
  - rewrite foldl_app. cbn [foldl].
    destruct (foldl (flights_step fbi) ([], ∅) l) as [ffc seen].
    cbn [fst snd] in IH. destruct IH as (Hseen & Hget & Hnd).
    rewrite map_app. cbn [map]. rewrite first_keys_snoc.
    unfold flights_step.
    destruct (decide (cf_key a ∈ seen)) as [Hin | Hnin].
    + rewrite bool_decide_eq_true_2 by exact Hin.
      rewrite bool_decide_eq_true_2 by now apply Hseen.
      cbn [fst snd]. split; [| split; [exact Hget | exact Hnd]].
      intros k. rewrite elem_of_app, list_elem_of_singleton, Hseen.
      split; [tauto |]. intros [H | ->]; [tauto | now apply Hseen].
    + rewrite bool_decide_eq_false_2 by exact Hnin.
      rewrite bool_decide_eq_false_2 by (now rewrite <- Hseen).
      assert (Hs : forall k, k ∈ seen ∪ {[cf_key a]}
                             <-> k ∈ map cf_key l ++ [cf_key a]).
      { intros k. rewrite elem_of_union, elem_of_singleton, elem_of_app,
          list_elem_of_singleton, Hseen. reflexivity. }
      destruct (fbi !! a_flight_id a) as [f |] eqn:Hf; cbn [fst snd].
      * split; [exact Hs | split; [| now apply dict_append_NoDup]].
        intros c. rewrite omap_app, dict_get_append, Hget. f_equal.
        csimpl. unfold cf_key. cbn [fst snd].
        destruct (decide (a_crew_id a = c)) as [<- | Hne].
        -- rewrite bool_decide_eq_true_2 by reflexivity. now rewrite Hf.
        -- rewrite bool_decide_eq_false_2 by congruence. reflexivity.
      * split; [exact Hs | split; [| exact Hnd]].
        intros c. rewrite omap_app, Hget.
        csimpl. unfold cf_key. cbn [fst snd].
        destruct (decide (a_crew_id a = c)); rewrite ?Hf;
          now rewrite app_nil_r.
Qed.

Lemma flights_for_crew_get (l : list Assignment) (c : string) :
  Py.dict_get (flights_for_crew fbi l) c
  = omap (flight_for c) (Py.first_keys (map cf_key l)).
Proof. apply (flights_fold_spec l). Qed.

Lemma flights_for_crew_NoDup (l : list Assignment) :
  NoDup (map fst (flights_for_crew fbi l)).
Proof. apply (flights_fold_spec l). Qed.

(** *** The chain walk *)

Lemma keep_chain_elem (la : option string) (l : list Flight) (f : Flight) :
  f ∈ keep_chain la l -> f ∈ l.
Proof.
  revert la. induction l as [| x l IH]; intros la H; [inversion H |].
  simpl in H. destruct la as [a |].
  - destruct (String.eqb (dep_airport x) a).
    + apply elem_of_cons in H as [-> | H]; [left | right; eauto].
    + right. eauto.
  - apply elem_of_cons in H as [-> | H]; [left | right; eauto].
Qed.

Lemma keep_chain_head (la : string) (l : list Flight) :
  match keep_chain (Some la) l with
  | [] => True
  | f :: _ => dep_airport f = la
  end.
Proof.
  induction l as [| x l IH]; simpl; [exact I |].
  destruct (String.eqb_spec (dep_airport x) la); [assumption | exact IH].
Qed.

Lemma chained_cons (f : Flight) (l : list Flight) :
  match l with
  | [] => True
  | g :: _ => dep_airport g = arr_airport f
  end ->
  Spec.chained l -> Spec.chained (f :: l).
Proof.
  intros Hh Hl f1 f2 Hin. destruct l as [| g l]; [inversion Hin |].
  simpl in Hin. apply elem_of_cons in Hin as [[= -> ->] | Hin].
  - exact Hh.
  - now apply Hl.
Qed.

Lemma keep_chain_chained (la : option string) (l : list Flight) :
  Spec.chained (keep_chain la l).
Proof.
  revert la. induction l as [| x l IH]; intros la;
    [intros ? ? H; inversion H |].
  simpl. destruct la as [a |].
  - destruct (String.eqb (dep_airport x) a); [| apply IH].
    apply chained_cons; [apply keep_chain_head | apply IH].
  - apply chained_cons; [apply keep_chain_head | apply IH].
Qed.

(** On a list without repeated flight identifiers, the chain walk is the
    filter that keeps the identifiers it keeps. *)
Lemma filter_keep_chain (la : option string) (l : list Flight) :
  NoDup (map flight_id l) ->
  List.filter
    (fun f => bool_decide (flight_id f ∈ map flight_id (keep_chain la l))) l
  = keep_chain la l.
Proof.
  revert la. induction l as [| x l IH]; intros la Hnd; [reflexivity |].
  inversion Hnd as [| ? ? Hx Hnd']; subst.
  assert (Hrest : forall la' (extra : list string),
    (forall i, i ∈ extra -> i ∉ map flight_id l) ->
    List.filter
      (fun f => bool_decide
                  (flight_id f ∈ extra ++ map flight_id (keep_chain la' l))) l
    = keep_chain la' l).
  { intros la' extra Hex. etransitivity; [| apply (IH la' Hnd')].
    apply List.filter_ext_in. intros f Hf. apply bool_decide_ext.
    rewrite elem_of_app. split; [| tauto]. intros [H | H]; [| exact H].
    exfalso. apply (Hex _ H). apply list_elem_of_fmap.
    exists f. split; [reflexivity | now apply list_elem_of_In]. }
  assert (Hdrop : forall la',
    bool_decide (flight_id x ∈ map flight_id (keep_chain la' l)) = false).
  { intros la'. apply bool_decide_eq_false_2. intros H.
    apply list_elem_of_fmap in H as (f & Hid & Hf).
    apply keep_chain_elem in Hf. apply Hx. rewrite Hid.
    apply list_elem_of_fmap. eauto. }
  assert (Hkeep : forall la',
    List.filter
      (fun f => bool_decide
         (flight_id f ∈ map flight_id (x :: keep_chain la' l))) (x :: l)
    = x :: keep_chain la' l).
  { intros la'. cbn [List.filter map].
    rewrite bool_decide_eq_true_2 by left. f_equal.
    apply (Hrest la' [flight_id x]). intros i Hi.
    apply list_elem_of_singleton in Hi as ->. exact Hx. }
  simpl keep_chain. destruct la as [a |].
  - destruct (String.eqb (dep_airport x) a); [apply Hkeep |].
    cbn [List.filter]. rewrite Hdrop. apply IH, Hnd'.
  - apply Hkeep.
Qed.

(** *** The kept pairs *)

Lemma kept_inner_elem (c : string) (L : list Flight)
    (init : gset (string * string)) (t : string * string) :
  t ∈ foldl (fun kept f => kept ∪ {[ (c, flight_id f) ]}) init L
  <-> t ∈ init \/ exists f, f ∈ L /\ t = (c, flight_id f).
Proof.
  revert init. induction L as [| x L IH]; intros init; simpl.
  - split; [auto |]. intros [H | (f & Hf & _)]; [exact H | inversion Hf].
  - rewrite IH, elem_of_union, elem_of_singleton. split.
    + intros [[H | ->] | (f & Hf & ->)]; eauto.
      * right. exists x. split; [left | reflexivity].
      * right. exists f. split; [now right | reflexivity].
    + intros [H | (f & Hf & ->)]; [auto |].
      apply elem_of_cons in Hf as [-> | Hf]; eauto.
Qed.

Lemma kept_pairs_fold_elem (ffc : list (string * list Flight))
    (init : gset (string * string)) (t : string * string) :
  t ∈ foldl (fun kept '(crew_id, flist) =>
               foldl (fun kept f => kept ∪ {[ (crew_id, flight_id f) ]}) kept
                     (keep_chain None (Py.sort_by dep_dt flist)))
            init ffc
  <-> t ∈ init
      \/ exists c flist f,
           (c, flist) ∈ ffc
           /\ f ∈ keep_chain None (Py.sort_by dep_dt flist)
           /\ t = (c, flight_id f).
Proof.
  revert init. induction ffc as [| [c flist] ffc IH]; intros init; simpl.
  - split; [auto |].
    intros [H | (c & flist & f & Hin & _)]; [exact H | inversion Hin].
  - rewrite IH, kept_inner_elem. split.
    + intros [[H | (f & Hf & ->)] | (c' & fl' & f & Hin & Hf & ->)]; eauto.
      * right. exists c, flist, f. split; [left | auto].
      * right. exists c', fl', f. split; [now right | auto].
    + intros [H | (c' & fl' & f & Hin & Hf & ->)]; [auto |].
      apply elem_of_cons in Hin as [[= -> ->] | Hin]; eauto 10.
Qed.

Lemma kept_pairs_spec (l : list Assignment) (c f_id : string) :
  (c, f_id) ∈ kept_pairs_of (flights_for_crew fbi l)
  <-> f_id ∈ map flight_id
        (keep_chain None
           (Py.sort_by dep_dt (Py.dict_get (flights_for_crew fbi l) c))).
Proof.
  unfold kept_pairs_of. rewrite kept_pairs_fold_elem, list_elem_of_fmap. split.
  - intros [H | (c' & flist & f & Hin & Hf & [= -> ->])]; [set_solver |].
    rewrite (dict_get_elem _ _ _ (flights_for_crew_NoDup l) Hin). eauto.
  - intros (f & -> & Hf). right.
    exists c, (Py.dict_get (flights_for_crew fbi l) c), f.
    split; [| auto]. apply dict_get_nonempty. intros He.
    rewrite He in Hf. inversion Hf.
Qed.

End RepairFacts.

Section RepairClaim.
Import Genetic.
Context (self : GeneticOptimizer) (Hloaded : loaded self).

Local Abbreviation fbi := (flights_by_id self).
Local Abbreviation has k := (fun a : Assignment => bool_decide (cf_key a = k)).
Local Abbreviation flight_for c :=
  (fun k : string * string => if decide (k.1 = c) then fbi !! k.2 else None).

Lemma loaded_key (k : string) (f : Flight) :
  fbi !! k = Some f -> flight_id f = k.
Proof.
  destruct Hloaded as [-> _]. intros H. now apply index_by_key in H as [? _].
Qed.

(** The kept pairs of a solution, as a test on keys. *)
Local Abbreviation kept sol :=
  (fun k : string * string =>
     bool_decide (k ∈ kept_pairs_of (flights_for_crew fbi sol))).

Lemma filter_map_pair {B C} (Q : B -> bool) (F : B -> C) (ks : list B) :
  map snd (List.filter (fun '(k, _) => Q k) (map (fun k => (k, F k)) ks))
  = map F (List.filter Q ks).
Proof.
  induction ks as [| k ks IH]; simpl; [reflexivity |].
  destruct (Q k); simpl; now rewrite IH.
Qed.

Lemma repair_unfold (sol : list Assignment) :
  _repair_solution_continuity self sol
  = concat (map (fun k => List.filter (has k) sol)
                (List.filter (kept sol) (Py.first_keys (map cf_key sol)))).
Proof.
  destruct sol as [| a sol]; [reflexivity |].
  unfold _repair_solution_continuity, group_by_cf.
  rewrite group_by_spec. now rewrite filter_map_pair.
Qed.

Lemma kept_on_chain (sol : list Assignment) (a : Assignment) :
  kept sol (cf_key a) = Spec.on_chain self sol a.
Proof.
  unfold Spec.on_chain, Spec.crew_schedule. apply bool_decide_ext.
  apply (kept_pairs_spec fbi loaded_key).
Qed.

Lemma first_keys_repair (sol : list Assignment) :
  Py.first_keys (map cf_key (_repair_solution_continuity self sol))
  = List.filter (kept sol) (Py.first_keys (map cf_key sol)).
Proof.
  rewrite repair_unfold. apply first_keys_regroup.
  - apply NoDup_filter_bool, NoDup_first_keys.
  - intros k Hk. apply list_elem_of_In, filter_In in Hk as [Hk _].
    apply list_elem_of_In in Hk. now apply (proj1 (elem_of_first_keys _ _)) in Hk.
Qed.

Lemma omap_filter_flights (Q : string * string -> bool) (c : string)
    (ks : list (string * string)) :
  omap (flight_for c) (List.filter Q ks)
  = List.filter (fun f => Q (c, flight_id f)) (omap (flight_for c) ks).
Proof.
  induction ks as [| [c' f'] ks IH]; [reflexivity |].
  cbn [List.filter].
  destruct (decide (c' = c)) as [-> | Hne].
  - destruct (fbi !! f') as [f |] eqn:Hf.
    + pose proof (loaded_key _ _ Hf) as Hid.
      destruct (Q (c, f')) eqn:HQ; csimpl; cbn [fst snd];
        rewrite ?decide_True by reflexivity; rewrite Hf; cbn [List.filter];
        rewrite Hid, HQ; [f_equal |]; exact IH.
    + destruct (Q (c, f')); csimpl; cbn [fst snd];
        rewrite ?decide_True by reflexivity; rewrite Hf; exact IH.
  - destruct (Q (c', f')); csimpl; cbn [fst snd];
      rewrite ?decide_False by exact Hne; exact IH.
Qed.

Lemma flights_of_keys_NoDup (c : string) (ks : list (string * string)) :
  NoDup ks -> NoDup (map flight_id (omap (flight_for c) ks)).
Proof.
  induction 1 as [| [c' f'] ks Hk Hnd IH]; [constructor |].
  csimpl. cbn [fst snd].
  destruct (decide (c' = c)) as [-> | Hne]; [| exact IH].
  destruct (fbi !! f') as [f |] eqn:Hf; [| exact IH].
  cbn [map]. constructor; [| exact IH].
  rewrite (loaded_key _ _ Hf). intros Hin.
  apply list_elem_of_fmap in Hin as (g & Hid & Hg).
  apply list_elem_of_omap in Hg as ([c2 f2] & Hin2 & Hg). simpl in Hg.
  destruct (decide (c2 = c)) as [-> | ?]; [| discriminate].
  apply loaded_key in Hg. subst. contradiction.
Qed.

Lemma schedule_NoDup (sol : list Assignment) (c : string) :
  NoDup (map flight_id (Spec.crew_schedule self sol c)).
Proof.
  unfold Spec.crew_schedule. rewrite sort_by_Permutation.
  rewrite flights_for_crew_get by exact loaded_key.
  apply flights_of_keys_NoDup, NoDup_first_keys.
Qed.

(** The schedule of a repaired solution is the chain walk over the
    schedule of the original. *)
Lemma schedule_repair (sol : list Assignment) (c : string) :
  Spec.crew_schedule self (_repair_solution_continuity self sol) c
  = keep_chain None (Spec.crew_schedule self sol c).
Proof.
  rewrite <- (filter_keep_chain None _ (schedule_NoDup sol c)).
  unfold Spec.crew_schedule at 1.
  rewrite (flights_for_crew_get fbi loaded_key), first_keys_repair, omap_filter_flights.
  rewrite <- sort_by_filter. unfold Spec.crew_schedule.
  rewrite (flights_for_crew_get fbi loaded_key). apply List.filter_ext. intros f.
  apply bool_decide_ext.
  rewrite (kept_pairs_spec fbi loaded_key), (flights_for_crew_get fbi loaded_key).
  reflexivity.
Qed.

Lemma repair_continuous (sol : list Assignment) :
  Spec.continuous self (_repair_solution_continuity self sol).
Proof. intros c. rewrite schedule_repair. apply keep_chain_chained. Qed.

Lemma repair_Permutation (sol : list Assignment) :
  _repair_solution_continuity self sol
  ≡ₚ List.filter (Spec.on_chain self sol) sol.
Proof.
  rewrite repair_unfold.
  rewrite (concat_kept_groups_Permutation cf_key (kept sol) sol).
  apply Permutation_refl'. apply List.filter_ext. intros a.
  apply kept_on_chain.
Qed.

End RepairClaim.

Section RepairIdempotent.
Import Genetic.
Context (self : GeneticOptimizer) (Hloaded : loaded self).

Local Abbreviation fbi := (flights_by_id self).
Local Abbreviation has k := (fun a : Assignment => bool_decide (cf_key a = k)).
Local Abbreviation kept sol :=
  (fun k : string * string =>
     bool_decide (k ∈ kept_pairs_of (flights_for_crew fbi sol))).

Lemma chained_tail (f : Flight) (l : list Flight) :
  Spec.chained (f :: l) -> Spec.chained l.
Proof.
  intros H f1 f2 Hin. apply H. destruct l as [| g l]; [inversion Hin |].
  simpl. now right.
Qed.

Lemma keep_chain_fixed (la : option string) (l : list Flight) :
  match la, l with
  | Some a, f :: _ => dep_airport f = a
  | _, _ => True
  end ->
  Spec.chained l -> keep_chain la l = l.
Proof.
  revert la. induction l as [| f l IH]; intros la Hh Hc; [reflexivity |].
  assert (Hrest : keep_chain (Some (arr_airport f)) l = l).
  { apply IH; [| eapply chained_tail; exact Hc].
    destruct l as [| g l]; [exact I |]. apply Hc. left. }
  simpl. destruct la as [a |].
  - rewrite Hh, String.eqb_refl. now rewrite Hrest.
  - now rewrite Hrest.
Qed.

Lemma keep_chain_idempotent (l : list Flight) :
  keep_chain None (keep_chain None l) = keep_chain None l.
Proof.
  apply keep_chain_fixed; [now destruct (keep_chain None l) |].
  apply keep_chain_chained.
Qed.

Lemma kept_repair (sol : list Assignment) (k : string * string) :
  kept (_repair_solution_continuity self sol) k = kept sol k.
Proof.
  destruct k as [c f]. apply bool_decide_ext.
  rewrite !(kept_pairs_spec fbi (loaded_key self Hloaded)).
  change (Py.sort_by dep_dt
            (Py.dict_get (flights_for_crew fbi
                            (_repair_solution_continuity self sol)) c))
    with (Spec.crew_schedule self (_repair_solution_continuity self sol) c).
  rewrite (schedule_repair self Hloaded), keep_chain_idempotent.
  reflexivity.
Qed.

Lemma filter_has_concat (F : string * string -> list Assignment)
    (ks : list (string * string)) (k : string * string) :
  (forall k' a, a ∈ F k' -> cf_key a = k') ->
  NoDup ks -> k ∈ ks ->
  List.filter (has k) (concat (map F ks)) = F k.
Proof.
  intros HF Hnd Hin.
  assert (Hall : forall k', List.filter (has k) (F k')
                            = if bool_decide (k' = k) then F k' else []).
  { intros k'. destruct (decide (k' = k)) as [-> | Hne].
    - rewrite bool_decide_eq_true_2 by reflexivity.
      rewrite <- (List.filter_true (F k)) at 2.
      apply List.filter_ext_in. intros a Ha.
      apply bool_decide_eq_true_2, HF. now apply list_elem_of_In.
    - rewrite bool_decide_eq_false_2 by exact Hne.
      rewrite <- (List.filter_false (F k')).
      apply List.filter_ext_in. intros a Ha.
      apply bool_decide_eq_false_2. intros Heq. apply Hne.
      rewrite <- Heq. symmetry. apply HF. now apply list_elem_of_In. }
  induction Hnd as [| k0 ks Hk0 Hnd IH]; [inversion Hin |].
  simpl. rewrite List.filter_app, Hall.
  apply elem_of_cons in Hin as [-> | Hin].
  - rewrite bool_decide_eq_true_2 by reflexivity.
    assert (Hnil : List.filter (has k0) (concat (map F ks)) = []).
    { clear IH. induction ks as [| k1 ks IHk]; [reflexivity |].
      simpl. rewrite List.filter_app, Hall.
      rewrite not_elem_of_cons in Hk0. destruct Hk0 as [Hne Hk0].
      rewrite bool_decide_eq_false_2 by congruence.
      inversion Hnd; subst. now apply IHk. }
    rewrite Hnil. now rewrite app_nil_r.
  - rewrite bool_decide_eq_false_2; [now apply IH |].
    intros ->. contradiction.
Qed.

(** Repairing a repaired solution changes nothing. *)
Lemma repair_idempotent (sol : list Assignment) :
  _repair_solution_continuity self
    (_repair_solution_continuity self sol)
  = _repair_solution_continuity self sol.
Proof.
  rewrite (repair_unfold self (_repair_solution_continuity self sol)).
  rewrite (first_keys_repair self).
  rewrite (List.filter_ext _ _ (kept_repair sol)), filter_filter_bool.
  etransitivity; [| symmetry; apply (repair_unfold self sol)]. f_equal.
  apply map_ext_in. intros k Hk. rewrite (repair_unfold self sol).
  apply (filter_has_concat (fun k => List.filter (has k) sol)).
  - intros k' a Ha. apply list_elem_of_In, filter_In in Ha as [_ Ha].
    now apply bool_decide_eq_true in Ha.
  - apply NoDup_filter_bool, NoDup_first_keys.
  - now apply list_elem_of_In.
Qed.

End RepairIdempotent.

(** ** Fitness of an individual *)

Section Fitness.
Import Py Genetic.
Context (self : GeneticOptimizer).

Local Abbreviation hours_step :=
  (fun (acc : option (list (string * R))) (a : Assignment) =>
     d ← acc;
     _ ← find_crew self (a_crew_id a);
     f ← find_flight self (a_flight_id a);
     Some (hours_add d (a_crew_id a) (flight_hours f))).

Lemma hours_add_keys (d : list (string * R)) (k : string) (h : R) (k' : string) :
  k' ∈ map fst (hours_add d k h) -> k' = k \/ k' ∈ map fst d.
Proof.
  induction d as [| [k0 v] d IH]; simpl.
  - rewrite list_elem_of_singleton. tauto.
  - destruct (String.eqb k k0); simpl; rewrite !elem_of_cons; [tauto |].
    intros [-> | H]; [tauto |]. apply IH in H. tauto.
Qed.

Lemma hours_add_nonempty (d : list (string * R)) (k : string) (h : R) :
  hours_add d k h <> [].
Proof. destruct d as [| [k0 v] d]; simpl; [| destruct (String.eqb k k0)]; discriminate. Qed.

Lemma hours_fold_None (sol : list Assignment) :
  foldl hours_step None sol = None.
Proof. induction sol as [| a sol IH]; [reflexivity | exact IH]. Qed.

Lemma hours_fold_known (sol : list Assignment) (d : list (string * R)) :
  Spec.known self sol = true ->
  exists d',
    foldl hours_step (Some d) sol = Some d'
    /\ (forall k, k ∈ map fst d' -> k ∈ map fst d \/ k ∈ map a_crew_id sol)
    /\ (sol <> [] -> d' <> []).
Proof.
  revert d. induction sol as [| a sol IH]; intros d Hk.
  - exists d. split; [reflexivity | split; [tauto | congruence]].
  - simpl in Hk. apply andb_true_iff in Hk as [Ha Hk].
    apply andb_true_iff in Ha as [Hc Hf].
    apply bool_decide_eq_true in Hc as [c Hc], Hf as [f Hf].
    cbn [foldl]. rewrite Hc, Hf. cbn.
    destruct (IH (hours_add d (a_crew_id a) (flight_hours f)) Hk)
      as (d' & Hd' & Hkeys & Hne).
    exists d'. split; [exact Hd' | split].
    + intros k Hin. apply Hkeys in Hin as [Hin | Hin].
      * apply hours_add_keys in Hin as [-> | Hin]; [right; left | now left].
      * right. now right.
    + intros _. destruct sol as [| b sol].
      * injection Hd' as <-. apply hours_add_nonempty.
      * apply Hne. discriminate.
Qed.

Lemma hours_fold_unknown (sol : list Assignment) (d : list (string * R)) :
  Spec.known self sol = false -> foldl hours_step (Some d) sol = None.
Proof.
  revert d. induction sol as [| a sol IH]; intros d Hk; [discriminate |].
  cbn [foldl]. simpl in Hk.
  destruct (find_crew self (a_crew_id a)) as [c |] eqn:Hc;
    [| apply hours_fold_None].
  destruct (find_flight self (a_flight_id a)) as [f |] eqn:Hf;
    [| apply hours_fold_None].
  cbn. apply IH.
  rewrite !bool_decide_eq_true_2 in Hk by (eexists; reflexivity).
  exact Hk.
Qed.

Lemma known_crew (sol : list Assignment) (k : string) :
  Spec.known self sol = true -> k ∈ map a_crew_id sol ->
  is_Some (find_crew self k).
Proof.
  intros Hk Hin. apply list_elem_of_fmap in Hin as (a & -> & Hin).
  unfold Spec.known in Hk. rewrite forallb_forall in Hk.
  specialize (Hk a (proj1 (list_elem_of_In _ _) Hin)).
  apply andb_true_iff in Hk as [Hc _]. now apply bool_decide_eq_true in Hc.
Qed.

Lemma crew_hours_known (sol : list Assignment) :
  Spec.known self sol = true ->
  exists d,
    crew_hours_of self sol = Some d
    /\ (forall k, k ∈ map fst d -> is_Some (find_crew self k))
    /\ (sol <> [] -> d <> []).
Proof.
  intros Hk. destruct (hours_fold_known sol [] Hk) as (d & Hd & Hkeys & Hne).
  exists d. split; [exact Hd | split; [| exact Hne]].
  intros k Hin. apply Hkeys in Hin as [Hin | Hin]; [inversion Hin |].
  now apply (known_crew sol).
Qed.

Lemma overtime_fold_known (d : list (string * R)) (r : R) :
  (forall k, k ∈ map fst d -> is_Some (find_crew self k)) ->
  is_Some
    (foldl (fun acc '(c_id, hours) =>
              overtime ← acc;
              c ← find_crew self c_id;
              if Rlt_dec (IZR (weekly_max_duty_hrs c)) hours
              then Some (overtime + (hours - IZR (weekly_max_duty_hrs c)))%R
              else Some overtime)
           (Some r) d).
Proof.
  revert r. induction d as [| [k h] d IH]; intros r Hkeys; [now eexists |].
  cbn [foldl]. destruct (Hkeys k ltac:(left)) as [c Hc]. rewrite Hc. cbn.
  destruct (Rlt_dec (IZR (weekly_max_duty_hrs c)) h);
    apply IH; intros k' Hk'; apply Hkeys; now right.
Qed.

Lemma overtime_known (sol : list Assignment) :
  Spec.known self sol = true ->
  is_Some (_calculate_overtime_penalty self sol).
Proof.
  intros Hk. destruct (crew_hours_known sol Hk) as (d & Hd & Hkeys & _).
  unfold _calculate_overtime_penalty. rewrite Hd. cbn.
  now apply overtime_fold_known.
Qed.

Lemma fairness_known (sol : list Assignment) :
  Spec.known self sol = true ->
  is_Some (_calculate_fairness_score self sol).
Proof.
  intros Hk. destruct (crew_hours_known sol Hk) as (d & Hd & _).
  unfold _calculate_fairness_score. rewrite Hd. cbn.
  destruct d as [| p d]; [now eexists |].
  destruct (Req_dec_T _ _); now eexists.
Qed.

Lemma coverage_positive (sol : list Assignment) :
  sol <> [] -> 0 < zsum (map required_positions (flights self)) ->
  exists coverage,
    _calculate_coverage_score self sol = Some coverage
    /\ coverage
       = Rmin 1 (IZR (Z.of_nat (length sol))
                 / IZR (zsum (map required_positions (flights self))))
    /\ (0 < coverage)%R.
Proof.
  intros Hne Htot. unfold _calculate_coverage_score.
  destruct (Z.eqb_spec (zsum (map required_positions (flights self))) 0);
    [lia |].
  eexists. split; [reflexivity | split; [reflexivity |]].
  apply Rmin_glb_lt; [lra |].
  apply Rdiv_lt_0_compat; apply IZR_lt; [| exact Htot].
  destruct sol; [congruence | simpl; lia].
Qed.

(** The value of a non-empty individual whose components are defined. *)
Lemma evaluate_fitness_defined (sol : list Assignment)
    (coverage overtime fairness : R) :
  sol <> [] ->
  _calculate_coverage_score self sol = Some coverage ->
  (0 < coverage)%R ->
  _calculate_overtime_penalty self sol = Some overtime ->
  _calculate_fairness_score self sol = Some fairness ->
  evaluate_fitness self sol
  = Fin (Rmax (weighted_fitness self coverage overtime fairness
                 (fst (_calculate_continuity_and_base_penalties self sol))
                 (snd (_calculate_continuity_and_base_penalties self sol))
                 (_calculate_stability_bonus self sol)) 0.1).
Proof.
  intros Hne Hc Hpos Ho Hf. unfold evaluate_fitness.
  destruct sol as [| a sol]; [congruence |].
  rewrite Hc. destruct (Rle_dec coverage 0); [lra |].
  rewrite Ho, Hf.
  now destruct (_calculate_continuity_and_base_penalties self (a :: sol)).
Qed.

Lemma evaluate_fitness_finite (sol : list Assignment) :
  sol <> [] -> Spec.known self sol = true ->
  0 < zsum (map required_positions (flights self)) ->
  exists r, evaluate_fitness self sol = Fin r.
Proof.
  intros Hne Hk Htot.
  destruct (coverage_positive sol Hne Htot) as (c & Hc & _ & Hpos).
  destruct (overtime_known sol Hk) as [o Ho].
  destruct (fairness_known sol Hk) as [f Hf].
  eexists. now apply (evaluate_fitness_defined sol c o f).
Qed.

Lemma evaluate_fitness_unknown (sol : list Assignment) :
  Spec.known self sol = false -> evaluate_fitness self sol = NegInf.
Proof.
  intros Hk. unfold evaluate_fitness. destruct sol as [| a sol]; [reflexivity |].
  destruct (_calculate_coverage_score self (a :: sol)) as [c |]; [| reflexivity].
  destruct (Rle_dec c 0); [reflexivity |].
  unfold _calculate_overtime_penalty, crew_hours_of.
  now rewrite (hours_fold_unknown _ _ Hk).
Qed.

End Fitness.
Section FitnessExample.
Import Py Genetic.

Lemma lone_captain_coverage :
  _calculate_coverage_score Examples.small_roster Examples.lone_captain
  = Some (Rmin 1 (1 / 4))%R.
Proof. reflexivity. Qed.

Lemma lone_captain_hours :
  crew_hours_of Examples.small_roster Examples.lone_captain
  = Some [("C1", (0 + 7200 / 3600)%R)].
Proof. reflexivity. Qed.

Lemma lone_captain_overtime :
  _calculate_overtime_penalty Examples.small_roster Examples.lone_captain
  = Some 0%R.
Proof.
  unfold _calculate_overtime_penalty. rewrite lone_captain_hours. cbn.
  destruct (Rlt_dec 40 (0 + 7200 / 3600)) as [H | _]; [lra | reflexivity].
Qed.

Lemma lone_captain_fairness :
  _calculate_fairness_score Examples.small_roster Examples.lone_captain
  = Some 1%R.
Proof.
  unfold _calculate_fairness_score. rewrite lone_captain_hours. cbn.
  assert (Hm : np_mean [(0 + 7200 / 3600)%R] = 2%R).
  { unfold np_mean, rsum. cbn [foldl length]. simpl INR. lra. }
  assert (Hs : np_std [(0 + 7200 / 3600)%R] = 0%R).
  { unfold np_std. rewrite Hm. cbn [map]. unfold np_mean, rsum.
    cbn [foldl length]. simpl INR.
    replace ((0 + (0 + 7200 / 3600 - 2) * (0 + 7200 / 3600 - 2)) / 1)%R
      with 0%R by lra.
    apply sqrt_0. }
  rewrite Hm, Hs. destruct (Req_dec_T 2 0) as [H | _]; [lra |].
  f_equal. rewrite Rmax_right; lra.
Qed.

Lemma lone_captain_penalties :
  _calculate_continuity_and_base_penalties Examples.small_roster
    Examples.lone_captain = (0, 0).
Proof. vm_compute. reflexivity. Qed.

Lemma lone_captain_stability :
  _calculate_stability_bonus Examples.small_roster Examples.lone_captain = 0%Q.
Proof. reflexivity. Qed.

Lemma lone_captain_fitness :
  evaluate_fitness Examples.small_roster Examples.lone_captain = Fin 251.
Proof.
  assert (Hmin : Rmin 1 (1 / 4) = (1 / 4)%R) by (apply Rmin_right; lra).
  assert (Hpos : (0 < Rmin 1 (1 / 4))%R) by (rewrite Hmin; lra).
  rewrite (evaluate_fitness_defined Examples.small_roster
             Examples.lone_captain (Rmin 1 (1 / 4)) 0 1 ltac:(discriminate)
             lone_captain_coverage Hpos lone_captain_overtime
             lone_captain_fairness).
  rewrite lone_captain_penalties, lone_captain_stability.
  unfold weighted_fitness.
  cbn [fst snd Examples.small_roster load_data w_ot w_fair w_continuity
       w_base w_stability cfg_w_stability Examples.ga_config].
  rewrite Hmin. replace (Q2R 0) with 0%R by (unfold Q2R; simpl; lra).
  f_equal. rewrite Rmax_left; lra.
Qed.

End FitnessExample.

Section FitnessClaim.
Import Py Genetic.

(** C3, as worded, fails: the engine adds the fairness term.  On the
    roster with one flight of four seats, the individual that seats only
    the captain has coverage 1/4, no overtime, fairness 1 and no penalty,
    and evaluates to 251; subtracting a fairness bonus with any
    non-negative weight gives at most 250. *)
Lemma fitness_fairness_bonus_is_not_subtracted :
  ~ exists k1 k2 k3 k4 : R,
      (0 <= k1 /\ 0 <= k2 /\ 0 <= k3 /\ 0 <= k4)%R
      /\ forall sol : list Assignment, sol <> [] ->
           evaluate_fitness Examples.small_roster sol
           = Spec.worded_fitness k1 k2 k3 k4 Examples.small_roster sol.
Proof.
  intros (k1 & k2 & k3 & k4 & (H1 & H2 & H3 & H4) & H).
  specialize (H Examples.lone_captain ltac:(discriminate)).
  rewrite lone_captain_fitness in H.
  unfold Spec.worded_fitness in H. cbn [Examples.lone_captain] in H.
  change [Build_Assignment "C1" "F1" "Captain"]
    with Examples.lone_captain in H.
  rewrite lone_captain_coverage, lone_captain_overtime,
    lone_captain_fairness, lone_captain_penalties, lone_captain_stability
    in H.
  injection H as H. unfold Spec.spec_fitness in H.
  rewrite Rmin_right in H by lra.
  replace (Q2R 0) with 0%R in H by (unfold Q2R; simpl; lra).
  unfold Rmax in H. destruct (Rle_dec _ _) in H; lra.
Qed.

(** C3, amended: for a non-empty individual that names only crew members
    and flights of the roster, when the flights require a positive number
    of positions, the fitness is 1000 times the coverage fraction, minus
    0.1 w_ot times the overtime penalty, plus 0.1 w_fair times the
    fairness score, minus 0.01 w_continuity times the continuity penalty,
    minus 0.01 w_base times the base-return penalty, plus w_stability
    times the stability fraction, floored at 0.1; the empty individual
    evaluates to minus infinity. *)
Theorem fitness_weighted_sum_adds_fairness
    (self : GeneticOptimizer) (sol : list Assignment) :
  sol <> [] ->
  Spec.known self sol = true ->
  0 < zsum (map required_positions (flights self)) ->
  (exists coverage overtime fairness : R,
     _calculate_coverage_score self sol = Some coverage
     /\ coverage
        = Rmin 1 (IZR (Z.of_nat (length sol))
                  / IZR (zsum (map required_positions (flights self))))
     /\ _calculate_overtime_penalty self sol = Some overtime
     /\ _calculate_fairness_score self sol = Some fairness
     /\ evaluate_fitness self sol
        = Fin (Rmax
                 (1000 * coverage
                  - 0.1 * w_ot self * overtime
                  + 0.1 * w_fair self * fairness
                  - 0.01 * w_continuity self
                    * IZR (fst (_calculate_continuity_and_base_penalties
                                  self sol))
                  - 0.01 * w_base self
                    * IZR (snd (_calculate_continuity_and_base_penalties
                                  self sol))
                  + IZR (w_stability self)
                    * Q2R (_calculate_stability_bonus self sol)) 0.1)%R)
  /\ evaluate_fitness self [] = NegInf.
Proof.
  intros Hne Hk Htot. split; [| reflexivity].
  destruct (coverage_positive self sol Hne Htot) as (c & Hc & Hceq & Hpos).
  destruct (overtime_known self sol Hk) as [o Ho].
  destruct (fairness_known self sol Hk) as [f Hf].
  exists c, o, f.
  split; [exact Hc | split; [exact Hceq | split; [exact Ho |
    split; [exact Hf |]]]].
  exact (evaluate_fitness_defined self sol c o f Hne Hc Hpos Ho Hf).
Qed.

Lemma fitness_weighted_sum_adds_fairness_witness :
  (exists coverage overtime fairness : R,
     _calculate_coverage_score Examples.small_roster Examples.lone_captain
     = Some coverage
     /\ coverage
        = Rmin 1 (IZR (Z.of_nat (length Examples.lone_captain))
                  / IZR (zsum (map required_positions
                                 (flights Examples.small_roster))))
     /\ _calculate_overtime_penalty Examples.small_roster
          Examples.lone_captain = Some overtime
     /\ _calculate_fairness_score Examples.small_roster
          Examples.lone_captain = Some fairness
     /\ evaluate_fitness Examples.small_roster Examples.lone_captain
        = Fin (Rmax
                 (1000 * coverage
                  - 0.1 * w_ot Examples.small_roster * overtime
                  + 0.1 * w_fair Examples.small_roster * fairness
                  - 0.01 * w_continuity Examples.small_roster
                    * IZR (fst (_calculate_continuity_and_base_penalties
                                  Examples.small_roster
                                  Examples.lone_captain))
                  - 0.01 * w_base Examples.small_roster
                    * IZR (snd (_calculate_continuity_and_base_penalties
                                  Examples.small_roster
                                  Examples.lone_captain))
                  + IZR (w_stability Examples.small_roster)
                    * Q2R (_calculate_stability_bonus Examples.small_roster
                             Examples.lone_captain)) 0.1)%R)
  /\ evaluate_fitness Examples.small_roster [] = NegInf.
Proof.
  apply (fitness_weighted_sum_adds_fairness Examples.small_roster
           Examples.lone_captain).
  - discriminate.
  - reflexivity.
  - reflexivity.
Defined.

End FitnessClaim.

(** ** The generation loop *)

Section Selection.
Import Py Genetic.

Lemma max_by_score_elem (best : list Assignment * fitness)
    (selected : list (list Assignment * fitness)) :
  max_by_score best selected ∈ best :: selected.
Proof.
  revert best. induction selected as [| x rest IH]; intros best; simpl.
  - left.
  - specialize (IH (if fitness_ltb (snd best) (snd x) then x else best)).
    apply elem_of_cons in IH as [-> | IH].
    + destruct (fitness_ltb _ _); [right; left | left].
    + right. now right.
Qed.

Lemma tournament_draws_elem (n : nat) (population : list (list Assignment))
    (fitness_scores : list fitness)
    (selected selected' : list (list Assignment * fitness)) (g g' : rng) :
  Forall (fun x => fst x ∈ population) selected ->
  tournament_draws n population fitness_scores selected g
  = Some (selected', g') ->
  Forall (fun x => fst x ∈ population) selected'.
Proof.
  revert selected g. induction n as [| n IH]; intros selected g Hsel H.
  - injection H as <- <-. exact Hsel.
  - cbn [tournament_draws] in H.
    destruct (randint 0 (Z.of_nat (length population) - 1) g) as [idx g1].
    destruct (population !! Z.to_nat idx) as [sol |] eqn:Hsol;
      [| discriminate].
    destruct (fitness_scores !! Z.to_nat idx) as [score |]; [| discriminate].
    cbn in H. apply IH in H; [exact H |].
    apply Forall_app. split; [exact Hsel |].
    constructor; [| constructor]. simpl.
    eapply list_elem_of_lookup_2. exact Hsol.
Qed.

Lemma tournament_selection_elem (self : GeneticOptimizer)
    (population : list (list Assignment)) (fitness_scores : list fitness)
    (g g' : rng) (parent : list Assignment) :
  tournament_selection self population fitness_scores g = Some (parent, g') ->
  parent ∈ population.
Proof.
  unfold tournament_selection. intros H.
  destruct (tournament_draws _ _ _ _ _) as [[selected g1] |] eqn:Hd;
    [| discriminate].
  cbn in H. destruct selected as [| x rest]; [discriminate |].
  injection H as <- <-.
  apply tournament_draws_elem in Hd; [| constructor].
  rewrite Forall_forall in Hd. apply Hd, max_by_score_elem.
Qed.

End Selection.

Section Generations.
Import Py Genetic.
Context (self : GeneticOptimizer) (argsort : list fitness -> list nat).
Context (P : list Assignment -> Prop).
Hypothesis bred :
  forall population fitness_scores g children g',
    Forall P population ->
    breed self population fitness_scores g = Some (children, g') ->
    Forall P children.

Lemma breed_loop_invariant (population : list (list Assignment))
    (fitness_scores : list fitness) (passes : nat)
    (new_population new_population' : list (list Assignment)) (g g' : rng) :
  Forall P population -> Forall P new_population ->
  breed_loop self population fitness_scores passes new_population g
  = Some (new_population', g') ->
  Forall P new_population'.
Proof.
  intros Hpop. revert new_population g.
  induction passes as [| n IH]; intros new_population g Hnew H.
  - injection H as <- <-. exact Hnew.
  - cbn [breed_loop] in H.
    destruct (breed self population fitness_scores g) as [[children g1] |]
      eqn:Hb; [| discriminate].
    cbn in H. apply IH in H; [exact H |].
    apply Forall_app. split; [exact Hnew |].
    exact (bred _ _ _ _ _ Hpop Hb).
Qed.

Lemma next_population_invariant (population population' : list (list Assignment))
    (fitness_scores : list fitness) (g g' : rng) :
  Forall P population ->
  next_population self argsort population fitness_scores g
  = Some (population', g') ->
  Forall P population'.
Proof.
  intros Hpop H. unfold next_population in H.
  destruct (mapM _ _) as [elites |] eqn:He; [| discriminate].
  assert (Hel : Forall P elites).
  { apply mapM_Some in He. clear H.
    induction He as [| idx sol idxs sols Hidx _ IH]; constructor;
      [| exact IH].
    rewrite Forall_forall in Hpop. apply Hpop.
    eapply list_elem_of_lookup_2. exact Hidx. }
  cbn in H.
  destruct (breed_loop _ _ _ _ _ _) as [[new_population g1] |] eqn:Hb;
    [| discriminate].
  cbn in H. injection H as <- <-.
  apply Forall_take. exact (breed_loop_invariant _ _ _ _ _ _ _ Hpop Hel Hb).
Qed.

Lemma generations_loop_invariant (n : nat)
    (population : list (list Assignment)) (fitness_scores : list fitness)
    (best_solution best : list Assignment) (best_fitness : fitness) (g : rng) :
  Forall P population -> P best_solution ->
  generations_loop self argsort n population fitness_scores best_solution
    best_fitness g = Some best ->
  P best.
Proof.
  revert population fitness_scores best_solution best_fitness g.
  induction n as [| n IH];
    intros population fitness_scores best_solution best_fitness g Hpop Hbest H.
  - injection H as <-. exact Hbest.
  - cbn [generations_loop] in H.
    destruct (next_population _ _ _ _ _) as [[population' g1] |] eqn:Hn;
      [| discriminate].
    cbn in H.
    destruct (argmax _) as [idx |]; [| discriminate]. cbn in H.
    destruct (map (evaluate_fitness self) population' !! idx)
      as [current_fitness |]; [| discriminate]. cbn in H.
    destruct (population' !! idx) as [current |] eqn:Hcur; [| discriminate].
    cbn in H.
    pose proof (next_population_invariant _ _ _ _ _ Hpop Hn) as Hpop'.
    destruct (fitness_ltb best_fitness current_fitness);
      apply IH in H; try assumption.
    rewrite Forall_forall in Hpop'. apply Hpop'.
    eapply list_elem_of_lookup_2. exact Hcur.
Qed.

(** An invariant of the initial population that breeding preserves holds
    for the individual that [optimize] returns. *)
Lemma optimize_invariant (clock : nat) (g : rng) (best : list Assignment) :
  Forall P (fst (create_initial_population self g)) ->
  optimize self argsort clock g = Returned best ->
  P best.
Proof.
  unfold optimize. destruct (create_initial_population self g)
    as [population g0]. cbn [fst]. intros Hpop H.
  destruct (forallb _ population); [discriminate |].
  destruct (forallb _ (map _ population)); [discriminate |].
  destruct (argmax _) as [idx |]; [| discriminate].
  destruct (population !! idx) as [first_best |] eqn:Hfb; [| discriminate].
  destruct (map (evaluate_fitness self) population !! idx)
    as [first_fitness |]; [| discriminate].
  destruct (generations_loop _ _ _ _ _ _ _ _) as [[| a rest] |] eqn:Hloop;
    try discriminate.
  injection H as <-.
  eapply generations_loop_invariant; [exact Hpop | | exact Hloop].
  rewrite Forall_forall in Hpop. apply Hpop.
  eapply list_elem_of_lookup_2. exact Hfb.
Qed.

End Generations.

(** ** Continuity of the individuals of the genetic path *)

Section ContinuityOfPopulation.
Import Py Genetic.
Context (self : GeneticOptimizer) (Hloaded : loaded self).

Lemma create_random_solution_continuous (g : rng) :
  Spec.continuous self (fst (create_random_solution self g)).
Proof.
  unfold create_random_solution.
  destruct (random_assignments self g) as [solution g']. cbn [fst].
  now apply repair_continuous.
Qed.

Lemma mutate_continuous (sol sol' : list Assignment) (g g' : rng) :
  mutate self sol g = Some (sol', g') -> Spec.continuous self sol'.
Proof.
  unfold mutate. intros H.
  destruct (mutate_genes self sol g) as [[mutated g1] |]; [| discriminate].
  cbn in H. injection H as <- <-. now apply repair_continuous.
Qed.

Lemma breed_continuous (population : list (list Assignment))
    (fitness_scores : list fitness) (g g' : rng)
    (children : list (list Assignment)) :
  breed self population fitness_scores g = Some (children, g') ->
  Forall (Spec.continuous self) children.
Proof.
  unfold breed. intros H.
  destruct (tournament_selection self population fitness_scores g)
    as [[parent1 g1] |]; [| discriminate]. cbn in H.
  destruct (tournament_selection self population fitness_scores g1)
    as [[parent2 g2] |]; [| discriminate]. cbn in H.
  destruct (crossover self parent1 parent2 g2) as [[child1 child2] g3].
  destruct (mutate self child1 g3) as [[c1 g4] |] eqn:H1; [| discriminate].
  cbn in H.
  destruct (mutate self child2 g4) as [[c2 g5] |] eqn:H2; [| discriminate].
  cbn in H. injection H as <- <-.
  repeat constructor; eapply mutate_continuous; eassumption.
Qed.

Lemma fill_population_invariant (P : list Assignment -> Prop) (n : nat)
    (population : list (list Assignment)) (g : rng) :
  (forall g0, P (fst (create_random_solution self g0))) ->
  Forall P population ->
  Forall P (fst (fill_population self n population g)).
Proof.
  intros Hrand. revert population g.
  induction n as [| n IH]; intros population g Hpop; [exact Hpop |].
  cbn [fill_population]. specialize (Hrand g) as Hg.
  destruct (create_random_solution self g) as [solution g1].
  apply IH. apply Forall_app. split; [exact Hpop |]. now constructor.
Qed.

Lemma initial_population_continuous (g : rng) :
  Forall (Spec.continuous self) (fst (create_initial_population self g)).
Proof.
  unfold create_initial_population.
  apply fill_population_invariant;
    [apply create_random_solution_continuous |].
  destruct (bool_decide _); constructor; [| constructor].
  now apply repair_continuous.
Qed.

End ContinuityOfPopulation.

Section RepairProjection.
Import Py Genetic.

(** C4: the repair operator is a projection onto the individuals that
    satisfy the continuity chain.  The schedule of a crew is the list of
    its distinct flights in order of departure.  For a loaded optimizer
    and every assignment list, the schedule of every crew in the output
    is the chain walk over its schedule in the input (the first flight is
    kept, a later one is kept exactly when it leaves from the arrival
    airport of the one kept before it), so the output satisfies the chain;
    the output holds the input's assignments that lie on the chain and
    nothing else; repairing again changes nothing.  Every initial
    individual, every result of a mutation and the individual that the
    generation loop returns satisfy the chain. *)
Theorem repair_projects_onto_continuity_chain (self : GeneticOptimizer) :
  loaded self ->
  (forall sol : list Assignment,
     Spec.continuous self (_repair_solution_continuity self sol)
     /\ (forall c,
           Spec.crew_schedule self (_repair_solution_continuity self sol) c
           = keep_chain None (Spec.crew_schedule self sol c))
     /\ _repair_solution_continuity self sol
        ≡ₚ List.filter (Spec.on_chain self sol) sol
     /\ _repair_solution_continuity self
          (_repair_solution_continuity self sol)
        = _repair_solution_continuity self sol)
  /\ (forall (sol : list Assignment) (c : string),
        Spec.crew_schedule self sol c
        = sort_by dep_dt (Spec.distinct_flights self sol c))
  /\ (forall g : rng,
        Forall (Spec.continuous self) (fst (create_initial_population self g)))
  /\ (forall (sol sol' : list Assignment) (g g' : rng),
        mutate self sol g = Some (sol', g') -> Spec.continuous self sol')
  /\ (forall (argsort : list fitness -> list nat) (clock : nat) (g : rng)
             (best : list Assignment),
        optimize self argsort clock g = Returned best ->
        Spec.continuous self best).
Proof.
  intros Hloaded. split; [| split; [| split; [| split]]].
  - intros sol. split; [| split; [| split]].
    + now apply repair_continuous.
    + intros c. now apply schedule_repair.
    + now apply repair_Permutation.
    + now apply repair_idempotent.
  - intros sol c. unfold Spec.crew_schedule, Spec.distinct_flights.
    now rewrite (flights_for_crew_get _ (loaded_key self Hloaded)).
  - now apply initial_population_continuous.
  - intros sol sol' g g'. now apply mutate_continuous.
  - intros argsort clock g best.
    apply (optimize_invariant self argsort (Spec.continuous self)).
    + intros population fitness_scores g0 children g1 _.
      now apply breed_continuous.
    + now apply initial_population_continuous.
Qed.

End RepairProjection.
Section RepairProjectionExample.
Import Py Genetic.

Lemma repair_projects_onto_continuity_chain_witness :
  loaded Examples.chain_roster
  /\ _repair_solution_continuity Examples.chain_roster
       Examples.broken_individual
     = [Build_Assignment "FO1" "F2" "First Officer";
        Build_Assignment "C1" "F1" "Captain"]
  /\ Spec.continuous Examples.chain_roster
       (_repair_solution_continuity Examples.chain_roster
          Examples.broken_individual)
  /\ Spec.crew_schedule Examples.chain_roster
       (_repair_solution_continuity Examples.chain_roster
          Examples.broken_individual) "C1"
     = keep_chain None
         (Spec.crew_schedule Examples.chain_roster
            Examples.broken_individual "C1").
Proof.
  assert (Hl : loaded Examples.chain_roster) by (split; reflexivity).
  split; [exact Hl |]. split; [vm_compute; reflexivity |].
  destruct (repair_projects_onto_continuity_chain Examples.chain_roster Hl)
    as [Hrepair _].
  destruct (Hrepair Examples.broken_individual) as (Hc & Hs & _).
  split; [exact Hc | exact (Hs "C1")].
Defined.

End RepairProjectionExample.

(** ** The genetic path on a roster with one cabin crew member *)

Section SelectionTotal.
Import Py Genetic.

Lemma tournament_draws_total (n : nat) (population : list (list Assignment))
    (fitness_scores : list fitness)
    (selected : list (list Assignment * fitness)) (g : rng) :
  population <> [] -> length fitness_scores = length population ->
  exists selected' g',
    tournament_draws n population fitness_scores selected g
    = Some (selected', g')
    /\ length selected' = (length selected + n)%nat.
Proof.
  intros Hne Hlen. revert selected g.
  induction n as [| n IH]; intros selected g.
  - exists selected, g. split; [reflexivity | lia].
  - cbn [tournament_draws]. unfold randint.
    destruct (draw g) as [k g1].
    assert (Hidx : (Z.to_nat (0 + Z.of_N k
                               mod (Z.of_nat (length population) - 1 - 0 + 1))
                    < length population)%nat).
    { destruct population as [| p population]; [congruence |].
      pose proof (Z.mod_pos_bound (Z.of_N k)
                    (Z.of_nat (length (p :: population)) - 1 - 0 + 1)
                    ltac:(simpl; lia)).
      lia. }
    destruct (lookup_lt_is_Some_2 population _ Hidx) as [sol Hsol].
    destruct (lookup_lt_is_Some_2 fitness_scores _
                ltac:(rewrite Hlen; exact Hidx)) as [score Hscore].
    rewrite Hsol, Hscore. cbn.
    destruct (IH (selected ++ [(sol, score)]) g1) as (s' & g' & Hs & Hl).
    exists s', g'. split; [exact Hs |]. rewrite Hl, length_app. simpl. lia.
Qed.

Lemma tournament_selection_total (self : GeneticOptimizer)
    (population : list (list Assignment)) (fitness_scores : list fitness)
    (g : rng) :
  (0 < tournament_size (config self))%nat ->
  population <> [] -> length fitness_scores = length population ->
  exists parent g',
    tournament_selection self population fitness_scores g
    = Some (parent, g')
    /\ parent ∈ population.
Proof.
  intros Hsize Hne Hlen. unfold tournament_selection.
  destruct (tournament_draws_total (tournament_size (config self))
              population fitness_scores [] g Hne Hlen)
    as (selected & g' & Hd & Hl).
  assert (Hsel : exists parent,
    tournament_selection self population fitness_scores g
    = Some (parent, g')).
  { unfold tournament_selection. rewrite Hd. cbn.
    destruct selected as [| x rest]; [simpl in Hl; lia |]. now eexists. }
  destruct Hsel as [parent Hp]. exists parent, g'.
  split; [exact Hp |]. eapply tournament_selection_elem. exact Hp.
Qed.

Lemma argmax_from_lt (scores : list fitness) (best_idx i : nat)
    (best : fitness) :
  (best_idx < i)%nat ->
  (argmax_from best_idx best i scores < i + length scores)%nat.
Proof.
  revert best_idx i best.
  induction scores as [| s rest IH]; intros best_idx i best Hlt; simpl;
    [lia |].
  destruct (fitness_ltb best s).
  - specialize (IH i (S i) s ltac:(lia)). lia.
  - specialize (IH best_idx (S i) best ltac:(lia)). lia.
Qed.

Lemma argmax_total (scores : list fitness) :
  scores <> [] ->
  exists idx, argmax scores = Some idx /\ (idx < length scores)%nat.
Proof.
  destruct scores as [| s rest]; [congruence |]. intros _.
  eexists. split; [reflexivity |].
  pose proof (argmax_from_lt rest 0 1 s ltac:(lia)). simpl. lia.
Qed.

Lemma div2_covers (k : nat) : (k <= 2 * Nat.div2 (S k))%nat.
Proof.
  pose proof (Nat.div2_odd (S k)) as H.
  destruct (Nat.odd (S k)); simpl Nat.b2n in H; lia.
Qed.

Lemma slice_last_elem {A} (k : nat) (l : list A) (x : A) :
  x ∈ slice_last k l -> x ∈ l.
Proof.
  destruct k as [| k]; [trivial |]. cbn [slice_last].
  intros H. rewrite <- (take_drop (length l - S k) l).
  apply elem_of_app. now right.
Qed.

Lemma mapM_lookup_total {A} (l : list A) (indices : list nat) :
  Forall (fun i => (i < length l)%nat) indices ->
  exists picked,
    mapM (fun idx => l !! idx) indices = Some picked
    /\ Forall (fun x => x ∈ l) picked
    /\ length picked = length indices.
Proof.
  induction 1 as [| i indices Hi _ (picked & Hp & Hin & Hlen)].
  - exists []. split; [reflexivity | split; [constructor | reflexivity]].
  - destruct (lookup_lt_is_Some_2 l i Hi) as [x Hx].
    exists (x :: picked). cbn. rewrite Hx. cbn. rewrite Hp. cbn.
    split; [reflexivity | split; [| simpl; lia]].
    constructor; [| exact Hin]. eapply list_elem_of_lookup_2. exact Hx.
Qed.

End SelectionTotal.
Section CrowdedRoster.
Import Py Genetic.

Local Abbreviation roster := Examples.small_roster.
Local Abbreviation crowded := Examples.crowded_individual.

Lemma crowded_mutate_gene (a : Assignment) (g : rng) :
  a ∈ crowded -> exists g', mutate_gene roster a g = Some (a, g').
Proof.
  intros Ha. unfold mutate_gene. destruct (random g) as [u g1].
  destruct (Qlt_le_dec u (mutation_rate (config roster))); [| now eexists].
  unfold Examples.crowded_individual in Ha.
  repeat (apply elem_of_cons in Ha as [-> | Ha]; [now eexists |]).
  inversion Ha.
Qed.

Lemma crowded_mutate_genes (sol : list Assignment) (g : rng) :
  sol ⊆ crowded -> exists g', mutate_genes roster sol g = Some (sol, g').
Proof.
  revert g. induction sol as [| a sol IH]; intros g Hsub; [now eexists |].
  cbn [mutate_genes].
  destruct (crowded_mutate_gene a g ltac:(apply Hsub; left)) as [g1 ->].
  cbn.
  destruct (IH g1 ltac:(intros x Hx; apply Hsub; now right)) as [g2 ->].
  cbn. now eexists.
Qed.

Lemma crowded_repair :
  _repair_solution_continuity roster crowded = crowded.
Proof. vm_compute. reflexivity. Qed.

Lemma crowded_mutate (g : rng) :
  exists g', mutate roster crowded g = Some (crowded, g').
Proof.
  unfold mutate.
  destruct (crowded_mutate_genes crowded g ltac:(reflexivity)) as [g' Hg].
  exists g'. rewrite Hg. cbn [mbind option_bind].
  now rewrite crowded_repair.
Qed.

Lemma crowded_crossover (g : rng) :
  fst (crossover roster crowded crowded g) = (crowded, crowded).
Proof.
  unfold crossover. destruct (random g) as [u g1].
  destruct (Qlt_le_dec (crossover_rate (config roster)) u); [reflexivity |].
  cbn [length Examples.crowded_individual Nat.ltb Nat.leb andb].
  destruct (randint _ _ g1) as [point g2]. cbn [fst].
  now rewrite take_drop.
Qed.

Lemma crowded_breed (population : list (list Assignment))
    (fitness_scores : list fitness) (g : rng) :
  Forall (fun sol => sol = crowded) population ->
  population <> [] -> length fitness_scores = length population ->
  exists g', breed roster population fitness_scores g
             = Some ([crowded; crowded], g').
Proof.
  intros Hall Hne Hlen. unfold breed. rewrite Forall_forall in Hall.
  destruct (tournament_selection_total roster population fitness_scores g
              ltac:(simpl; lia) Hne Hlen) as (p1 & g1 & -> & Hp1).
  cbn [mbind option_bind]. rewrite (Hall _ Hp1).
  destruct (tournament_selection_total roster population fitness_scores g1
              ltac:(simpl; lia) Hne Hlen) as (p2 & g2 & -> & Hp2).
  cbn [mbind option_bind]. rewrite (Hall _ Hp2).
  pose proof (crowded_crossover g2) as Hx.
  destruct (crossover roster crowded crowded g2) as [[child1 child2] g3].
  cbn [fst] in Hx. injection Hx as -> ->.
  destruct (crowded_mutate g3) as [g4 ->]. cbn [mbind option_bind].
  destruct (crowded_mutate g4) as [g5 ->]. cbn [mbind option_bind]. now eexists.
Qed.

Lemma crowded_breed_loop (population : list (list Assignment))
    (fitness_scores : list fitness) (passes : nat)
    (new_population : list (list Assignment)) (g : rng) :
  Forall (fun sol => sol = crowded) population ->
  population <> [] -> length fitness_scores = length population ->
  Forall (fun sol => sol = crowded) new_population ->
  exists new_population' g',
    breed_loop roster population fitness_scores passes new_population g
    = Some (new_population', g')
    /\ Forall (fun sol => sol = crowded) new_population'
    /\ length new_population' = (length new_population + 2 * passes)%nat.
Proof.
  intros Hall Hne Hlen. revert new_population g.
  induction passes as [| n IH]; intros new_population g Hnew.
  - exists new_population, g. split; [reflexivity | split; [exact Hnew | lia]].
  - cbn [breed_loop].
    destruct (crowded_breed population fitness_scores g Hall Hne Hlen)
      as [g1 ->]. cbn [mbind option_bind].
    destruct (IH (new_population ++ [crowded; crowded]) g1) as
      (np & g' & Hb & Hnp & Hl).
    { apply Forall_app. split; [exact Hnew |]. now repeat constructor. }
    exists np, g'. split; [exact Hb | split; [exact Hnp |]].
    rewrite Hl, length_app. simpl. lia.
Qed.

Context (argsort : list fitness -> list nat).
Hypothesis argsort_indices :
  forall scores, Forall (fun i => (i < length scores)%nat) (argsort scores).

Lemma crowded_next_population (population : list (list Assignment))
    (fitness_scores : list fitness) (g : rng) :
  Forall (fun sol => sol = crowded) population ->
  population <> [] -> length fitness_scores = length population ->
  exists population' g',
    next_population roster argsort population fitness_scores g
    = Some (population', g')
    /\ Forall (fun sol => sol = crowded) population'
    /\ population' <> [].
Proof.
  intros Hall Hne Hlen. unfold next_population.
  destruct (mapM_lookup_total population
              (slice_last (elite_size (config roster))
                 (argsort fitness_scores)))
    as (elites & -> & Hel & _).
  { rewrite Forall_forall. intros i Hi. apply slice_last_elem in Hi.
    pose proof (argsort_indices fitness_scores) as Hv.
    rewrite Forall_forall in Hv. rewrite <- Hlen. now apply Hv. }
  cbn [mbind option_bind].
  destruct (crowded_breed_loop population fitness_scores
              (Nat.div2 (S (population_size (config roster) - length elites)))
              elites g Hall Hne Hlen) as (np & g' & -> & Hnp & Hl).
  { rewrite Forall_forall in Hall, Hel |- *. intros sol Hs.
    now apply Hall, Hel. }
  cbn [mbind option_bind]. eexists _, _. split; [reflexivity | split; [now apply Forall_take |]].
  intros Hnil. apply (f_equal length) in Hnil.
  rewrite length_take, Hl in Hnil. simpl length in Hnil.
  pose proof (div2_covers (population_size (config roster) - length elites)).
  change (population_size (config roster)) with 4%nat in *. lia.
Qed.

Lemma crowded_generations_loop (n : nat)
    (population : list (list Assignment)) (fitness_scores : list fitness)
    (best_fitness : fitness) (g : rng) :
  Forall (fun sol => sol = crowded) population ->
  population <> [] -> length fitness_scores = length population ->
  generations_loop roster argsort n population fitness_scores crowded
    best_fitness g = Some crowded.
Proof.
  revert population fitness_scores best_fitness g.
  induction n as [| n IH];
    intros population fitness_scores best_fitness g Hall Hne Hlen;
    [reflexivity |].
  cbn [generations_loop].
  destruct (crowded_next_population population fitness_scores g Hall Hne Hlen)
    as (population' & g' & -> & Hall' & Hne').
  cbn [mbind option_bind].
  destruct (argmax_total (map (evaluate_fitness roster) population'))
    as (idx & -> & Hidx).
  { destruct population'; [congruence | discriminate]. }
  cbn [mbind option_bind].
  destruct (lookup_lt_is_Some_2 _ _ Hidx) as [score ->]. cbn [mbind option_bind].
  rewrite length_map in Hidx.
  destruct (lookup_lt_is_Some_2 _ _ Hidx) as [current Hcur].
  rewrite Hcur. cbn [mbind option_bind].
  assert (current = crowded) as ->.
  { rewrite Forall_forall in Hall'. apply Hall'.
    eapply list_elem_of_lookup_2. exact Hcur. }
  destruct (fitness_ltb best_fitness score);
    apply IH; try assumption; now rewrite length_map.
Qed.

Lemma crowded_fill_population (n : nat) (population : list (list Assignment))
    (g : rng) :
  fst (fill_population roster n population g)
  = population ++ replicate n crowded.
Proof.
  revert population g. induction n as [| n IH]; intros population g.
  - simpl. now rewrite app_nil_r.
  - cbn [fill_population].
    pose proof (small_roster_random_solution g) as Hg.
    destruct (create_random_solution roster g) as [solution g1].
    cbn [fst] in Hg. subst solution. rewrite IH, <- app_assoc. reflexivity.
Qed.

Lemma crowded_optimize (clock : nat) (g : rng) :
  optimize roster argsort clock g = Returned crowded.
Proof.
  unfold optimize.
  assert (Hpop : fst (create_initial_population roster g)
                 = [crowded; crowded; crowded; crowded]).
  { unfold create_initial_population.
    change (bool_decide (baseline_pairs roster = ∅)) with true.
    cbv iota. now rewrite crowded_fill_population. }
  destruct (create_initial_population roster g) as [population g0].
  cbn [fst] in Hpop. subst population.
  change (forallb (fun sol => bool_decide (sol = []))
            [crowded; crowded; crowded; crowded]) with false.
  cbv iota.
  destruct (evaluate_fitness_finite roster crowded ltac:(discriminate)
              ltac:(reflexivity) ltac:(reflexivity)) as [r Hr].
  cbn [map]. rewrite Hr. cbn [forallb fitness_ltb negb andb].
  destruct (argmax_total [Fin r; Fin r; Fin r; Fin r] ltac:(discriminate))
    as (idx & -> & Hidx).
  simpl in Hidx.
  assert (Hlook : [crowded; crowded; crowded; crowded] !! idx = Some crowded
                  /\ [Fin r; Fin r; Fin r; Fin r] !! idx = Some (Fin r)).
  { do 4 (destruct idx as [| idx]; [now split |]). lia. }
  destruct Hlook as [-> ->].
  rewrite crowded_generations_loop;
    [reflexivity | now repeat constructor | discriminate | reflexivity].
Qed.

End CrowdedRoster.

Section GeneticPathClaim.
Import Py Genetic.

(** C2 fails on the genetic path.  The roster has one flight with a
    captain seat, a first-officer seat and two cabin seats, and one crew
    member of each role.  For every sort routine that returns indices of
    its argument, every number of generations that the time limit lets
    through and every sequence of random draws, [optimize] returns the
    individual that seats the only cabin crew member on both cabin seats
    of the flight. *)
Theorem genetic_path_returns_double_seat
    (argsort : list fitness -> list nat) (clock : nat) (g : rng) :
  (forall scores, Forall (fun i => (i < length scores)%nat) (argsort scores)) ->
  optimize Examples.small_roster argsort clock g
  = Returned Examples.crowded_individual
  /\ Spec.ga_seats_held Examples.crowded_individual "CC1" "F1" = 2%nat.
Proof.
  intros Hargsort. split; [| reflexivity].
  now apply crowded_optimize.
Qed.

Lemma genetic_path_returns_double_seat_witness :
  optimize Examples.small_roster (fun scores => seq 0 (length scores)) 3 []
  = Returned Examples.crowded_individual
  /\ Spec.ga_seats_held Examples.crowded_individual "CC1" "F1" = 2%nat.
Proof.
  apply genetic_path_returns_double_seat.
  intros scores. apply Forall_forall. intros i Hi.
  apply elem_of_seq in Hi. lia.
Defined.

End GeneticPathClaim.

(** * Further properties of the code *)

(** ** The night-window test, continued *)

Section NightWindowExact.

(** X1: for a forward interval and a window given by two times of day,
    [in_night_window] answers true only when some instant of the interval
    lies in the window; and for a window that wraps midnight it answers
    true whenever one does, so the end-point test is exact there. *)
Theorem night_window_sound_and_exact_when_wrapping
    (dep arr start_local end_local : Z) :
  dep <= arr ->
  0 <= start_local < 86400 -> 0 <= end_local < 86400 ->
  (Models.in_night_window dep arr start_local end_local = true ->
   Spec.portion_in_window dep arr start_local end_local)
  /\ (end_local < start_local ->
      Spec.portion_in_window dep arr start_local end_local ->
      Models.in_night_window dep arr start_local end_local = true).
Proof.
  intros Hle Hs He. split; [now apply in_night_window_sound |].
  intros Hw (t & [Hdt Hta] & Ht).
  unfold Models.in_night_window, Spec.time_in_window in *.
  apply Z.ltb_lt in Hw as Hw'. rewrite Hw' in *.
  unfold Models.in_window, Py.date_of, Py.time_of in *.
  destruct (Z.eq_dec (dep / 86400) (arr / 86400)) as [Heq | Hne].
  - assert (Ht' : t / 86400 = dep / 86400).
    { pose proof (Z.div_le_mono dep t 86400 ltac:(lia) Hdt).
      pose proof (Z.div_le_mono t arr 86400 ltac:(lia) Hta). lia. }
    pose proof (Z.div_mod dep 86400 ltac:(lia)).
    pose proof (Z.div_mod arr 86400 ltac:(lia)).
    pose proof (Z.div_mod t 86400 ltac:(lia)).
    destruct Ht as [Ht | Ht].
    + assert (start_local <= arr mod 86400) by lia.
      apply orb_true_iff. left. apply orb_true_iff. right.
      apply orb_true_iff. left. now apply Z.leb_le.
    + assert (dep mod 86400 < end_local) by lia.
      apply orb_true_iff. left. apply orb_true_iff. left.
      apply orb_true_iff. right. now apply Z.ltb_lt.
  - apply orb_true_iff. right. cbn [andb].
    apply negb_true_iff, Z.eqb_neq. exact Hne.
Qed.

Lemma night_window_sound_and_exact_when_wrapping_witness :
  (Models.in_night_window (Examples.hm 22 30) (Examples.hm 23 30)
     (22 * 3600) (5 * 3600) = true ->
   Spec.portion_in_window (Examples.hm 22 30) (Examples.hm 23 30)
     (22 * 3600) (5 * 3600))
  /\ (5 * 3600 < 22 * 3600 ->
      Spec.portion_in_window (Examples.hm 22 30) (Examples.hm 23 30)
        (22 * 3600) (5 * 3600) ->
      Models.in_night_window (Examples.hm 22 30) (Examples.hm 23 30)
        (22 * 3600) (5 * 3600) = true).
Proof.
  apply night_window_sound_and_exact_when_wrapping;
    unfold Examples.hm, Examples.day0; lia.
Defined.

End NightWindowExact.

(** ** Role slots and eligibility, continued *)

Section RoleSlots.
Import Loader Eligibility.

Lemma elem_of_range (n : Z) (i : nat) : i ∈ range n <-> Z.of_nat i < n.
Proof. unfold range. rewrite elem_of_seq. lia. Qed.

Lemma elem_of_slots_of_flight (f : Models.Flight) (slot : RoleSlot) :
  slot ∈ slots_of_flight f <->
  flight_id slot = Models.flight_id f
  /\ Z.of_nat (slot_index slot) < Spec.seats_needed f (role slot).
Proof.
  unfold slots_of_flight. rewrite !elem_of_app, !list_elem_of_fmap.
  setoid_rewrite elem_of_range. destruct slot as [fid r i]. simpl. split.
  - intros [(j & [= -> -> ->] & Hj) | [(j & [= -> -> ->] & Hj)
             | [(j & [= -> -> ->] & Hj) | (j & [= -> -> ->] & Hj)]]];
      split; try reflexivity; exact Hj.
  - intros [-> Hi]. unfold Spec.seats_needed in Hi.
    destruct (String.eqb_spec r "Captain") as [-> | _]; [left; eauto |].
    destruct (String.eqb_spec r "FO") as [-> | _]; [right; left; eauto |].
    destruct (String.eqb_spec r "SC") as [-> | _];
      [right; right; left; eauto |].
    destruct (String.eqb_spec r "CC") as [-> | _];
      [right; right; right; eauto | lia].
Qed.

Lemma length_slots_of_flight (f : Models.Flight) :
  length (slots_of_flight f)
  = (Z.to_nat (Models.needed_captains f) + Z.to_nat (Models.needed_fo f)
     + Z.to_nat (Models.needed_sc f) + Z.to_nat (Models.needed_cc f))%nat.
Proof.
  unfold slots_of_flight, range.
  rewrite !length_app, !length_map, !length_seq. lia.
Qed.

(** X2: [build_role_slots] produces exactly the seats that the flights
    require: a slot is generated if and only if it belongs to a flight of
    the bundle and its index is below that flight's demand for its role
    (a role outside Captain, FO, SC, CC or a demand that is zero or
    negative gives no slot), and the number of slots is the sum of the
    demands. *)
Theorem role_slots_are_the_required_seats (b : DataBundle) :
  (forall slot : RoleSlot,
     slot ∈ build_role_slots b <->
     exists f, f ∈ flights b
       /\ flight_id slot = Models.flight_id f
       /\ Z.of_nat (slot_index slot) < Spec.seats_needed f (role slot))
  /\ Z.of_nat (length (build_role_slots b))
     = Py.zsum (map (fun f =>
                       Z.max 0 (Models.needed_captains f)
                       + Z.max 0 (Models.needed_fo f)
                       + Z.max 0 (Models.needed_sc f)
                       + Z.max 0 (Models.needed_cc f)) (flights b)).
Proof.
  split.
  - intros slot. unfold build_role_slots.
    rewrite list_elem_of_In, in_concat. split.
    + intros (l & Hl & Hin). apply in_map_iff in Hl as (f & <- & Hf).
      apply list_elem_of_In, elem_of_slots_of_flight in Hin as [H1 H2].
      exists f. split; [now apply list_elem_of_In | auto].
    + intros (f & Hf & H1 & H2). exists (slots_of_flight f). split.
      * apply in_map. now apply list_elem_of_In.
      * apply list_elem_of_In, elem_of_slots_of_flight. auto.
  - unfold build_role_slots.
    induction (flights b) as [| f fs IH]; [reflexivity |].
    cbn [map concat Py.zsum foldr]. rewrite length_app, Nat2Z.inj_add.
    unfold Py.zsum in IH. rewrite IH, length_slots_of_flight. lia.
Qed.

End RoleSlots.

Section EligibleTuples.
Import Loader Eligibility.

(** X3: on a bundle whose lookup maps are the ones [load_data] builds,
    [build_eligibility] succeeds, and a tuple (crew, flight, role, slot)
    is eligible if and only if the slot is a role slot and some crew
    record with that identifier has the slot's role after normalisation,
    lists the flight's aircraft type among its qualified types and is not
    recorded sick on the flight's departure date. *)
Theorem eligible_tuples_characterised (b : DataBundle) :
  indexed b ->
  exists eb,
    build_eligibility b = Some eb
    /\ forall c f r s,
         (c, f, r, s) ∈ eligible eb <->
         Build_RoleSlot f r s ∈ role_slots eb
         /\ exists fl cr,
              flights_by_id b !! f = Some fl
              /\ cr ∈ crew b /\ Models.crew_id cr = c
              /\ Models.role_key (Models.role cr) = r
              /\ In (Models.aircraft_type fl)
                    (Py.split "|" (Models.qualified_types cr))
              /\ _flight_day_str (Models.dep_dt fl) ∉ Spec.sick_dates b c.
Proof.
  intros Hidx. destruct (build_eligibility_total b Hidx) as [eb Heb].
  exists eb. split; [exact Heb |]. intros c f r s.
  pose proof (build_eligibility_maps b eb Heb) as (Hrs & _).
  rewrite (elem_of_eligible b eb _ Heb), Hrs. split.
  - intros (slot & fl & day_str & Hs & Hfl & Hd & Hin).
    apply elem_of_eligible_for_slot in Hin
      as (cr & Hcr & [= -> -> -> ->] & H1 & H2 & H3).
    rewrite (day_by_flight_lookup b eb _ _ Hidx Heb Hfl) in Hd.
    injection Hd as <-. destruct slot as [fid r i]. simpl in *.
    split; [exact Hs |]. exists fl, cr.
    repeat split; auto.
    + now apply String.eqb_eq in H1.
    + now apply str_in_In.
    + now apply can_work_iff.
  - intros (Hs & fl & cr & Hfl & Hcr & <- & <- & Hq & Hsick).
    exists (Build_RoleSlot f (Models.role_key (Models.role cr)) s), fl,
      (_flight_day_str (Models.dep_dt fl)).
    split; [exact Hs |]. split; [exact Hfl |]. split.
    + now apply (day_by_flight_lookup b eb _ _ Hidx Heb).
    + apply elem_of_eligible_for_slot. exists cr. simpl.
      repeat split; auto.
      * apply String.eqb_refl.
      * now apply str_in_In.
      * now apply can_work_iff.
Qed.

Lemma eligible_tuples_characterised_witness :
  exists eb,
    build_eligibility Examples.sick_bundle = Some eb
    /\ forall c f r s,
         (c, f, r, s) ∈ eligible eb <->
         Build_RoleSlot f r s ∈ role_slots eb
         /\ exists fl cr,
              flights_by_id Examples.sick_bundle !! f = Some fl
              /\ cr ∈ crew Examples.sick_bundle /\ Models.crew_id cr = c
              /\ Models.role_key (Models.role cr) = r
              /\ In (Models.aircraft_type fl)
                    (Py.split "|" (Models.qualified_types cr))
              /\ _flight_day_str (Models.dep_dt fl)
                 ∉ Spec.sick_dates Examples.sick_bundle c.
Proof.
  apply eligible_tuples_characterised. split; reflexivity.
Defined.

(** X4: [build_eligibility] fails (with a [KeyError]) exactly when some
    required seat belongs to a flight whose identifier is missing from
    [flights_by_id]; no other subscript of the function can fail. *)
Theorem build_eligibility_fails_on_missing_flight (b : DataBundle) :
  build_eligibility b = None <->
  exists slot, slot ∈ build_role_slots b
    /\ flights_by_id b !! flight_id slot = None.
Proof.
  unfold build_eligibility.
  set (body := fun slot : RoleSlot =>
    f ← flights_by_id b !! flight_id slot;
    day_str ← index_by Models.flight_id
                (fun f => _flight_day_str (Models.dep_dt f)) (flights b)
                !! flight_id slot;
    Some (eligible_for_slot b slot day_str (Models.aircraft_type f))).
  assert (Hbody : forall slot, slot ∈ build_role_slots b ->
            (is_Some (body slot)
             <-> is_Some (flights_by_id b !! flight_id slot))).
  { intros slot Hs. unfold body.
    apply elem_of_build_role_slots in Hs as (f & Hin & Heq).
    destruct (flights_by_id b !! flight_id slot) as [fl |]; simpl;
      [| split; intros [? ?]; discriminate].
    rewrite Heq.
    destruct (index_by_lookup_elem Models.flight_id
                (fun f => _flight_day_str (Models.dep_dt f)) _ _ Hin)
      as (d & ->).
    simpl. split; eauto. }
  pose proof (mapM_is_Some body (build_role_slots b)) as Hm.
  destruct (mapM body (build_role_slots b)) as [per_slot |] eqn:E; simpl.
  - split; [discriminate |]. intros (slot & Hs & Hnone).
    assert (HF : Forall (is_Some ∘ body) (build_role_slots b))
      by (apply Hm; eauto).
    rewrite Forall_forall in HF. specialize (HF slot Hs).
    apply (Hbody slot Hs) in HF. rewrite Hnone in HF.
    destruct HF as [? ?]. discriminate.
  - split; [intros _ | reflexivity].
    destruct (decide (Forall (fun slot =>
                is_Some (flights_by_id b !! flight_id slot))
                (build_role_slots b))) as [HF | HF].
    + exfalso. assert (is_Some (@None (list (list eligible_tuple)))) as [? ?];
        [| discriminate].
      apply Hm. rewrite Forall_forall in HF |- *. intros slot Hs.
      apply (Hbody slot Hs), HF, Hs.
    + apply not_Forall_Exists in HF; [| intros ?; apply _].
      apply Exists_exists in HF as (slot & Hs & Hn).
      exists slot. split; [exact Hs |].
      destruct (flights_by_id b !! flight_id slot) eqn:Hfl; [| reflexivity].
      exfalso. apply Hn. rewrite Hfl. eauto.
Qed.

End EligibleTuples.

(** ** The exact model, phase by phase *)

Section ExactModelRuns.
Import CpModel CpLogic Constraints.

(** The run of every phase of the encoder inside a successful run of the
    exact path, with the model it leaves extended by the final one. *)
Lemma exact_model_runs (b : Loader.DataBundle) (w : Objective.Weights)
    (art : ModelArtifacts) (m : model) :
  Objective.exact_model b w = Some (art, m) ->
  exists elig m1,
    Eligibility.build_eligibility b = Some elig
    /\ decision_vars b elig empty_model
       = Some ((x art, intervals_by_crew art), m1)
    /\ extends m1 m
    /\ (exists m0 m', composition b (x art) m0 = Some (tt, m')
                      /\ extends m' m)
    /\ (exists m0 m', no_overlap (intervals_by_crew art) m0 = Some (tt, m')
                      /\ extends m' m)
    /\ (exists m0 m', min_rest b (x art) (intervals_by_crew art) m0
                      = Some (tt, m') /\ extends m' m)
    /\ (exists m0 m', night_limits b (x art) m0 = Some (tt, m')
                      /\ extends m' m)
    /\ (exists m0 m', daily_and_weekly_caps b elig (x art) m0
                      = Some ((minutes_total_by_crew art,
                               minutes_by_crew_day art,
                               overtime_by_crew art), m')
                      /\ extends m' m)
    /\ (exists m0 m', _add_pilot_continuity_constraints b (x art) m0
                      = Some (tt, m') /\ extends m' m)
    /\ (exists m0 m', _add_base_return_constraints b elig (x art) m0
                      = Some (base_penalty_vars art, m') /\ extends m' m)
    /\ (exists m0, Objective.add_objective b elig art w m0 = Some (tt, m)).
Proof.
  unfold Objective.exact_model. intros H.
  destruct (Eligibility.build_eligibility b) as [elig |]; [| discriminate].
  simpl in H.
  destruct (build_model_with_constraints b elig empty_model)
    as [[art' m2] |] eqn:Hb; [| discriminate].
  simpl in H.
  destruct (Objective.add_objective b elig art' w m2)
    as [[[] m3] |] eqn:Ho; [| discriminate].
  simpl in H. injection H as -> ->.
  apply grows_add_objective in Ho as Hext_o.
  unfold build_model_with_constraints in Hb.
  apply bind_Some in Hb as ([x0 ivs] & m1 & Hdv & Hb).
  apply bind_Some in Hb as ([] & mc & Hcov & Hb).
  apply bind_Some in Hb as ([] & ma & Hamo & Hb).
  apply bind_Some in Hb as ([] & mp & Hcomp & Hb).
  apply bind_Some in Hb as ([] & mn & Hno & Hb).
  apply bind_Some in Hb as ([] & mr & Hrest & Hb).
  apply bind_Some in Hb as ([] & mg & Hnight & Hb).
  apply bind_Some in Hb as ([[mt md] ot] & mk & Hcaps & Hb).
  apply bind_Some in Hb as ([] & ml & Hcont & Hb).
  apply bind_Some in Hb as (bp & mb & Hbase & Hb).
  injection Hb as <- <-. simpl in *.
  pose proof (grows_coverage _ _ _ _ _ Hcov) as E1.
  pose proof (grows_at_most_one_seat _ _ _ _ _ Hamo) as E2.
  pose proof (grows_composition _ _ _ _ _ Hcomp) as E3.
  pose proof (grows_no_overlap _ _ _ _ Hno) as E4.
  pose proof (grows_min_rest _ _ _ _ _ _ Hrest) as E5.
  pose proof (grows_night_limits _ _ _ _ _ Hnight) as E6.
  pose proof (grows_daily_and_weekly_caps _ _ _ _ _ _ Hcaps) as E7.
  pose proof (grows_continuity _ _ _ _ _ Hcont) as E8.
  pose proof (grows_base_return _ _ _ _ _ _ Hbase) as E9.
  assert (X10 : extends mb m) by exact Hext_o.
  assert (X9 : extends ml m) by eauto using extends_trans.
  assert (X8 : extends mk m) by eauto using extends_trans.
  assert (X7 : extends mg m) by eauto using extends_trans.
  assert (X6 : extends mr m) by eauto using extends_trans.
  assert (X5 : extends mn m) by eauto using extends_trans.
  assert (X4 : extends mp m) by eauto using extends_trans.
  assert (X3 : extends ma m) by eauto using extends_trans.
  assert (X2 : extends mc m) by eauto using extends_trans.
  assert (X1 : extends m1 m) by eauto using extends_trans.
  exists elig, m1.
  split; [reflexivity |]. split; [exact Hdv |]. split; [exact X1 |].
  split; [eauto |]. split; [eauto |]. split; [eauto |]. split; [eauto |].
  split; [eauto |]. split; [eauto |]. split; [eauto |]. eauto.
Qed.

(** *** Loops: the run of the body for one element *)

Lemma for_each_run {A} (l : list A) (body : A -> M unit) (a : A)
    (m m' : model) :
  (forall a, grows (body a)) ->
  a ∈ l -> for_each l body m = Some (tt, m') ->
  exists m1 m2, body a m1 = Some (tt, m2) /\ extends m m1 /\ extends m2 m'.
Proof.
  intros Hg. revert m. induction l as [| b l IH]; intros m Hin H;
    [inversion Hin |].
  simpl in H. apply bind_Some in H as ([] & mb & Hb & Hrest).
  apply elem_of_cons in Hin as [-> | Hin].
  - exists m, mb. split; [exact Hb |]. split; [apply extends_refl |].
    eapply grows_for_each; eauto.
  - destruct (IH mb Hin Hrest) as (m1 & m2 & Hrun & E1 & E2).
    exists m1, m2. split; [exact Hrun |]. split; [| exact E2].
    eapply extends_trans; [eapply Hg; eauto | exact E1].
Qed.

Lemma fold_each_run {A S} (l : list A) (body : S -> A -> M S) (a : A)
    (s s' : S) (m m' : model) :
  (forall s a, grows (body s a)) ->
  a ∈ l -> fold_each l s body m = Some (s', m') ->
  exists s1 m1 s2 m2,
    body s1 a m1 = Some (s2, m2) /\ extends m m1 /\ extends m2 m'.
Proof.
  intros Hg. revert s m. induction l as [| b l IH]; intros s m Hin H;
    [inversion Hin |].
  simpl in H. apply bind_Some in H as (sb & mb & Hb & Hrest).
  apply elem_of_cons in Hin as [-> | Hin].
  - exists s, m, sb, mb. split; [exact Hb |]. split; [apply extends_refl |].
    eapply grows_fold_each; eauto.
  - destruct (IH sb mb Hin Hrest) as (s1 & m1 & s2 & m2 & Hrun & E1 & E2).
    exists s1, m1, s2, m2. split; [exact Hrun |]. split; [| exact E2].
    eapply extends_trans; [eapply Hg; eauto | exact E1].
Qed.

Lemma AddConstraint_run (ct : constraint) (m m' : model) (u : unit) :
  AddConstraint ct m = Some (u, m') -> ct ∈ constraints m'.
Proof. apply posts_AddConstraint. Qed.

Lemma NewIntVar_run (lb ub : Z) (m m' : model) (v : var) :
  NewIntVar lb ub m = Some (v, m') ->
  v = length (domains m) /\ domains m' !! v = Some (lb, ub).
Proof.
  unfold NewIntVar. intros [= <- <-]. split; [reflexivity |]. simpl.
  rewrite lookup_app_r by lia. now rewrite Nat.sub_diag.
Qed.

Lemma lift_run {A} (o : option A) (m m' : model) (a : A) :
  lift o m = Some (a, m') -> o = Some a /\ m' = m.
Proof. unfold lift. destruct o; [intros [= -> ->]; auto | discriminate]. Qed.

Lemma ret_run {A} (a a' : A) (m m' : model) :
  ret a m = Some (a', m') -> a' = a /\ m' = m.
Proof. unfold ret. intros [= -> ->]. auto. Qed.

End ExactModelRuns.

(** ** Decision variables and their intervals *)

Section DecisionIntervals.
Import CpModel CpLogic Constraints.

Lemma dict_set_fst {K V} `{EqDecision K} (d : list (K * V)) (k : K) (v : V) :
  map fst (Py.dict_set d k v)
  = if bool_decide (k ∈ map fst d) then map fst d else map fst d ++ [k].
Proof.
  induction d as [| [k' v'] d IH]; [reflexivity |]. simpl.
  destruct (decide (k = k')) as [-> | Hne]; simpl.
  - rewrite bool_decide_eq_true_2 by left. reflexivity.
  - rewrite IH. destruct (decide (k ∈ map fst d)) as [Hin | Hnin].
    + rewrite !bool_decide_eq_true_2; [reflexivity | now right | exact Hin].
    + rewrite !bool_decide_eq_false_2; [reflexivity | | exact Hnin].
      rewrite elem_of_cons. tauto.
Qed.

Lemma dict_set_NoDup {K V} `{EqDecision K} (d : list (K * V)) (k : K) (v : V) :
  NoDup (map fst d) -> NoDup (map fst (Py.dict_set d k v)).
Proof.
  intros Hnd. rewrite dict_set_fst.
  destruct (decide (k ∈ map fst d)) as [Hin | Hnin].
  - now rewrite bool_decide_eq_true_2.
  - rewrite bool_decide_eq_false_2 by exact Hnin.
    apply NoDup_app. split; [exact Hnd | split].
    + intros k' Hk' Hs. apply list_elem_of_singleton in Hs. congruence.
    + apply NoDup_singleton.
Qed.

Lemma dict_set_snd {K V} `{EqDecision K} (d : list (K * V)) (k : K) (v : V)
    (v' : V) :
  v' ∈ map snd (Py.dict_set d k v) -> v' = v \/ v' ∈ map snd d.
Proof.
  induction d as [| [k0 v0] d IH]; simpl.
  - rewrite list_elem_of_singleton. tauto.
  - destruct (decide (k = k0)); simpl; rewrite !elem_of_cons; [tauto |].
    intros [-> | H]; [tauto |]. apply IH in H. tauto.
Qed.

Lemma dict_set_snd_NoDup {K V} `{EqDecision K} (d : list (K * V)) (k : K)
    (v : V) :
  NoDup (map snd d) -> v ∉ map snd d -> NoDup (map snd (Py.dict_set d k v)).
Proof.
  induction d as [| [k0 v0] d IH]; simpl; intros Hnd Hv.
  - apply NoDup_singleton.
  - apply NoDup_cons in Hnd as [Hv0 Hnd]. rewrite not_elem_of_cons in Hv.
    destruct Hv as [Hne Hv].
    destruct (decide (k = k0)); simpl; apply NoDup_cons.
    + split; [exact Hv | exact Hnd].
    + split; [| now apply IH]. intros Hin.
      apply dict_set_snd in Hin as [-> | Hin]; [congruence | contradiction].
Qed.

Lemma elem_of_dict_set_old {K V} `{EqDecision K} (d : list (K * V))
    (k k' : K) (v v' : V) :
  (k', v') ∈ Py.dict_set d k v -> (k', v') = (k, v) \/ (k', v') ∈ d.
Proof. apply elem_of_dict_set. Qed.

(** What the loop over the eligible tuples keeps true: keys and variables
    are not repeated, and every entry has its interval in the list of its
    crew. *)
Lemma decision_vars_intervals (b : Loader.DataBundle)
    (elig : Eligibility.EligibilityBundle) (x : xdict)
    (ivs : list (string * list interval)) (m1 : model) :
  decision_vars b elig empty_model = Some ((x, ivs), m1) ->
  NoDup (map fst x) /\ NoDup (map snd x) /\ NoDup (map fst ivs)
  /\ (forall k v, (k, v) ∈ x ->
        exists f, Loader.flights_by_id b !! key_flight k = Some f
          /\ Spec.duty_interval b f v ∈ Py.dict_get ivs (key_crew k)).
Proof.
  unfold decision_vars.
  set (Inv := fun (x : xdict) (ivs : list (string * list interval))
                  (m : model) =>
    NoDup (map fst x) /\ NoDup (map snd x)
    /\ (forall v, v ∈ map snd x -> (v < length (domains m))%nat)
    /\ NoDup (map fst ivs)
    /\ (forall k v, (k, v) ∈ x ->
          exists f, Loader.flights_by_id b !! key_flight k = Some f
            /\ Spec.duty_interval b f v ∈ Py.dict_get ivs (key_crew k))).
  assert (Hgen : forall l x0 ivs0 m0,
    Inv x0 ivs0 m0 ->
    fold_each l (x0, ivs0)
      (fun st k =>
         let '(x, intervals_by_crew) := st in
         let* f := lift (Loader.flights_by_id b !! key_flight k) in
         let* v := NewBoolVar in
         let x := Py.dict_set x k v in
         let start := to_ts (Models.dep_dt f) in
         let end_ := to_ts (Models.arr_dt f) in
         let size_sec :=
           (end_ - start) + Models.turnaround_minutes (Loader.rules b) * 60 in
         let* iv := NewOptionalIntervalVar start size_sec (start + size_sec) v in
         ret (x, Py.dict_append intervals_by_crew (key_crew k) iv)) m0
    = Some ((x, ivs), m1) ->
    Inv x ivs m1).
  { induction l as [| k l IH]; intros x0 ivs0 m0 HI H.
    - simpl in H. injection H as <- <- <-. exact HI.
    - simpl in H. apply bind_Some in H as ([x' ivs'] & m' & Hbody & Hrest).
      apply (IH x' ivs' m'); [| exact Hrest]. clear IH Hrest.
      apply bind_Some in Hbody as (f & ma & Hf & Hbody).
      apply lift_run in Hf as [Hf ->].
      apply bind_Some in Hbody as (v & mb & Hv & Hbody).
      pose proof Hv as Hv'. apply NewIntVar_run in Hv' as [Hveq Hdom].
      apply bind_Some in Hbody as (iv & mc & Hiv & Hbody).
      apply ret_run in Hbody as [[= -> ->] ->].
      unfold NewOptionalIntervalVar in Hiv. injection Hiv as <- <-.
      unfold NewBoolVar, NewIntVar in Hv. injection Hv as _ <-.
      destruct HI as (N1 & N2 & Hlt & N3 & Hiv).
      assert (Hfresh : v ∉ map snd x0).
      { intros Hin. apply Hlt in Hin. lia. }
      unfold Inv. simpl.
      split; [now apply dict_set_NoDup |].
      split; [now apply dict_set_snd_NoDup |].
      split; [| split; [now apply dict_append_NoDup |]].
      + intros v' Hin. rewrite length_app. simpl.
        apply dict_set_snd in Hin as [-> | Hin]; [lia |].
        apply Hlt in Hin. lia.
      + intros k' v' Hin. rewrite dict_get_append.
        apply elem_of_dict_set in Hin as [[= -> ->] | Hin].
        * exists f. split; [exact Hf |]. apply elem_of_app. right.
          rewrite bool_decide_eq_true_2 by reflexivity.
          apply list_elem_of_singleton. reflexivity.
        * destruct (Hiv _ _ Hin) as (f' & Hf' & Hin').
          exists f'. split; [exact Hf' |]. apply elem_of_app. now left. }
  intros H. apply Hgen in H.
  - destruct H as (N1 & N2 & _ & N3 & Hiv). auto.
  - unfold Inv. simpl. repeat split; try constructor.
    + intros v Hv. inversion Hv.
    + intros k v Hin. inversion Hin.
Qed.

End DecisionIntervals.

(** ** No overlapping duties in the exact path *)

Section NoOverlappingDuties.
Import CpModel CpLogic Constraints.

Lemma disjoint_sym (val : valuation) (a b : interval) :
  disjoint val a b = disjoint val b a.
Proof.
  unfold disjoint. rewrite (andb_comm (present val a)).
  rewrite <- !orb_assoc. f_equal. apply orb_comm.
Qed.

Lemma pairwise_disjoint_elem (val : valuation) (ivs : list interval)
    (a b : interval) :
  pairwise_disjoint val ivs = true -> a ∈ ivs -> b ∈ ivs -> a <> b ->
  disjoint val a b = true.
Proof.
  induction ivs as [| c ivs IH]; intros H Ha Hb Hne; [inversion Ha |].
  simpl in H. apply andb_true_iff in H as [Hc Hrest].
  rewrite forallb_forall in Hc.
  apply elem_of_cons in Ha as [-> | Ha], Hb as [-> | Hb].
  - congruence.
  - apply Hc. now apply list_elem_of_In.
  - rewrite disjoint_sym. apply Hc. now apply list_elem_of_In.
  - now apply IH.
Qed.

Lemma NoDup_snd_inj {A B} (l : list (A * B)) (a a' : A) (v : B) :
  NoDup (map snd l) -> (a, v) ∈ l -> (a', v) ∈ l -> a = a'.
Proof.
  intros Hnd H1 H2.
  apply list_elem_of_lookup in H1 as (i & Hi), H2 as (j & Hj).
  assert (i = j).
  { apply (NoDup_lookup (map snd l) i j v Hnd);
      rewrite list_lookup_fmap; [rewrite Hi | rewrite Hj]; reflexivity. }
  subst j. rewrite Hi in Hj. now injection Hj.
Qed.

Lemma NoDup_fst_inj {A B} (l : list (A * B)) (a : A) (v v' : B) :
  NoDup (map fst l) -> (a, v) ∈ l -> (a, v') ∈ l -> v = v'.
Proof.
  intros Hnd H1 H2.
  apply list_elem_of_lookup in H1 as (i & Hi), H2 as (j & Hj).
  assert (i = j).
  { apply (NoDup_lookup (map fst l) i j a Hnd);
      rewrite list_lookup_fmap; [rewrite Hi | rewrite Hj]; reflexivity. }
  subst j. rewrite Hi in Hj. now injection Hj.
Qed.

(** Two decision variables of one crew that are both set stand for
    flights that do not overlap once the turnaround is added. *)
Lemma selected_intervals_disjoint (b : Loader.DataBundle)
    (w : Objective.Weights) (art : ModelArtifacts) (m : model)
    (val : valuation) (k1 k2 : key) (v1 v2 : var) (f1 f2 : Models.Flight) :
  Objective.exact_model b w = Some (art, m) ->
  feasible m val = true ->
  (k1, v1) ∈ x art -> (k2, v2) ∈ x art -> k1 <> k2 ->
  key_crew k1 = key_crew k2 ->
  val v1 = 1 -> val v2 = 1 ->
  Loader.flights_by_id b !! key_flight k1 = Some f1 ->
  Loader.flights_by_id b !! key_flight k2 = Some f2 ->
  Models.overlaps_with_turnaround
    (Models.dep_dt f1) (Models.arr_dt f1) (Models.dep_dt f2) (Models.arr_dt f2)
    (Models.turnaround_minutes (Loader.rules b)) = false.
Proof.
  intros Hm Hfeas H1 H2 Hne Hcrew Hs1 Hs2 Hf1 Hf2.
  destruct (exact_model_runs b w art m Hm)
    as (elig & m1 & _ & Hdv & _ & _ & (m0 & m' & Hno & Hext) & _).
  destruct (decision_vars_intervals b elig _ _ _ Hdv)
    as (N1 & N2 & N3 & Hiv).
  destruct (Hiv _ _ H1) as (g1 & Hg1 & Hin1).
  destruct (Hiv _ _ H2) as (g2 & Hg2 & Hin2).
  rewrite Hf1 in Hg1. injection Hg1 as <-.
  rewrite Hf2 in Hg2. injection Hg2 as <-.
  rewrite <- Hcrew in Hin2.
  set (l := Py.dict_get (intervals_by_crew art) (key_crew k1)) in *.
  assert (Hl : l <> []) by (intros E; rewrite E in Hin1; inversion Hin1).
  apply dict_get_nonempty in Hl. fold l in Hl.
  unfold no_overlap in Hno.
  eapply for_each_run in Hno as (ma & mb & Hrun & _ & Hext');
    [| intros [? iv]; destruct iv; grow | exact Hl].
  cbv beta iota in Hrun.
  assert (Hct : NoOverlap l ∈ constraints m).
  { eapply extends_constraint; [exact Hext |].
    eapply extends_constraint; [exact Hext' |].
    destruct l as [| iv l']; [inversion Hin1 |].
    eapply AddConstraint_run. exact Hrun. }
  pose proof (feasible_sat _ _ _ Hfeas Hct) as Hsat. simpl in Hsat.
  assert (Hv : v1 <> v2).
  { intros ->. apply Hne. eapply NoDup_snd_inj; eauto. }
  pose proof (pairwise_disjoint_elem val l _ _ Hsat Hin1 Hin2
                ltac:(unfold Spec.duty_interval; congruence)) as Hd.
  unfold disjoint, present, Spec.duty_interval in Hd. simpl in Hd.
  rewrite Hs1, Hs2 in Hd. simpl in Hd.
  unfold Models.overlaps_with_turnaround, Py.timestamp, to_ts in *.
  apply negb_false_iff. apply orb_true_iff in Hd as [Hd | Hd];
    apply orb_true_iff; [left | right];
    apply Z.leb_le in Hd; apply Z.leb_le; unfold Py.timestamp in Hd; lia.
Qed.

End NoOverlappingDuties.

Section ExactRosterExample.
Import CpModel CpLogic Constraints.

Lemma rest_roster_exact_solution :
  Objective.exact_solution Examples.rest_bundle Objective.default_weights
    Examples.rest_roster.
Proof.
  destruct (Objective.exact_model Examples.rest_bundle
              Objective.default_weights) as [[art m] |] eqn:Hm;
    [| vm_compute in Hm; discriminate].
  exists art, m, Examples.rest_solution. split; [exact Hm |].
  vm_compute in Hm. injection Hm as <- <-.
  split; vm_compute; reflexivity.
Qed.

End ExactRosterExample.

Section NoOverlappingDutiesRoster.
Import CpModel CpLogic Constraints.

(** X5: in every roster of the exact path, two different assignments of
    the same crew member are to flights that do not overlap once the
    turnaround is added to each arrival, as [overlaps_with_turnaround]
    tests it. *)
Theorem exact_path_duties_never_overlap (b : Loader.DataBundle)
    (w : Objective.Weights) (assignments : list Objective.Assignment)
    (i j : nat) (a1 a2 : Objective.Assignment) (f1 f2 : Models.Flight) :
  Objective.exact_solution b w assignments ->
  i <> j ->
  assignments !! i = Some a1 -> assignments !! j = Some a2 ->
  Objective.a_crew_id a1 = Objective.a_crew_id a2 ->
  Loader.flights_by_id b !! Objective.a_flight_id a1 = Some f1 ->
  Loader.flights_by_id b !! Objective.a_flight_id a2 = Some f2 ->
  Models.overlaps_with_turnaround
    (Models.dep_dt f1) (Models.arr_dt f1) (Models.dep_dt f2) (Models.arr_dt f2)
    (Models.turnaround_minutes (Loader.rules b)) = false.
Proof.
  intros (art & m & val & Hm & Hfeas & ->) Hij H1 H2 Hc Hf1 Hf2.
  unfold Objective.extract_assignments in H1, H2.
  rewrite list_lookup_fmap in H1, H2.
  destruct (List.filter _ (x art) !! i) as [[k1 v1] |] eqn:E1;
    [| discriminate].
  destruct (List.filter _ (x art) !! j) as [[k2 v2] |] eqn:E2;
    [| discriminate].
  simpl in H1, H2. injection H1 as <-. injection H2 as <-. simpl in *.
  destruct (exact_model_runs b w art m Hm) as (elig & m1 & _ & Hdv & _).
  destruct (decision_vars_intervals b elig _ _ _ Hdv) as (N1 & _).
  assert (Nx : NoDup (x art)) by (eapply NoDup_fmap_1; exact N1).
  assert (Hin1 : (k1, v1) ∈ List.filter (fun e => val e.2 =? 1) (x art))
    by (eapply list_elem_of_lookup_2; exact E1).
  assert (Hin2 : (k2, v2) ∈ List.filter (fun e => val e.2 =? 1) (x art))
    by (eapply list_elem_of_lookup_2; exact E2).
  apply list_elem_of_In, filter_In in Hin1 as [Hx1 Hs1].
  apply list_elem_of_In, filter_In in Hin2 as [Hx2 Hs2].
  apply list_elem_of_In in Hx1, Hx2. simpl in Hs1, Hs2.
  apply Z.eqb_eq in Hs1, Hs2.
  eapply (selected_intervals_disjoint b w art m val k1 k2 v1 v2); eauto.
  intros ->. assert (v1 = v2) as -> by (eapply NoDup_fst_inj; eauto).
  apply Hij. eapply NoDup_lookup; [| exact E1 | exact E2].
  now apply NoDup_filter_bool.
Qed.

Lemma exact_path_duties_never_overlap_witness :
  Models.overlaps_with_turnaround
    (Examples.hm 8 0) (Examples.hm 9 0) (Examples.hm 13 0) (Examples.hm 14 0)
    (Models.turnaround_minutes (Loader.rules Examples.rest_bundle)) = false.
Proof.
  apply (exact_path_duties_never_overlap Examples.rest_bundle
           Objective.default_weights Examples.rest_roster 0 2
           (Objective.Build_Assignment "A" "Captain" "F1")
           (Objective.Build_Assignment "A" "Captain" "F3")
           (Examples.captain_flight "F1" "DEL" "BOM"
              (Examples.hm 8 0) (Examples.hm 9 0))
           (Examples.captain_flight "F3" "BOM" "DEL"
              (Examples.hm 13 0) (Examples.hm 14 0))).
  - exact rest_roster_exact_solution.
  - lia.
  - reflexivity.
  - reflexivity.
  - reflexivity.
  - reflexivity.
  - reflexivity.
Defined.

End NoOverlappingDutiesRoster.

(** ** Exclusions between adjacent potential flights *)

Section AdjacentExclusions.
Import CpModel CpLogic Constraints.

Lemma grows_exclude_pair x c f1 f2 : grows (exclude_pair x c f1 f2).
Proof. grow. Qed.

Lemma exclude_pair_run (x : xdict) (c f1_id f2_id : string) (m m' : model)
    (v1 v2 : var) :
  exclude_pair x c f1_id f2_id m = Some (tt, m') ->
  v1 ∈ crew_flight_vars x c f1_id -> v2 ∈ crew_flight_vars x c f2_id ->
  Linear (EAdd (EVar v1) (EVar v2)) Le (EInt 1) None ∈ constraints m'.
Proof.
  unfold exclude_pair. intros H H1 H2.
  eapply for_each_run in H as (ma & mb & Hrun & _ & E);
    [| intros; grow | exact H1].
  eapply extends_constraint; [exact E |].
  eapply for_each_run in Hrun as (mc & md & Hrun & _ & E');
    [| intros; grow | exact H2].
  eapply extends_constraint; [exact E' |].
  eapply AddConstraint_run. exact Hrun.
Qed.

Lemma crew_has_intervals (b : Loader.DataBundle)
    (elig : Eligibility.EligibilityBundle) (x : xdict)
    (ivs : list (string * list interval)) (m1 : model) (c f_id : string)
    (v : var) :
  decision_vars b elig empty_model = Some ((x, ivs), m1) ->
  v ∈ crew_flight_vars x c f_id -> c ∈ map fst ivs.
Proof.
  intros Hdv Hv. apply elem_of_vars_where in Hv as (k & Hx & Hp).
  apply andb_true_iff in Hp as [Hc _]. apply String.eqb_eq in Hc.
  destruct (decision_vars_intervals b elig _ _ _ Hdv) as (_ & _ & _ & Hiv).
  destruct (Hiv _ _ Hx) as (f & _ & Hin). rewrite Hc in Hin.
  assert (Hne : Py.dict_get ivs c <> [])
    by (intros E; rewrite E in Hin; inversion Hin).
  apply dict_get_nonempty in Hne. apply list_elem_of_fmap.
  exists (c, Py.dict_get ivs c). auto.
Qed.

Lemma potential_crew_is_crew (b : Loader.DataBundle)
    (elig : Eligibility.EligibilityBundle) (x : xdict)
    (ivs : list (string * list interval)) (m1 : model) (c f_id : string)
    (v : var) :
  Eligibility.build_eligibility b = Some elig ->
  decision_vars b elig empty_model = Some ((x, ivs), m1) ->
  v ∈ crew_flight_vars x c f_id -> c ∈ crew_id_set b.
Proof.
  intros Hel Hdv Hv. apply elem_of_vars_where in Hv as (k & Hx & Hp).
  apply andb_true_iff in Hp as [Hc _]. apply String.eqb_eq in Hc.
  destruct (decision_vars_spec _ _ _ _ _ Hdv) as (_ & Hkeys).
  assert (Hk : k ∈ Eligibility.eligible elig) by (apply Hkeys; eauto).
  apply (elem_of_eligible b elig k Hel) in Hk
    as (slot & fl & day_str & _ & _ & _ & Hk).
  apply elem_of_eligible_for_slot in Hk as (cr & Hcr & -> & _).
  simpl in Hc. subst c. unfold crew_id_set, Py.set_of.
  apply elem_of_remove_dups, list_elem_of_fmap. eauto.
Qed.

(** X6: for two flights that are next to each other in the
    departure-ordered list of a crew member's potential flights and
    whose gap, from the first arrival to the second departure, is below
    the minimum rest, the model holds the constraint [v1 + v2 <= 1] for
    every pair of that crew's decision variables on the two flights, so
    no solution assigns the crew member to both. *)
Theorem adjacent_flights_without_rest_are_exclusive
    (b : Loader.DataBundle) (w : Objective.Weights) (art : ModelArtifacts)
    (m : model) (c : string) (fls : list (string * Models.Flight))
    (f1_id f2_id : string) (f1 f2 : Models.Flight) (v1 v2 : var) :
  Objective.exact_model b w = Some (art, m) ->
  crew_flights b c [] (x art) = Some fls ->
  ((f1_id, f1), (f2_id, f2)) ∈ Py.adjacent (sort_by_dep fls) ->
  Py.timestamp (Models.dep_dt f2) - Py.timestamp (Models.arr_dt f1)
  < Models.min_rest_hours_between_duties (Loader.rules b) * 3600 ->
  v1 ∈ crew_flight_vars (x art) c f1_id ->
  v2 ∈ crew_flight_vars (x art) c f2_id ->
  Linear (EAdd (EVar v1) (EVar v2)) Le (EInt 1) None ∈ constraints m
  /\ forall val, feasible m val = true -> ~ (val v1 = 1 /\ val v2 = 1).
Proof.
  intros Hm Hfl Hadj Hgap H1 H2.
  destruct (exact_model_runs b w art m Hm)
    as (elig & m1 & Hel & Hdv & _ & _ & _ & (m0 & m' & Hrest & Hext) & _).
  assert (Hct : Linear (EAdd (EVar v1) (EVar v2)) Le (EInt 1) None
                ∈ constraints m).
  { eapply extends_constraint; [exact Hext |].
    unfold min_rest in Hrest.
    eapply for_each_run in Hrest as (ma & mb & Hrun & _ & E);
      [| intros; grow
       | exact (crew_has_intervals b elig _ _ _ c f1_id v1 Hdv H1)].
    eapply extends_constraint; [exact E |].
    apply bind_Some in Hrun as (fls' & mc & Hl & Hrun).
    apply lift_run in Hl as [Hl ->]. rewrite Hfl in Hl. injection Hl as <-.
    eapply for_each_run in Hrun as (md & me & Hrun & _ & E');
      [| intros [[? ?] [? ?]]; grow | exact Hadj].
    eapply extends_constraint; [exact E' |].
    cbv beta iota in Hrun.
    apply Z.ltb_lt in Hgap. rewrite Hgap in Hrun.
    eapply exclude_pair_run; eauto. }
  split; [exact Hct |]. intros val Hfeas [E1 E2].
  pose proof (feasible_sat _ _ _ Hfeas Hct) as Hsat. simpl in Hsat.
  apply Z.leb_le in Hsat. lia.
Qed.

(** X7: for two flights that are next to each other in the
    departure-ordered list of a crew member's potential flights and of
    which the second does not leave from the arrival airport of the
    first, the model holds [v1 + v2 <= 1] for every pair of that crew's
    decision variables on the two flights, so no solution assigns the crew
    member to both. *)
Theorem adjacent_flights_off_station_are_exclusive
    (b : Loader.DataBundle) (w : Objective.Weights) (art : ModelArtifacts)
    (m : model) (c : string) (fls : list (string * Models.Flight))
    (f1_id f2_id : string) (f1 f2 : Models.Flight) (v1 v2 : var) :
  Objective.exact_model b w = Some (art, m) ->
  crew_flights b c [] (x art) = Some fls ->
  ((f1_id, f1), (f2_id, f2)) ∈ Py.adjacent (sort_by_dep fls) ->
  Models.arr_airport f1 <> Models.dep_airport f2 ->
  v1 ∈ crew_flight_vars (x art) c f1_id ->
  v2 ∈ crew_flight_vars (x art) c f2_id ->
  Linear (EAdd (EVar v1) (EVar v2)) Le (EInt 1) None ∈ constraints m
  /\ forall val, feasible m val = true -> ~ (val v1 = 1 /\ val v2 = 1).
Proof.
  intros Hm Hfl Hadj Hport H1 H2.
  destruct (exact_model_runs b w art m Hm)
    as (elig & m1 & Hel & Hdv & _ & _ & _ & _ & _ & _
        & (m0 & m' & Hcont & Hext) & _).
  assert (Hct : Linear (EAdd (EVar v1) (EVar v2)) Le (EInt 1) None
                ∈ constraints m).
  { eapply extends_constraint; [exact Hext |].
    unfold _add_pilot_continuity_constraints in Hcont.
    eapply for_each_run in Hcont as (ma & mb & Hrun & _ & E);
      [| intros; grow
       | exact (potential_crew_is_crew b elig _ _ _ c f1_id v1 Hel Hdv H1)].
    eapply extends_constraint; [exact E |].
    apply bind_Some in Hrun as (fls' & mc & Hl & Hrun).
    apply lift_run in Hl as [Hl ->]. rewrite Hfl in Hl. injection Hl as <-.
    assert (Hlen : (length fls <? 2)%nat = false).
    { apply Nat.ltb_ge.
      pose proof (Permutation_length (sort_by_Permutation
                    (fun it => Models.dep_dt (snd it)) fls)) as Hp.
      unfold sort_by_dep in Hadj. rewrite <- Hp.
      destruct (Py.sort_by _ fls) as [| p [| q r]]; simpl in *;
        [inversion Hadj | inversion Hadj | lia]. }
    rewrite Hlen in Hrun.
    eapply for_each_run in Hrun as (md & me & Hrun & _ & E');
      [| intros [[? ?] [? ?]]; grow | exact Hadj].
    eapply extends_constraint; [exact E' |].
    cbv beta iota in Hrun.
    assert (Hne : negb (String.eqb (Models.arr_airport f1)
                          (Models.dep_airport f2)) = true).
    { apply negb_true_iff, String.eqb_neq. exact Hport. }
    rewrite Hne in Hrun. eapply exclude_pair_run; eauto. }
  split; [exact Hct |]. intros val Hfeas [E1 E2].
  pose proof (feasible_sat _ _ _ Hfeas Hct) as Hsat. simpl in Hsat.
  apply Z.leb_le in Hsat. lia.
Qed.

End AdjacentExclusions.

Section AdjacentExclusionsExample.
Import CpModel CpLogic Constraints.

Lemma adjacent_flights_without_rest_are_exclusive_witness :
  ~ (Examples.rest_solution 0%nat = 1 /\ Examples.rest_solution 2%nat = 1).
Proof.
  destruct (Objective.exact_model Examples.rest_bundle
              Objective.default_weights) as [[art m] |] eqn:Hm;
    [| vm_compute in Hm; discriminate].
  pose proof (adjacent_flights_without_rest_are_exclusive
                Examples.rest_bundle Objective.default_weights art m "A"
                [("F1", Examples.captain_flight "F1" "DEL" "BOM"
                          (Examples.hm 8 0) (Examples.hm 9 0));
                 ("F2", Examples.captain_flight "F2" "BOM" "DEL"
                          (Examples.hm 10 0) (Examples.hm 11 0));
                 ("F3", Examples.captain_flight "F3" "BOM" "DEL"
                          (Examples.hm 13 0) (Examples.hm 14 0))]
                "F1" "F2"
                (Examples.captain_flight "F1" "DEL" "BOM"
                   (Examples.hm 8 0) (Examples.hm 9 0))
                (Examples.captain_flight "F2" "BOM" "DEL"
                   (Examples.hm 10 0) (Examples.hm 11 0))
                0%nat 2%nat Hm) as T.
  vm_compute in Hm. injection Hm as <- <-.
  apply T.
  - vm_compute. reflexivity.
  - vm_compute. left.
  - vm_compute. reflexivity.
  - vm_compute. left.
  - vm_compute. left.
  - vm_compute. reflexivity.
Defined.

Lemma adjacent_flights_off_station_are_exclusive_witness :
  ~ (Examples.rest_solution 2%nat = 1 /\ Examples.rest_solution 4%nat = 1).
Proof.
  destruct (Objective.exact_model Examples.rest_bundle
              Objective.default_weights) as [[art m] |] eqn:Hm;
    [| vm_compute in Hm; discriminate].
  pose proof (adjacent_flights_off_station_are_exclusive
                Examples.rest_bundle Objective.default_weights art m "A"
                [("F1", Examples.captain_flight "F1" "DEL" "BOM"
                          (Examples.hm 8 0) (Examples.hm 9 0));
                 ("F2", Examples.captain_flight "F2" "BOM" "DEL"
                          (Examples.hm 10 0) (Examples.hm 11 0));
                 ("F3", Examples.captain_flight "F3" "BOM" "DEL"
                          (Examples.hm 13 0) (Examples.hm 14 0))]
                "F2" "F3"
                (Examples.captain_flight "F2" "BOM" "DEL"
                   (Examples.hm 10 0) (Examples.hm 11 0))
                (Examples.captain_flight "F3" "BOM" "DEL"
                   (Examples.hm 13 0) (Examples.hm 14 0))
                2%nat 4%nat Hm) as T.
  vm_compute in Hm. injection Hm as <- <-.
  apply T.
  - vm_compute. reflexivity.
  - vm_compute. right. left.
  - vm_compute. discriminate.
  - vm_compute. left.
  - vm_compute. left.
  - vm_compute. reflexivity.
Defined.

End AdjacentExclusionsExample.

(** ** Daily caps in the exact path *)

Section DailyCaps.
Import CpModel CpLogic Constraints.

Lemma bind_sum_AddConstraint (target : var) (terms : list expr) :
  bind_sum target terms = AddConstraint (sum_constraint target terms).
Proof. unfold bind_sum, sum_constraint, Add. now destruct terms. Qed.

Lemma NewIntVar_eq (lb ub : Z) (m m' : model) (v : var) :
  NewIntVar lb ub m = Some (v, m') ->
  v = length (domains m)
  /\ m' = {| domains := domains m ++ [(lb, ub)];
             intervals := intervals m;
             constraints := constraints m;
             objective := objective m |}.
Proof. unfold NewIntVar. intros [= <- <-]. auto. Qed.

Lemma AddConstraint_eq (ct : constraint) (m m' : model) (u : unit) :
  AddConstraint ct m = Some (u, m') ->
  m' = {| domains := domains m;
          intervals := intervals m;
          constraints := constraints m ++ [ct];
          objective := objective m |}.
Proof. unfold AddConstraint. intros H. now injection H as <-. Qed.

(** One step of a run: a fresh variable or a posted constraint. *)
Ltac run_step H :=
  let Hs := fresh "Hs" in
  apply bind_Some in H as (? & ? & Hs & H);
  first [ apply NewIntVar_eq in Hs as [-> ->]
        | rewrite bind_sum_AddConstraint in Hs;
          apply AddConstraint_eq in Hs as ->
        | apply AddConstraint_eq in Hs as -> ];
  cbn [domains intervals constraints objective] in H.

Ltac in_tail :=
  first [ apply list_elem_of_singleton; reflexivity
        | apply elem_of_app; right; apply list_elem_of_singleton; reflexivity
        | apply elem_of_app; left; in_tail ].

(** The variables and constraints that the body of the day loop adds. *)
Lemma day_caps_run (b : Loader.DataBundle)
    (elig : Eligibility.EligibilityBundle) (x : xdict) (c_id : string)
    (cap : Z) (d : string) (m m' : model) (dvar : var) :
  day_caps b elig x c_id cap d m = Some (dvar, m') ->
  exists entries fcnt swc owc b1 b2 b3 i1 i2,
    day_entries b elig c_id d x = Some entries
    /\ Forall (fun v => domains m' !! v = Some (0, 1)) [b1; b2; b3; i1; i2]
    /\ Forall (fun ct => ct ∈ constraints m')
         [ sum_constraint dvar (map term_expr (map fst entries));
           sum_constraint fcnt (map EVar (map (fun e => snd (fst e)) entries));
           sum_constraint swc
             (map EVar (map (fun e => snd (fst e))
                (List.filter
                   (fun e => dep_in_wocl
                      (fst (Models.wocl_window_times (Loader.rules b)))
                      (snd (Models.wocl_window_times (Loader.rules b)))
                      (Py.time_of (Models.dep_dt (snd e)))) entries)));
           sum_constraint owc
             (map EVar (map (fun e => snd (fst e))
                (List.filter
                   (fun e => Models.in_night_window (Models.dep_dt (snd e))
                      (Models.arr_dt (snd e))
                      (fst (Models.wocl_window_times (Loader.rules b)))
                      (snd (Models.wocl_window_times (Loader.rules b))))
                   entries)));
           Linear (EVar dvar) Le (EInt cap) None;
           Linear (EVar fcnt) Le (EInt 6) None;
           Linear (EAdd (EAdd (EVar b1) (EVar b2)) (EVar b3)) Eq (EInt 1) None;
           Linear (EVar dvar) Le (EInt (8 * 60)) (Some (pos b1));
           Linear (EVar dvar) Le (EInt (11 * 60)) (Some (pos b2));
           Linear (EVar fcnt) Le (EInt 3) (Some (pos b2));
           Linear (EVar fcnt) Le (EInt 1) (Some (pos b3));
           Linear (EVar swc) Eq (EInt 0) (Some (neg i1));
           Linear (EVar owc) Eq (EInt 0) (Some (neg i2));
           Linear (EVar dvar) Le
             (EInt (cap - Z.min cap (wocl_len_minutes (Loader.rules b))))
             (Some (pos i1));
           Linear (EVar dvar) Le
             (EInt (cap - Z.min cap (wocl_len_minutes (Loader.rules b) / 2)))
             (Some (pos i2)) ].
Proof.
  unfold day_caps. intros H.
  destruct (Models.wocl_window_times (Loader.rules b)) as [ws we] eqn:Hw.
  cbv beta iota zeta in H.
  do 4 run_step H.
  apply bind_Some in H as (entries & ? & Hs & H).
  apply lift_run in Hs as [Hent ->].
  repeat run_step H.
  apply ret_run in H as [-> ->].
  exists entries. do 8 eexists. split; [exact Hent |].
  cbn [domains constraints fst snd]. split.
  2: { repeat (apply List.Forall_cons; [in_tail |]). apply List.Forall_nil. }
  repeat (apply List.Forall_cons;
          [rewrite !length_app; cbn [length];
           repeat first
             [ rewrite lookup_app_r by (rewrite ?length_app; cbn [length]; lia);
               rewrite ?length_app; cbn [length];
               match goal with
               | |- [?a] !! ?i = _ => replace i with 0%nat by lia
               end; reflexivity
             | rewrite lookup_app_l
                 by (rewrite ?length_app; cbn [length]; lia) ] |]).
  apply List.Forall_nil.
Qed.

End DailyCaps.

Section CrewCaps.
Import CpModel CpLogic Constraints.

(** The variables and constraints that the body of the crew loop adds,
    and the runs of the day loop inside it. *)
Lemma crew_caps_run (b : Loader.DataBundle)
    (elig : Eligibility.EligibilityBundle) (x : xdict) (st st' : caps_state)
    (c : Models.Crew) (m m' : model) :
  crew_caps b elig x st c m = Some (st', m') ->
  exists tot terms ot,
    total_terms elig (Models.crew_id c) x = Some terms
    /\ fst (fst st') = Py.dict_set (fst (fst st)) (Models.crew_id c) tot
    /\ snd st' = Py.dict_set (snd st) (Models.crew_id c) ot
    /\ domains m' !! ot = Some (0, 10000000)
    /\ sum_constraint tot (map term_expr terms) ∈ constraints m'
    /\ Linear (EVar ot) Ge
         (ESub (EVar tot)
            (EInt (default (Models.weekly_max_duty_hrs_default (Loader.rules b))
                           (Models.weekly_max_duty_hrs c) * 60))) None
       ∈ constraints m'
    /\ Linear (EVar tot) Le
         (EInt (default 40 (Models.ft_hours_7_days (Loader.rules b)) * 60))
         None ∈ constraints m'
    /\ (forall d, d ∈ Loader.operating_days b ->
          exists ma mb dvar,
            day_caps b elig x (Models.crew_id c)
              (Models.daily_cap_for_role (Loader.rules b)
                 (Models.role_key (Models.role c)) * 60) d ma
            = Some (dvar, mb)
            /\ extends mb m').
Proof.
  unfold crew_caps. destruct st as [[mtc mbd] otc]. intros H.
  apply bind_Some in H as (tot & m1 & Htot & H).
  apply bind_Some in H as (terms & m2 & Hterms & H).
  apply lift_run in Hterms as [Hterms ->].
  apply bind_Some in H as ([] & m3 & Hsum & H).
  apply bind_Some in H as (mbd' & m4 & Hdays & H).
  apply bind_Some in H as (ot & m5 & Hot & H).
  apply bind_Some in H as ([] & m6 & Hge & H).
  apply bind_Some in H as ([] & m7 & Hle & H).
  apply ret_run in H as [-> ->].
  rewrite bind_sum_AddConstraint in Hsum.
  pose proof (AddConstraint_run _ _ _ _ Hsum) as C1.
  pose proof (AddConstraint_run _ _ _ _ Hge) as C2.
  pose proof (AddConstraint_run _ _ _ _ Hle) as C3.
  pose proof (grows_AddConstraint _ _ _ _ Hge) as G6.
  pose proof (grows_AddConstraint _ _ _ _ Hle) as G7.
  pose proof (grows_NewIntVar _ _ _ _ _ Hot) as G5.
  assert (G4 : extends m3 m4).
  { refine (grows_fold_each _ _ _ _ _ _ _ Hdays).
    intros. grow. apply grows_day_caps. }
  apply NewIntVar_run in Hot as [_ Dot].
  exists tot, terms, ot. cbn [fst snd].
  split; [exact Hterms |]. split; [reflexivity |]. split; [reflexivity |].
  split; [eauto using extends_domain, extends_trans |].
  split; [eauto 8 using extends_constraint, extends_trans |].
  split; [eauto using extends_constraint |].
  split; [exact C3 |].
  intros d Hd.
  eapply fold_each_run in Hdays as (s1 & ma & s2 & mb & Hrun & _ & E);
    [| intros; grow; apply grows_day_caps | exact Hd].
  apply bind_Some in Hrun as (dvar & mc & Hday & Hret).
  apply ret_run in Hret as [_ ->].
  exists ma, mc, dvar. split; [exact Hday |].
  eauto 8 using extends_trans.
Qed.

Lemma eval_day_minutes (val : valuation)
    (entries : list (Z * var * Models.Flight)) :
  Py.zsum (map (eval val) (map term_expr (map fst entries)))
  = Spec.day_minutes val entries.
Proof.
  unfold Spec.day_minutes. rewrite !map_map. reflexivity.
Qed.

Lemma eval_var_sum (val : valuation) {A} (f : A -> var) (l : list A) :
  Py.zsum (map (eval val) (map EVar (map f l)))
  = Py.zsum (map (fun a => val (f a)) l).
Proof. rewrite !map_map. reflexivity. Qed.

Lemma zsum_nonneg_elem {A} (g : A -> Z) (l : list A) (a : A) :
  (forall a', a' ∈ l -> 0 <= g a') -> a ∈ l -> g a <= Py.zsum (map g l).
Proof.
  induction l as [| a0 l IH]; intros Hpos Hin; [inversion Hin |].
  cbn [map Py.zsum foldr].
  assert (Hrest : 0 <= Py.zsum (map g l)).
  { clear IH Hin. induction l as [| a1 l IH]; [simpl; lia |].
    cbn [map Py.zsum foldr].
    pose proof (Hpos a1 ltac:(right; left)).
    assert (0 <= Py.zsum (map g l)).
    { apply IH. intros a' Ha'. apply Hpos.
      apply elem_of_cons in Ha' as [-> | Ha']; [left | right; now right]. }
    unfold Py.zsum in *. lia. }
  apply elem_of_cons in Hin as [-> | Hin].
  - unfold Py.zsum in *. lia.
  - pose proof (Hpos a0 ltac:(left)).
    assert (g a <= Py.zsum (map g l)).
    { apply IH; [| exact Hin]. intros a' Ha'. apply Hpos. now right. }
    unfold Py.zsum in *. lia.
Qed.

End CrewCaps.

Section DailyCapsClaims.
Import CpModel CpLogic Constraints.

Lemma sat_all (m' m : model) (val : valuation) (cts : list constraint) :
  feasible m val = true -> extends m' m ->
  Forall (fun ct => ct ∈ constraints m') cts ->
  Forall (fun ct => sat val ct = true) cts.
Proof.
  intros Hfeas Hext H. eapply List.Forall_impl; [| exact H].
  intros ct Hin. simpl in Hin.
  eapply feasible_sat; [exact Hfeas |].
  eapply extends_constraint; [exact Hext | exact Hin].
Qed.

Lemma boolean_all (m' m : model) (val : valuation) (vs : list var) :
  feasible m val = true -> extends m' m ->
  Forall (fun v => domains m' !! v = Some (0, 1)) vs ->
  Forall (fun v => val v = 0 \/ val v = 1) vs.
Proof.
  intros Hfeas Hext H. eapply List.Forall_impl; [| exact H].
  intros v Hv. simpl in Hv.
  pose proof (feasible_domain m val v (0, 1) Hfeas
                (extends_domain _ _ _ _ Hext Hv)) as Hr.
  simpl in Hr. lia.
Qed.

(** What a solution satisfies for one crew member and one day. *)
Lemma day_caps_sound (b : Loader.DataBundle) (w : Objective.Weights)
    (art : ModelArtifacts) (m : model) (val : valuation)
    (c : Models.Crew) (d : string) :
  Objective.exact_model b w = Some (art, m) ->
  feasible m val = true ->
  c ∈ Loader.crew b -> d ∈ Loader.operating_days b ->
  let cap := Models.daily_cap_for_role (Loader.rules b)
               (Models.role_key (Models.role c)) * 60 in
  let ws := fst (Models.wocl_window_times (Loader.rules b)) in
  let we := snd (Models.wocl_window_times (Loader.rules b)) in
  exists elig entries,
    Eligibility.build_eligibility b = Some elig
    /\ day_entries b elig (Models.crew_id c) d (x art) = Some entries
    /\ (forall e, e ∈ entries -> val (snd (fst e)) = 0 \/ val (snd (fst e)) = 1)
    /\ Spec.day_minutes val entries <= cap
    /\ Spec.day_landings val entries <= 6
    /\ (8 * 60 < Spec.day_minutes val entries ->
        Spec.day_landings val entries <= 3)
    /\ (11 * 60 < Spec.day_minutes val entries ->
        Spec.day_landings val entries <= 1)
    /\ (1 <= Py.zsum (map (fun e => val (snd (fst e)))
                 (List.filter (fun e => dep_in_wocl ws we
                                 (Py.time_of (Models.dep_dt (snd e))))
                    entries)) ->
        Spec.day_minutes val entries
        <= cap - Z.min cap (wocl_len_minutes (Loader.rules b)))
    /\ (1 <= Py.zsum (map (fun e => val (snd (fst e)))
                 (List.filter (fun e => Models.in_night_window
                                 (Models.dep_dt (snd e)) (Models.arr_dt (snd e))
                                 ws we) entries)) ->
        Spec.day_minutes val entries
        <= cap - Z.min cap (wocl_len_minutes (Loader.rules b) / 2)).
Proof.
  intros Hm Hfeas Hc Hd cap ws we. subst cap ws we.
  destruct (exact_model_runs b w art m Hm)
    as (elig & m1 & Hel & Hdv & Hext1 & _ & _ & _ & _
        & (m0 & m' & Hcaps & Hext) & _).
  unfold daily_and_weekly_caps in Hcaps.
  eapply fold_each_run in Hcaps as (s1 & ma & s2 & mb & Hrun & _ & E);
    [| intros; apply grows_crew_caps | exact Hc].
  destruct (crew_caps_run _ _ _ _ _ _ _ _ Hrun)
    as (tot & terms & ot & _ & _ & _ & _ & _ & _ & _ & Hdays).
  destruct (Hdays d Hd) as (mc & md & dvar & Hday & E').
  destruct (day_caps_run _ _ _ _ _ _ _ _ _ Hday)
    as (entries & fcnt & swc & owc & b1 & b2 & b3 & i1 & i2
        & Hent & Hdom & Hcts).
  assert (Hfin : extends md m) by eauto using extends_trans.
  pose proof (sat_all _ _ _ _ Hfeas Hfin Hcts) as Hsat.
  pose proof (boolean_all _ _ _ _ Hfeas Hfin Hdom) as Hbool.
  clear Hcts Hdom.
  exists elig, entries. split; [exact Hel |]. split; [exact Hent |].
  assert (Hx : forall e, e ∈ entries ->
                 val (snd (fst e)) = 0 \/ val (snd (fst e)) = 1).
  { intros e He.
    destruct (decision_vars_spec _ _ _ _ _ Hdv) as (Hdomx & _).
    pose proof (day_entries_facts b elig _ _ _ _ Hent) as Hf.
    rewrite Forall_forall in Hf.
    destruct (Hf e He) as (k & m0' & Hin & _).
    pose proof (feasible_domain m val _ (0, 1) Hfeas
                  (extends_domain _ _ _ _ Hext1 (Hdomx _ _ Hin))) as Hr.
    simpl in Hr. lia. }
  split; [exact Hx |].
  repeat match goal with
         | H : Forall _ (_ :: _) |- _ =>
             apply Forall_cons in H as [? H]
         end.
  repeat match goal with
         | H : sat val (sum_constraint _ _) = true |- _ =>
             apply sat_sum_constraint in H
         end.
  repeat match goal with
         | H : sat val _ = true |- _ => cbn [sat eval holds_cmp lit_true
             pos neg lit_var lit_positive] in H
         end.
  rewrite eval_day_minutes in *.
  rewrite !eval_var_sum in *.
  fold (Spec.day_landings val entries) in *.
  repeat match goal with
         | H : (_ || _) = true |- _ => apply orb_true_iff in H
         | H : (_ <=? _) = true |- _ => apply Z.leb_le in H
         | H : (_ =? _) = true |- _ => apply Z.eqb_eq in H
         end.
  repeat match goal with
         | H : negb (_ =? _) = true \/ _ |- _ =>
             rewrite negb_true_iff, Z.eqb_neq, Z.leb_le in H
         end.
  repeat match goal with
         | H : negb (_ =? _) = true \/ (_ =? _) = true |- _ =>
             rewrite negb_true_iff, Z.eqb_neq, Z.eqb_eq in H
         end.
  repeat split; intros; lia.
Qed.

End DailyCapsClaims.

Section DailyCapsTheorems.
Import CpModel CpLogic Constraints.

(** X8: in every solution of the exact model, for every crew member and
    operating day, the minutes of the selected flights of that day stay
    within the daily cap of the crew member's normalised role, at most 6
    flights are selected, at most 3 when the minutes exceed 8 hours and
    at most 1 when they exceed 11 hours. *)
Theorem daily_duty_and_landing_caps (b : Loader.DataBundle)
    (w : Objective.Weights) (art : ModelArtifacts) (m : model)
    (val : valuation) (c : Models.Crew) (d : string) :
  Objective.exact_model b w = Some (art, m) ->
  feasible m val = true ->
  c ∈ Loader.crew b -> d ∈ Loader.operating_days b ->
  exists elig entries,
    Eligibility.build_eligibility b = Some elig
    /\ day_entries b elig (Models.crew_id c) d (x art) = Some entries
    /\ Spec.day_minutes val entries
       <= Models.daily_cap_for_role (Loader.rules b)
            (Models.role_key (Models.role c)) * 60
    /\ Spec.day_landings val entries <= 6
    /\ (8 * 60 < Spec.day_minutes val entries ->
        Spec.day_landings val entries <= 3)
    /\ (11 * 60 < Spec.day_minutes val entries ->
        Spec.day_landings val entries <= 1).
Proof.
  intros Hm Hfeas Hc Hd.
  destruct (day_caps_sound b w art m val c d Hm Hfeas Hc Hd)
    as (elig & entries & H1 & H2 & _ & H3 & H4 & H5 & H6 & _).
  exists elig, entries. auto 10.
Qed.

Lemma daily_duty_and_landing_caps_witness :
  exists art m elig entries,
    Objective.exact_model Examples.rest_bundle Objective.default_weights
    = Some (art, m)
    /\ Eligibility.build_eligibility Examples.rest_bundle = Some elig
    /\ day_entries Examples.rest_bundle elig "A" "2025-09-08" (x art)
       = Some entries
    /\ Spec.day_minutes Examples.rest_solution entries <= 10 * 60
    /\ Spec.day_landings Examples.rest_solution entries <= 6.
Proof.
  destruct (Objective.exact_model Examples.rest_bundle
              Objective.default_weights) as [[art m] |] eqn:Hm;
    [| vm_compute in Hm; discriminate].
  assert (Hfeas : feasible m Examples.rest_solution = true).
  { vm_compute in Hm. injection Hm as <- <-. vm_compute. reflexivity. }
  destruct (daily_duty_and_landing_caps Examples.rest_bundle
              Objective.default_weights art m Examples.rest_solution
              (Examples.captain "A") "2025-09-08" Hm Hfeas
              ltac:(left) ltac:(left))
    as (elig & entries & H1 & H2 & H3 & H4 & _).
  exists art, m, elig, entries. auto.
Defined.

(** X9: in every solution of the exact model, a day on which a crew
    member has a selected flight that departs inside the WOCL window is
    capped at the daily cap minus the window length (or at zero when the
    window is longer than the cap), and a day with a selected flight that
    touches the window, as [in_night_window] tests it, at the daily cap
    minus half the window length. *)
Theorem wocl_flights_reduce_the_daily_cap (b : Loader.DataBundle)
    (w : Objective.Weights) (art : ModelArtifacts) (m : model)
    (val : valuation) (c : Models.Crew) (d : string) :
  Objective.exact_model b w = Some (art, m) ->
  feasible m val = true ->
  c ∈ Loader.crew b -> d ∈ Loader.operating_days b ->
  exists elig entries,
    Eligibility.build_eligibility b = Some elig
    /\ day_entries b elig (Models.crew_id c) d (x art) = Some entries
    /\ forall e, e ∈ entries -> val (snd (fst e)) = 1 ->
         let cap := Models.daily_cap_for_role (Loader.rules b)
                      (Models.role_key (Models.role c)) * 60 in
         let ws := fst (Models.wocl_window_times (Loader.rules b)) in
         let we := snd (Models.wocl_window_times (Loader.rules b)) in
         (dep_in_wocl ws we (Py.time_of (Models.dep_dt (snd e))) = true ->
          Spec.day_minutes val entries
          <= cap - Z.min cap (wocl_len_minutes (Loader.rules b)))
         /\ (Models.in_night_window (Models.dep_dt (snd e))
               (Models.arr_dt (snd e)) ws we = true ->
             Spec.day_minutes val entries
             <= cap - Z.min cap (wocl_len_minutes (Loader.rules b) / 2)).
Proof.
  intros Hm Hfeas Hc Hd.
  destruct (day_caps_sound b w art m val c d Hm Hfeas Hc Hd)
    as (elig & entries & H1 & H2 & Hx & _ & _ & _ & _ & Hs & Ho).
  exists elig, entries. split; [exact H1 |]. split; [exact H2 |].
  intros e He Hsel cap ws we.
  assert (Hge : forall (P : Z * var * Models.Flight -> bool),
            P e = true ->
            1 <= Py.zsum (map (fun e => val (snd (fst e)))
                            (List.filter P entries))).
  { intros P HP. rewrite <- Hsel.
    apply (zsum_nonneg_elem (fun e => val (snd (fst e)))).
    - intros e' He'. apply list_elem_of_In, filter_In in He' as [He' _].
      apply list_elem_of_In in He'. destruct (Hx e' He'); lia.
    - apply list_elem_of_In, filter_In.
      split; [now apply list_elem_of_In | exact HP]. }
  split; intros HP.
  - apply Hs. now apply (Hge (fun e => dep_in_wocl _ _ _)).
  - apply Ho. now apply (Hge (fun e => Models.in_night_window _ _ _ _)).
Qed.

End DailyCapsTheorems.

Section WoclExample.
Import CpModel CpLogic Constraints.

Lemma wocl_flights_reduce_the_daily_cap_witness :
  exists art m elig entries,
    Objective.exact_model Examples.wocl_bundle Objective.default_weights
    = Some (art, m)
    /\ feasible m Examples.wocl_solution = true
    /\ Eligibility.build_eligibility Examples.wocl_bundle = Some elig
    /\ day_entries Examples.wocl_bundle elig "A" "2025-09-08" (x art)
       = Some entries
    /\ Spec.day_minutes Examples.wocl_solution entries = 60
    /\ Spec.day_minutes Examples.wocl_solution entries <= 10 * 60 - 4 * 60.
Proof.
  destruct (Objective.exact_model Examples.wocl_bundle
              Objective.default_weights) as [[art m] |] eqn:Hm;
    [| vm_compute in Hm; discriminate].
  assert (Hfeas : feasible m Examples.wocl_solution = true).
  { vm_compute in Hm. injection Hm as <- <-. vm_compute. reflexivity. }
  destruct (wocl_flights_reduce_the_daily_cap Examples.wocl_bundle
              Objective.default_weights art m Examples.wocl_solution
              (Examples.captain "A") "2025-09-08" Hm Hfeas
              ltac:(left) ltac:(left))
    as (elig & entries & H1 & H2 & H3).
  exists art, m, elig, entries.
  split; [reflexivity |]. split; [exact Hfeas |].
  split; [exact H1 |]. split; [exact H2 |].
  vm_compute in Hm. injection Hm as <- <-.
  vm_compute in H1. injection H1 as <-.
  vm_compute in H2. injection H2 as <-.
  split; [reflexivity |].
  apply (H3 (60, 0%nat,
             Examples.captain_flight "F1" "DEL" "BOM"
               (Examples.hm 3 0) (Examples.hm 4 0))).
  - left.
  - reflexivity.
  - reflexivity.
Defined.

End WoclExample.

(** ** Weekly totals and overtime in the exact path *)

Section WeeklyCaps.
Import CpModel CpLogic Constraints.

Lemma fold_each_invariant {A S} (l : list A) (body : S -> A -> M S)
    (I : S -> model -> Prop) (s s' : S) (m m' : model) :
  (forall s a m s' m',
     a ∈ l -> I s m -> body s a m = Some (s', m') -> I s' m') ->
  I s m -> fold_each l s body m = Some (s', m') -> I s' m'.
Proof.
  revert s m. induction l as [| a l IH]; intros s m Hstep HI H.
  - simpl in H. apply ret_run in H as [-> ->]. exact HI.
  - simpl in H. apply bind_Some in H as (s1 & m1 & Hb & Hrest).
    apply (IH s1 m1); [| | exact Hrest].
    + intros. eapply Hstep; eauto. now right.
    + eapply Hstep; eauto. left.
Qed.

(** The total and overtime variables that the caps phase records: each
    stands for a crew member of the bundle and carries that crew member's
    constraints. *)
Lemma caps_dictionaries (b : Loader.DataBundle)
    (elig : Eligibility.EligibilityBundle) (x : xdict) (m0 m' : model)
    (mtc : list (string * var)) (mbd : list ((string * string) * var))
    (otc : list (string * var)) :
  daily_and_weekly_caps b elig x m0 = Some ((mtc, mbd, otc), m') ->
  (forall c_id tot, (c_id, tot) ∈ mtc ->
     exists terms,
       total_terms elig c_id x = Some terms
       /\ sum_constraint tot (map term_expr terms) ∈ constraints m')
  /\ (forall c_id ot, (c_id, ot) ∈ otc ->
        exists c tot terms,
          c ∈ Loader.crew b /\ Models.crew_id c = c_id
          /\ total_terms elig c_id x = Some terms
          /\ sum_constraint tot (map term_expr terms) ∈ constraints m'
          /\ domains m' !! ot = Some (0, 10000000)
          /\ Linear (EVar ot) Ge
               (ESub (EVar tot)
                  (EInt (default (Models.weekly_max_duty_hrs_default
                                    (Loader.rules b))
                                 (Models.weekly_max_duty_hrs c) * 60))) None
             ∈ constraints m')
  /\ map fst mtc = Py.first_keys (map Models.crew_id (Loader.crew b)).
Proof.
  unfold daily_and_weekly_caps. intros H.
  set (I := fun (st : caps_state) (m : model) =>
    (forall c_id tot, (c_id, tot) ∈ fst (fst st) ->
       exists terms,
         total_terms elig c_id x = Some terms
         /\ sum_constraint tot (map term_expr terms) ∈ constraints m)
    /\ (forall c_id ot, (c_id, ot) ∈ snd st ->
          exists c tot terms,
            c ∈ Loader.crew b /\ Models.crew_id c = c_id
            /\ total_terms elig c_id x = Some terms
            /\ sum_constraint tot (map term_expr terms) ∈ constraints m
            /\ domains m !! ot = Some (0, 10000000)
            /\ Linear (EVar ot) Ge
                 (ESub (EVar tot)
                    (EInt (default (Models.weekly_max_duty_hrs_default
                                      (Loader.rules b))
                                   (Models.weekly_max_duty_hrs c) * 60))) None
               ∈ constraints m)).
  assert (HI : I (mtc, mbd, otc) m').
  { eapply (fold_each_invariant _ _ I); [| | exact H].
    - intros st c m st' m1 Hc [I1 I2] Hrun.
      pose proof (grows_crew_caps _ _ _ _ _ _ _ _ Hrun) as E.
      destruct (crew_caps_run _ _ _ _ _ _ _ _ Hrun)
        as (tot & terms & ot & Ht & E1 & E2 & Dot & C1 & C2 & _).
      split.
      + intros c_id tot' Hin. rewrite E1 in Hin.
        apply elem_of_dict_set in Hin as [[= -> ->] | Hin]; [eauto |].
        destruct (I1 _ _ Hin) as (terms' & ? & ?).
        eauto using extends_constraint.
      + intros c_id ot' Hin. rewrite E2 in Hin.
        apply elem_of_dict_set in Hin as [[= -> ->] | Hin].
        * exists c, tot, terms. auto 10.
        * destruct (I2 _ _ Hin) as (c' & tot' & terms' & ? & ? & ? & ? & ? & ?).
          exists c', tot', terms'.
          eauto 10 using extends_constraint, extends_domain.
    - split; intros ? ? Hin; inversion Hin. }
  destruct HI as [I1 I2]. split; [exact I1 | split; [exact I2 |]].
  assert (Hkeys : forall l st0 m1 st1 m2,
    fold_each l st0 (crew_caps b elig x) m1 = Some (st1, m2) ->
    map fst (fst (fst st1))
    = foldl (fun ks k => if bool_decide (k ∈ ks) then ks else ks ++ [k])
            (map fst (fst (fst st0))) (map Models.crew_id l)).
  { induction l as [| c l IH]; intros st0 m1 st1 m2 Hf.
    - simpl in Hf. apply ret_run in Hf as [-> ->]. reflexivity.
    - simpl in Hf. apply bind_Some in Hf as (sa & ma & Hb & Hrest).
      rewrite (IH _ _ _ _ Hrest). cbn [map foldl].
      destruct (crew_caps_run _ _ _ _ _ _ _ _ Hb)
        as (tot & terms & ot & _ & E1 & _).
      rewrite E1, dict_set_fst. reflexivity. }
  pose proof (Hkeys _ _ _ _ _ H) as Hk. cbn [fst snd map] in Hk.
  rewrite Hk.
  clear. generalize (map Models.crew_id (Loader.crew b)). intros l.
  induction l as [| k l IH] using rev_ind; [reflexivity |].
  rewrite foldl_app, first_keys_snoc. cbn [foldl]. rewrite IH.
  destruct (decide (k ∈ l)) as [Hin | Hnin].
  - rewrite !bool_decide_eq_true_2;
      [reflexivity | exact Hin | now apply elem_of_first_keys].
  - rewrite !bool_decide_eq_false_2;
      [reflexivity | exact Hnin | now rewrite elem_of_first_keys].
Qed.

End WeeklyCaps.

Section WeeklyCapsTheorems.
Import CpModel CpLogic Constraints.

Lemma sat_total_sum (elig : Eligibility.EligibilityBundle) (x : xdict)
    (val : valuation) (c_id : string) (tot : var) (terms : list (Z * var)) :
  total_terms elig c_id x = Some terms ->
  sat val (sum_constraint tot (map term_expr terms)) = true ->
  val tot = Spec.assigned_minutes elig x val c_id.
Proof.
  intros Ht Hs. apply sat_sum_constraint in Hs.
  unfold Spec.assigned_minutes. rewrite Ht, Hs, map_map. reflexivity.
Qed.

(** X10: in every solution of the exact model, the minutes assigned to a
    crew member (the sum, over the decision variables of that crew that
    are set, of the flight minutes) stay within the seven-day flight-time
    limit, 40 hours when the rules give none; and every overtime variable
    that the objective sums is non-negative and at least the minutes of
    its crew member above that member's weekly cap. *)
Theorem weekly_flight_time_cap_and_overtime (b : Loader.DataBundle)
    (w : Objective.Weights) (art : ModelArtifacts) (m : model)
    (val : valuation) :
  Objective.exact_model b w = Some (art, m) ->
  feasible m val = true ->
  exists elig,
    Eligibility.build_eligibility b = Some elig
    /\ (forall c, c ∈ Loader.crew b ->
          Spec.assigned_minutes elig (x art) val (Models.crew_id c)
          <= default 40 (Models.ft_hours_7_days (Loader.rules b)) * 60)
    /\ (forall c_id ot, (c_id, ot) ∈ overtime_by_crew art ->
          exists c, c ∈ Loader.crew b /\ Models.crew_id c = c_id
            /\ 0 <= val ot
            /\ Spec.assigned_minutes elig (x art) val c_id
               - default (Models.weekly_max_duty_hrs_default (Loader.rules b))
                         (Models.weekly_max_duty_hrs c) * 60
               <= val ot).
Proof.
  intros Hm Hfeas.
  destruct (exact_model_runs b w art m Hm)
    as (elig & m1 & Hel & Hdv & Hext1 & _ & _ & _ & _
        & (m0 & m' & Hcaps & Hext) & _).
  exists elig. split; [exact Hel |]. split.
  - intros c Hc. unfold daily_and_weekly_caps in Hcaps.
    eapply fold_each_run in Hcaps as (s1 & ma & s2 & mb & Hrun & _ & E);
      [| intros; apply grows_crew_caps | exact Hc].
    destruct (crew_caps_run _ _ _ _ _ _ _ _ Hrun)
      as (tot & terms & ot & Ht & _ & _ & _ & C1 & _ & C3 & _).
    assert (Hfin : extends mb m) by eauto using extends_trans.
    pose proof (feasible_sat _ _ _ Hfeas
                  (extends_constraint _ _ _ Hfin C1)) as S1.
    pose proof (feasible_sat _ _ _ Hfeas
                  (extends_constraint _ _ _ Hfin C3)) as S3.
    rewrite <- (sat_total_sum _ _ _ _ _ _ Ht S1).
    simpl in S3. now apply Z.leb_le in S3.
  - intros c_id ot Hin.
    destruct (caps_dictionaries _ _ _ _ _ _ _ _ Hcaps) as (_ & I2 & _).
    destruct (I2 _ _ Hin) as (c & tot & terms & Hc & Hid & Ht & C1 & D & C2).
    exists c. split; [exact Hc |]. split; [exact Hid |].
    pose proof (feasible_sat _ _ _ Hfeas
                  (extends_constraint _ _ _ Hext C1)) as S1.
    pose proof (feasible_sat _ _ _ Hfeas
                  (extends_constraint _ _ _ Hext C2)) as S2.
    pose proof (feasible_domain m val ot _ Hfeas
                  (extends_domain _ _ _ _ Hext D)) as Hd.
    rewrite <- (sat_total_sum _ _ _ _ _ _ Ht S1).
    simpl in S2, Hd. apply Z.leb_le in S2. lia.
Qed.

Lemma weekly_flight_time_cap_and_overtime_witness :
  exists art m elig,
    Objective.exact_model Examples.rest_bundle Objective.default_weights
    = Some (art, m)
    /\ Eligibility.build_eligibility Examples.rest_bundle = Some elig
    /\ Spec.assigned_minutes elig (x art) Examples.rest_solution "A" = 120
    /\ Spec.assigned_minutes elig (x art) Examples.rest_solution "A"
       <= 40 * 60.
Proof.
  destruct (Objective.exact_model Examples.rest_bundle
              Objective.default_weights) as [[art m] |] eqn:Hm;
    [| vm_compute in Hm; discriminate].
  assert (Hfeas : feasible m Examples.rest_solution = true).
  { vm_compute in Hm. injection Hm as <- <-. vm_compute. reflexivity. }
  destruct (weekly_flight_time_cap_and_overtime Examples.rest_bundle
              Objective.default_weights art m Examples.rest_solution
              Hm Hfeas) as (elig & H1 & H2 & _).
  exists art, m, elig. split; [reflexivity |]. split; [exact H1 |].
  split; [| exact (H2 (Examples.captain "A") ltac:(left))].
  vm_compute in Hm. injection Hm as <- <-.
  vm_compute in H1. injection H1 as <-. vm_compute. reflexivity.
Defined.

(** X11: the fairness part of the objective ties the average to the
    totals by an exact product, so in every solution of the exact model
    the minutes assigned to all crew members together are a multiple of
    the number of distinct crew identifiers. *)
Theorem total_minutes_multiple_of_crew_count (b : Loader.DataBundle)
    (w : Objective.Weights) (art : ModelArtifacts) (m : model)
    (val : valuation) :
  Objective.exact_model b w = Some (art, m) ->
  feasible m val = true ->
  exists elig avg,
    Eligibility.build_eligibility b = Some elig
    /\ 0 <= avg
    /\ Py.zsum (map (Spec.assigned_minutes elig (x art) val)
                    (Py.first_keys (map Models.crew_id (Loader.crew b))))
       = avg * Z.max 1 (Z.of_nat (length (Py.first_keys
                                   (map Models.crew_id (Loader.crew b))))).
Proof.
  intros Hm Hfeas.
  destruct (exact_model_runs b w art m Hm)
    as (elig & m1 & Hel & Hdv & Hext1 & _ & _ & _ & _
        & (m0 & m' & Hcaps & Hext) & _ & _ & (mo & Hobj)).
  destruct (caps_dictionaries _ _ _ _ _ _ _ _ Hcaps) as (I1 & _ & Hkeys).
  unfold Objective.add_objective in Hobj.
  apply bind_Some in Hobj as (S & ma & HS & Hobj).
  apply bind_Some in Hobj as ([] & mb & Hsum & Hobj).
  apply bind_Some in Hobj as (avg & mc & Havg & Hobj).
  apply bind_Some in Hobj as ([] & md & Hmul & Hobj).
  assert (Hfin : extends md m).
  { match type of Hobj with
    | ?c md = _ =>
        assert (Gt : grows c) by (grow; apply grows_preference_penalty)
    end.
    eapply Gt. exact Hobj. }
  pose proof (AddConstraint_run _ _ _ _ Hsum) as C1.
  pose proof (AddConstraint_run _ _ _ _ Hmul) as C2.
  pose proof (grows_AddConstraint _ _ _ _ Hmul) as G2.
  pose proof (grows_NewIntVar _ _ _ _ _ Havg) as G1.
  apply NewIntVar_run in Havg as [_ Davg].
  pose proof (feasible_sat _ _ _ Hfeas
    (extends_constraint _ _ _
       (extends_trans _ _ _ G1 (extends_trans _ _ _ G2 Hfin)) C1)) as S1.
  pose proof (feasible_sat _ _ _ Hfeas
                (extends_constraint _ _ _ Hfin C2)) as S2.
  pose proof (feasible_domain m val avg _ Hfeas
    (extends_domain _ _ _ _ (extends_trans _ _ _ G2 Hfin) Davg)) as Hd.
  exists elig, (val avg). split; [exact Hel |]. split; [simpl in Hd; lia |].
  simpl in S1, S2. apply Z.eqb_eq in S1, S2.
  rewrite eval_esum, map_map in S1. cbn [eval] in S1.
  rewrite <- Hkeys, length_map, map_map.
  transitivity (val S); [| rewrite S2; lia].
  rewrite S1. f_equal. apply map_ext_in. intros [c_id tot] Hin.
  apply list_elem_of_In in Hin. cbn [fst snd].
  destruct (I1 _ _ Hin) as (terms & Ht & C).
  symmetry. eapply sat_total_sum; [exact Ht |].
  eapply feasible_sat; [exact Hfeas |].
  eapply extends_constraint; [exact Hext | exact C].
Qed.

Lemma total_minutes_multiple_of_crew_count_witness :
  exists art m elig avg,
    Objective.exact_model Examples.rest_bundle Objective.default_weights
    = Some (art, m)
    /\ Eligibility.build_eligibility Examples.rest_bundle = Some elig
    /\ 0 <= avg
    /\ Py.zsum (map (Spec.assigned_minutes elig (x art) Examples.rest_solution)
                    (Py.first_keys
                       (map Models.crew_id (Loader.crew Examples.rest_bundle))))
       = avg * Z.max 1 (Z.of_nat (length (Py.first_keys
                 (map Models.crew_id (Loader.crew Examples.rest_bundle))))).
Proof.
  destruct (Objective.exact_model Examples.rest_bundle
              Objective.default_weights) as [[art m] |] eqn:Hm;
    [| vm_compute in Hm; discriminate].
  assert (Hfeas : feasible m Examples.rest_solution = true).
  { vm_compute in Hm. injection Hm as <- <-. vm_compute. reflexivity. }
  destruct (total_minutes_multiple_of_crew_count Examples.rest_bundle
              Objective.default_weights art m Examples.rest_solution
              Hm Hfeas) as (elig & avg & H1 & H2 & H3).
  exists art, m, elig, avg. auto.
Defined.

End WeeklyCapsTheorems.

(** ** The roster that the exact path reads out *)

Section ExactRoster.
Import CpModel CpLogic Constraints.

Lemma elem_of_extract_assignments (x : xdict) (val : valuation)
    (a : Objective.Assignment) :
  a ∈ Objective.extract_assignments x val <->
  exists k v, (k, v) ∈ x /\ val v = 1
    /\ a = {| Objective.a_crew_id := key_crew k;
              Objective.a_role := key_role k;
              Objective.a_flight_id := key_flight k |}.
Proof.
  unfold Objective.extract_assignments. rewrite list_elem_of_fmap. split.
  - intros ([k v] & -> & Hin).
    apply list_elem_of_In, filter_In in Hin as [Hin Hv].
    apply Z.eqb_eq in Hv. exists k, v.
    split; [now apply list_elem_of_In |]. split; [exact Hv | reflexivity].
  - intros (k & v & Hin & Hv & ->). exists (k, v). split; [reflexivity |].
    apply list_elem_of_In, filter_In. split; [now apply list_elem_of_In |].
    now apply Z.eqb_eq.
Qed.

(** X12: every entry of a roster that the exact path returns seats a crew
    member of the bundle on a flight of the bundle, in the role that the
    crew member's role normalises to, on an aircraft type that the crew
    member's qualification string lists, on a day for which the crew
    member is not recorded sick. *)
Theorem exact_roster_seats_only_eligible_crew (b : Loader.DataBundle)
    (w : Objective.Weights) (assignments : list Objective.Assignment)
    (a : Objective.Assignment) :
  Loader.indexed b ->
  Objective.exact_solution b w assignments ->
  a ∈ assignments ->
  exists fl cr,
    Loader.flights_by_id b !! Objective.a_flight_id a = Some fl
    /\ cr ∈ Loader.crew b
    /\ Models.crew_id cr = Objective.a_crew_id a
    /\ Models.role_key (Models.role cr) = Objective.a_role a
    /\ fl ∈ Loader.flights b
    /\ In (Models.aircraft_type fl)
          (Py.split "|" (Models.qualified_types cr))
    /\ Eligibility._flight_day_str (Models.dep_dt fl)
       ∉ Spec.sick_dates b (Objective.a_crew_id a).
Proof.
  intros Hidx (art & m & val & Hm & Hfeas & ->) Ha.
  apply elem_of_extract_assignments in Ha as (k & v & Hin & Hv & ->).
  destruct (exact_model_phases b w art m Hm)
    as (elig & ivs & m1 & Hel & Hdv & _).
  destruct (decision_vars_spec _ _ _ _ _ Hdv) as (_ & Hkeys).
  assert (Hk : k ∈ Eligibility.eligible elig) by (apply Hkeys; eauto).
  apply (elem_of_eligible b elig _ Hel) in Hk
    as (slot & fl & day_str & Hs & Hfl & Hd & Hk).
  apply elem_of_eligible_for_slot in Hk as (cr & Hcr & -> & H1 & H2 & H3).
  rewrite (day_by_flight_lookup b elig _ _ Hidx Hel Hfl) in Hd.
  injection Hd as <-. cbn [key_crew key_flight key_role
    Objective.a_crew_id Objective.a_role Objective.a_flight_id].
  exists fl, cr. split; [exact Hfl |]. split; [exact Hcr |].
  split; [reflexivity |]. split; [now apply String.eqb_eq in H1 |].
  split.
  - destruct Hidx as [Hfb _]. rewrite Hfb in Hfl.
    now apply index_by_lookup_Some in Hfl as (f' & Hf' & _ & <-).
  - split; [now apply str_in_In | now apply can_work_iff].
Qed.

End ExactRoster.

Section ExactRosterSeats.
Import CpModel CpLogic Constraints.

Lemma list_sum_indicator (i n : nat) :
  (i < n)%nat ->
  list_sum (map (fun s => if Nat.eqb i s then 1%nat else 0%nat) (seq 0 n))
  = 1%nat.
Proof.
  intros Hi.
  assert (G : forall k start, (start <= i < start + k)%nat ->
    list_sum (map (fun s => if Nat.eqb i s then 1%nat else 0%nat)
                  (seq start k)) = 1%nat
    /\ forall start', (i < start')%nat ->
       list_sum (map (fun s => if Nat.eqb i s then 1%nat else 0%nat)
                     (seq start' k)) = 0%nat).
  { induction k as [| k IH]; intros start Hr; [lia |].
    assert (Z0 : forall j start', (i < start')%nat ->
       list_sum (map (fun s => if Nat.eqb i s then 1%nat else 0%nat)
                     (seq start' j)) = 0%nat).
    { induction j as [| j IHj]; intros start' Hs; [reflexivity |].
      simpl. destruct (Nat.eqb_spec i start'); [lia |].
      now rewrite IHj by lia. }
    split; [| apply Z0].
    simpl. destruct (Nat.eqb_spec i start) as [-> | Hne].
    - now rewrite Z0 by lia.
    - destruct (IH (S start)) as [E _]; [lia |]. now rewrite E. }
  destruct (G n 0%nat) as [E _]; [lia | exact E].
Qed.

Lemma list_sum_map_add {A} (f g : A -> nat) (l : list A) :
  list_sum (map (fun a => (f a + g a)%nat) l)
  = (list_sum (map f l) + list_sum (map g l))%nat.
Proof. induction l as [| a l IH]; simpl; lia. Qed.

(** Counting the elements that pass a test by an index below [n]. *)
Lemma length_filter_by_index {A} (P : A -> bool) (idx : A -> nat) (n : nat)
    (l : list A) :
  (forall a, a ∈ l -> P a = true -> (idx a < n)%nat) ->
  length (List.filter P l)
  = list_sum (map (fun s =>
                     length (List.filter
                               (fun a => P a && Nat.eqb (idx a) s) l))
                  (seq 0 n)).
Proof.
  induction l as [| a l IH]; intros Hb.
  - simpl. induction (seq 0 n) as [| s ss IHs]; [reflexivity | exact IHs].
  - assert (Hl : forall a', a' ∈ l -> P a' = true -> (idx a' < n)%nat)
      by (intros a' Ha'; apply Hb; now right).
    specialize (IH Hl). cbn [List.filter].
    destruct (P a) eqn:Pa.
    + transitivity
        (list_sum
           (map (fun s =>
                   ((if Nat.eqb (idx a) s then 1 else 0)
                    + length (List.filter
                                (fun a0 => P a0 && Nat.eqb (idx a0) s) l))%nat)
                (seq 0 n))).
      * rewrite list_sum_map_add, list_sum_indicator, <- IH;
          [reflexivity | apply Hb; [left | exact Pa]].
      * f_equal. apply map_ext. intros s. cbn [andb].
        now destruct (Nat.eqb (idx a) s).
    + rewrite IH. f_equal.
Qed.

Lemma list_sum_const (l : list nat) (f : nat -> nat) :
  (forall s, s ∈ l -> f s = 1%nat) ->
  list_sum (map f l) = length l.
Proof.
  induction l as [| s l IH]; intros H; [reflexivity |]. simpl.
  rewrite H by left. rewrite IH; [reflexivity |].
  intros s' Hs'. apply H. now right.
Qed.

Lemma count_set_vars_where (x : xdict) (val : valuation) (p : key -> bool) :
  count_set val (vars_where x p)
  = length (List.filter (fun e => p (fst e) && (val (snd e) =? 1)) x).
Proof.
  unfold count_set, vars_where.
  induction x as [| [k v] x IH]; [reflexivity |].
  cbn [List.filter map fst snd].
  destruct (p k); cbn [List.filter map andb snd];
    [destruct (val v =? 1); cbn [length] |]; now rewrite IH.
Qed.

(** With distinct flight identifiers, the read-out of a solution has,
    for every flight and every role, exactly as many entries as the
    flight requires seats of that role; a role other than the four
    normalised ones has none. *)
Lemma solution_fills_every_required_seat (b : Loader.DataBundle)
    (w : Objective.Weights) (assignments : list Objective.Assignment)
    (f : Models.Flight) (r : string) :
  NoDup (map Models.flight_id (Loader.flights b)) ->
  Objective.exact_solution b w assignments ->
  f ∈ Loader.flights b ->
  length (List.filter
            (fun a => String.eqb (Objective.a_flight_id a) (Models.flight_id f)
                      && String.eqb (Objective.a_role a) r)
            assignments)
  = Z.to_nat (Spec.seats_needed f r).
Proof.
  intros Hnd (art & m & val & Hm & Hfeas & ->) Hf.
  destruct (exact_model_phases b w art m Hm)
    as (elig & ivs & m1 & Hel & Hdv & Hrs & Hext & Hcov & _).
  destruct (decision_vars_spec _ _ _ _ _ Hdv) as (Hdom & Hkeys).
  pose proof (build_eligibility_maps b elig Hel) as (Hslots & _).
  set (fid := Models.flight_id f).
  set (P := fun e : key * var =>
              (String.eqb (key_flight (fst e)) fid
               && String.eqb (key_role (fst e)) r)
              && (val (snd e) =? 1)).
  transitivity (length (List.filter P (x art))).
  { unfold Objective.extract_assignments, P. generalize (x art) as l.
    intros l. induction l as [| [k v] l IH]; [reflexivity |].
    cbn [List.filter map fst snd].
    destruct (val v =? 1) eqn:Hv;
      destruct (String.eqb (key_flight k) fid && String.eqb (key_role k) r)
        eqn:Hk;
      cbn [List.filter map length fst snd andb Objective.a_role
           Objective.a_flight_id];
      rewrite ?Hk; cbn [length]; rewrite IH; reflexivity. }
  assert (Hslot_iff : forall s,
    Eligibility.Build_RoleSlot fid r s ∈ Eligibility.build_role_slots b
    <-> Z.of_nat s < Spec.seats_needed f r).
  { intros s. unfold Eligibility.build_role_slots.
    rewrite list_elem_of_In, in_concat. split.
    - intros (l & Hl & Hs). apply in_map_iff in Hl as (f' & <- & Hf').
      apply list_elem_of_In, elem_of_slots_of_flight in Hs as [Hid Hlt].
      simpl in Hid, Hlt.
      assert (f' = f) as ->; [| exact Hlt].
      apply list_elem_of_In in Hf'.
      apply list_elem_of_lookup in Hf' as (i & Hi).
      apply list_elem_of_lookup in Hf as (j & Hj).
      assert (i = j) as ->; [| congruence].
      eapply NoDup_lookup; [exact Hnd | |];
        rewrite list_lookup_fmap; [rewrite Hi | rewrite Hj]; simpl;
        [now rewrite <- Hid | reflexivity].
    - intros Hlt. exists (Eligibility.slots_of_flight f).
      split; [apply in_map, list_elem_of_In, Hf |].
      apply list_elem_of_In, elem_of_slots_of_flight. now split. }
  rewrite (length_filter_by_index P (fun e => key_slot (fst e))
             (Z.to_nat (Spec.seats_needed f r))).
  - rewrite list_sum_const; [now rewrite length_seq |].
    intros s Hs. apply elem_of_seq in Hs.
    set (rs := Eligibility.Build_RoleSlot fid r s).
    assert (Hin : rs ∈ Eligibility.role_slots elig).
    { rewrite Hslots. apply Hslot_iff. lia. }
    pose proof (Hcov _ (posts_coverage elig (x art) rs Hin)) as Hct.
    pose proof (feasible_sat _ _ _ Hfeas Hct) as Hsat. simpl in Hsat.
    apply Z.eqb_eq in Hsat.
    rewrite eval_esum_vars in Hsat by (eapply decision_vars_boolean; eauto).
    unfold slot_vars in Hsat. rewrite count_set_vars_where in Hsat.
    cbn [Eligibility.flight_id Eligibility.role Eligibility.slot_index rs]
      in Hsat.
    apply Nat2Z.inj. etransitivity; [| exact Hsat]. f_equal. f_equal.
    apply List.filter_ext. intros [k v]. unfold P. cbn [fst snd].
    destruct (String.eqb (key_flight k) fid), (String.eqb (key_role k) r),
      (val v =? 1), (Nat.eqb (key_slot k) s); reflexivity.
  - intros [k v] Hin HP. unfold P in HP. cbn [fst snd] in *.
    apply andb_true_iff in HP as [HP _].
    apply andb_true_iff in HP as [H1 H2].
    apply String.eqb_eq in H1, H2.
    assert (Hk : k ∈ Eligibility.eligible elig) by (apply Hkeys; eauto).
    apply (elem_of_eligible b elig _ Hel) in Hk
      as (slot & fl & day_str & Hs & _ & _ & Hk).
    apply elem_of_eligible_for_slot in Hk as (cr & _ & -> & _).
    cbn [key_flight key_role key_slot] in *. destruct slot as [sf sr si].
    simpl in *. subst sf sr. apply Hslot_iff in Hs. lia.
Qed.

Lemma read_out_without_solution (art : ModelArtifacts) :
  Objective.read_out art Objective.NoSolution = [].
Proof.
  unfold Objective.read_out, Objective.extract_assignments.
  induction (x art) as [| e l IH]; [reflexivity | exact IH].
Qed.

(** X13: the exact path reads the roster out of the solver without a
    test of the solver status.  When the flights of the bundle have
    distinct identifiers and the solver reports a solution, the roster
    has, for every flight and every role, exactly as many entries as the
    flight requires seats of that role; when the solver reports no
    solution, the roster that is returned is empty. *)
Theorem exact_read_out_fills_every_seat_or_is_empty
    (b : Loader.DataBundle) (w : Objective.Weights) (art : ModelArtifacts)
    (m : model) (res : Objective.solve_result) :
  NoDup (map Models.flight_id (Loader.flights b)) ->
  Objective.exact_model b w = Some (art, m) ->
  Objective.solved_by m res ->
  match res with
  | Objective.Solution _ =>
      forall f r, f ∈ Loader.flights b ->
        length (List.filter
                  (fun a => String.eqb (Objective.a_flight_id a)
                                       (Models.flight_id f)
                            && String.eqb (Objective.a_role a) r)
                  (Objective.read_out art res))
        = Z.to_nat (Spec.seats_needed f r)
  | Objective.NoSolution => Objective.read_out art res = []
  end.
Proof.
  intros Hnd Hm Hres. destruct res as [val |].
  - intros f r Hf.
    apply (solution_fills_every_required_seat b w _ f r Hnd); [| exact Hf].
    exists art, m, val. split; [exact Hm |]. split; [exact Hres | reflexivity].
  - apply read_out_without_solution.
Qed.

(** X14: a roster that the exact path returns never lists a crew member
    twice on the same flight, whatever the roles. *)
Theorem exact_roster_has_no_repeated_crew_on_a_flight
    (b : Loader.DataBundle) (w : Objective.Weights)
    (assignments : list Objective.Assignment) :
  Objective.exact_solution b w assignments ->
  NoDup (map (fun a => (Objective.a_crew_id a, Objective.a_flight_id a))
             assignments).
Proof.
  intros Hex. pose proof (exact_path_single_seat b w assignments Hex) as H.
  clear Hex. induction assignments as [| a l IH]; [constructor |].
  cbn [map]. constructor.
  - intros Hin. apply list_elem_of_fmap in Hin as (a' & Heq & Hin).
    injection Heq as Hc Hf.
    specialize (H (Objective.a_crew_id a) (Objective.a_flight_id a)).
    unfold Spec.seats_held in H. cbn [List.filter] in H.
    rewrite !String.eqb_refl in H. cbn [andb length] in H.
    assert (Hpos : (0 < length (List.filter
              (fun a0 => String.eqb (Objective.a_crew_id a0)
                                    (Objective.a_crew_id a)
                         && String.eqb (Objective.a_flight_id a0)
                                       (Objective.a_flight_id a)) l))%nat).
    { destruct (List.filter _ l) as [| y ys] eqn:E; [| simpl; lia].
      exfalso. assert (Hin' : In a' []); [| destruct Hin'].
      rewrite <- E. apply filter_In. split; [now apply list_elem_of_In |].
      rewrite <- Hc, <- Hf, !String.eqb_refl. reflexivity. }
    lia.
  - apply IH. intros c f. specialize (H c f). unfold Spec.seats_held in *.
    cbn [List.filter] in H.
    destruct (String.eqb (Objective.a_crew_id a) c
              && String.eqb (Objective.a_flight_id a) f);
      cbn [length] in H; lia.
Qed.

End ExactRosterSeats.

Section ExactRosterWitnesses.
Import CpModel CpLogic Constraints.

Lemma exact_roster_seats_only_eligible_crew_witness :
  exists fl cr,
    Loader.flights_by_id Examples.rest_bundle !! "F3" = Some fl
    /\ cr ∈ Loader.crew Examples.rest_bundle
    /\ Models.crew_id cr = "A"
    /\ Models.role_key (Models.role cr) = "Captain"
    /\ fl ∈ Loader.flights Examples.rest_bundle
    /\ In (Models.aircraft_type fl)
          (Py.split "|" (Models.qualified_types cr))
    /\ Eligibility._flight_day_str (Models.dep_dt fl)
       ∉ Spec.sick_dates Examples.rest_bundle "A".
Proof.
  apply (exact_roster_seats_only_eligible_crew Examples.rest_bundle
           Objective.default_weights Examples.rest_roster
           (Objective.Build_Assignment "A" "Captain" "F3")).
  - split; reflexivity.
  - exact rest_roster_exact_solution.
  - right. right. left.
Defined.

Lemma exact_read_out_fills_every_seat_or_is_empty_witness :
  exists art m,
    Objective.exact_model Examples.rest_bundle Objective.default_weights
    = Some (art, m)
    /\ Objective.read_out art (Objective.Solution Examples.rest_solution)
       = Examples.rest_roster
    /\ (forall f r, f ∈ Loader.flights Examples.rest_bundle ->
          length (List.filter
                    (fun a => String.eqb (Objective.a_flight_id a)
                                         (Models.flight_id f)
                              && String.eqb (Objective.a_role a) r)
                    (Objective.read_out art
                       (Objective.Solution Examples.rest_solution)))
          = Z.to_nat (Spec.seats_needed f r))
    /\ Objective.read_out art Objective.NoSolution = [].
Proof.
  destruct (Objective.exact_model Examples.rest_bundle
              Objective.default_weights) as [[art m] |] eqn:Hm;
    [| vm_compute in Hm; discriminate].
  assert (Hnd : NoDup (map Models.flight_id
                           (Loader.flights Examples.rest_bundle))).
  { simpl. repeat constructor; rewrite ?elem_of_cons, ?elem_of_nil;
      intuition discriminate. }
  assert (Hfeas : feasible m Examples.rest_solution = true).
  { vm_compute in Hm. injection Hm as <- <-. vm_compute. reflexivity. }
  exists art, m. split; [reflexivity |]. split.
  { vm_compute in Hm. injection Hm as <- <-. vm_compute. reflexivity. }
  split.
  - exact (exact_read_out_fills_every_seat_or_is_empty Examples.rest_bundle
             Objective.default_weights art m
             (Objective.Solution Examples.rest_solution) Hnd Hm Hfeas).
  - exact (exact_read_out_fills_every_seat_or_is_empty Examples.rest_bundle
             Objective.default_weights art m Objective.NoSolution
             Hnd Hm I).
Defined.

Lemma exact_roster_has_no_repeated_crew_on_a_flight_witness :
  NoDup (map (fun a => (Objective.a_crew_id a, Objective.a_flight_id a))
             Examples.rest_roster).
Proof.
  apply (exact_roster_has_no_repeated_crew_on_a_flight Examples.rest_bundle
           Objective.default_weights).
  exact rest_roster_exact_solution.
Defined.

End ExactRosterWitnesses.

(** ** What the encoder never posts *)

Section Keeps.
Import CpModel CpLogic Constraints.
Context (Q : constraint -> Prop).

Lemma keeps_ret {A} (a : A) : keeps Q (ret a).
Proof. intros m a' m' [= _ <-] H. exact H. Qed.

Lemma keeps_lift {A} (o : option A) : keeps Q (lift o).
Proof.
  intros m a m' H. unfold lift in H. destruct o; [| discriminate].
  injection H as _ <-. auto.
Qed.

Lemma keeps_bind {A B} (c : M A) (k : A -> M B) :
  keeps Q c -> (forall a, keeps Q (k a)) -> keeps Q (bind c k).
Proof.
  intros Hc Hk m b m' H HQ. apply bind_Some in H as (a & m1 & H1 & H2).
  eapply Hk; [exact H2 |]. eapply Hc; eauto.
Qed.

Lemma keeps_NewIntVar (lb ub : Z) : keeps Q (NewIntVar lb ub).
Proof. intros m a m' [= _ <-] H. exact H. Qed.

Lemma keeps_NewBoolVar : keeps Q NewBoolVar.
Proof. apply keeps_NewIntVar. Qed.

Lemma keeps_NewOptionalIntervalVar (s z e : Z) (p : var) :
  keeps Q (NewOptionalIntervalVar s z e p).
Proof. intros m a m' [= _ <-] H. exact H. Qed.

Lemma keeps_AddConstraint (ct : constraint) :
  Q ct -> keeps Q (AddConstraint ct).
Proof.
  intros Hq m a m' [= _ <-] H. simpl. apply Forall_app. split; [exact H |].
  constructor; [exact Hq | constructor].
Qed.

Lemma keeps_Minimize (e : expr) : keeps Q (Minimize e).
Proof. intros m a m' [= _ <-] H. exact H. Qed.

Lemma keeps_for_each {A} (l : list A) (body : A -> M unit) :
  (forall a, keeps Q (body a)) -> keeps Q (for_each l body).
Proof.
  intros Hb. induction l as [| a l IH]; simpl.
  - apply keeps_ret.
  - apply keeps_bind; auto.
Qed.

Lemma keeps_fold_each {A S} (l : list A) (s : S) (body : S -> A -> M S) :
  (forall s a, keeps Q (body s a)) -> keeps Q (fold_each l s body).
Proof.
  intros Hb. revert s. induction l as [| a l IH]; intros s; simpl.
  - apply keeps_ret.
  - apply keeps_bind; auto.
Qed.

Lemma keeps_when (b : bool) (c : M unit) : keeps Q c -> keeps Q (when b c).
Proof. intros H. destruct b; [exact H | apply keeps_ret]. Qed.

End Keeps.

Ltac keep_step :=
  lazymatch goal with
  | |- CpLogic.keeps _ ?c =>
      lazymatch c with
      | CpModel.bind _ _ => apply keeps_bind; [| intros ?; cbv beta]
      | CpModel.ret _ => apply keeps_ret
      | CpModel.lift _ => apply keeps_lift
      | CpModel.NewIntVar _ _ => apply keeps_NewIntVar
      | CpModel.NewBoolVar => apply keeps_NewBoolVar
      | CpModel.NewOptionalIntervalVar _ _ _ _ =>
          apply keeps_NewOptionalIntervalVar
      | CpModel.AddConstraint _ => apply keeps_AddConstraint
      | CpModel.Add _ _ _ => apply keeps_AddConstraint
      | CpModel.AddIf _ _ _ _ => apply keeps_AddConstraint
      | CpModel.AddNoOverlap _ => apply keeps_AddConstraint
      | CpModel.AddMultiplicationEquality _ _ => apply keeps_AddConstraint
      | CpModel.Minimize _ => apply keeps_Minimize
      | CpModel.when _ _ => apply keeps_when
      | CpModel.for_each _ _ => apply keeps_for_each; intros ?; cbv beta
      | CpModel.fold_each _ _ _ =>
          apply keeps_fold_each; intros ? ?; cbv beta
      | Constraints.bind_sum _ _ => unfold Constraints.bind_sum
      | Constraints.exclude_pair _ _ _ _ => unfold Constraints.exclude_pair
      | match ?x with _ => _ end => destruct x
      | let _ := _ in _ => cbv zeta
      end
  end.

Ltac keep := repeat keep_step.

Section EmptySumBound.
Import CpModel CpLogic Constraints.

(** The constraint is not a lower bound on an empty sum, [sum([]) >= k]. *)
Local Abbreviation bounded_sum_has_terms :=
  (fun ct : constraint =>
     forall k, ct <> Linear (esum []) Ge (EInt k) None).

Lemma foldl_EAdd_shape (es : list expr) (a b : expr) :
  exists c d, foldl EAdd (EAdd a b) es = EAdd c d.
Proof.
  revert a b. induction es as [| e es IH]; intros a b; simpl; eauto.
Qed.

Lemma esum_cons_not_int (e : expr) (es : list expr) (k : Z) :
  esum (e :: es) <> EInt k.
Proof.
  unfold esum. simpl.
  destruct (foldl_EAdd_shape es (EInt 0) e) as (c & d & ->). discriminate.
Qed.

(** The side condition of a posted constraint. *)
Ltac has_terms :=
  cbv beta; intros ? Heq;
  first [ discriminate Heq
        | injection Heq as Heq; exact (esum_cons_not_int _ _ _ Heq) ].

Lemma keeps_decision_vars b elig :
  keeps bounded_sum_has_terms (decision_vars b elig).
Proof. unfold decision_vars. keep. Qed.

Lemma keeps_coverage elig x : keeps bounded_sum_has_terms (coverage elig x).
Proof. unfold coverage. keep. has_terms. Qed.

Lemma keeps_at_most_one_seat b x :
  keeps bounded_sum_has_terms (at_most_one_seat b x).
Proof. unfold at_most_one_seat. keep. has_terms. Qed.

Lemma keeps_composition b x : keeps bounded_sum_has_terms (composition b x).
Proof. unfold composition. keep. all: has_terms. Qed.

Lemma keeps_no_overlap ivs : keeps bounded_sum_has_terms (no_overlap ivs).
Proof. unfold no_overlap. keep. all: has_terms. Qed.

Lemma keeps_min_rest b x ivs : keeps bounded_sum_has_terms (min_rest b x ivs).
Proof. unfold min_rest. keep. all: has_terms. Qed.

Lemma keeps_night_limits b x : keeps bounded_sum_has_terms (night_limits b x).
Proof. unfold night_limits. keep. all: has_terms. Qed.

Lemma keeps_day_caps b elig x c cap d :
  keeps bounded_sum_has_terms (day_caps b elig x c cap d).
Proof. unfold day_caps. keep. all: has_terms. Qed.

Lemma keeps_crew_caps b elig x st c :
  keeps bounded_sum_has_terms (crew_caps b elig x st c).
Proof.
  unfold crew_caps. destruct st as [[? ?] ?]. keep.
  all: try apply keeps_day_caps. all: has_terms.
Qed.

Lemma keeps_daily_and_weekly_caps b elig x :
  keeps bounded_sum_has_terms (daily_and_weekly_caps b elig x).
Proof.
  unfold daily_and_weekly_caps. apply keeps_fold_each.
  intros. apply keeps_crew_caps.
Qed.

Lemma keeps_continuity b x :
  keeps bounded_sum_has_terms (_add_pilot_continuity_constraints b x).
Proof. unfold _add_pilot_continuity_constraints. keep. all: has_terms. Qed.

Lemma keeps_base_return b elig x :
  keeps bounded_sum_has_terms (_add_base_return_constraints b elig x).
Proof. unfold _add_base_return_constraints. keep. all: has_terms. Qed.

Lemma keeps_preference_penalty b elig terms e :
  keeps bounded_sum_has_terms (Objective.preference_penalty b elig terms e).
Proof. unfold Objective.preference_penalty. keep. all: has_terms. Qed.

Lemma keeps_add_objective b elig art w :
  keeps bounded_sum_has_terms (Objective.add_objective b elig art w).
Proof.
  unfold Objective.add_objective. keep.
  all: try apply keeps_preference_penalty. all: has_terms.
Qed.

Lemma keeps_build_model b elig :
  keeps bounded_sum_has_terms (build_model_with_constraints b elig).
Proof.
  unfold build_model_with_constraints.
  apply keeps_bind; [apply keeps_decision_vars |]. intros [x ivs].
  apply keeps_bind; [apply keeps_coverage |]. intros _.
  apply keeps_bind; [apply keeps_at_most_one_seat |]. intros _.
  apply keeps_bind; [apply keeps_composition |]. intros _.
  apply keeps_bind; [apply keeps_no_overlap |]. intros _.
  apply keeps_bind; [apply keeps_min_rest |]. intros _.
  apply keeps_bind; [apply keeps_night_limits |]. intros _.
  apply keeps_bind; [apply keeps_daily_and_weekly_caps |]. intros [[? ?] ?].
  apply keeps_bind; [apply keeps_continuity |]. intros _.
  apply keeps_bind; [apply keeps_base_return |]. intros ?.
  apply keeps_ret.
Qed.

(** The model of the exact path holds no lower bound on an empty sum. *)
Lemma exact_model_no_empty_sum_bound (b : Loader.DataBundle)
    (w : Objective.Weights) (art : ModelArtifacts) (m : model) (k : Z) :
  Objective.exact_model b w = Some (art, m) ->
  Linear (esum []) Ge (EInt k) None ∉ constraints m.
Proof.
  unfold Objective.exact_model. intros H.
  destruct (Eligibility.build_eligibility b) as [elig |]; [| discriminate].
  simpl in H.
  destruct (build_model_with_constraints b elig empty_model)
    as [[art' m2] |] eqn:Hb; [| discriminate].
  simpl in H.
  destruct (Objective.add_objective b elig art' w m2)
    as [[[] m3] |] eqn:Ho; [| discriminate].
  simpl in H. injection H as -> ->.
  pose proof (keeps_build_model _ _ _ _ _ Hb (List.Forall_nil _)) as H2.
  pose proof (keeps_add_objective _ _ _ _ _ _ _ Ho H2) as H3.
  intros Hin. rewrite Forall_forall in H3. exact (H3 _ Hin k eq_refl).
Qed.

End EmptySumBound.

(** ** Composition and night duties in the exact model *)

Section CompositionAndNights.
Import CpModel CpLogic Constraints.

Lemma elem_of_sccm_cc_vars (b : Loader.DataBundle) (f_id : string)
    (exp_min : Z) (x : xdict) (vs : list var) (v : var) :
  sccm_cc_vars b f_id exp_min x = Some vs ->
  (v ∈ vs <->
   exists k c, (k, v) ∈ x /\ key_flight k = f_id /\ key_role k = "CC"
     /\ Loader.crew_by_id b !! key_crew k = Some c
     /\ Models.sccm_certified c = true
     /\ exp_min <= Models.experience_months c).
Proof.
  revert vs. induction x as [| [k v0] x IH]; intros vs H.
  - injection H as <-. split; [intros Hin; inversion Hin |].
    intros (k & c & Hin & _). inversion Hin.
  - cbn [sccm_cc_vars] in H.
    destruct (String.eqb (key_flight k) f_id && String.eqb (key_role k) "CC")
      eqn:Hk.
    + destruct (Loader.crew_by_id b !! key_crew k) as [c |] eqn:Hc;
        [| discriminate].
      destruct (sccm_cc_vars b f_id exp_min x) as [vs0 |]; [| discriminate].
      cbn in H. specialize (IH vs0 eq_refl).
      apply andb_true_iff in Hk as [K1 K2]. apply String.eqb_eq in K1, K2.
      injection H as <-.
      destruct (Models.sccm_certified c && (exp_min <=? Models.experience_months c))
        eqn:Hq.
      * apply andb_true_iff in Hq as [Q1 Q2]. apply Z.leb_le in Q2.
        rewrite elem_of_cons, IH. split.
        -- intros [-> | (k' & c' & Hin & Hr)].
           ++ exists k, c. split; [left |]. auto.
           ++ exists k', c'. split; [now right | exact Hr].
        -- intros (k' & c' & Hin & Hr).
           apply elem_of_cons in Hin as [[= -> ->] | Hin]; [now left |].
           right. eauto.
      * rewrite IH. split.
        -- intros (k' & c' & Hin & Hr). exists k', c'.
           split; [now right | exact Hr].
        -- intros (k' & c' & Hin & Hr).
           apply elem_of_cons in Hin as [[= -> ->] | Hin]; [| eauto].
           exfalso. destruct Hr as (_ & _ & Hc' & Q1 & Q2).
           rewrite Hc in Hc'. injection Hc' as <-.
           apply Z.leb_le in Q2. rewrite Q1, Q2 in Hq. discriminate.
    + rewrite (IH vs H). split.
      * intros (k' & c' & Hin & Hr). exists k', c'.
        split; [now right | exact Hr].
      * intros (k' & c' & Hin & Hr).
        apply elem_of_cons in Hin as [[= -> ->] | Hin]; [| eauto].
        exfalso. destruct Hr as (K1 & K2 & _).
        rewrite K1, K2, !String.eqb_refl in Hk. discriminate.
Qed.

(** X15: for a flight that needs more than one cabin seat, the exact
    model counts the decision variables of the flight that seat a senior
    crew member, or a cabin crew member who is SCCM-certified with the
    minimum experience (12 months unless the rules say otherwise).  When
    there is at least one such variable, the model holds the constraint
    that their sum is at least the required number, so every solution
    sets at least one of them, and at least the configured
    ultra-long-haul number (2 by default) when the flight lasts longer
    than the ultra-long-haul threshold.  When there is none, no such
    constraint is added: the model holds no lower bound on the empty
    sum. *)
Theorem sccm_presence_on_cabin_flights (b : Loader.DataBundle)
    (w : Objective.Weights) (art : ModelArtifacts) (m : model)
    (f : Models.Flight) :
  Objective.exact_model b w = Some (art, m) ->
  f ∈ Loader.flights b ->
  1 < Models.needed_cc f + Models.needed_sc f ->
  let exp_min :=
    default 12 (Models.sccm_experience_min_months (Loader.rules b)) in
  let sc_vars :=
    vars_where (x art)
      (fun k => String.eqb (key_flight k) (Models.flight_id f)
                && String.eqb (key_role k) "SC") in
  let req :=
    if Qlt_le_dec (Models.ulh_ft_threshold_hours (Loader.rules b))
         (inject_Z (Models.duration_minutes f) / 60)%Q
    then Z.max 1 (default 2 (Models.sccm_min_sccm_ulh (Loader.rules b)))
    else 1 in
  exists cc_vars,
    sccm_cc_vars b (Models.flight_id f) exp_min (x art) = Some cc_vars
    /\ (forall v, v ∈ cc_vars <->
          exists k c, (k, v) ∈ x art
            /\ key_flight k = Models.flight_id f /\ key_role k = "CC"
            /\ Loader.crew_by_id b !! key_crew k = Some c
            /\ Models.sccm_certified c = true
            /\ exp_min <= Models.experience_months c)
    /\ (sc_vars ++ cc_vars <> [] ->
        forall val, feasible m val = true ->
          req <= Z.of_nat (count_set val (sc_vars ++ cc_vars)))
    /\ (sc_vars ++ cc_vars <> [] ->
        Linear (esum (map EVar (sc_vars ++ cc_vars))) Ge (EInt req) None
        ∈ constraints m)
    /\ (sc_vars ++ cc_vars = [] ->
        forall k,
          Linear (esum (map EVar (sc_vars ++ cc_vars))) Ge (EInt k) None
          ∉ constraints m).
Proof.
  intros Hm Hf Hcab exp_min sc_vars req.
  destruct (exact_model_runs b w art m Hm)
    as (elig & m1 & Hel & Hdv & Hext1 & (m0 & m' & Hcomp & Hext) & _).
  destruct (decision_vars_spec _ _ _ _ _ Hdv) as (Hdom & _).
  unfold composition in Hcomp.
  eapply for_each_run in Hcomp as (ma & mb & Hrun & _ & E);
    [| intros; grow | exact Hf].
  cbv beta zeta in Hrun.
  destruct (1 <? Models.needed_cc f + Models.needed_sc f) eqn:Hc;
    [| apply Z.ltb_ge in Hc; lia].
  apply bind_Some in Hrun as (cc_vars & mc & Hl & Hrun).
  apply lift_run in Hl as [Hcc ->].
  exists cc_vars. split; [exact Hcc |].
  split; [intros v; now apply elem_of_sccm_cc_vars |].
  fold sc_vars in Hrun.
  assert (Hposted : sc_vars ++ cc_vars <> [] ->
            Linear (esum (map EVar (sc_vars ++ cc_vars))) Ge (EInt req) None
            ∈ constraints m).
  { intros Hne.
    destruct (sc_vars ++ cc_vars) as [| v0 vs] eqn:Hvs; [congruence |].
    apply AddConstraint_run in Hrun. rewrite <- Hvs in *.
    exact (extends_constraint _ _ _ (extends_trans _ _ _ E Hext) Hrun). }
  split; [| split; [exact Hposted |]].
  - intros Hne val Hfeas.
    pose proof (feasible_sat _ _ _ Hfeas (Hposted Hne)) as Hsat.
    cbn [sat holds_cmp eval] in Hsat.
    rewrite eval_esum_vars in Hsat.
    + apply Z.leb_le in Hsat. exact Hsat.
    + unfold boolean_on. apply Forall_forall. intros v Hv.
      assert (Hx : exists k, (k, v) ∈ x art).
      { apply elem_of_app in Hv as [Hv | Hv].
        - apply elem_of_vars_where in Hv as (k & Hin & _). eauto.
        - apply (elem_of_sccm_cc_vars _ _ _ _ _ _ Hcc) in Hv
            as (k & c & Hin & _). eauto. }
      destruct Hx as (k & Hin).
      pose proof (feasible_domain m val v (0, 1) Hfeas
                    (extends_domain _ _ _ _ Hext1 (Hdom _ _ Hin))) as Hd.
      simpl in Hd. lia.
  - intros Hnone k. rewrite Hnone.
    exact (exact_model_no_empty_sum_bound b w art m k Hm).
Qed.

Lemma elem_of_night_assignments (b : Loader.DataBundle) (c_id : string)
    (ns ne : Z) (x : xdict) (na : list (string * Models.Flight * var))
    (v : var) :
  night_assignments_of b c_id ns ne x = Some na ->
  (v ∈ map snd na <->
   exists k f, (k, v) ∈ x /\ key_crew k = c_id
     /\ Loader.flights_by_id b !! key_flight k = Some f
     /\ Models.in_night_window (Models.dep_dt f) (Models.arr_dt f) ns ne
        = true).
Proof.
  revert na. induction x as [| [k v0] x IH]; intros na H.
  - injection H as <-. split; [intros Hin; inversion Hin |].
    intros (k & f & Hin & _). inversion Hin.
  - cbn [night_assignments_of] in H.
    destruct (String.eqb (key_crew k) c_id) eqn:Hk.
    + apply String.eqb_eq in Hk.
      destruct (Loader.flights_by_id b !! key_flight k) as [f |] eqn:Hf;
        [| discriminate].
      destruct (night_assignments_of b c_id ns ne x) as [na0 |];
        [| discriminate].
      cbn in H. specialize (IH na0 eq_refl). injection H as <-.
      destruct (Models.in_night_window _ _ ns ne) eqn:Hn.
      * cbn [map snd]. rewrite elem_of_cons, IH. split.
        -- intros [-> | (k' & f' & Hin & Hr)].
           ++ exists k, f. split; [left |]. auto.
           ++ exists k', f'. split; [now right | exact Hr].
        -- intros (k' & f' & Hin & Hr).
           apply elem_of_cons in Hin as [[= -> ->] | Hin]; [now left |].
           right. eauto.
      * rewrite IH. split.
        -- intros (k' & f' & Hin & Hr). exists k', f'.
           split; [now right | exact Hr].
        -- intros (k' & f' & Hin & Hr).
           apply elem_of_cons in Hin as [[= -> ->] | Hin]; [| eauto].
           exfalso. destruct Hr as (_ & Hf' & Hn').
           rewrite Hf in Hf'. injection Hf' as <-. congruence.
    + rewrite (IH na H). split.
      * intros (k' & f' & Hin & Hr). exists k', f'.
        split; [now right | exact Hr].
      * intros (k' & f' & Hin & Hr).
        apply elem_of_cons in Hin as [[= -> ->] | Hin]; [| eauto].
        exfalso. destruct Hr as (K1 & _).
        rewrite K1, String.eqb_refl in Hk. discriminate.
Qed.

(** X16: in every solution of the exact model, the number of decision
    variables set for one crew member on flights that touch the night
    window (as [in_night_window] decides it) is at most the weekly limit
    of overnight duties. *)
Theorem weekly_night_duty_limit (b : Loader.DataBundle)
    (w : Objective.Weights) (art : ModelArtifacts) (m : model)
    (val : valuation) (c : Models.Crew) :
  Objective.exact_model b w = Some (art, m) ->
  feasible m val = true ->
  c ∈ Loader.crew b ->
  let ns := fst (Models.night_window_times (Loader.rules b)) in
  let ne := snd (Models.night_window_times (Loader.rules b)) in
  exists na,
    night_assignments_of b (Models.crew_id c) ns ne (x art) = Some na
    /\ (forall v, v ∈ map snd na <->
          exists k f, (k, v) ∈ x art /\ key_crew k = Models.crew_id c
            /\ Loader.flights_by_id b !! key_flight k = Some f
            /\ Models.in_night_window (Models.dep_dt f) (Models.arr_dt f)
                 ns ne = true)
    /\ (na <> [] ->
        Z.of_nat (count_set val (map snd na))
        <= Models.max_overnight_duties_per_week (Loader.rules b)).
Proof.
  intros Hm Hfeas Hc ns ne.
  destruct (exact_model_runs b w art m Hm)
    as (elig & m1 & Hel & Hdv & Hext1 & _ & _ & _
        & (m0 & m' & Hn & Hext) & _).
  destruct (decision_vars_spec _ _ _ _ _ Hdv) as (Hdom & _).
  unfold night_limits in Hn.
  destruct (Models.night_window_times (Loader.rules b)) as [ns' ne'] eqn:Hw.
  cbn [fst snd] in ns, ne. subst ns ne.
  assert (Hcid : Models.crew_id c ∈ crew_id_set b).
  { unfold crew_id_set, Py.set_of. apply elem_of_remove_dups.
    apply list_elem_of_fmap. eauto. }
  eapply for_each_run in Hn as (ma & mb & Hrun & _ & E);
    [| intros; grow | exact Hcid].
  cbv beta zeta in Hrun.
  apply bind_Some in Hrun as (na & mc & Hl & Hrun).
  apply lift_run in Hl as [Hna ->].
  exists na. split; [exact Hna |].
  split; [intros v; now apply elem_of_night_assignments |].
  intros Hne.
  apply bind_Some in Hrun as ([] & md & Hadd & Hrest).
  assert (Gd : extends md mb).
  { match type of Hrest with
    | ?c md = _ => assert (Gt : grows c) by grow
    end.
    eapply Gt. exact Hrest. }
  destruct (negb (Nat.eqb (length (map snd na)) 0)) eqn:Hz.
  2: { apply negb_false_iff, Nat.eqb_eq in Hz. rewrite length_map in Hz.
       destruct na; [congruence | discriminate]. }
  cbn [when] in Hadd.
  apply AddConstraint_run in Hadd.
  pose proof (feasible_sat _ _ _ Hfeas
    (extends_constraint _ _ _
       (extends_trans _ _ _ Gd (extends_trans _ _ _ E Hext)) Hadd)) as Hsat.
  cbn [sat holds_cmp eval] in Hsat.
  rewrite eval_esum_vars in Hsat.
  - apply Z.leb_le in Hsat. exact Hsat.
  - unfold boolean_on. apply Forall_forall. intros v Hv.
    apply (elem_of_night_assignments _ _ _ _ _ _ _ Hna) in Hv
      as (k & f & Hin & _).
    pose proof (feasible_domain m val v (0, 1) Hfeas
                  (extends_domain _ _ _ _ Hext1 (Hdom _ _ Hin))) as Hd.
    simpl in Hd. lia.
Qed.

(** X17: the loop that limits consecutive night duties indexes one
    position past the end of a crew member's night flights when the
    configured maximum of consecutive night duties is zero or negative,
    so for such rules the model build of the exact path fails (with an
    [IndexError]) on every bundle that has a crew member. *)
Theorem non_positive_consecutive_night_limit_fails (b : Loader.DataBundle)
    (w : Objective.Weights) :
  Models.max_consecutive_night_duties (Loader.rules b) <= 0 ->
  Loader.crew b <> [] ->
  Objective.exact_model b w = None.
Proof.
  intros Hmax Hcrew.
  destruct (Objective.exact_model b w) as [[art m] |] eqn:Hm;
    [exfalso | reflexivity].
  destruct (exact_model_runs b w art m Hm)
    as (elig & m1 & Hel & Hdv & Hext1 & _ & _ & _
        & (m0 & m' & Hn & Hext) & _).
  unfold night_limits in Hn.
  destruct (Models.night_window_times (Loader.rules b)) as [ns ne].
  destruct (Loader.crew b) as [| c cs] eqn:Hcs; [congruence |].
  assert (Hcid : Models.crew_id c ∈ crew_id_set b).
  { unfold crew_id_set, Py.set_of. apply elem_of_remove_dups.
    rewrite Hcs. left. }
  eapply for_each_run in Hn as (ma & mb & Hrun & _ & E);
    [| intros; grow | exact Hcid].
  cbv beta zeta in Hrun.
  apply bind_Some in Hrun as (na & mc & Hl & Hrun).
  apply lift_run in Hl as [Hna ->].
  apply bind_Some in Hrun as ([] & md & _ & Hrest).
  destruct (Models.max_consecutive_night_duties (Loader.rules b)
            <=? Z.of_nat (length na)) eqn:Hle;
    [| apply Z.leb_gt in Hle; lia].
  cbn [when] in Hrest.
  eapply (for_each_run _ _ (length na)) in Hrest
    as (me & mf & Hrun & _ & _); [| intros; grow |].
  - apply bind_Some in Hrun as (first & mg & Hl & _).
    apply lift_run in Hl as [Hl _].
    apply lookup_lt_Some in Hl.
    match type of Hl with
    | (_ < length (Py.sort_by ?k ?l))%nat =>
        pose proof (Permutation_length (sort_by_Permutation k l)) as Hp
    end.
    lia.
  - apply elem_of_seq. lia.
Qed.

End CompositionAndNights.

Section CompositionAndNightsExamples.
Import CpModel CpLogic Constraints.

Lemma sccm_presence_on_cabin_flights_witness :
  (exists art m cc_vars,
     Objective.exact_model Examples.cabin_bundle Objective.default_weights
     = Some (art, m)
     /\ sccm_cc_vars Examples.cabin_bundle "F1" 12 (x art) = Some cc_vars
     /\ 1 <= Z.of_nat
               (count_set Examples.cabin_solution
                  (vars_where (x art)
                     (fun k => String.eqb (key_flight k) "F1"
                               && String.eqb (key_role k) "SC")
                   ++ cc_vars))
     /\ Linear
          (esum (map EVar
                   (vars_where (x art)
                      (fun k => String.eqb (key_flight k) "F1"
                                && String.eqb (key_role k) "SC")
                    ++ cc_vars)))
          Ge (EInt 1) None ∈ constraints m)
  /\ (exists art m,
        Objective.exact_model Examples.plain_cabin_bundle
          Objective.default_weights = Some (art, m)
        /\ sccm_cc_vars Examples.plain_cabin_bundle "F1" 12 (x art) = Some []
        /\ vars_where (x art)
             (fun k => String.eqb (key_flight k) "F1"
                       && String.eqb (key_role k) "SC") = []
        /\ forall k, Linear (esum []) Ge (EInt k) None ∉ constraints m).
Proof.
  split.
  - destruct (Objective.exact_model Examples.cabin_bundle
                Objective.default_weights) as [[art m] |] eqn:Hm;
      [| vm_compute in Hm; discriminate].
    assert (Hfeas : feasible m Examples.cabin_solution = true).
    { vm_compute in Hm. injection Hm as <- <-. vm_compute. reflexivity. }
    destruct (sccm_presence_on_cabin_flights Examples.cabin_bundle
                Objective.default_weights art m Examples.cabin_flight Hm
                ltac:(left) ltac:(simpl; lia))
      as (cc_vars & H1 & _ & H3 & H4 & _).
    assert (Hne : vars_where (x art)
                    (fun k => String.eqb (key_flight k) "F1"
                              && String.eqb (key_role k) "SC")
                  ++ cc_vars <> []).
    { vm_compute in Hm. injection Hm as <- <-. discriminate. }
    exists art, m, cc_vars. split; [reflexivity |]. split; [exact H1 |].
    split; [exact (H3 Hne _ Hfeas) | exact (H4 Hne)].
  - destruct (Objective.exact_model Examples.plain_cabin_bundle
                Objective.default_weights) as [[art m] |] eqn:Hm;
      [| vm_compute in Hm; discriminate].
    destruct (sccm_presence_on_cabin_flights Examples.plain_cabin_bundle
                Objective.default_weights art m Examples.plain_cabin_flight
                Hm ltac:(left) ltac:(simpl; lia))
      as (cc_vars & H1 & _ & _ & _ & H5).
    assert (Hsc : vars_where (x art)
                    (fun k => String.eqb (key_flight k) "F1"
                              && String.eqb (key_role k) "SC") = []).
    { vm_compute in Hm. injection Hm as <- <-. reflexivity. }
    assert (Hcc : cc_vars = []).
    { vm_compute in Hm. injection Hm as <- <-.
      vm_compute in H1. injection H1 as <-. reflexivity. }
    subst cc_vars.
    exists art, m. split; [reflexivity |]. split; [exact H1 |].
    split; [exact Hsc |].
    change (Models.flight_id Examples.plain_cabin_flight) with "F1" in H5.
    rewrite Hsc in H5. exact (H5 eq_refl).
Defined.

Lemma weekly_night_duty_limit_witness :
  exists art m na,
    Objective.exact_model Examples.wocl_bundle Objective.default_weights
    = Some (art, m)
    /\ night_assignments_of Examples.wocl_bundle "A"
         (22 * 3600) (5 * 3600) (x art) = Some na
    /\ na <> []
    /\ Z.of_nat (count_set Examples.wocl_solution (map snd na)) <= 4.
Proof.
  destruct (Objective.exact_model Examples.wocl_bundle
              Objective.default_weights) as [[art m] |] eqn:Hm;
    [| vm_compute in Hm; discriminate].
  assert (Hfeas : feasible m Examples.wocl_solution = true).
  { vm_compute in Hm. injection Hm as <- <-. vm_compute. reflexivity. }
  destruct (weekly_night_duty_limit Examples.wocl_bundle
              Objective.default_weights art m Examples.wocl_solution
              (Examples.captain "A") Hm Hfeas ltac:(left))
    as (na & H1 & _ & H3).
  assert (Hne : na <> []).
  { vm_compute in Hm. injection Hm as <- <-. vm_compute in H1.
    injection H1 as <-. discriminate. }
  exists art, m, na. split; [reflexivity |]. split; [exact H1 |].
  split; [exact Hne | exact (H3 Hne)].
Defined.

Lemma non_positive_consecutive_night_limit_fails_witness :
  Objective.exact_model Examples.zero_nights_bundle Objective.default_weights
  = None.
Proof.
  apply non_positive_consecutive_night_limit_fails.
  - simpl. lia.
  - discriminate.
Defined.

End CompositionAndNightsExamples.

(** ** The operators of the genetic engine *)

Section GeneticOperators.
Import Py Genetic.

Lemma take_drop_lookup {A} (point : nat) (p1 p2 : list A) (i : nat) (a : A) :
  (point <= length p1)%nat ->
  (take point p1 ++ drop point p2) !! i = Some a ->
  p1 !! i = Some a \/ p2 !! i = Some a.
Proof.
  intros Hle H. apply lookup_app_Some in H as [H | [Hlen H]].
  - left. apply lookup_take_Some in H. tauto.
  - right. rewrite lookup_drop in H.
    rewrite length_take, Nat.min_l in Hlen, H by exact Hle.
    replace (point + (i - point))%nat with i in H by lia. exact H.
Qed.

Lemma swap_tails_Permutation {A} (a b c d : list A) :
  (a ++ d) ++ (c ++ b) ≡ₚ (a ++ b) ++ (c ++ d).
Proof.
  rewrite <- !app_assoc. apply Permutation_app_head.
  rewrite (Permutation_app_comm d (c ++ b)).
  rewrite (Permutation_app_comm c b). now rewrite <- app_assoc.
Qed.

(** X18: crossover either hands back the two parents unchanged, or cuts
    both at one point between 1 and the shorter length minus 1 and swaps
    the tails.  In both cases the two children together hold exactly the
    genes of the two parents, and every gene of a child stands at the
    position it had in one of the parents. *)
Theorem crossover_is_single_point (self : GeneticOptimizer)
    (parent1 parent2 : list Assignment) (g : rng) :
  let child1 := fst (fst (crossover self parent1 parent2 g)) in
  let child2 := snd (fst (crossover self parent1 parent2 g)) in
  ((child1 = parent1 /\ child2 = parent2)
   \/ exists point,
        (1 <= point < Nat.min (length parent1) (length parent2))%nat
        /\ child1 = take point parent1 ++ drop point parent2
        /\ child2 = take point parent2 ++ drop point parent1)
  /\ child1 ++ child2 ≡ₚ parent1 ++ parent2
  /\ (forall i a, child1 !! i = Some a ->
        parent1 !! i = Some a \/ parent2 !! i = Some a)
  /\ (forall i a, child2 !! i = Some a ->
        parent1 !! i = Some a \/ parent2 !! i = Some a).
Proof.
  intros child1 child2.
  assert (Hcase :
    (child1 = parent1 /\ child2 = parent2)
    \/ exists point,
         (1 <= point < Nat.min (length parent1) (length parent2))%nat
         /\ child1 = take point parent1 ++ drop point parent2
         /\ child2 = take point parent2 ++ drop point parent1).
  { subst child1 child2. unfold crossover.
    destruct (random g) as [u g1].
    destruct (Qlt_le_dec _ u); [left; auto |].
    destruct ((1 <? length parent1)%nat && (1 <? length parent2)%nat) eqn:Hc;
      [| left; auto].
    apply andb_true_iff in Hc as [H1 H2]. apply Nat.ltb_lt in H1, H2.
    unfold randint. destruct (draw g1) as [n g2]. cbn [fst snd].
    right. eexists. split; [| split; reflexivity].
    pose proof (Z.mod_pos_bound (Z.of_N n)
      (Z.of_nat (Nat.min (length parent1) (length parent2)) - 1 - 1 + 1)
      ltac:(lia)).
    lia. }
  split; [exact Hcase |].
  destruct Hcase as [[-> ->] | (point & Hp & -> & ->)].
  - split; [reflexivity |]. split; intros i a H; [left | right]; exact H.
  - split.
    + etransitivity; [apply swap_tails_Permutation |].
      now rewrite !take_drop.
    + split; intros i a H; apply take_drop_lookup in H; try tauto; lia.
Qed.

(** The relation between a gene and what [mutate] makes of it. *)
Local Abbreviation mutated_from self :=
  (fun a a' : Assignment =>
     a_flight_id a' = a_flight_id a /\ a_role a' = a_role a
     /\ (a' = a
         \/ exists c f,
              c ∈ crew self /\ crew_id c = a_crew_id a'
              /\ crew_id c <> a_crew_id a
              /\ role c = a_role a /\ available c = true
              /\ find_flight self (a_flight_id a) = Some f
              /\ In (aircraft_type f) (qualified_types c))).

Lemma mutate_gene_spec (self : GeneticOptimizer) (a a' : Assignment)
    (g g' : rng) :
  mutate_gene self a g = Some (a', g') -> mutated_from self a a'.
Proof.
  unfold mutate_gene. destruct (random g) as [u g1].
  destruct (Qlt_le_dec u _); [| intros [= <- <-]; auto].
  fold (find_flight self (a_flight_id a)).
  destruct (find_flight self (a_flight_id a)) as [f |] eqn:Hf;
    [| discriminate].
  cbn [mbind option_bind].
  destruct (List.filter _ (crew self)) as [| c0 cs] eqn:Hav;
    [intros [= <- <-]; auto |].
  destruct (choice (c0 :: cs) g1) as [picked g2] eqn:Hch.
  destruct picked as [c |]; [| intros [= <- <-]; auto].
  intros [= <- <-]. cbn [a_flight_id a_role a_crew_id].
  split; [reflexivity |]. split; [reflexivity |]. right.
  assert (Hin : c ∈ c0 :: cs).
  { unfold choice in Hch. destruct (draw g1) as [n g3].
    injection Hch as Hl _. eapply list_elem_of_lookup_2. exact Hl. }
  rewrite <- Hav in Hin. apply list_elem_of_In, filter_In in Hin as [Hin Hp].
  apply andb_true_iff in Hp as [Hp H4].
  apply andb_true_iff in Hp as [Hp H3].
  apply andb_true_iff in Hp as [H1 H2].
  apply String.eqb_eq in H1. apply negb_true_iff, String.eqb_neq in H4.
  exists c, f. split; [now apply list_elem_of_In |].
  repeat split; auto. now apply str_in_In.
Qed.

Lemma mutate_genes_spec (self : GeneticOptimizer) (sol sol' : list Assignment)
    (g g' : rng) :
  mutate_genes self sol g = Some (sol', g') ->
  Forall2 (mutated_from self) sol sol'.
Proof.
  revert sol' g. induction sol as [| a sol IH]; intros sol' g H.
  - injection H as <- <-. constructor.
  - cbn [mutate_genes] in H.
    destruct (mutate_gene self a g) as [[a' g1] |] eqn:Ha; [| discriminate].
    cbn [mbind option_bind] in H.
    destruct (mutate_genes self sol g1) as [[rest' g2] |] eqn:Hr;
      [| discriminate].
    cbn in H. injection H as <- <-.
    constructor; [eapply mutate_gene_spec; eauto | eapply IH; eauto].
Qed.

Lemma mutate_genes_None (self : GeneticOptimizer) (sol : list Assignment)
    (g : rng) :
  mutate_genes self sol g = None ->
  exists a, a ∈ sol /\ find_flight self (a_flight_id a) = None.
Proof.
  revert g. induction sol as [| a sol IH]; intros g H; [discriminate |].
  cbn [mutate_genes] in H.
  destruct (mutate_gene self a g) as [[a' g1] |] eqn:Ha.
  - cbn [mbind option_bind] in H.
    destruct (mutate_genes self sol g1) as [[rest' g2] |] eqn:Hr;
      [discriminate |].
    destruct (IH _ Hr) as (a0 & Hin & Hf). exists a0. split; [now right | exact Hf].
  - exists a. split; [left |].
    unfold mutate_gene in Ha. destruct (random g) as [u g1].
    destruct (Qlt_le_dec u _); [| discriminate].
    fold (find_flight self (a_flight_id a)) in Ha.
    destruct (find_flight self (a_flight_id a)) as [f |]; [| reflexivity].
    cbn [mbind option_bind] in Ha.
    destruct (List.filter _ (crew self)) as [| c0 cs]; [discriminate |].
    destruct (choice _ g1) as [[c |] g2]; discriminate.
Qed.

(** X19: [mutate] changes only crew members.  When it returns, its
    result is the continuity repair of a list that matches the input
    position by position: every gene keeps its flight and its role, and a
    gene whose crew member changed names a different crew member of the
    roster who has exactly that role, is available and lists the aircraft
    type of the gene's flight.  It can only fail (with the
    [StopIteration] of [next]) at a gene whose flight identifier belongs
    to no flight of the roster. *)
Theorem mutate_changes_only_the_crew (self : GeneticOptimizer)
    (sol : list Assignment) (g : rng) :
  match mutate self sol g with
  | Some (out, _) =>
      exists mutated,
        out = _repair_solution_continuity self mutated
        /\ length mutated = length sol
        /\ Forall2 (fun a a' =>
             a_flight_id a' = a_flight_id a /\ a_role a' = a_role a
             /\ (a' = a
                 \/ exists c f,
                      c ∈ crew self /\ crew_id c = a_crew_id a'
                      /\ crew_id c <> a_crew_id a
                      /\ role c = a_role a /\ available c = true
                      /\ find_flight self (a_flight_id a) = Some f
                      /\ In (aircraft_type f) (qualified_types c)))
             sol mutated
  | None => exists a, a ∈ sol /\ find_flight self (a_flight_id a) = None
  end.
Proof.
  unfold mutate.
  destruct (mutate_genes self sol g) as [[mutated g1] |] eqn:Hm.
  - cbn. exists mutated. apply mutate_genes_spec in Hm.
    split; [reflexivity |]. split; [| exact Hm].
    symmetry. eapply Forall2_length. exact Hm.
  - cbn. eapply mutate_genes_None. exact Hm.
Qed.

End GeneticOperators.


Section BaselineSeed.
Import Py Genetic.

(** What the seed loop keeps true of the seed and the set of used crew. *)
Local Abbreviation seed_ok self :=
  (fun a : Assignment =>
     triple_of a ∈ baseline_pairs self
     /\ exists c f,
          crew_by_id self !! a_crew_id a = Some c
          /\ flights_by_id self !! a_flight_id a = Some f
          /\ available c = true /\ role c = a_role a
          /\ In (aircraft_type f) (qualified_types c)).

Lemma seed_fold_invariant (self : GeneticOptimizer) (l : list triple)
    (st0 : list Assignment * gset string) :
  (forall p, p ∈ l -> p ∈ baseline_pairs self) ->
  (forall c, c ∈ snd st0 <-> c ∈ map a_crew_id (fst st0)) ->
  NoDup (map a_crew_id (fst st0)) -> Forall (seed_ok self) (fst st0) ->
  let st := foldl (seed_step self) st0 l in
  (forall c, c ∈ snd st <-> c ∈ map a_crew_id (fst st))
  /\ NoDup (map a_crew_id (fst st)) /\ Forall (seed_ok self) (fst st).
Proof.
  revert st0. induction l as [| [[c_id f_id] r] l IH];
    intros [seed used] Hl Hu Hnd Hok; [simpl; auto |].
  cbn [fst snd] in Hu, Hnd, Hok.
  cbn [foldl]. apply IH; clear IH.
  - intros p Hp. apply Hl. now right.
  - unfold seed_step. destruct (bool_decide (c_id ∈ used)); [exact Hu |].
    destruct (crew_by_id self !! c_id) as [c |]; [| exact Hu].
    destruct (flights_by_id self !! f_id) as [f |]; [| exact Hu].
    destruct (_ && _); [| exact Hu].
    intros c'. cbn [fst snd]. rewrite map_app, elem_of_app, elem_of_union, Hu.
    cbn [map a_crew_id]. rewrite list_elem_of_singleton, elem_of_singleton.
    reflexivity.
  - unfold seed_step. destruct (bool_decide (c_id ∈ used)) eqn:Hc;
      [exact Hnd |].
    destruct (crew_by_id self !! c_id) as [c |]; [| exact Hnd].
    destruct (flights_by_id self !! f_id) as [f |]; [| exact Hnd].
    destruct (_ && _); [| exact Hnd].
    cbn [fst]. rewrite map_app. apply NoDup_app. split; [exact Hnd |].
    split; [| apply NoDup_singleton].
    intros c' Hin Hin'. cbn [map a_crew_id] in Hin'.
    apply list_elem_of_singleton in Hin'. subst c'.
    apply bool_decide_eq_false in Hc. apply Hc, Hu, Hin.
  - unfold seed_step. destruct (bool_decide (c_id ∈ used)); [exact Hok |].
    destruct (crew_by_id self !! c_id) as [c |] eqn:Hc; [| exact Hok].
    destruct (flights_by_id self !! f_id) as [f |] eqn:Hf; [| exact Hok].
    destruct (_ && _) eqn:Hp; [| exact Hok].
    cbn [fst]. apply Forall_app. split; [exact Hok |].
    constructor; [| constructor].
    apply andb_true_iff in Hp as [Hp _].
    apply andb_true_iff in Hp as [Hp H3].
    apply andb_true_iff in Hp as [H1 H2]. apply String.eqb_eq in H2.
    split; [apply Hl; left |].
    exists c, f. cbn [a_crew_id a_flight_id a_role].
    repeat split; auto. now apply str_in_In.
Qed.

(** X20: the seed that is built from the baseline uses every crew member
    at most once, and each of its assignments is a baseline triple whose
    crew member and flight are known to the optimizer, with the crew
    member available, holding exactly the role of the triple and listing
    the aircraft type of the flight. *)
Theorem baseline_seed_uses_each_crew_once (self : GeneticOptimizer) :
  NoDup (map a_crew_id (_build_seed_from_baseline self))
  /\ forall a, a ∈ _build_seed_from_baseline self ->
       triple_of a ∈ baseline_pairs self
       /\ exists c f,
            crew_by_id self !! a_crew_id a = Some c
            /\ flights_by_id self !! a_flight_id a = Some f
            /\ available c = true /\ role c = a_role a
            /\ In (aircraft_type f) (qualified_types c).
Proof.
  unfold _build_seed_from_baseline.
  destruct (seed_fold_invariant self (elements (baseline_pairs self)) ([], ∅))
    as (_ & Hnd & Hok).
  - intros p Hp. now apply elem_of_elements in Hp.
  - intros c. simpl. rewrite elem_of_empty, elem_of_nil. reflexivity.
  - constructor.
  - constructor.
  - split; [exact Hnd |]. rewrite Forall_forall in Hok. exact Hok.
Qed.

End BaselineSeed.

Section TournamentOutcomes.
Import Py Genetic.

(** X21: with one score per individual, tournament selection fails
    exactly when the tournament size is zero (the maximum of an empty
    tournament) or the population is empty; whenever it returns, the
    parent it returns is an individual of the population. *)
Theorem tournament_selection_outcomes (self : GeneticOptimizer)
    (population : list (list Assignment)) (fitness_scores : list fitness)
    (g : rng) :
  length fitness_scores = length population ->
  (tournament_selection self population fitness_scores g = None
   <-> tournament_size (config self) = 0%nat \/ population = [])
  /\ (forall parent g',
        tournament_selection self population fitness_scores g
        = Some (parent, g') -> parent ∈ population).
Proof.
  intros Hlen. split; [| intros parent g'; apply tournament_selection_elem].
  split.
  - intros H.
    destruct (tournament_size (config self)) as [| n] eqn:Hn; [now left |].
    right. destruct population as [| p ps]; [reflexivity |].
    destruct (tournament_selection_total self (p :: ps) fitness_scores g)
      as (parent & g' & Hsel & _); [lia | discriminate | exact Hlen |].
    congruence.
  - intros [Hz | ->]; unfold tournament_selection.
    + rewrite Hz. reflexivity.
    + destruct (tournament_size (config self)) as [| n]; [reflexivity |].
      cbn [tournament_draws]. destruct (randint _ _ g) as [idx g1].
      reflexivity.
Qed.

Lemma tournament_selection_outcomes_witness :
  (tournament_selection Examples.small_roster
     [Examples.crowded_individual; Examples.lone_captain]
     [NegInf; NegInf] [] = None
   <-> tournament_size (config Examples.small_roster) = 0%nat
       \/ [Examples.crowded_individual; Examples.lone_captain] = [])
  /\ (forall parent g',
        tournament_selection Examples.small_roster
          [Examples.crowded_individual; Examples.lone_captain]
          [NegInf; NegInf] [] = Some (parent, g') ->
        parent ∈ [Examples.crowded_individual; Examples.lone_captain]).
Proof.
  apply (tournament_selection_outcomes Examples.small_roster
           [Examples.crowded_individual; Examples.lone_captain]
           [NegInf; NegInf] []).
  reflexivity.
Defined.

End TournamentOutcomes.

Section StabilityBounds.
Import Py Genetic.

(** X22: the stability bonus lies between 0 and 1, and it is 1 exactly
    when the baseline is not empty and every baseline triple is an
    assignment of the individual. *)
Theorem stability_bonus_bounds (self : GeneticOptimizer)
    (solution : list Assignment) :
  (0 <= _calculate_stability_bonus self solution)%Q
  /\ (_calculate_stability_bonus self solution <= 1)%Q
  /\ ((_calculate_stability_bonus self solution == 1)%Q
      <-> baseline_pairs self <> ∅
          /\ baseline_pairs self ⊆ sol_pairs solution).
Proof.
  unfold _calculate_stability_bonus.
  destruct (bool_decide (baseline_pairs self = ∅)) eqn:He.
  - apply bool_decide_eq_true in He.
    split; [apply Qle_refl |]. split; [discriminate |].
    split; [discriminate | tauto].
  - apply bool_decide_eq_false in He.
    set (B := baseline_pairs self) in *.
    set (S := sol_pairs solution).
    assert (Hpos : size B <> 0%nat).
    { intros Hz. apply size_empty_inv in Hz. apply He.
      now apply leibniz_equiv. }
    assert (Hsub : (size (S ∩ B) <= size B)%nat)
      by (apply subseteq_size, intersection_subseteq_r).
    rewrite Z.max_r by lia.
    assert (Hn : (0 < inject_Z (Z.of_nat (size B)))%Q).
    { replace 0%Q with (inject_Z 0) by reflexivity.
      rewrite <- Zlt_Qlt. lia. }
    split; [| split; [| split]].
    + apply Qle_shift_div_l; [exact Hn |]. rewrite Qmult_0_l.
      replace 0%Q with (inject_Z 0) by reflexivity.
      rewrite <- Zle_Qle. lia.
    + apply Qle_shift_div_r; [exact Hn |]. rewrite Qmult_1_l.
      rewrite <- Zle_Qle. lia.
    + intros H1. split; [exact He |].
      assert (Heq : size (S ∩ B) = size B).
      { apply Nat2Z.inj, inject_Z_injective.
        rewrite <- (Qmult_div_r (inject_Z (Z.of_nat (size (S ∩ B))))
                      (inject_Z (Z.of_nat (size B)))), H1, Qmult_1_r;
          [reflexivity |].
        intros Hz. rewrite Hz in Hn. discriminate. }
      assert (Hs : S ∩ B ≡ B).
      { apply set_subseteq_size_equiv;
          [apply intersection_subseteq_r | lia]. }
      intros t Ht. apply Hs, elem_of_intersection in Ht. tauto.
    + intros [_ Hsub']. assert (Hs : S ∩ B = B).
      { apply leibniz_equiv. intros t. rewrite elem_of_intersection.
        split; [tauto | intros Ht; split; [apply Hsub' |]; exact Ht]. }
      rewrite Hs. apply Qmult_inv_r.
      intros Hz. rewrite Hz in Hn. discriminate.
Qed.

End StabilityBounds.

(** ** The best individual of the generation loop *)

Section Elitism.
Import Py Genetic.

Lemma fitness_ltb_false_trans (a b c : fitness) :
  fitness_ltb a b = false -> fitness_ltb b c = false ->
  fitness_ltb a c = false.
Proof.
  destruct a as [| x], b as [| y], c as [| z]; simpl; try congruence.
  destruct (Rlt_dec x y), (Rlt_dec y z), (Rlt_dec x z); try congruence.
  lra.
Qed.

Lemma fitness_ltb_true_false (a b c : fitness) :
  fitness_ltb a b = true -> fitness_ltb a c = false ->
  fitness_ltb b c = false.
Proof.
  destruct a as [| x], b as [| y], c as [| z]; simpl; try congruence.
  destruct (Rlt_dec x y), (Rlt_dec x z), (Rlt_dec y z); try congruence.
  lra.
Qed.

Lemma fitness_ltb_irrefl (a : fitness) : fitness_ltb a a = false.
Proof.
  destruct a as [| x]; simpl; [reflexivity |].
  destruct (Rlt_dec x x); [lra | reflexivity].
Qed.

(** The score at the index of [np.argmax] is below no score. *)
Lemma argmax_from_max (L : list fitness) (rest : list fitness)
    (best_idx i : nat) (best : fitness) :
  L !! best_idx = Some best -> drop i L = rest ->
  exists top,
    L !! argmax_from best_idx best i rest = Some top
    /\ fitness_ltb top best = false
    /\ forall s, s ∈ rest -> fitness_ltb top s = false.
Proof.
  revert best_idx i best. induction rest as [| s rest IH];
    intros best_idx i best Hb Hd.
  - exists best. split; [exact Hb |].
    split; [apply fitness_ltb_irrefl |]. intros s Hs. inversion Hs.
  - assert (Hi : L !! i = Some s).
    { pose proof (lookup_drop L i 0) as E. rewrite Nat.add_0_r in E.
      rewrite <- E, Hd. reflexivity. }
    assert (Hd' : drop (S i) L = rest).
    { replace (S i) with (i + 1)%nat by lia.
      rewrite <- drop_drop, Hd. reflexivity. }
    cbn [argmax_from]. destruct (fitness_ltb best s) eqn:Hlt.
    + destruct (IH i (S i) s Hi Hd') as (top & Ht & H1 & H2).
      exists top. split; [exact Ht |]. split.
      * destruct top as [| t], best as [| x], s as [| y]; simpl in *;
          try congruence.
        destruct (Rlt_dec t y), (Rlt_dec x y), (Rlt_dec t x);
          try congruence; lra.
      * intros s' Hs'. apply elem_of_cons in Hs' as [-> | Hs'];
          [exact H1 | now apply H2].
    + destruct (IH best_idx (S i) best Hb Hd') as (top & Ht & H1 & H2).
      exists top. split; [exact Ht |]. split; [exact H1 |].
      intros s' Hs'. apply elem_of_cons in Hs' as [-> | Hs'];
        [| now apply H2].
      eapply fitness_ltb_false_trans; eauto.
Qed.

Lemma argmax_max (scores : list fitness) (idx : nat) :
  argmax scores = Some idx ->
  exists top, scores !! idx = Some top
    /\ forall s, s ∈ scores -> fitness_ltb top s = false.
Proof.
  destruct scores as [| s0 rest]; [discriminate |]. intros [= <-].
  destruct (argmax_from_max (s0 :: rest) rest 0 1 s0 eq_refl eq_refl)
    as (top & Ht & H1 & H2).
  exists top. split; [exact Ht |]. intros s Hs.
  apply elem_of_cons in Hs as [-> | Hs]; [exact H1 | now apply H2].
Qed.

Section Loop.
Context (self : GeneticOptimizer) (argsort : list fitness -> list nat).

Lemma generations_loop_best (n : nat) (population : list (list Assignment))
    (fitness_scores : list fitness) (best_solution best : list Assignment)
    (best_fitness bound : fitness) (g : rng) :
  best_fitness = evaluate_fitness self best_solution ->
  fitness_ltb best_fitness bound = false ->
  generations_loop self argsort n population fitness_scores best_solution
    best_fitness g = Some best ->
  fitness_ltb (evaluate_fitness self best) bound = false.
Proof.
  revert population fitness_scores best_solution best_fitness g.
  induction n as [| n IH];
    intros population fitness_scores best_solution best_fitness g Hfit Hb H.
  - injection H as <-. now rewrite <- Hfit.
  - cbn [generations_loop] in H.
    destruct (next_population _ _ _ _ _) as [[population' g1] |];
      [| discriminate].
    cbn in H.
    destruct (argmax _) as [idx |]; [| discriminate]. cbn in H.
    destruct (map (evaluate_fitness self) population' !! idx)
      as [current_fitness |] eqn:Hcf; [| discriminate]. cbn in H.
    destruct (population' !! idx) as [current |] eqn:Hcur; [| discriminate].
    cbn in H.
    assert (Hc : current_fitness = evaluate_fitness self current).
    { rewrite list_lookup_fmap, Hcur in Hcf. now injection Hcf as <-. }
    destruct (fitness_ltb best_fitness current_fitness) eqn:Hlt.
    + eapply IH; [exact Hc | | exact H].
      eapply fitness_ltb_true_false; eauto.
    + eapply IH; [exact Hfit | exact Hb | exact H].
Qed.

(** X23: the individual that [optimize] returns is at least as fit as
    every individual of the initial population: the best individual is
    only ever replaced by a strictly fitter one. *)
Theorem optimize_never_returns_worse_than_initial (clock : nat) (g : rng)
    (best sol : list Assignment) :
  optimize self argsort clock g = Returned best ->
  sol ∈ fst (create_initial_population self g) ->
  fitness_ltb (evaluate_fitness self best) (evaluate_fitness self sol)
  = false.
Proof.
  unfold optimize. destruct (create_initial_population self g)
    as [population g0]. cbn [fst]. intros H Hsol.
  destruct (forallb _ population); [discriminate |].
  destruct (forallb _ (map _ population)); [discriminate |].
  destruct (argmax _) as [idx |] eqn:Harg; [| discriminate].
  destruct (population !! idx) as [first_best |] eqn:Hfb; [| discriminate].
  destruct (map (evaluate_fitness self) population !! idx)
    as [first_fitness |] eqn:Hff; [| discriminate].
  destruct (generations_loop _ _ _ _ _ _ _ _) as [[| a rest] |] eqn:Hloop;
    try discriminate.
  injection H as <-.
  eapply generations_loop_best; [| | exact Hloop].
  - rewrite list_lookup_fmap, Hfb in Hff. now injection Hff as <-.
  - apply argmax_max in Harg as (top & Ht & Hmax).
    rewrite Hff in Ht. injection Ht as <-. apply Hmax.
    apply list_elem_of_fmap. eauto.
Qed.

End Loop.
End Elitism.

Section ElitismExample.
Import Py Genetic.

Lemma optimize_never_returns_worse_than_initial_witness :
  fitness_ltb
    (evaluate_fitness Examples.small_roster Examples.crowded_individual)
    (evaluate_fitness Examples.small_roster Examples.crowded_individual)
  = false.
Proof.
  apply (optimize_never_returns_worse_than_initial Examples.small_roster
           (fun _ => []) 0 []).
  - apply crowded_optimize. intros scores. constructor.
  - rewrite <- (small_roster_random_solution []).
    unfold create_initial_population.
    rewrite bool_decide_eq_true_2 by reflexivity.
    change (population_size (config Examples.small_roster) - length [])%nat
      with 4%nat.
    cbn [fill_population].
    destruct (create_random_solution Examples.small_roster []) as [s g1].
    cbn [fst app].
    destruct (create_random_solution Examples.small_roster g1) as [s2 g2].
    destruct (create_random_solution Examples.small_roster g2) as [s3 g3].
    destruct (create_random_solution Examples.small_roster g3) as [s4 g4].
    cbn [fst app]. left.
Defined.

End ElitismExample.

(** ** Fitness values and random construction *)

Section FitnessRange.
Import Py Genetic.

(** X24: the fitness of an individual is either minus infinity or a
    number that is at least 0.1.  It is a number exactly when the
    individual is not empty, names only crew members and flights of the
    roster, and the flights of the roster require a positive number of
    positions. *)
Theorem fitness_is_minus_infinity_or_at_least_a_tenth
    (self : GeneticOptimizer) (sol : list Assignment) :
  (evaluate_fitness self sol = NegInf
   \/ exists r, evaluate_fitness self sol = Fin r /\ (0.1 <= r)%R)
  /\ ((exists r, evaluate_fitness self sol = Fin r)
      <-> sol <> [] /\ Spec.known self sol = true
          /\ 0 < zsum (map required_positions (flights self))).
Proof.
  split.
  - unfold evaluate_fitness. destruct sol as [| a sol]; [now left |].
    destruct (_calculate_coverage_score self (a :: sol)) as [c |];
      [| now left].
    destruct (Rle_dec c 0); [now left |].
    destruct (_calculate_overtime_penalty self (a :: sol)) as [o |];
      [| now left].
    destruct (_calculate_fairness_score self (a :: sol)) as [f |];
      [| now left].
    destruct (_calculate_continuity_and_base_penalties self (a :: sol)).
    right. eexists. split; [reflexivity | apply Rmax_r].
  - split.
    + intros [r Hr].
      destruct sol as [| a sol]; [discriminate |].
      split; [discriminate |].
      destruct (Spec.known self (a :: sol)) eqn:Hk.
      2: { rewrite (evaluate_fitness_unknown self _ Hk) in Hr.
           discriminate. }
      split; [reflexivity |].
      unfold evaluate_fitness, _calculate_coverage_score in Hr.
      destruct (zsum (map required_positions (flights self)) =? 0) eqn:Hz;
        [discriminate |].
      apply Z.eqb_neq in Hz.
      destruct (Rle_dec _ 0) as [| Hn] in Hr; [discriminate |].
      destruct (Z_lt_le_dec 0 (zsum (map required_positions (flights self))))
        as [Hpos | Hneg]; [exact Hpos |].
      exfalso. apply Hn.
      set (t := zsum (map required_positions (flights self))) in *.
      assert (Ht : (IZR t < 0)%R) by (apply IZR_lt; lia).
      assert (Hl : (0 <= IZR (Z.of_nat (length (a :: sol))))%R)
        by (apply IZR_le; lia).
      eapply Rle_trans; [apply Rmin_r |].
      unfold Rdiv. pose proof (Rinv_lt_0_compat _ Ht). nra.
    + intros (Hne & Hk & Hpos).
      exact (evaluate_fitness_finite self sol Hne Hk Hpos).
Qed.

End FitnessRange.

Section RandomConstruction.
Import Py Genetic.

(** The role names that the random construction accepts for a seat. *)
Local Abbreviation seat_roles :=
  (fun (seat crew_role : string) =>
     (seat = "Captain" /\ In crew_role ["Captain"; "CPT"])
     \/ (seat = "First Officer" /\ In crew_role ["First Officer"; "FO"])
     \/ (seat = "Senior Crew"
         /\ In crew_role ["Senior Crew"; "Senior Cabin"; "SC"])
     \/ (seat = "Cabin Crew" /\ In crew_role ["Cabin Crew"; "CC"])).

Local Abbreviation seated self :=
  (fun a : Assignment =>
     exists c f,
       c ∈ crew self /\ f ∈ flights self
       /\ a_crew_id a = crew_id c /\ a_flight_id a = flight_id f
       /\ available c = true
       /\ In (aircraft_type f) (qualified_types c)
       /\ seat_roles (a_role a) (role c)).

Lemma seat_loop_Forall (P : Assignment -> Prop) (n : nat)
    (eligible : list Crew) (f_id role_name : string)
    (st : list Assignment * rng) :
  (forall c, c ∈ eligible -> P (Build_Assignment (crew_id c) f_id role_name)) ->
  Forall P (fst st) ->
  Forall P (fst (seat_loop n eligible f_id role_name st)).
Proof.
  intros Hel. revert st. induction n as [| n IH]; intros st Hst;
    [exact Hst |].
  cbn [seat_loop]. destruct eligible as [| c0 cs] eqn:He; [now apply IH |].
  destruct st as [solution g]. destruct (choice (c0 :: cs) g) as [picked g']
    eqn:Hch.
  destruct picked as [c |]; apply IH; cbn [fst] in *; [| exact Hst].
  apply Forall_app. split; [exact Hst |]. constructor; [| constructor].
  apply Hel. unfold choice in Hch. destruct (draw g) as [k g1].
  injection Hch as Hl _. eapply list_elem_of_lookup_2. exact Hl.
Qed.

Lemma seat_loop_length (n : nat) (eligible : list Crew)
    (f_id role_name : string) (st : list Assignment * rng) :
  (length (fst (seat_loop n eligible f_id role_name st))
   <= length (fst st) + n)%nat.
Proof.
  revert st. induction n as [| n IH]; intros st; [simpl; lia |].
  cbn [seat_loop]. destruct eligible as [| c0 cs] eqn:He.
  - specialize (IH st). lia.
  - destruct st as [solution g].
    destruct (choice (c0 :: cs) g) as [[c |] g'].
    + specialize (IH ((solution ++ [Build_Assignment (crew_id c) f_id
                                      role_name])%list, g')).
      cbn [fst] in *. rewrite length_app in IH. simpl in IH. lia.
    + specialize (IH (solution, g')). cbn [fst] in *. lia.
Qed.

Lemma pool_elem (self : GeneticOptimizer) (names : list string)
    (flight : Flight) (c : Crew) :
  c ∈ qualified_pool (role_pool self names) flight ->
  c ∈ crew self /\ In (role c) names /\ available c = true
  /\ In (aircraft_type flight) (qualified_types c).
Proof.
  unfold qualified_pool, role_pool. intros H.
  apply list_elem_of_In, filter_In in H as [H Hq].
  apply filter_In in H as [H Hr]. apply andb_true_iff in Hr as [Hr Ha].
  split; [now apply list_elem_of_In |].
  split; [now apply str_in_In |]. split; [exact Ha | now apply str_in_In].
Qed.

Lemma random_assignments_seated (self : GeneticOptimizer) (g : rng) :
  Forall (seated self) (fst (random_assignments self g))
  /\ (length (fst (random_assignments self g))
      <= list_sum (map (fun f =>
                          Z.to_nat (needed_captains f) + Z.to_nat (needed_fo f)
                          + Z.to_nat (needed_sc f) + Z.to_nat (needed_cc f))
                       (flights self)))%nat.
Proof.
  unfold random_assignments.
  set (step := assign_flight _ _ _ _).
  assert (G : forall l st,
    (forall f, f ∈ l -> f ∈ flights self) ->
    Forall (seated self) (fst st) ->
    Forall (seated self) (fst (foldl step st l))
    /\ (length (fst (foldl step st l))
        <= length (fst st)
           + list_sum (map (fun f =>
                          Z.to_nat (needed_captains f) + Z.to_nat (needed_fo f)
                          + Z.to_nat (needed_sc f) + Z.to_nat (needed_cc f))
                       l))%nat).
  { induction l as [| f l IH]; intros st Hl Hst; [simpl; split; [auto | lia] |].
    cbn [foldl map list_sum].
    assert (Hf : f ∈ flights self) by (apply Hl; left).
    destruct (IH (step st f)) as [I1 I2].
    - intros f' Hf'. apply Hl. now right.
    - unfold step, assign_flight.
      repeat apply seat_loop_Forall; try exact Hst;
        intros c Hc; apply pool_elem in Hc as (H1 & H2 & H3 & H4);
        exists c, f; cbn [a_crew_id a_flight_id a_role];
        (split; [exact H1 |]); (split; [exact Hf |]);
        (split; [reflexivity |]); (split; [reflexivity |]);
        (split; [exact H3 |]); (split; [exact H4 |]);
        first [ left; split; [reflexivity | exact H2]
              | right; left; split; [reflexivity | exact H2]
              | right; right; left; split; [reflexivity | exact H2]
              | right; right; right; split; [reflexivity | exact H2] ].
    - split; [exact I1 |]. etransitivity; [exact I2 |].
      unfold step, assign_flight.
      set (s1 := seat_loop (Z.to_nat (needed_captains f)) _ _ _ st).
      set (s2 := seat_loop (Z.to_nat (needed_fo f)) _ _ _ s1).
      set (s3 := seat_loop (Z.to_nat (needed_sc f)) _ _ _ s2).
      pose proof (seat_loop_length (Z.to_nat (needed_captains f))
        (qualified_pool (role_pool self ["Captain"; "CPT"]) f)
        (flight_id f) "Captain" st) as L1. fold s1 in L1.
      pose proof (seat_loop_length (Z.to_nat (needed_fo f))
        (qualified_pool (role_pool self ["First Officer"; "FO"]) f)
        (flight_id f) "First Officer" s1) as L2. fold s2 in L2.
      pose proof (seat_loop_length (Z.to_nat (needed_sc f))
        (qualified_pool (role_pool self ["Senior Crew"; "Senior Cabin"; "SC"]) f)
        (flight_id f) "Senior Crew" s2) as L3. fold s3 in L3.
      pose proof (seat_loop_length (Z.to_nat (needed_cc f))
        (qualified_pool (role_pool self ["Cabin Crew"; "CC"]) f)
        (flight_id f) "Cabin Crew" s3) as L4.
      unfold list_sum. cbn [fold_right]. lia. }
  destruct (G (flights self) ([], g)) as [G1 G2]; [auto | constructor |].
  split; [exact G1 | exact G2].
Qed.

(** X25: on a loaded optimizer, every assignment of a randomly
    constructed individual seats a crew member of the roster on a flight
    of the roster; the crew member is available, lists the aircraft type
    of the flight and holds one of the role names accepted for the seat.
    The individual never has more assignments than the flights require
    positions. *)
Theorem random_solution_seats_available_qualified_crew
    (self : GeneticOptimizer) (g : rng) (a : Assignment) :
  loaded self ->
  a ∈ fst (create_random_solution self g) ->
  (exists c f,
     c ∈ crew self /\ f ∈ flights self
     /\ a_crew_id a = crew_id c /\ a_flight_id a = flight_id f
     /\ available c = true
     /\ In (aircraft_type f) (qualified_types c)
     /\ ((a_role a = "Captain" /\ In (role c) ["Captain"; "CPT"])
         \/ (a_role a = "First Officer"
             /\ In (role c) ["First Officer"; "FO"])
         \/ (a_role a = "Senior Crew"
             /\ In (role c) ["Senior Crew"; "Senior Cabin"; "SC"])
         \/ (a_role a = "Cabin Crew" /\ In (role c) ["Cabin Crew"; "CC"])))
  /\ (length (fst (create_random_solution self g))
      <= list_sum (map (fun f =>
                          Z.to_nat (needed_captains f) + Z.to_nat (needed_fo f)
                          + Z.to_nat (needed_sc f) + Z.to_nat (needed_cc f))
                       (flights self)))%nat.
Proof.
  intros Hloaded Ha. unfold create_random_solution in *.
  destruct (random_assignments_seated self g) as [H1 H2].
  destruct (random_assignments self g) as [solution g']. cbn [fst] in *.
  pose proof (repair_Permutation self Hloaded solution) as Hp.
  split.
  - rewrite Hp in Ha. apply list_elem_of_In, filter_In in Ha as [Ha _].
    rewrite Forall_forall in H1. apply H1. now apply list_elem_of_In.
  - apply Permutation_length in Hp. rewrite Hp.
    etransitivity; [apply filter_length_le | exact H2].
Qed.

Lemma random_solution_seats_available_qualified_crew_witness :
  (exists c f,
     c ∈ crew Examples.small_roster /\ f ∈ flights Examples.small_roster
     /\ "CC1" = crew_id c /\ "F1" = flight_id f
     /\ available c = true
     /\ In (aircraft_type f) (qualified_types c)
     /\ (("Cabin Crew" = "Captain" /\ In (role c) ["Captain"; "CPT"])
         \/ ("Cabin Crew" = "First Officer"
             /\ In (role c) ["First Officer"; "FO"])
         \/ ("Cabin Crew" = "Senior Crew"
             /\ In (role c) ["Senior Crew"; "Senior Cabin"; "SC"])
         \/ ("Cabin Crew" = "Cabin Crew"
             /\ In (role c) ["Cabin Crew"; "CC"])))
  /\ (length (fst (create_random_solution Examples.small_roster []))
      <= 4)%nat.
Proof.
  apply (random_solution_seats_available_qualified_crew
           Examples.small_roster []
           (Build_Assignment "CC1" "F1" "Cabin Crew")).
  - split; reflexivity.
  - rewrite small_roster_random_solution. right. right. left.
Defined.

End RandomConstruction.

(** ** Qualification strings in the two engines *)

Section QualificationStrings.
Import Py Genetic.

(** No character of the string is white space. *)
Local Abbreviation no_space s :=
  (forallb (fun a => negb (isspace a)) (list_ascii_of_string s) = true).

Lemma lstrip_no_space (l : list ascii) :
  forallb (fun a => negb (isspace a)) l = true -> lstrip l = l.
Proof.
  destruct l as [| a l]; [reflexivity |]. simpl.
  intros H. apply andb_true_iff in H as [Ha _].
  apply negb_true_iff in Ha. now rewrite Ha.
Qed.

Lemma forallb_rev {A} (p : A -> bool) (l : list A) :
  forallb p (rev l) = forallb p l.
Proof.
  induction l as [| a l IH]; [reflexivity |]. simpl.
  rewrite forallb_app, IH. simpl. rewrite andb_true_r. apply andb_comm.
Qed.

Lemma strip_no_space (s : string) : no_space s -> strip s = s.
Proof.
  intros H. unfold strip. rewrite (lstrip_no_space _ H).
  rewrite lstrip_no_space by now rewrite forallb_rev.
  rewrite rev_involutive. apply string_of_list_ascii_of_string.
Qed.

(** The fields of a split, for any accumulator. *)
Lemma split_go_fields (sep : ascii) (p : ascii -> bool) (acc s : list ascii) :
  forallb p acc = true -> forallb p s = true ->
  Forall (fun t => forallb p (list_ascii_of_string t) = true)
         (split_go sep acc s).
Proof.
  revert acc. induction s as [| a s IH]; intros acc Hacc Hs.
  - constructor; [| constructor].
    rewrite list_ascii_of_string_of_list_ascii. now rewrite forallb_rev.
  - simpl in Hs. apply andb_true_iff in Hs as [Ha Hs]. simpl.
    destruct (Ascii.eqb a sep).
    + constructor; [| now apply IH].
      rewrite list_ascii_of_string_of_list_ascii. now rewrite forallb_rev.
    + apply IH; [| exact Hs]. simpl. now rewrite Ha, Hacc.
Qed.

Lemma split_go_no_sep (sep : ascii) (acc s : list ascii) :
  existsb (Ascii.eqb sep) s = false ->
  split_go sep acc s = [string_of_list_ascii (rev acc ++ s)].
Proof.
  revert acc. induction s as [| a s IH]; intros acc H.
  - simpl. now rewrite app_nil_r.
  - simpl in H. apply orb_false_iff in H as [Ha Hs]. simpl.
    rewrite Ascii.eqb_sym, Ha. rewrite (IH _ Hs). simpl.
    now rewrite <- app_assoc.
Qed.

Lemma split_no_sep (sep : ascii) (s : string) :
  char_in sep s = false -> split sep s = [s].
Proof.
  unfold char_in, split. intros H. rewrite (split_go_no_sep _ _ _ H).
  simpl. now rewrite string_of_list_ascii_of_string.
Qed.

Lemma split_go_fields_no_sep (sep : ascii) (acc s : list ascii) :
  existsb (Ascii.eqb sep) acc = false ->
  Forall (fun t => char_in sep t = false) (split_go sep acc s).
Proof.
  revert acc. induction s as [| a s IH]; intros acc Hacc.
  - constructor; [| constructor]. unfold char_in.
    rewrite list_ascii_of_string_of_list_ascii.
    rewrite <- Hacc. clear. induction acc as [| b acc IH]; [reflexivity |].
    simpl. rewrite existsb_app, IH. simpl. rewrite orb_false_r.
    apply orb_comm.
  - simpl. destruct (Ascii.eqb a sep) eqn:Ha.
    + constructor; [| now apply IH].
      unfold char_in. rewrite list_ascii_of_string_of_list_ascii.
      rewrite <- Hacc. clear. induction acc as [| b acc IH]; [reflexivity |].
      simpl. rewrite existsb_app, IH. simpl. rewrite orb_false_r.
      apply orb_comm.
    + apply IH. simpl. now rewrite Ascii.eqb_sym, Ha, Hacc.
Qed.

Lemma parse_no_space (s : string) (sep : ascii) :
  no_space s ->
  map strip (List.filter (fun t => truthy (strip t)) (split sep s))
  = List.filter truthy (split sep s).
Proof.
  intros H. pose proof (split_go_fields sep _ [] _ eq_refl H) as Hf.
  fold (split sep s) in Hf.
  induction Hf as [| t l Ht _ IH]; [reflexivity |].
  cbn [List.filter]. rewrite (strip_no_space t Ht).
  destruct (truthy t); [| exact IH].
  cbn [map]. now rewrite (strip_no_space t Ht), IH.
Qed.

(** X26: for a qualification string without white space and a non-empty
    aircraft type, the list that the genetic engine parses contains the
    type exactly when the exact path's test on the ['|']-split string
    accepts it, provided the string contains ['|'] or contains no comma.
    For a string with commas and no ['|'], the genetic engine accepts
    every non-empty comma-separated field, and the exact path accepts
    none of them. *)
Theorem qualification_parsing_agrees_on_pipe_separated
    (s ac_type : string) :
  forallb (fun a => negb (isspace a)) (list_ascii_of_string s) = true ->
  ac_type <> "" ->
  (char_in "|" s = true \/ char_in "," s = false ->
   (In ac_type (_parse_qualified_types (Some s))
    <-> Eligibility._crew_qualified_for ac_type s = true))
  /\ (char_in "|" s = false -> char_in "," s = true ->
      (In ac_type (_parse_qualified_types (Some s))
       <-> In ac_type (split "," s))
      /\ (In ac_type (split "," s) ->
          Eligibility._crew_qualified_for ac_type s = false)).
Proof.
  intros Hsp Hne. unfold _parse_qualified_types, Eligibility._crew_qualified_for.
  rewrite (strip_no_space s Hsp).
  assert (Hf : forall sep,
    In ac_type (List.filter truthy (split sep s)) <-> In ac_type (split sep s)).
  { intros sep. rewrite filter_In. split; [tauto |]. intros H.
    split; [exact H |]. unfold truthy. apply negb_true_iff.
    now apply String.eqb_neq. }
  split.
  - intros Hcase. rewrite str_in_In.
    destruct (truthy s) eqn:Ht; cbn [negb].
    + destruct (char_in "|" s) eqn:Hp.
      * rewrite (parse_no_space s _ Hsp). apply Hf.
      * destruct Hcase as [? | Hc]; [discriminate |].
        rewrite (parse_no_space s _ Hsp), Hf.
        now rewrite (split_no_sep _ _ Hc), (split_no_sep _ _ Hp).
    + unfold truthy in Ht. apply negb_false_iff, String.eqb_eq in Ht.
      subst s. simpl. split; [tauto |]. intros [H | []]. now symmetry in H.
  - intros Hp Hc.
    assert (Ht : truthy s = true).
    { unfold truthy. apply negb_true_iff, String.eqb_neq. intros ->.
      discriminate. }
    rewrite Ht, Hp. cbn [negb]. rewrite (parse_no_space s _ Hsp).
    split; [apply Hf |]. intros Hin.
    destruct (str_in ac_type (split "|" s)) eqn:Hq; [| reflexivity].
    apply str_in_In in Hq. rewrite (split_no_sep _ _ Hp) in Hq.
    destruct Hq as [<- | []].
    pose proof (split_go_fields_no_sep "," [] (list_ascii_of_string s)
                  eq_refl) as Hall.
    fold (split "," s) in Hall. rewrite Forall_forall in Hall.
    apply list_elem_of_In, Hall in Hin. congruence.
Qed.

Lemma qualification_parsing_agrees_on_pipe_separated_witness :
  (char_in "|" "A320,A321" = true \/ char_in "," "A320,A321" = false ->
   (In "A320" (_parse_qualified_types (Some "A320,A321"))
    <-> Eligibility._crew_qualified_for "A320" "A320,A321" = true))
  /\ (char_in "|" "A320,A321" = false -> char_in "," "A320,A321" = true ->
      (In "A320" (_parse_qualified_types (Some "A320,A321"))
       <-> In "A320" (split "," "A320,A321"))
      /\ (In "A320" (split "," "A320,A321") ->
          Eligibility._crew_qualified_for "A320" "A320,A321" = false)).
Proof.
  apply (qualification_parsing_agrees_on_pipe_separated "A320,A321" "A320").
  - reflexivity.
  - discriminate.
Defined.

End QualificationStrings.

(** ** Comparing two rosters *)

Section RosterChanges.
Import Py App.

(** The entry has the six keys that a change record reads. *)
Local Abbreviation complete :=
  (fun a : assignment =>
     is_Some (a !! "crew_id") /\ is_Some (a !! "flight_id")
     /\ is_Some (a !! "role") /\ is_Some (a !! "dep_airport")
     /\ is_Some (a !! "arr_airport") /\ is_Some (a !! "dep_dt")).

Lemma index_assignments_spec (l : list assignment) :
  Forall complete l ->
  exists d, index_assignments l = Some d
    /\ (forall k, k ∈ map fst d <-> exists a, a ∈ l /\ key_of a = Some k)
    /\ Forall (fun e => complete (snd e)) d.
Proof.
  unfold index_assignments.
  induction l as [| a l IH] using rev_ind; intros Hl.
  - exists []. split; [reflexivity |]. split; [| constructor].
    intros k. split; [intros H; inversion H |].
    intros (a & Ha & _). inversion Ha.
  - apply Forall_app in Hl as [Hl Ha]. inversion Ha as [| ? ? Hc _]; subst.
    destruct (IH Hl) as (d & Hd & Hk & Hall). rewrite foldl_app. cbn [foldl].
    rewrite Hd. cbn [mbind option_bind].
    destruct Hc as ([c Hc1] & [f Hf1] & Hrest).
    assert (Hkey : key_of a = Some (c, f)).
    { unfold key_of. now rewrite Hc1, Hf1. }
    rewrite Hkey. cbn [mbind option_bind].
    exists (dict_set d (c, f) a). split; [reflexivity |]. split.
    + intros k.
      assert (Hset : k ∈ map fst (dict_set d (c, f) a)
                     <-> k ∈ map fst d \/ k = (c, f)).
      { rewrite dict_set_fst. destruct (bool_decide _) eqn:Hd'.
        - apply bool_decide_eq_true in Hd'. split; [now left |].
          intros [H | ->]; assumption.
        - rewrite elem_of_app, list_elem_of_singleton. reflexivity. }
      rewrite Hset. split.
      * intros [Hin | ->].
        -- apply Hk in Hin as (a' & Ha' & Hk'). exists a'.
           split; [apply elem_of_app; now left | exact Hk'].
        -- exists a. split; [| exact Hkey].
           apply elem_of_app. right. now apply list_elem_of_singleton.
      * intros (a' & Ha' & Hk'). apply elem_of_app in Ha' as [Ha' | Ha'].
        -- left. apply Hk. eauto.
        -- apply list_elem_of_singleton in Ha'. subst a'. right. congruence.
    + apply Forall_forall. intros [k e] Hin. cbn [snd].
      apply elem_of_dict_set in Hin as [[= -> ->] | Hin].
      * split; [eauto |]. split; [eauto | exact Hrest].
      * rewrite Forall_forall in Hall. exact (Hall _ Hin).
Qed.

Lemma changes_between_spec (type : string)
    (src other : list ((string * string) * assignment)) :
  Forall (fun e => complete (snd e)) src ->
  exists cs, changes_between type src other = Some cs
    /\ length cs
       = length (List.filter
                   (fun e => negb (bool_decide (fst e ∈ map fst other))) src)
    /\ Forall (fun c => ch_type c = type) cs.
Proof.
  unfold changes_between. intros Hsrc.
  induction Hsrc as [| e src He _ IH].
  - exists []. split; [reflexivity |]. split; [reflexivity | constructor].
  - destruct IH as (cs & Hcs & Hlen & Hty). cbn [List.filter].
    destruct (negb (bool_decide (fst e ∈ map fst other))); [| eauto].
    destruct He as ([c Hc] & [f Hf] & [r Hr] & [dep Hdep] & [arr Harr]
                    & [dt Hdt]).
    assert (Hch : exists ch, change_of type (snd e) = Some ch
                             /\ ch_type ch = type).
    { unfold change_of. rewrite Hc, Hf, Hr, Hdep, Harr, Hdt.
      cbn [mbind option_bind]. eexists. split; reflexivity. }
    destruct Hch as (ch & Hch & Htype).
    exists (ch :: cs). split.
    + change (mapM (fun e0 => change_of type (snd e0)) (e :: ?l))
        with (x ← change_of type (snd e);
              k ← mapM (fun e0 => change_of type (snd e0)) l;
              mret (x :: k)).
      rewrite Hch. cbn [mbind option_bind]. rewrite Hcs. reflexivity.
    + split; [simpl; now rewrite Hlen |]. constructor; assumption.
Qed.

Lemma filter_type_app (t t' : string) (xs ys : list Change) :
  t <> t' ->
  Forall (fun c => ch_type c = t) xs -> Forall (fun c => ch_type c = t') ys ->
  List.filter (fun c => String.eqb (ch_type c) t) (xs ++ ys) = xs.
Proof.
  intros Hne Hx Hy. rewrite List.filter_app.
  replace (List.filter _ ys) with (@nil Change).
  - rewrite app_nil_r. induction Hx as [| c xs Hc _ IH]; [reflexivity |].
    simpl. rewrite Hc, String.eqb_refl. now rewrite IH.
  - induction Hy as [| c ys Hc _ IH]; [reflexivity |]. simpl.
    rewrite Hc. destruct (String.eqb_spec t' t); [congruence | exact IH].
Qed.

Lemma filter_nil_iff {A} (p : A -> bool) (l : list A) :
  length (List.filter p l) = 0%nat <-> forall a, a ∈ l -> p a = false.
Proof.
  induction l as [| a l IH]; simpl.
  - split; [intros _ a Ha; inversion Ha | reflexivity].
  - destruct (p a) eqn:Hp; simpl.
    + split; [discriminate |]. intros H. specialize (H a ltac:(left)).
      congruence.
    + rewrite IH. split.
      * intros H a' Ha'. apply elem_of_cons in Ha' as [-> | Ha']; auto.
      * intros H a' Ha'. apply H. now right.
Qed.

(** X27: for two rosters with at least one assignment each, all of whose
    assignments carry the six keys that are read, the comparison returns
    a summary whose total is the number of listed changes and the sum of
    the removed and the added ones; and it reports no change at all
    exactly when the two rosters have the same set of (crew, flight)
    pairs, so a change of role on an unchanged pair is never reported. *)
Theorem roster_changes_compare_crew_flight_pairs (before after : Roster)
    (b a : list assignment) :
  assignments before = Some b -> assignments after = Some a ->
  b <> [] -> a <> [] ->
  Forall (fun e => is_Some (e !! "crew_id") /\ is_Some (e !! "flight_id")
                   /\ is_Some (e !! "role") /\ is_Some (e !! "dep_airport")
                   /\ is_Some (e !! "arr_airport") /\ is_Some (e !! "dep_dt"))
         (b ++ a) ->
  exists r s,
    calculate_roster_changes before after = Some r
    /\ summary r = Some s
    /\ total_changes s = length (crew_changes r)
    /\ total_changes s = (assignments_removed s + assignments_added s)%nat
    /\ (total_changes s = 0%nat
        <-> forall k, (exists e, e ∈ b /\ key_of e = Some k)
                      <-> (exists e, e ∈ a /\ key_of e = Some k)).
Proof.
  intros Hb Ha Hbne Hane Hall. apply Forall_app in Hall as [Hcb Hca].
  unfold calculate_roster_changes. rewrite Hb, Ha.
  destruct b as [| b0 b]; [congruence |]. destruct a as [| a0 a]; [congruence |].
  destruct (index_assignments_spec _ Hcb) as (db & Hdb & Hkb & Hallb).
  destruct (index_assignments_spec _ Hca) as (da & Hda & Hka & Halla).
  rewrite Hdb, Hda. cbn [mbind option_bind].
  destruct (changes_between_spec "removed" db da Hallb)
    as (removed & Hrem & Hlr & Htr).
  destruct (changes_between_spec "added" da db Halla)
    as (added & Hadd & Hla & Hta).
  rewrite Hrem, Hadd. cbn [mbind option_bind].
  eexists. eexists. split; [reflexivity |]. split; [reflexivity |].
  cbn [total_changes crew_changes assignments_removed assignments_added].
  split; [reflexivity |].
  rewrite (filter_type_app "removed" "added" removed added
             ltac:(discriminate) Htr Hta).
  assert (Hadded :
    List.filter (fun c => String.eqb (ch_type c) "added") (removed ++ added)
    = added).
  { rewrite List.filter_app.
    replace (List.filter _ removed) with (@nil Change).
    - simpl. clear -Hta. induction Hta as [| c ys Hc _ IH]; [reflexivity |].
      simpl. rewrite Hc. simpl. now rewrite IH.
    - clear -Htr. induction Htr as [| c ys Hc _ IH]; [reflexivity |].
      simpl. rewrite Hc. simpl. exact IH. }
  rewrite Hadded, length_app. split; [reflexivity |].
  rewrite Hlr, Hla. split.
  - intros Hz.
    assert (H1 : length (List.filter
              (fun e => negb (bool_decide (fst e ∈ map fst da))) db) = 0%nat)
      by lia.
    assert (H2 : length (List.filter
              (fun e => negb (bool_decide (fst e ∈ map fst db))) da) = 0%nat)
      by lia.
    rewrite filter_nil_iff in H1, H2. intros k. rewrite <- Hkb, <- Hka.
    split; intros Hin; apply list_elem_of_fmap in Hin as ([k' e] & -> & Hin).
    + specialize (H1 _ Hin). apply negb_false_iff, bool_decide_eq_true in H1.
      exact H1.
    + specialize (H2 _ Hin). apply negb_false_iff, bool_decide_eq_true in H2.
      exact H2.
  - intros Hsame.
    assert (H1 : length (List.filter
              (fun e => negb (bool_decide (fst e ∈ map fst da))) db) = 0%nat).
    { apply filter_nil_iff. intros [k e] Hin.
      apply negb_false_iff, bool_decide_eq_true. cbn [fst].
      apply Hka, Hsame, Hkb. apply list_elem_of_fmap. now exists (k, e). }
    assert (H2 : length (List.filter
              (fun e => negb (bool_decide (fst e ∈ map fst db))) da) = 0%nat).
    { apply filter_nil_iff. intros [k e] Hin.
      apply negb_false_iff, bool_decide_eq_true. cbn [fst].
      apply Hkb, Hsame, Hka. apply list_elem_of_fmap. now exists (k, e). }
    lia.
Qed.

End RosterChanges.

Section RosterChangesExample.
Import Py App.

Lemma roster_changes_compare_crew_flight_pairs_witness :
  exists r s,
    calculate_roster_changes Examples.roster_before Examples.roster_after
    = Some r
    /\ summary r = Some s
    /\ total_changes s = length (crew_changes r)
    /\ total_changes s = (assignments_removed s + assignments_added s)%nat
    /\ (total_changes s = 0%nat
        <-> forall k,
              (exists e, e ∈ [Examples.roster_entry "C1" "F1" "Captain"]
                         /\ key_of e = Some k)
              <-> (exists e, e ∈ [Examples.roster_entry "C1" "F1" "FO"]
                             /\ key_of e = Some k)).
Proof.
  apply (roster_changes_compare_crew_flight_pairs
           Examples.roster_before Examples.roster_after
           [Examples.roster_entry "C1" "F1" "Captain"]
           [Examples.roster_entry "C1" "F1" "FO"]).
  - reflexivity.
  - reflexivity.
  - discriminate.
  - discriminate.
  - simpl. repeat (apply List.Forall_cons || apply List.Forall_nil);
      repeat split; eexists; reflexivity.
Defined.

End RosterChangesExample.

(** ** The continuity penalty and the continuity chain *)

Section ContinuityPenalty.
Import Py Genetic.
Context (self : GeneticOptimizer) (Hloaded : loaded self).

Local Abbreviation fbi := (flights_by_id self).
Local Abbreviation flight_for c :=
  (fun k : string * string => if decide (k.1 = c) then fbi !! k.2 else None).

(** The dictionary that [crew_schedules] fills, before the sort. *)
Local Abbreviation unsorted sol :=
  (foldl (fun d a =>
            match fbi !! a_flight_id a with
            | Some f => dict_append d (a_crew_id a) f
            | None => d
            end) [] sol).

Lemma unsorted_spec (sol : list Assignment) :
  (forall c, dict_get (unsorted sol) c = omap (flight_for c) (map cf_key sol))
  /\ NoDup (map fst (unsorted sol)).
Proof.
  induction sol as [| a sol IH] using rev_ind.
  - split; [reflexivity | constructor].
  - destruct IH as [Hget Hnd]. rewrite foldl_app. cbn [foldl].
    destruct (fbi !! a_flight_id a) as [f |] eqn:Hf.
    + split; [| now apply dict_append_NoDup].
      intros c. rewrite dict_get_append, Hget, map_app, omap_app. f_equal.
      csimpl. unfold cf_key. cbn [fst snd].
      destruct (decide (a_crew_id a = c)) as [<- | Hne].
      * rewrite bool_decide_eq_true_2 by reflexivity. now rewrite Hf.
      * rewrite bool_decide_eq_false_2 by congruence. reflexivity.
    + split; [| exact Hnd].
      intros c. rewrite Hget, map_app, omap_app. csimpl.
      unfold cf_key. cbn [fst snd].
      destruct (decide (a_crew_id a = c)); rewrite ?Hf;
        now rewrite app_nil_r.
Qed.

Lemma first_keys_NoDup {K} `{EqDecision K} (l : list K) :
  NoDup l -> first_keys l = l.
Proof.
  induction 1 as [| k l Hk _ IH]; [reflexivity |]. simpl. rewrite IH.
  f_equal. apply filter_ne_notin. exact Hk.
Qed.

Lemma continuity_breaks_nonneg (fl : list Flight) : 0 <= continuity_breaks fl.
Proof.
  induction fl as [| f1 [| f2 fl] IH]; simpl in *; try lia.
  destruct (String.eqb _ _); lia.
Qed.

Lemma continuity_breaks_zero (fl : list Flight) :
  continuity_breaks fl = 0 <-> Spec.chained fl.
Proof.
  induction fl as [| f1 fl IH]; [split; [intros _ ? ? H; inversion H | reflexivity] |].
  destruct fl as [| f2 fl].
  - split; [intros _ ? ? H; inversion H | reflexivity].
  - change (continuity_breaks (f1 :: f2 :: fl))
      with ((if String.eqb (arr_airport f1) (dep_airport f2) then 0 else 1)
            + continuity_breaks (f2 :: fl)).
    pose proof (continuity_breaks_nonneg (f2 :: fl)) as Hnn.
    split.
    + intros H. destruct (String.eqb_spec (arr_airport f1) (dep_airport f2))
        as [He | Hne]; [| lia].
      apply chained_cons; [now symmetry | apply IH; lia].
    + intros Hc.
      assert (He : dep_airport f2 = arr_airport f1) by (apply Hc; left).
      rewrite <- He, String.eqb_refl.
      assert (Ht : Spec.chained (f2 :: fl)).
      { intros g1 g2 Hin. apply Hc. simpl. now right. }
      apply IH in Ht. lia.
Qed.

Lemma zsum_zero_iff (l : list Z) :
  Forall (fun z => 0 <= z) l -> (zsum l = 0 <-> Forall (fun z => z = 0) l).
Proof.
  induction 1 as [| z l Hz Hl IH]; [split; [constructor | reflexivity] |].
  cbn [zsum foldr]. fold (zsum l).
  assert (0 <= zsum l).
  { clear IH. induction Hl as [| y l Hy _ IH']; simpl; [lia |].
    fold (zsum l). unfold zsum in *. lia. }
  split.
  - intros Hs. constructor; [lia | apply IH; lia].
  - intros Hall. inversion Hall as [| ? ? H0 Hrest]; subst.
    apply IH in Hrest. lia.
Qed.

Lemma continuity_penalty_zero (sol : list Assignment) :
  NoDup (map cf_key sol) ->
  (fst (_calculate_continuity_and_base_penalties self sol) = 0
   <-> Spec.continuous self sol).
Proof.
  intros Hnd. unfold _calculate_continuity_and_base_penalties. cbn [fst].
  unfold crew_schedules. rewrite map_map.
  destruct (unsorted_spec sol) as [Hget Hkeys].
  assert (Hsame : forall c,
    dict_get (unsorted sol) c
    = dict_get (flights_for_crew fbi sol) c).
  { intros c. rewrite Hget.
    rewrite (flights_for_crew_get fbi (loaded_key self Hloaded)).
    now rewrite (first_keys_NoDup _ Hnd). }
  rewrite zsum_zero_iff.
  2: { apply Forall_forall. intros z Hz.
       apply list_elem_of_fmap in Hz as ([c fl] & -> & _).
       pose proof (continuity_breaks_nonneg (sort_by dep_dt fl)). lia. }
  rewrite Forall_forall. split.
  - intros H c. unfold Spec.crew_schedule. rewrite <- Hsame.
    destruct (dict_get (unsorted sol) c) as [| f fl] eqn:Hd.
    + intros ? ? Hin. inversion Hin.
    + assert (Hin : (c, f :: fl) ∈ unsorted sol).
      { rewrite <- Hd. apply dict_get_nonempty. rewrite Hd. discriminate. }
      apply continuity_breaks_zero.
      specialize (H (100 * continuity_breaks (sort_by dep_dt (f :: fl)))).
      assert (100 * continuity_breaks (sort_by dep_dt (f :: fl)) = 0);
        [| lia].
      apply H. apply list_elem_of_fmap. exists (c, f :: fl). split; auto.
  - intros Hc z Hz. apply list_elem_of_fmap in Hz as ([c fl] & -> & Hin).
    specialize (Hc c). unfold Spec.crew_schedule in Hc.
    rewrite <- Hsame, (dict_get_elem _ _ _ Hkeys Hin) in Hc.
    apply continuity_breaks_zero in Hc. lia.
Qed.

End ContinuityPenalty.

Section ContinuityPenaltyTheorem.
Import Py Genetic.

Lemma NoDup_map_filter {A B} (f : A -> B) (P : A -> bool) (l : list A) :
  NoDup (map f l) -> NoDup (map f (List.filter P l)).
Proof.
  induction l as [| a l IH]; intros Hnd; [constructor |].
  cbn [map] in Hnd. apply NoDup_cons in Hnd as [Ha Hnd].
  cbn [List.filter]. destruct (P a); [| auto].
  cbn [map]. apply NoDup_cons. split; [| auto].
  intros Hin. apply Ha. apply list_elem_of_fmap in Hin as (a' & -> & Hin).
  apply list_elem_of_In, filter_In in Hin as [Hin _].
  apply list_elem_of_fmap. exists a'. split; [reflexivity |].
  now apply list_elem_of_In.
Qed.

(** X28: on a loaded optimizer, for an individual that lists no (crew,
    flight) pair twice, the continuity penalty of the fitness is zero
    exactly when the individual satisfies the continuity chain of the
    repair; in particular the repair of such an individual has continuity
    penalty zero. *)
Theorem continuity_penalty_zero_iff_chain_holds (self : GeneticOptimizer)
    (sol : list Assignment) :
  loaded self ->
  NoDup (map cf_key sol) ->
  (fst (_calculate_continuity_and_base_penalties self sol) = 0
   <-> Spec.continuous self sol)
  /\ fst (_calculate_continuity_and_base_penalties self
            (_repair_solution_continuity self sol)) = 0.
Proof.
  intros Hloaded Hnd. split; [now apply continuity_penalty_zero |].
  apply continuity_penalty_zero; [exact Hloaded | |].
  - rewrite (repair_Permutation self Hloaded sol).
    now apply NoDup_map_filter.
  - now apply repair_continuous.
Qed.

Lemma continuity_penalty_zero_iff_chain_holds_witness :
  (fst (_calculate_continuity_and_base_penalties Examples.chain_roster
          Examples.broken_individual) = 0
   <-> Spec.continuous Examples.chain_roster Examples.broken_individual)
  /\ fst (_calculate_continuity_and_base_penalties Examples.chain_roster
            (_repair_solution_continuity Examples.chain_roster
               Examples.broken_individual)) = 0.
Proof.
  apply continuity_penalty_zero_iff_chain_holds.
  - split; reflexivity.
  - simpl. repeat constructor; rewrite ?elem_of_cons, ?elem_of_nil;
      intuition discriminate.
Defined.

End ContinuityPenaltyTheorem.

(** ** The base-return penalty of the exact model *)

Section BaseReturn.
Import CpModel CpLogic Constraints.

(** X29: for a pilot (a crew member whose role normalises to Captain or
    FO) and an operating day, take the pilot's potential pilot-seat
    flights of that day and the one that departs last.  The model then
    has a penalty variable between 0 and 1000 for that pilot and day; when
    the last flight does not arrive at the pilot's base, every solution
    that assigns it makes the penalty at least 100, and when it arrives
    at the base, the penalty is 0 in every solution. *)
Theorem base_return_penalty_follows_last_flight (b : Loader.DataBundle)
    (w : Objective.Weights) (art : ModelArtifacts) (m : model)
    (c : Models.Crew) (day_str : string) :
  Objective.exact_model b w = Some (art, m) ->
  c ∈ Loader.crew b ->
  Py.str_in (Models.role_norm c) pilot_roles = true ->
  day_str ∈ Loader.operating_days b ->
  exists elig day_flights,
    Eligibility.build_eligibility b = Some elig
    /\ pilot_day_flights b elig (Models.crew_id c) day_str (x art)
       = Some day_flights
    /\ forall last_flight last_var,
         last (Py.sort_by (fun it => Models.dep_dt (fst it)) day_flights)
         = Some (last_flight, last_var) ->
         exists penalty,
           domains m !! penalty = Some (0, 1000)
           /\ (Models.arr_airport last_flight <> Models.base c ->
               forall val, feasible m val = true ->
                 100 * val last_var <= val penalty)
           /\ (Models.arr_airport last_flight = Models.base c ->
               forall val, feasible m val = true -> val penalty = 0).
Proof.
  intros Hm Hc Hrole Hday.
  destruct (exact_model_runs b w art m Hm)
    as (elig & m1 & Hel & _ & _ & _ & _ & _ & _ & _ & _
        & (m0 & m' & Hbr & Hext) & _).
  unfold _add_base_return_constraints in Hbr.
  eapply fold_each_run in Hbr as (s1 & ma & s2 & mb & Hrun & _ & E1);
    [| intros; grow | exact Hc].
  cbv beta in Hrun. rewrite Hrole in Hrun. cbn [negb] in Hrun.
  eapply fold_each_run in Hrun as (s3 & mc & s4 & md & Hrun & _ & E2);
    [| intros; grow | exact Hday].
  cbv beta in Hrun.
  apply bind_Some in Hrun as (day_flights & me & Hl & Hrun).
  apply lift_run in Hl as [Hdf ->].
  exists elig, day_flights. split; [exact Hel |]. split; [exact Hdf |].
  intros last_flight last_var Hlast. cbv zeta in Hrun.
  rewrite Hlast in Hrun.
  apply bind_Some in Hrun as (penalty & mf & Hp & Hrun).
  apply bind_Some in Hrun as ([] & mg & Hadd & Hret).
  assert (Hfin : extends md m)
    by (eapply extends_trans; [exact E2 |];
        eapply extends_trans; [exact E1 | exact Hext]).
  apply ret_run in Hret as [_ Hmd]. subst md.
  apply NewIntVar_run in Hp as [_ Hdom].
  exists penalty. split.
  { eapply extends_domain; [exact Hfin |].
    assert (Hg : extends mf mg).
    { destruct (negb _) in Hadd;
        eapply grows_AddConstraint; exact Hadd. }
    eapply extends_domain; [exact Hg | exact Hdom]. }
  destruct (String.eqb_spec (Models.arr_airport last_flight) (Models.base c))
    as [Heq | Hneq]; cbn [negb] in Hadd; apply AddConstraint_run in Hadd.
  - split; [congruence |]. intros _ val Hfeas.
    pose proof (feasible_sat _ _ _ Hfeas
                  (extends_constraint _ _ _ Hfin Hadd)) as Hsat.
    simpl in Hsat. now apply Z.eqb_eq in Hsat.
  - split; [| congruence]. intros _ val Hfeas.
    pose proof (feasible_sat _ _ _ Hfeas
                  (extends_constraint _ _ _ Hfin Hadd)) as Hsat.
    simpl in Hsat. apply Z.leb_le in Hsat. lia.
Qed.

Lemma base_return_penalty_follows_last_flight_witness :
  exists art m elig day_flights,
    Objective.exact_model Examples.wocl_bundle Objective.default_weights
    = Some (art, m)
    /\ Eligibility.build_eligibility Examples.wocl_bundle = Some elig
    /\ pilot_day_flights Examples.wocl_bundle elig "A" "2025-09-08" (x art)
       = Some day_flights
    /\ forall last_flight last_var,
         last (Py.sort_by (fun it => Models.dep_dt (fst it)) day_flights)
         = Some (last_flight, last_var) ->
         exists penalty,
           domains m !! penalty = Some (0, 1000)
           /\ (Models.arr_airport last_flight
               <> Models.base (Examples.captain "A") ->
               forall val, feasible m val = true ->
                 100 * val last_var <= val penalty)
           /\ (Models.arr_airport last_flight
               = Models.base (Examples.captain "A") ->
               forall val, feasible m val = true -> val penalty = 0).
Proof.
  destruct (Objective.exact_model Examples.wocl_bundle
              Objective.default_weights) as [[art m] |] eqn:Hm;
    [| vm_compute in Hm; discriminate].
  destruct (base_return_penalty_follows_last_flight Examples.wocl_bundle
              Objective.default_weights art m (Examples.captain "A")
              "2025-09-08" Hm ltac:(left) eq_refl ltac:(left))
    as (elig & day_flights & H1 & H2 & H3).
  exists art, m, elig, day_flights. auto.
Defined.

End BaseReturn.

(** ** The loader *)

Section LoaderFacts.
Import Py Loader.

Lemma insert_str_Permutation (x : string) (l : list string) :
  insert_str x l ≡ₚ x :: l.
Proof.
  induction l as [| y l IH]; simpl; [reflexivity |].
  destruct (String.leb x y); [reflexivity |].
  rewrite IH. apply Permutation_swap.
Qed.

Lemma sort_strings_Permutation (l : list string) : sort_strings l ≡ₚ l.
Proof.
  induction l as [| x l IH]; simpl; [reflexivity |].
  unfold sort_strings in *. simpl. rewrite insert_str_Permutation.
  now rewrite IH.
Qed.

Lemma read_sickness_spec (rows : list (string * string)) (c day : string) :
  day ∈ default ∅ (_read_sickness rows !! c) <-> (c, day) ∈ rows.
Proof.
  unfold _read_sickness.
  induction rows as [| [cid d] rows IH] using rev_ind.
  - simpl. rewrite lookup_empty. simpl. rewrite elem_of_empty, elem_of_nil.
    reflexivity.
  - rewrite foldl_app. cbn [foldl]. cbv beta iota.
    set (m := foldl _ ∅ rows) in *.
    rewrite elem_of_app, list_elem_of_singleton.
    destruct (decide (cid = c)) as [-> | Hne].
    + rewrite lookup_insert_eq. cbn [default]. unfold Datatypes.id.
      rewrite elem_of_union, elem_of_singleton, IH. split.
      * intros [H | ->]; [now left | now right].
      * intros [H | [= ->]]; [now left | now right].
    + rewrite lookup_insert_ne by exact Hne. rewrite IH.
      split; [now left |]. intros [H | [= -> _]]; [exact H | congruence].
Qed.

Lemma elem_of_date_filter (start_date end_date : option Z)
    (rows : list Models.Flight) (f : Models.Flight) :
  f ∈ date_filter start_date end_date rows <->
  f ∈ rows
  /\ (forall sd, start_date = Some sd -> sd <= date_of (Models.dep_dt f))
  /\ (forall ed, end_date = Some ed -> date_of (Models.dep_dt f) <= ed).
Proof.
  unfold date_filter.
  destruct start_date as [sd |], end_date as [ed |];
    rewrite ?list_elem_of_In, ?filter_In, ?Z.leb_le; split.
  - intros [[H1 H2] H3]. split; [exact H1 |].
    split; intros ? [= <-]; assumption.
  - intros (H1 & H2 & H3). auto.
  - intros [H1 H2]. split; [exact H1 |].
    split; [intros ? [= <-]; assumption | discriminate].
  - intros (H1 & H2 & _). auto.
  - intros [H1 H2]. split; [exact H1 |].
    split; [discriminate | intros ? [= <-]; assumption].
  - intros (H1 & _ & H3). auto.
  - intros H1. split; [exact H1 |]. split; discriminate.
  - tauto.
Qed.

Lemma elem_of_cancels (disruptions : list Models.Disruption) (k : string) :
  In k (cancels disruptions) <->
  exists d, d ∈ disruptions /\ is_cancellation d = true
            /\ Models.d_flight_id d = k.
Proof.
  unfold cancels, set_of.
  rewrite <- list_elem_of_In, elem_of_remove_dups, list_elem_of_fmap. split.
  - intros (d & -> & Hd). apply list_elem_of_In, filter_In in Hd as [Hd Hc].
    exists d. split; [now apply list_elem_of_In | auto].
  - intros (d & Hd & Hc & <-). exists d. split; [reflexivity |].
    apply list_elem_of_In, filter_In. split; [now apply list_elem_of_In | exact Hc].
Qed.

Lemma elem_of_apply_disruptions (disruptions : list Models.Disruption)
    (rows : list Models.Flight) (f : Models.Flight) :
  f ∈ apply_disruptions disruptions rows <->
  exists row, row ∈ rows
    /\ (forall d, d ∈ disruptions -> is_cancellation d = true ->
                  Models.d_flight_id d <> Models.flight_id row)
    /\ f = shift (default 0 (delays disruptions !! Models.flight_id row)) row.
Proof.
  assert (Hshift0 : forall row, shift 0 row = row).
  { intros [? ? ? ? ? ? ? ? ? ?]. unfold shift. simpl.
    now rewrite !Z.add_0_r. }
  unfold apply_disruptions. destruct disruptions as [| d0 ds].
  - unfold delays. simpl. split.
    + intros Hf. exists f. split; [exact Hf |]. split.
      * intros d Hd. inversion Hd.
      * unfold index_by. simpl. rewrite lookup_empty. simpl.
        now rewrite Hshift0.
    + intros (row & Hrow & _ & ->). unfold index_by. simpl.
      rewrite lookup_empty. simpl. now rewrite Hshift0.
  - set (ds' := d0 :: ds).
    set (kept :=
      match cancels ds' with
      | [] => rows
      | _ :: _ =>
          List.filter
            (fun f0 => negb (str_in (Models.flight_id f0) (cancels ds'))) rows
      end).
    assert (Hkept : forall row, row ∈ kept <->
      row ∈ rows
      /\ forall d, d ∈ ds' -> is_cancellation d = true ->
                   Models.d_flight_id d <> Models.flight_id row).
    { intros row. subst kept.
      assert (Hno : ~ In (Models.flight_id row) (cancels ds') <->
        forall d, d ∈ ds' -> is_cancellation d = true ->
                  Models.d_flight_id d <> Models.flight_id row).
      { rewrite elem_of_cancels. split.
        - intros Hn d Hd Hc Heq. apply Hn. eauto.
        - intros Hn (d & Hd & Hc & Heq). exact (Hn d Hd Hc Heq). }
      destruct (cancels ds') as [| k ks] eqn:Hcs.
      - rewrite <- Hno. split; [intros H; split; [exact H | intros []] | tauto].
      - rewrite <- Hcs in *. rewrite list_elem_of_In, filter_In, negb_true_iff.
        rewrite <- Hno, <- str_in_In, <- list_elem_of_In.
        rewrite not_true_iff_false. reflexivity. }
    destruct (bool_decide (delays ds' = ∅)) eqn:Hd.
    + apply bool_decide_eq_true in Hd. rewrite Hd. rewrite Hkept. split.
      * intros [Hrow Hc]. exists f. rewrite lookup_empty. simpl.
        rewrite Hshift0. auto.
      * intros (row & Hrow & Hc & ->). rewrite lookup_empty. simpl.
        rewrite Hshift0. auto.
    + rewrite list_elem_of_fmap. split.
      * intros (row & -> & Hrow). apply Hkept in Hrow as [Hrow Hc].
        exists row. auto.
      * intros (row & Hrow & Hc & ->). exists row. split; [reflexivity |].
        apply Hkept. auto.
Qed.

(** X30: the bundle that [load_data] returns has the lookup maps built
    from its own lists.  Its flights are exactly the rows of the flight
    table whose scheduled departure date lies inside the requested date
    range and that no disruption cancels, each moved (departure and
    arrival alike) by the delay recorded for it; its crew are exactly the
    rows whose leave status is none of On Leave, Sick and Training; a
    date is recorded as a sick day of a crew member exactly when the
    sickness table has that row; and the operating days are, without
    repetition, the departure dates of its flights. *)
Theorem load_data_builds_a_consistent_bundle
    (flight_rows : list Models.Flight) (crew_rows : list Models.Crew)
    (rules : Models.Rules) (prefs : gmap string CrewPreference)
    (disruptions : list Models.Disruption)
    (sickness_rows : list (string * string))
    (start_date end_date : option Z) :
  let b := load_data flight_rows crew_rows rules prefs disruptions
             sickness_rows start_date end_date in
  indexed b
  /\ (forall f, f ∈ flights b <->
        exists row, row ∈ flight_rows
          /\ (forall sd, start_date = Some sd ->
                         sd <= date_of (Models.dep_dt row))
          /\ (forall ed, end_date = Some ed ->
                         date_of (Models.dep_dt row) <= ed)
          /\ (forall d, d ∈ disruptions ->
                lower (Models.disruption_type d) = "cancellation" ->
                Models.d_flight_id d <> Models.flight_id row)
          /\ f = shift (default 0 (delays disruptions !! Models.flight_id row))
                       row)
  /\ (forall c, c ∈ crew b <->
        c ∈ crew_rows
        /\ ~ In (Models.leave_status c) ["On Leave"; "Sick"; "Training"])
  /\ (forall c day, day ∈ Spec.sick_dates b c <-> (c, day) ∈ sickness_rows)
  /\ NoDup (operating_days b)
  /\ (forall day, day ∈ operating_days b <->
        exists f, f ∈ flights b
          /\ Eligibility._flight_day_str (Models.dep_dt f) = day).
Proof.
  intros b. split; [split; reflexivity |]. split; [| split; [| split; [| split]]].
  - intros f. subst b. cbn [flights load_data].
    rewrite elem_of_apply_disruptions. split.
    + intros (row & Hrow & Hc & ->).
      apply elem_of_date_filter in Hrow as (Hrow & Hs & He).
      exists row. repeat split; auto.
      intros d Hd Ht. apply Hc; [exact Hd |].
      unfold is_cancellation. now apply String.eqb_eq.
    + intros (row & Hrow & Hs & He & Hc & ->). exists row.
      split; [apply elem_of_date_filter; auto |]. split; [| reflexivity].
      intros d Hd Ht. apply Hc; [exact Hd |].
      unfold is_cancellation in Ht. now apply String.eqb_eq in Ht.
  - intros c. subst b. cbn [crew load_data]. unfold available_rows.
    rewrite list_elem_of_In, filter_In, negb_true_iff, <- list_elem_of_In.
    rewrite <- str_in_In, not_true_iff_false. reflexivity.
  - intros c day. unfold Spec.sick_dates. subst b.
    cbn [sickness_days load_data]. apply read_sickness_spec.
  - subst b. cbn [operating_days load_data].
    rewrite sort_strings_Permutation. unfold set_of. apply NoDup_remove_dups.
  - intros day. subst b. cbn [operating_days flights load_data].
    rewrite sort_strings_Permutation. unfold set_of.
    rewrite elem_of_remove_dups, list_elem_of_fmap.
    unfold Eligibility._flight_day_str. split.
    + intros (f & -> & Hf). eauto.
    + intros (f & Hf & <-). eauto.
Qed.

End LoaderFacts.
